(** * The object model and property-access core of the VM (lib/VM/JSObject.cpp)

    A shallow embedding of [JSObject], its hidden class, its property
    accessor cell and the operations of JSObject.cpp on them, followed by
    the properties of the specification that are settled on it.

    The heap is split by cell kind, as the static pointer types of the
    source are: [objects] holds the JSObject cells, [classes] the
    HiddenClass cells and [accessors] the PropertyAccessor cells.  A
    pointer is the address of a cell in the store of its type. *)

From Stdlib Require Import ZArith NArith Lia Ascii String List Bool.
From stdpp Require Import base decidable option list gmap strings sorting pretty.


Abbreviation Addr := nat.
Abbreviation SlotIndex := nat.

(** ** Identifiers *)

(** A SymbolID is a uniqued identifier (a property name that is a string),
    a JS Symbol primitive (not uniqued) or one of the internal property
    names. *)
Inductive SymbolID : Type :=
  | SymString (s : string)
  | SymPrimitive (n : N)
  | SymInternal (n : N).

#[global] Instance SymbolID_eq_dec : EqDecision SymbolID.
Proof. solve_decision. Defined.

Definition SymbolID_encode (id : SymbolID) : string + (N + N) :=
  match id with
  | SymString s => inl s
  | SymPrimitive n => inr (inl n)
  | SymInternal n => inr (inr n)
  end.

Definition SymbolID_decode (x : string + (N + N)) : SymbolID :=
  match x with
  | inl s => SymString s
  | inr (inl n) => SymPrimitive n
  | inr (inr n) => SymInternal n
  end.

#[global] Instance SymbolID_countable : Countable SymbolID :=
  inj_countable' SymbolID_encode SymbolID_decode
    (λ id, match id with
           | SymString _ => eq_refl
           | SymPrimitive _ => eq_refl
           | SymInternal _ => eq_refl
           end).

(** [isSymbolPrimitive], [isPropertyNamePrimitive] and
    [InternalProperty::isInternal] of the identifier table. *)
Definition isSymbolPrimitive (id : SymbolID) : bool :=
  match id with SymPrimitive _ => true | _ => false end.

Definition isPropertyNamePrimitive (id : SymbolID) : bool :=
  match id with SymString _ => true | _ => false end.

(** [IdentifierTable::getStringView]: the spelling of an identifier. *)
Definition getStringView (id : SymbolID) : string :=
  match id with SymString s => s | _ => EmptyString end.

(** Modelled from the spec: [toArrayIndex] is declared outside JSObject.cpp;
    a name "parses as a uint32 array index" when it is the canonical decimal
    spelling (no sign, no leading zero) of a number below 2^32 - 1. *)
Definition digitValue (c : ascii) : option N :=
  let n := N_of_ascii c in
  if ((48 <=? n) && (n <=? 57))%N then Some (n - 48)%N else None.

Fixpoint parseDigits (s : string) (acc : N) : option N :=
  match s with
  | EmptyString => Some acc
  | String c r =>
      match digitValue c with
      | Some d => parseDigits r (acc * 10 + d)%N
      | None => None
      end
  end.

Definition toArrayIndex (s : string) : option N :=
  match s with
  | EmptyString => None
  | String c r =>
      if bool_decide (c = "0"%char) then
        if bool_decide (r = EmptyString) then Some 0%N else None
      else
        match parseDigits s 0 with
        | Some n =>
            if ((String.length s <=? 10)%nat && (n <? 4294967295)%N)%bool
            then Some n else None
        | None => None
        end
  end.

(** ** Values *)

(** Modelled from the spec: a JS number as far as this core looks at it.
    SameValue treats NaN as equal to NaN and distinguishes the two zeros;
    [DInt 0] is +0.  Array indices and lengths are integral. *)
Inductive Double : Type :=
  | DNaN
  | DNegZero
  | DInt (z : Z).

#[global] Instance Double_eq_dec : EqDecision Double.
Proof. solve_decision. Defined.

(** The kind of the cell an object-tagged value points to (in the source it
    is read off the cell's vtable by [vmcast]). *)
Inductive CellKind : Type :=
  | ObjectKind
  | PropertyAccessorKind
  | HiddenClassKind.

#[global] Instance CellKind_eq_dec : EqDecision CellKind.
Proof. solve_decision. Defined.

Inductive HermesValue : Type :=
  | HVEmpty
  | HVUndefined
  | HVNull
  | HVBool (b : bool)
  | HVNumber (d : Double)
  | HVString (s : string)
  | HVSymbol (id : SymbolID)
  | HVObject (k : CellKind) (a : Addr).

#[global] Instance HermesValue_eq_dec : EqDecision HermesValue.
Proof. solve_decision. Defined.

Definition encodeDoubleValue (i : N) : HermesValue := HVNumber (DInt (Z.of_N i)).

Definition isNumber (v : HermesValue) : bool :=
  match v with HVNumber _ => true | _ => false end.

Definition isNull (v : HermesValue) : bool :=
  match v with HVNull => true | _ => false end.

Definition isEmpty (v : HermesValue) : bool :=
  match v with HVEmpty => true | _ => false end.

(** The C++ cast [(uint32_t)v.getNumber()]. *)
Definition getNumberAsUInt32 (v : HermesValue) : N :=
  match v with
  | HVNumber (DInt z) => Z.to_N (z mod 4294967296)
  | _ => 0%N
  end.

(** Modelled from the spec: SameValue, "the ECMAScript equality used by
    descriptor updates (treats NaN as equal to NaN and distinguishes ±0)";
    on the representation above it is identity of values. *)
Definition isSameValue (x y : HermesValue) : bool := bool_decide (x = y).

(** ** Property flags *)

Record PropertyFlags : Type := mkPropertyFlags {
  pf_enumerable : bool;
  pf_writable : bool;
  pf_configurable : bool;
  pf_accessor : bool;
  pf_internalSetter : bool;
  pf_hostObject : bool;
  pf_staticBuiltin : bool;
  pf_indexed : bool;
}.

#[global] Instance PropertyFlags_eq_dec : EqDecision PropertyFlags.
Proof. solve_decision. Defined.

(** [PropertyFlags{}]: every bit clear. *)
Definition PropertyFlags_empty : PropertyFlags :=
  mkPropertyFlags false false false false false false false false.

Definition set_enumerable (b : bool) (f : PropertyFlags) : PropertyFlags :=
  mkPropertyFlags b (pf_writable f) (pf_configurable f) (pf_accessor f)
    (pf_internalSetter f) (pf_hostObject f) (pf_staticBuiltin f) (pf_indexed f).

Definition set_writable (b : bool) (f : PropertyFlags) : PropertyFlags :=
  mkPropertyFlags (pf_enumerable f) b (pf_configurable f) (pf_accessor f)
    (pf_internalSetter f) (pf_hostObject f) (pf_staticBuiltin f) (pf_indexed f).

Definition set_configurable (b : bool) (f : PropertyFlags) : PropertyFlags :=
  mkPropertyFlags (pf_enumerable f) (pf_writable f) b (pf_accessor f)
    (pf_internalSetter f) (pf_hostObject f) (pf_staticBuiltin f) (pf_indexed f).

Definition set_accessor (b : bool) (f : PropertyFlags) : PropertyFlags :=
  mkPropertyFlags (pf_enumerable f) (pf_writable f) (pf_configurable f) b
    (pf_internalSetter f) (pf_hostObject f) (pf_staticBuiltin f) (pf_indexed f).

Definition set_internalSetter (b : bool) (f : PropertyFlags) : PropertyFlags :=
  mkPropertyFlags (pf_enumerable f) (pf_writable f) (pf_configurable f)
    (pf_accessor f) b (pf_hostObject f) (pf_staticBuiltin f) (pf_indexed f).

Definition set_hostObject (b : bool) (f : PropertyFlags) : PropertyFlags :=
  mkPropertyFlags (pf_enumerable f) (pf_writable f) (pf_configurable f)
    (pf_accessor f) (pf_internalSetter f) b (pf_staticBuiltin f) (pf_indexed f).

Definition set_indexed (b : bool) (f : PropertyFlags) : PropertyFlags :=
  mkPropertyFlags (pf_enumerable f) (pf_writable f) (pf_configurable f)
    (pf_accessor f) (pf_internalSetter f) (pf_hostObject f) (pf_staticBuiltin f) b.

(** [PropertyFlags::defaultNewNamedPropertyFlags]. *)
Definition defaultNewNamedPropertyFlags : PropertyFlags :=
  mkPropertyFlags true true true false false false false false.

Record DefinePropertyFlags : Type := mkDefinePropertyFlags {
  dpf_enumerable : bool;
  dpf_setEnumerable : bool;
  dpf_writable : bool;
  dpf_setWritable : bool;
  dpf_configurable : bool;
  dpf_setConfigurable : bool;
  dpf_setGetter : bool;
  dpf_setSetter : bool;
  dpf_setValue : bool;
  dpf_enableInternalSetter : bool;
}.

#[global] Instance DefinePropertyFlags_eq_dec : EqDecision DefinePropertyFlags.
Proof. solve_decision. Defined.

(** [DefinePropertyFlags::isEmpty]: the whole bit field is zero. *)
Definition dpf_isEmpty (d : DefinePropertyFlags) : bool :=
  negb (dpf_enumerable d || dpf_setEnumerable d || dpf_writable d ||
        dpf_setWritable d || dpf_configurable d || dpf_setConfigurable d ||
        dpf_setGetter d || dpf_setSetter d || dpf_setValue d ||
        dpf_enableInternalSetter d).

Definition dpf_isAccessor (d : DefinePropertyFlags) : bool :=
  dpf_setGetter d || dpf_setSetter d.

(** [DefinePropertyFlags::getDefaultNewPropertyFlags]: enumerable, writable
    and configurable, all three mentioned. *)
Definition getDefaultNewPropertyFlags : DefinePropertyFlags :=
  mkDefinePropertyFlags true true true true true true false false false false.

Record PropOpFlags : Type := mkPropOpFlags {
  getThrowOnError : bool;
  getMustExist : bool;
  getInternalForce : bool;
}.

Record NamedPropertyDescriptor : Type := mkNamedPropertyDescriptor {
  desc_slot : SlotIndex;
  desc_flags : PropertyFlags;
}.

#[global] Instance NamedPropertyDescriptor_eq_dec : EqDecision NamedPropertyDescriptor.
Proof. solve_decision. Defined.

(** The state of a default-constructed descriptor. *)
Definition NamedPropertyDescriptor_default : NamedPropertyDescriptor :=
  mkNamedPropertyDescriptor 0 PropertyFlags_empty.

(** The descriptor synthesized for a host object: [hostObject] and
    [writable] set on a default descriptor. *)
Definition hostObjectDescriptor : NamedPropertyDescriptor :=
  mkNamedPropertyDescriptor 0
    (set_writable true (set_hostObject true PropertyFlags_empty)).

(** ** PropertyAccessor *)

Record PropertyAccessor : Type := mkPropertyAccessor {
  getter : option Addr;
  setter : option Addr;
}.

#[global] Instance PropertyAccessor_eq_dec : EqDecision PropertyAccessor.
Proof. solve_decision. Defined.

(** ** Hidden classes *)

(** Modelled from the spec: the hidden class is a collaborator of which the
    core only uses the interface: "a map from symbol to (slot index,
    PropertyFlags)" whose entries are reported in insertion order, the
    observable dictionary mode, the mark that the class carries index-like
    property names, and the for-in cache attached to it (kept here by value:
    [class(proto1), ..., null, prop0, ...]). *)
Record HiddenClass : Type := mkHiddenClass {
  propertyMap : list (SymbolID * NamedPropertyDescriptor);
  hasIndexLikeProperties : bool;
  dictionaryMode : bool;
  forInCache : option (list HermesValue);
}.

#[global] Instance HiddenClass_eq_dec : EqDecision HiddenClass.
Proof. solve_decision. Defined.

Definition getNumProperties (c : HiddenClass) : nat := length (propertyMap c).
Definition isDictionary (c : HiddenClass) : bool := dictionaryMode c.
Definition getHasIndexLikeProperties (c : HiddenClass) : bool :=
  hasIndexLikeProperties c.
Definition getForInCache (c : HiddenClass) : option (list HermesValue) :=
  forInCache c.

(** Modelled from the spec: [HiddenClass::findProperty] gives the position of
    the entry in the map and its descriptor. *)
Definition HiddenClass_findProperty (c : HiddenClass) (name : SymbolID)
    : option (nat * NamedPropertyDescriptor) :=
  match list_find (λ p, p.1 = name) (propertyMap c) with
  | Some (pos, (_, d)) => Some (pos, d)
  | None => None
  end.

Definition isIndexLikeName (name : SymbolID) : bool :=
  bool_decide (is_Some (toArrayIndex (getStringView name))).

(** The first slot index above every slot in use. *)
Definition nextSlot (pm : list (SymbolID * NamedPropertyDescriptor)) : SlotIndex :=
  foldr (λ p acc, max (S (desc_slot p.2)) acc) 0 pm.

(** Modelled from the spec: "addProperty(class, name, flags) → (newClass,
    slot)"; the new class has the entry appended, records whether it now
    carries an index-like name, and starts without a for-in cache. *)
Definition addPropertyTransition (c : HiddenClass) (name : SymbolID)
    (flags : PropertyFlags) : HiddenClass * SlotIndex :=
  let slot := nextSlot (propertyMap c) in
  (mkHiddenClass
     (propertyMap c ++ [(name, mkNamedPropertyDescriptor slot flags)])
     (hasIndexLikeProperties c || isIndexLikeName name)
     (dictionaryMode c)
     None,
   slot).

(** Modelled from the spec: [updateProperty] gives the class in which the
    entry at the position has the new flags (same name, same slot). *)
Definition updatePropertyTransition (c : HiddenClass) (pos : nat)
    (flags : PropertyFlags) : HiddenClass :=
  mkHiddenClass
    (alter (λ p, (p.1, mkNamedPropertyDescriptor (desc_slot p.2) flags)) pos
       (propertyMap c))
    (hasIndexLikeProperties c) (dictionaryMode c) None.

(** Modelled from the spec: [deleteProperty] gives the class without the
    entry at the position; the result is in dictionary mode. *)
Definition deletePropertyTransition (c : HiddenClass) (pos : nat) : HiddenClass :=
  mkHiddenClass (delete pos (propertyMap c)) (hasIndexLikeProperties c) true None.

Definition mapFlags (f : PropertyFlags → PropertyFlags) (c : HiddenClass)
    : HiddenClass :=
  mkHiddenClass
    (map (λ p, (p.1, mkNamedPropertyDescriptor (desc_slot p.2) (f (desc_flags p.2))))
       (propertyMap c))
    (hasIndexLikeProperties c) (dictionaryMode c) None.

(** Modelled from the spec: [makeAllNonConfigurable] is the "transition to
    all-non-configurable" and [makeAllReadOnly] the "transition to
    all-read-only" (non-configurable, and non-writable for data
    properties). *)
Definition makeAllNonConfigurableTransition : HiddenClass → HiddenClass :=
  mapFlags (set_configurable false).

Definition makeReadOnly (f : PropertyFlags) : PropertyFlags :=
  set_configurable false (if pf_accessor f then f else set_writable false f).

Definition makeAllReadOnlyTransition : HiddenClass → HiddenClass :=
  mapFlags makeReadOnly.

Definition areAllNonConfigurable (c : HiddenClass) : bool :=
  forallb (λ p, negb (pf_configurable (desc_flags p.2))) (propertyMap c).

Definition areAllReadOnly (c : HiddenClass) : bool :=
  forallb (λ p, negb (pf_configurable (desc_flags p.2)) &&
                (pf_accessor (desc_flags p.2) || negb (pf_writable (desc_flags p.2))))
    (propertyMap c).

(** ** Objects *)

Record ObjectFlags : Type := mkObjectFlags {
  noExtend : bool;
  sealed : bool;
  frozen : bool;
  indexedStorage : bool;
  fastIndexProperties : bool;
  hostObject : bool;
  lazyObject : bool;
  objectID : N;
}.

#[global] Instance ObjectFlags_eq_dec : EqDecision ObjectFlags.
Proof. solve_decision. Defined.

(** The zero-initialised flags of a new plain object. *)
Definition ObjectFlags_empty : ObjectFlags :=
  mkObjectFlags false false false false false false false 0.

(** The virtual indexed-storage interface, as a variant fixed at allocation:
    [JSObjectVT] is [JSObject::vt], whose entries are the [_..Impl] functions
    of JSObject.cpp; the other case is modelled from the spec (section 4.6):
    a subclass that carries integer-indexed storage, given by its own range
    and, per index, the flags and value it reports. *)
Inductive ObjectVTable : Type :=
  | JSObjectVT
  | IndexedVT (range : N * N) (elems : gmap N (PropertyFlags * HermesValue)).

#[global] Instance ObjectVTable_eq_dec : EqDecision ObjectVTable.
Proof. solve_decision. Defined.

Record JSObject : Type := mkJSObject {
  vt : ObjectVTable;
  parent_ : option Addr;
  clazz_ : Addr;
  propStorage_ : option (list HermesValue);
  directProps_ : list HermesValue;
  flags_ : ObjectFlags;
}.

#[global] Instance JSObject_eq_dec : EqDecision JSObject.
Proof. solve_decision. Defined.

Definition set_parent (p : option Addr) (o : JSObject) : JSObject :=
  mkJSObject (vt o) p (clazz_ o) (propStorage_ o) (directProps_ o) (flags_ o).

Definition set_clazz (c : Addr) (o : JSObject) : JSObject :=
  mkJSObject (vt o) (parent_ o) c (propStorage_ o) (directProps_ o) (flags_ o).

Definition set_propStorage (s : option (list HermesValue)) (o : JSObject) : JSObject :=
  mkJSObject (vt o) (parent_ o) (clazz_ o) s (directProps_ o) (flags_ o).

Definition set_directProps (d : list HermesValue) (o : JSObject) : JSObject :=
  mkJSObject (vt o) (parent_ o) (clazz_ o) (propStorage_ o) d (flags_ o).

Definition set_flags (f : ObjectFlags) (o : JSObject) : JSObject :=
  mkJSObject (vt o) (parent_ o) (clazz_ o) (propStorage_ o) (directProps_ o) f.

Definition set_noExtend (b : bool) (f : ObjectFlags) : ObjectFlags :=
  mkObjectFlags b (sealed f) (frozen f) (indexedStorage f)
    (fastIndexProperties f) (hostObject f) (lazyObject f) (objectID f).

Definition set_sealed (b : bool) (f : ObjectFlags) : ObjectFlags :=
  mkObjectFlags (noExtend f) b (frozen f) (indexedStorage f)
    (fastIndexProperties f) (hostObject f) (lazyObject f) (objectID f).

Definition set_frozen (b : bool) (f : ObjectFlags) : ObjectFlags :=
  mkObjectFlags (noExtend f) (sealed f) b (indexedStorage f)
    (fastIndexProperties f) (hostObject f) (lazyObject f) (objectID f).

Definition set_fastIndexProperties (b : bool) (f : ObjectFlags) : ObjectFlags :=
  mkObjectFlags (noExtend f) (sealed f) (frozen f) (indexedStorage f)
    b (hostObject f) (lazyObject f) (objectID f).

Definition set_lazyObject (b : bool) (f : ObjectFlags) : ObjectFlags :=
  mkObjectFlags (noExtend f) (sealed f) (frozen f) (indexedStorage f)
    (fastIndexProperties f) (hostObject f) b (objectID f).

(** ** The runtime: heap and error status *)

Record Runtime : Type := mkRuntime {
  objects : gmap nat JSObject;
  classes : gmap nat HiddenClass;
  accessors : gmap nat PropertyAccessor;
  objectPrototypeRawPtr : option Addr;
}.

Definition set_objects (m : gmap nat JSObject) (rt : Runtime) : Runtime :=
  mkRuntime m (classes rt) (accessors rt) (objectPrototypeRawPtr rt).

Definition set_classes (m : gmap nat HiddenClass) (rt : Runtime) : Runtime :=
  mkRuntime (objects rt) m (accessors rt) (objectPrototypeRawPtr rt).

Definition set_accessors (m : gmap nat PropertyAccessor) (rt : Runtime) : Runtime :=
  mkRuntime (objects rt) (classes rt) m (objectPrototypeRawPtr rt).

(** The errors the core raises; [ThrownValue] is whatever a callee threw. *)
Inductive JSError : Type :=
  | TypeError
  | ReferenceError
  | ThrownValue (v : HermesValue).

(** The outcome of an operation on a runtime: it returned (the status
    RETURNED, with its value), it raised (the status EXCEPTION; the runtime
    keeps the changes made before), it left the behaviour the C++ defines (a
    failed assertion or cast, a pointer to no cell), or the bound on the
    length of a prototype walk was reached. *)
Inductive Result (A : Type) : Type :=
  | Returned (a : A) (rt : Runtime)
  | Exception (e : JSError) (rt : Runtime)
  | Fault
  | OutOfFuel.

Arguments Returned {A} a rt.
Arguments Exception {A} e rt.
Arguments Fault {A}.
Arguments OutOfFuel {A}.

Definition M (A : Type) : Type := Runtime → Result A.

Definition ret {A} (a : A) : M A := λ rt, Returned a rt.

Definition bind {A B} (m : M A) (f : A → M B) : M B :=
  λ rt,
    match m rt with
    | Returned a rt' => f a rt'
    | Exception e rt' => Exception e rt'
    | Fault => Fault
    | OutOfFuel => OutOfFuel
    end.

Notation "'let*' x ':=' m 'in' k" := (bind m (λ x, k))
  (at level 10, x pattern, m at level 100, k at level 200).

Definition raise {A} (e : JSError) : M A := λ rt, Exception e rt.
Definition fault {A} : M A := λ _, Fault.
Definition getRuntime : M Runtime := λ rt, Returned rt rt.
Definition modifyRuntime (f : Runtime → Runtime) : M unit := λ rt, Returned tt (f rt).

(** A pointer known to be valid in the C++: reading a cell that is not there
    is outside the defined behaviour. *)
Definition deref {A} (m : option A) : M A :=
  match m with Some a => ret a | None => fault end.

Definition getObject (a : Addr) : M JSObject := λ rt, deref (objects rt !! a) rt.
Definition getClassCell (a : Addr) : M HiddenClass := λ rt, deref (classes rt !! a) rt.
Definition getAccessorCell (a : Addr) : M PropertyAccessor :=
  λ rt, deref (accessors rt !! a) rt.

Definition putObject (a : Addr) (o : JSObject) : M unit :=
  modifyRuntime (λ rt, set_objects (<[a := o]> (objects rt)) rt).

Definition putClassCell (a : Addr) (c : HiddenClass) : M unit :=
  modifyRuntime (λ rt, set_classes (<[a := c]> (classes rt)) rt).

Definition putAccessorCell (a : Addr) (c : PropertyAccessor) : M unit :=
  modifyRuntime (λ rt, set_accessors (<[a := c]> (accessors rt)) rt).

(** Allocation of a new hidden class cell, at an address not in use. *)
Definition allocClass (c : HiddenClass) : M Addr :=
  λ rt, let a := fresh (dom (classes rt)) in
        Returned a (set_classes (<[a := c]> (classes rt)) rt).

Definition allocObject (o : JSObject) : M Addr :=
  λ rt, let a := fresh (dom (objects rt)) in
        Returned a (set_objects (<[a := o]> (objects rt)) rt).

Definition outOfFuel {A} : M A := λ _, OutOfFuel.

(** ** Collaborators

    What the core calls but JSObject.cpp does not define: the number of
    inline slots (a constant of the header), the class registry keyed by
    prototype, the initializer of lazy functions, calls into callables, the
    host object callbacks, the array subclass, and the predicate that marks
    an object as cacheable for for-in. *)
Record Collaborators : Type := mkCollaborators {
  DIRECT_PROPERTY_SLOTS : nat;
  getHiddenClassForPrototypeRaw : option Addr → M Addr;
  Callable_defineLazyProperties : Addr → Runtime → Runtime;
  Callable_executeCall0 : Addr → Addr → M HermesValue;
  Callable_executeCall1 : Addr → Addr → HermesValue → M HermesValue;
  HostObject_get : Addr → SymbolID → M HermesValue;
  HostObject_set : Addr → SymbolID → HermesValue → M bool;
  HostObject_getHostPropertyNames : Addr → M (list SymbolID);
  vmisa_JSArray : JSObject → bool;
  JSArray_setLength : Addr → HermesValue → PropOpFlags → M bool;
  shouldCacheForIn : Runtime → Addr → bool;
  FreezeBuiltinsAndFatalOnOverride : bool;
}.

(** [Predefined::getSymbolID(Predefined::length)]. *)
Definition Predefined_length : SymbolID := SymString "length"%string.

(** ** The indexed-storage interface *)

Inductive CheckAllOwnIndexedMode : Type :=
  | NonConfigurable
  | ReadOnly.

Definition _getOwnIndexedRangeImpl (self : JSObject) : N * N := (0%N, 0%N).

Definition _haveOwnIndexedImpl (self : JSObject) (i : N) : bool := false.

Definition _getOwnIndexedPropertyFlagsImpl (self : JSObject) (i : N)
    : option PropertyFlags := None.

Definition _getOwnIndexedImpl (self : JSObject) (i : N) : HermesValue := HVEmpty.

Definition _checkAllOwnIndexedImpl (self : JSObject) (mode : CheckAllOwnIndexedMode)
    : bool := true.

Definition getOwnIndexedRange (self : JSObject) : N * N :=
  match vt self with
  | JSObjectVT => _getOwnIndexedRangeImpl self
  | IndexedVT range _ => range
  end.

Definition haveOwnIndexed (self : JSObject) (i : N) : bool :=
  match vt self with
  | JSObjectVT => _haveOwnIndexedImpl self i
  | IndexedVT _ elems => bool_decide (is_Some (elems !! i))
  end.

Definition getOwnIndexedPropertyFlags (self : JSObject) (i : N)
    : option PropertyFlags :=
  match vt self with
  | JSObjectVT => _getOwnIndexedPropertyFlagsImpl self i
  | IndexedVT _ elems => fst <$> elems !! i
  end.

Definition getOwnIndexed (self : JSObject) (i : N) : HermesValue :=
  match vt self with
  | JSObjectVT => _getOwnIndexedImpl self i
  | IndexedVT _ elems => default HVEmpty (snd <$> elems !! i)
  end.

Definition checkAllOwnIndexed (self : JSObject) (mode : CheckAllOwnIndexedMode)
    : bool :=
  match vt self with
  | JSObjectVT => _checkAllOwnIndexedImpl self mode
  | IndexedVT _ elems =>
      forallb
        (λ kv, match mode with
               | NonConfigurable => negb (pf_configurable kv.2.1)
               | ReadOnly => negb (pf_configurable kv.2.1) && negb (pf_writable kv.2.1)
               end)
        (map_to_list elems)
  end.

Section Core.
Context (ext : Collaborators).

(** ** Fields, slots and own lookup (the inline functions of the header) *)

Definition isExtensible (self : JSObject) : bool := negb (noExtend (flags_ self)).

(** Modelled from the spec: the slot index convention, "slots 0..D-1 live in
    directProps; slot D+k maps to indirectProps[k]". *)
Definition getNamedSlotValue (self : JSObject) (desc : NamedPropertyDescriptor)
    : option HermesValue :=
  if desc_slot desc <? DIRECT_PROPERTY_SLOTS ext then
    directProps_ self !! desc_slot desc
  else
    match propStorage_ self with
    | Some ps => ps !! (desc_slot desc - DIRECT_PROPERTY_SLOTS ext)
    | None => None
    end.

Definition setNamedSlotValue (self : JSObject) (desc : NamedPropertyDescriptor)
    (value : HermesValue) : option JSObject :=
  if desc_slot desc <? DIRECT_PROPERTY_SLOTS ext then
    if desc_slot desc <? length (directProps_ self) then
      Some (set_directProps (<[desc_slot desc := value]> (directProps_ self)) self)
    else None
  else
    match propStorage_ self with
    | Some ps =>
        let k := desc_slot desc - DIRECT_PROPERTY_SLOTS ext in
        if k <? length ps then Some (set_propStorage (Some (<[k := value]> ps)) self)
        else None
    | None => None
    end.

Definition readNamedSlot (self : Addr) (desc : NamedPropertyDescriptor)
    : M HermesValue :=
  let* o := getObject self in deref (getNamedSlotValue o desc).

Definition writeNamedSlot (self : Addr) (desc : NamedPropertyDescriptor)
    (value : HermesValue) : M unit :=
  let* o := getObject self in
  let* o' := deref (setNamedSlotValue o desc value) in
  putObject self o'.

(** Modelled from the spec: [JSObject::findProperty] "consults the current
    hidden class". *)
Definition findProperty (self : Addr) (name : SymbolID)
    : M (option (nat * NamedPropertyDescriptor)) :=
  let* o := getObject self in
  let* c := getClassCell (clazz_ o) in
  ret (HiddenClass_findProperty c name).

(** The transitions, on the class cells. *)
Definition HiddenClass_addProperty (clazz : Addr) (name : SymbolID)
    (flags : PropertyFlags) : M (Addr * SlotIndex) :=
  let* c := getClassCell clazz in
  let* a := allocClass (addPropertyTransition c name flags).1 in
  ret (a, (addPropertyTransition c name flags).2).

Definition HiddenClass_updateProperty (clazz : Addr) (pos : nat)
    (flags : PropertyFlags) : M Addr :=
  let* c := getClassCell clazz in
  allocClass (updatePropertyTransition c pos flags).

Definition HiddenClass_deleteProperty (clazz : Addr) (pos : nat) : M Addr :=
  let* c := getClassCell clazz in
  allocClass (deletePropertyTransition c pos).

Definition HiddenClass_makeAllNonConfigurable (clazz : Addr) : M Addr :=
  let* c := getClassCell clazz in
  allocClass (makeAllNonConfigurableTransition c).

Definition HiddenClass_makeAllReadOnly (clazz : Addr) : M Addr :=
  let* c := getClassCell clazz in
  allocClass (makeAllReadOnlyTransition c).

(** ** JSObject.cpp *)

Definition initializeLazyObject (lazyObj : Addr) : M unit :=
  let* o := getObject lazyObj in
  let* _ := putObject lazyObj (set_flags (set_lazyObject false (flags_ o)) o) in
  modifyRuntime (Callable_defineLazyProperties ext lazyObj).

(** The loop of [setParent]: [for (cur = parent; cur; cur = cur->parent_)],
    true when it meets [self]. *)
Fixpoint setParent_loop (fuel : nat) (self : Addr) (cur : option Addr) : M bool :=
  match cur with
  | None => ret false
  | Some c =>
      if bool_decide (c = self) then ret true
      else
        match fuel with
        | 0 => outOfFuel
        | S fuel' =>
            let* co := getObject c in
            setParent_loop fuel' self (parent_ co)
        end
  end.

Definition setParent (fuel : nat) (self : Addr) (parent : option Addr) : M unit :=
  let* o := getObject self in
  if bool_decide (parent_ o = parent) then ret tt
  else if negb (isExtensible o) then raise TypeError
  else
    let* cycle := setParent_loop fuel self parent in
    if cycle then raise TypeError
    else putObject self (set_parent parent o).

(** The [do ... while] of [getNamedDescriptor] over the prototypes. *)
Fixpoint getNamedDescriptor_loop (fuel : nat) (cur : Addr) (name : SymbolID)
    : M (option (Addr * NamedPropertyDescriptor)) :=
  match fuel with
  | 0 => outOfFuel
  | S fuel' =>
      let* o := getObject cur in
      let* found :=
        if negb (lazyObject (flags_ o)) && negb (hostObject (flags_ o)) then
          let* r := findProperty cur name in
          ret (match r with Some (_, d) => Some d | None => None end)
        else if lazyObject (flags_ o) then
          let* _ := initializeLazyObject cur in
          let* r := findProperty cur name in
          ret (match r with Some (_, d) => Some d | None => None end)
        else ret (Some hostObjectDescriptor) in
      match found with
      | Some d => ret (Some (cur, d))
      | None =>
          let* o' := getObject cur in
          match parent_ o' with
          | Some p => getNamedDescriptor_loop fuel' p name
          | None => ret None
          end
      end
  end.

Definition getNamedDescriptor (fuel : nat) (self : Addr) (name : SymbolID)
    : M (option (Addr * NamedPropertyDescriptor)) :=
  let* r := findProperty self name in
  match r with
  | Some (_, d) => ret (Some (self, d))
  | None =>
      let* o := getObject self in
      if hostObject (flags_ o) then ret (Some (self, hostObjectDescriptor))
      else
        let* r2 :=
          if lazyObject (flags_ o) then
            let* _ := initializeLazyObject self in
            findProperty self name
          else ret None in
        match r2 with
        | Some (_, d) => ret (Some (self, d))
        | None =>
            let* o' := getObject self in
            match parent_ o' with
            | Some p => getNamedDescriptor_loop fuel p name
            | None => ret None
            end
        end
  end.

Definition hasNamed (fuel : nat) (self : Addr) (name : SymbolID) : M bool :=
  let* propObj := getNamedDescriptor fuel self name in
  ret (match propObj with Some _ => true | None => false end).

Definition hasNamedOrIndexed (fuel : nat) (self : Addr) (name : SymbolID) : M bool :=
  let* o := getObject self in
  if indexedStorage (flags_ o) then
    match toArrayIndex (getStringView name) with
    | Some nameAsIndex =>
        if haveOwnIndexed o nameAsIndex then ret true
        else if fastIndexProperties (flags_ o) then ret false
        else hasNamed fuel self name
    | None => hasNamed fuel self name
    end
  else hasNamed fuel self name.


(** ** Get and put *)

Definition vmcast_PropertyAccessor (v : HermesValue) : M (Addr * PropertyAccessor) :=
  match v with
  | HVObject PropertyAccessorKind a =>
      let* cell := getAccessorCell a in ret (a, cell)
  | _ => fault
  end.

(** A property cache entry: the class and the slot of a hit. *)
Record PropertyCacheEntry : Type := mkPropertyCacheEntry {
  cache_clazz : Addr;
  cache_slot : SlotIndex;
}.

(** [getNamed_RJS]; [cacheEntry] tells whether the caller passed a cache
    entry, and the second component of the result is what is stamped into
    it. *)
Definition getNamed_RJS (fuel : nat) (self : Addr) (name : SymbolID)
    (opFlags : PropOpFlags) (cacheEntry : bool)
    : M (HermesValue * option PropertyCacheEntry) :=
  let* found := getNamedDescriptor fuel self name in
  match found with
  | None =>
      if getMustExist opFlags then raise ReferenceError
      else ret (HVUndefined, None)
  | Some (propObj, desc) =>
      if negb (pf_accessor (desc_flags desc)) && negb (pf_hostObject (desc_flags desc))
      then
        let* stamped :=
          if cacheEntry then
            let* po := getObject propObj in
            let* c := getClassCell (clazz_ po) in
            ret (if negb (isDictionary c)
                 then Some (mkPropertyCacheEntry (clazz_ po) (desc_slot desc))
                 else None)
          else ret None in
        let* v := readNamedSlot propObj desc in
        ret (v, stamped)
      else if pf_accessor (desc_flags desc) then
        let* v := readNamedSlot propObj desc in
        let* acc := vmcast_PropertyAccessor v in
        match getter acc.2 with
        | None => ret (HVUndefined, None)
        | Some g =>
            let* r := Callable_executeCall0 ext g self in ret (r, None)
        end
      else
        let* r := HostObject_get ext propObj name in ret (r, None)
  end.

(** [JSObject::internalSetter]: only the length of an array has one. *)
Definition internalSetter (self : Addr) (name : SymbolID)
    (desc : NamedPropertyDescriptor) (value : HermesValue) (opFlags : PropOpFlags)
    : M bool :=
  let* o := getObject self in
  if vmisa_JSArray ext o && bool_decide (name = Predefined_length)
  then JSArray_setLength ext self value opFlags
  else fault.

(** [allocateNewSlotStorage]; a PropStorage is the list of its elements (its
    capacity only decides between two ways to reach the same size). *)
Definition allocateNewSlotStorage (self : Addr) (newSlotIndex : SlotIndex)
    (value : HermesValue) : M unit :=
  let* o := getObject self in
  if newSlotIndex <? DIRECT_PROPERTY_SLOTS ext then
    if newSlotIndex <? length (directProps_ o) then
      putObject self (set_directProps (<[newSlotIndex := value]> (directProps_ o)) o)
    else fault
  else
    let k := newSlotIndex - DIRECT_PROPERTY_SLOTS ext in
    match propStorage_ o with
    | None =>
        if bool_decide (k = 0) then putObject self (set_propStorage (Some [value]) o)
        else fault
    | Some ps =>
        if k <? length ps then
          putObject self (set_propStorage (Some (<[k := value]> ps)) o)
        else if bool_decide (k = length ps) then
          putObject self (set_propStorage (Some (ps ++ [value])) o)
        else fault
    end.

Definition addOwnPropertyImpl (self : Addr) (name : SymbolID)
    (propertyFlags : PropertyFlags) (valueOrAccessor : HermesValue) : M unit :=
  let* o := getObject self in
  let* addResult := HiddenClass_addProperty (clazz_ o) name propertyFlags in
  let* _ := putObject self (set_clazz addResult.1 o) in
  let* _ := allocateNewSlotStorage self addResult.2 valueOrAccessor in
  let* o' := getObject self in
  let* c' := getClassCell (clazz_ o') in
  if getHasIndexLikeProperties c' then
    putObject self (set_flags (set_fastIndexProperties false (flags_ o')) o')
  else ret tt.

Definition addOwnProperty (self : Addr) (name : SymbolID)
    (dpFlags : DefinePropertyFlags) (valueOrAccessor : HermesValue)
    (opFlags : PropOpFlags) : M bool :=
  let* o := getObject self in
  if negb (isExtensible o) && negb (getInternalForce opFlags) then
    if getThrowOnError opFlags then raise TypeError else ret false
  else
    let setWritable := if dpf_isAccessor dpFlags then false else dpf_setWritable dpFlags in
    let flags0 := PropertyFlags_empty in
    let flags1 := if dpf_isAccessor dpFlags then set_accessor true flags0 else flags0 in
    let flags2 :=
      if dpf_setEnumerable dpFlags then set_enumerable (dpf_enumerable dpFlags) flags1
      else flags1 in
    let flags3 :=
      if setWritable then set_writable (dpf_writable dpFlags) flags2 else flags2 in
    let flags4 :=
      if dpf_setConfigurable dpFlags
      then set_configurable (dpf_configurable dpFlags) flags3 else flags3 in
    let flags5 := set_internalSetter (dpf_enableInternalSetter dpFlags) flags4 in
    let* _ := addOwnPropertyImpl self name flags5 valueOrAccessor in
    ret true.

Definition raiseErrorForOverridingStaticBuiltin {A} (fuel : nat) (self : Addr)
    (name : SymbolID) : M A :=
  let* found := getNamedDescriptor fuel self (SymString "name"%string) in
  match found with
  | None => raise TypeError
  | Some (_, desc) =>
      if pf_accessor (desc_flags desc) then raise TypeError
      else
        let* _ := readNamedSlot self desc in
        raise TypeError
  end.

Definition putNamed_RJS (fuel : nat) (self : Addr) (name : SymbolID)
    (value : HermesValue) (opFlags : PropOpFlags) : M bool :=
  let* found := getNamedDescriptor fuel self name in
  let addNew : M bool :=
    if getMustExist opFlags then raise ReferenceError
    else addOwnProperty self name getDefaultNewPropertyFlags value opFlags in
  match found with
  | None => addNew
  | Some (propObj, desc) =>
      if pf_accessor (desc_flags desc) then
        let* v := readNamedSlot propObj desc in
        let* acc := vmcast_PropertyAccessor v in
        match setter acc.2 with
        | None => if getThrowOnError opFlags then raise TypeError else ret false
        | Some s =>
            let* _ := Callable_executeCall1 ext s self value in
            ret true
        end
      else if negb (pf_writable (desc_flags desc)) then
        if pf_staticBuiltin (desc_flags desc) then
          if FreezeBuiltinsAndFatalOnOverride ext then fault
          else raiseErrorForOverridingStaticBuiltin fuel self name
        else if getThrowOnError opFlags then raise TypeError else ret false
      else if bool_decide (propObj = self) then
        if negb (pf_internalSetter (desc_flags desc)) &&
           negb (pf_hostObject (desc_flags desc)) then
          let* _ := writeNamedSlot self desc value in
          ret true
        else if pf_internalSetter (desc_flags desc) then
          internalSetter self name desc value opFlags
        else HostObject_set ext self name value
      else addNew
  end.

(** ** Delete *)

Definition deleteNamed (self : Addr) (name : SymbolID) (opFlags : PropOpFlags)
    : M bool :=
  let* pos0 := findProperty self name in
  let* pos :=
    match pos0 with
    | Some p => ret (Some p)
    | None =>
        let* o := getObject self in
        if lazyObject (flags_ o) then
          let* _ := initializeLazyObject self in
          findProperty self name
        else ret None
    end in
  match pos with
  | None => ret true
  | Some (p, desc) =>
      if negb (pf_configurable (desc_flags desc)) then
        if getThrowOnError opFlags then raise TypeError else ret false
      else
        let* _ := writeNamedSlot self desc HVEmpty in
        let* o := getObject self in
        let* newClazz := HiddenClass_deleteProperty (clazz_ o) p in
        let* _ := putObject self (set_clazz newClazz o) in
        ret true
  end.

(** ** DefineProperty *)

Inductive PropertyUpdateStatus : Type :=
  | done
  | needSet
  | failed.

#[global] Instance PropertyUpdateStatus_eq_dec : EqDecision PropertyUpdateStatus.
Proof. solve_decision. Defined.

(** The rejection of an update: a TypeError when [throwOnError] is set,
    else the status [failed] with empty flags. *)
Definition rejectUpdate (opFlags : PropOpFlags)
    : M (PropertyUpdateStatus * PropertyFlags) :=
  if getThrowOnError opFlags then raise TypeError
  else ret (failed, PropertyFlags_empty).

(** 8.12.9 [6]: is every mentioned field the same as in the current
    property? *)
Definition checkPropertyUpdate_same (currentFlags : PropertyFlags)
    (dpFlags : DefinePropertyFlags) (curValueOrAccessor valueOrAccessor : HermesValue)
    : M bool :=
  if (negb (dpf_setEnumerable dpFlags) ||
      bool_decide (dpf_enumerable dpFlags = pf_enumerable currentFlags)) &&
     (negb (dpf_setWritable dpFlags) ||
      bool_decide (dpf_writable dpFlags = pf_writable currentFlags)) &&
     (negb (dpf_setConfigurable dpFlags) ||
      bool_decide (dpf_configurable dpFlags = pf_configurable currentFlags))
  then
    if dpf_isAccessor dpFlags then
      if pf_accessor currentFlags then
        let* curAccessor := vmcast_PropertyAccessor curValueOrAccessor in
        let* newAccessor := vmcast_PropertyAccessor valueOrAccessor in
        ret ((negb (dpf_setGetter dpFlags) ||
              bool_decide (getter curAccessor.2 = getter newAccessor.2)) &&
             (negb (dpf_setSetter dpFlags) ||
              bool_decide (setter curAccessor.2 = setter newAccessor.2)))
      else ret false
    else if dpf_setValue dpFlags then
      ret (isSameValue curValueOrAccessor valueOrAccessor)
    else ret true
  else ret false.

(** 8.12.9 [8] to [11]: the flags to start the merge from, or nothing when
    the update is rejected; for two accessors the unmentioned halves of the
    new accessor cell are overwritten with those of the current one. *)
Definition checkPropertyUpdate_validate (currentFlags : PropertyFlags)
    (dpFlags : DefinePropertyFlags) (curValueOrAccessor valueOrAccessor : HermesValue)
    : M (option PropertyFlags) :=
  if negb (dpf_setValue dpFlags || dpf_setWritable dpFlags ||
           dpf_setGetter dpFlags || dpf_setSetter dpFlags) then
    ret (Some currentFlags)
  else if negb (bool_decide (pf_accessor currentFlags = dpf_isAccessor dpFlags)) then
    if negb (pf_configurable currentFlags) then ret None
    else ret (Some (set_writable false currentFlags))
  else if negb (pf_accessor currentFlags) then
    if negb (pf_configurable currentFlags) && negb (pf_writable currentFlags) then
      if dpf_writable dpFlags then ret None
      else if dpf_setValue dpFlags &&
              negb (isSameValue curValueOrAccessor valueOrAccessor)
      then ret None
      else ret (Some currentFlags)
    else ret (Some currentFlags)
  else
    let* curAccessor := vmcast_PropertyAccessor curValueOrAccessor in
    let* newAccessor := vmcast_PropertyAccessor valueOrAccessor in
    if negb (pf_configurable currentFlags) &&
       ((dpf_setGetter dpFlags &&
         negb (bool_decide (getter newAccessor.2 = getter curAccessor.2))) ||
        (dpf_setSetter dpFlags &&
         negb (bool_decide (setter newAccessor.2 = setter curAccessor.2))))
    then ret None
    else
      let* _ :=
        if negb (dpf_setGetter dpFlags) then
          let* cur := getAccessorCell curAccessor.1 in
          let* new := getAccessorCell newAccessor.1 in
          putAccessorCell newAccessor.1 (mkPropertyAccessor (getter cur) (setter new))
        else ret tt in
      let* _ :=
        if negb (dpf_setSetter dpFlags) then
          let* cur := getAccessorCell curAccessor.1 in
          let* new := getAccessorCell newAccessor.1 in
          putAccessorCell newAccessor.1 (mkPropertyAccessor (getter new) (setter cur))
        else ret tt in
      ret (Some currentFlags).

Definition checkPropertyUpdate (currentFlags : PropertyFlags)
    (dpFlags : DefinePropertyFlags) (curValueOrAccessor valueOrAccessor : HermesValue)
    (opFlags : PropOpFlags) : M (PropertyUpdateStatus * PropertyFlags) :=
  if dpf_isEmpty dpFlags then ret (done, currentFlags)
  else
    let* same :=
      checkPropertyUpdate_same currentFlags dpFlags curValueOrAccessor valueOrAccessor in
    if same then ret (done, currentFlags)
    else if negb (pf_configurable currentFlags) && dpf_configurable dpFlags then
      rejectUpdate opFlags
    else if negb (pf_configurable currentFlags) && dpf_setEnumerable dpFlags &&
            negb (bool_decide (dpf_enumerable dpFlags = pf_enumerable currentFlags))
    then rejectUpdate opFlags
    else
      let* validated :=
        checkPropertyUpdate_validate currentFlags dpFlags
          curValueOrAccessor valueOrAccessor in
      match validated with
      | None => rejectUpdate opFlags
      | Some newFlags0 =>
          let newFlags1 :=
            if dpf_setEnumerable dpFlags
            then set_enumerable (dpf_enumerable dpFlags) newFlags0 else newFlags0 in
          let newFlags2 :=
            if dpf_setWritable dpFlags
            then set_writable (dpf_writable dpFlags) newFlags1 else newFlags1 in
          let newFlags3 :=
            if dpf_setConfigurable dpFlags
            then set_configurable (dpf_configurable dpFlags) newFlags2 else newFlags2 in
          if dpf_setValue dpFlags then ret (needSet, set_accessor false newFlags3)
          else if dpf_isAccessor dpFlags then ret (needSet, set_accessor true newFlags3)
          else ret (done, newFlags3)
      end.

Definition updateOwnProperty (self : Addr) (name : SymbolID) (propertyPos : nat)
    (desc : NamedPropertyDescriptor) (dpFlags : DefinePropertyFlags)
    (valueOrAccessor : HermesValue) (opFlags : PropOpFlags) : M bool :=
  let* cur := readNamedSlot self desc in
  let* updateStatus :=
    checkPropertyUpdate (desc_flags desc) dpFlags cur valueOrAccessor opFlags in
  if bool_decide (updateStatus.1 = failed) then ret false
  else
    let* desc' :=
      if negb (bool_decide (updateStatus.2 = desc_flags desc)) then
        let* o := getObject self in
        let* newClazz :=
          HiddenClass_updateProperty (clazz_ o) propertyPos updateStatus.2 in
        let* _ := putObject self (set_clazz newClazz o) in
        ret (mkNamedPropertyDescriptor (desc_slot desc) updateStatus.2)
      else ret desc in
    if bool_decide (updateStatus.1 = done) then ret true
    else if dpf_setValue dpFlags then
      if negb (pf_internalSetter (desc_flags desc')) then
        let* _ := writeNamedSlot self desc' valueOrAccessor in ret true
      else internalSetter self name desc' valueOrAccessor opFlags
    else if dpf_isAccessor dpFlags then
      let* _ := writeNamedSlot self desc' valueOrAccessor in ret true
    else ret true.

(** [defineOwnProperty]; the call to itself after the initialization of a
    lazy object is bounded by [fuel]. *)
Fixpoint defineOwnProperty (fuel : nat) (self : Addr) (name : SymbolID)
    (dpFlags : DefinePropertyFlags) (valueOrAccessor : HermesValue)
    (opFlags : PropOpFlags) : M bool :=
  let* pos := findProperty self name in
  match pos with
  | Some (p, desc) =>
      updateOwnProperty self name p desc dpFlags valueOrAccessor opFlags
  | None =>
      let* o := getObject self in
      if lazyObject (flags_ o) then
        match fuel with
        | 0 => outOfFuel
        | S fuel' =>
            let* _ := initializeLazyObject self in
            defineOwnProperty fuel' self name dpFlags valueOrAccessor opFlags
        end
      else addOwnProperty self name dpFlags valueOrAccessor opFlags
  end.

Definition defineNewOwnProperty (self : Addr) (name : SymbolID)
    (propertyFlags : PropertyFlags) (valueOrAccessor : HermesValue) : M unit :=
  addOwnPropertyImpl self name propertyFlags valueOrAccessor.

(** [canNewPropertyBeIndexed]. *)
Definition canNewPropertyBeIndexed (dpf : DefinePropertyFlags) : bool :=
  dpf_setEnumerable dpf && dpf_enumerable dpf && dpf_setWritable dpf &&
  dpf_writable dpf && dpf_setConfigurable dpf && dpf_configurable dpf &&
  negb (dpf_setSetter dpf) && negb (dpf_setGetter dpf).

(** ** Extensibility *)

Definition preventExtensions (self : Addr) : M unit :=
  let* o := getObject self in
  putObject self (set_flags (set_noExtend true (flags_ o)) o).

Definition seal (self : Addr) : M unit :=
  let* o := getObject self in
  if sealed (flags_ o) then ret tt
  else
    let* newClazz := HiddenClass_makeAllNonConfigurable (clazz_ o) in
    putObject self
      (set_flags (set_noExtend true (set_sealed true (flags_ o)))
         (set_clazz newClazz o)).

Definition freeze (self : Addr) : M unit :=
  let* o := getObject self in
  if frozen (flags_ o) then ret tt
  else
    let* newClazz := HiddenClass_makeAllReadOnly (clazz_ o) in
    putObject self
      (set_flags (set_noExtend true (set_sealed true (set_frozen true (flags_ o))))
         (set_clazz newClazz o)).

Definition isSealed (self : Addr) : M bool :=
  let* o := getObject self in
  if sealed (flags_ o) then ret true
  else if negb (noExtend (flags_ o)) then ret false
  else
    let* c := getClassCell (clazz_ o) in
    if negb (areAllNonConfigurable c) then ret false
    else if negb (checkAllOwnIndexed o NonConfigurable) then ret false
    else
      let* _ := putObject self (set_flags (set_sealed true (flags_ o)) o) in
      ret true.

Definition isFrozen (self : Addr) : M bool :=
  let* o := getObject self in
  if frozen (flags_ o) then ret true
  else if negb (noExtend (flags_ o)) then ret false
  else
    let* c := getClassCell (clazz_ o) in
    if negb (areAllReadOnly c) then ret false
    else if negb (checkAllOwnIndexed o ReadOnly) then ret false
    else
      let* _ :=
        putObject self (set_flags (set_sealed true (set_frozen true (flags_ o))) o) in
      ret true.

(** ** Creation *)

Definition newObjectCell (parent : option Addr) (clazz : Addr)
    (propStorage : option (list HermesValue)) : JSObject :=
  mkJSObject JSObjectVT parent clazz propStorage
    (replicate (DIRECT_PROPERTY_SLOTS ext) HVEmpty) ObjectFlags_empty.

Definition create_withParent (parentHandle : option Addr) : M Addr :=
  let* c := getHiddenClassForPrototypeRaw ext parentHandle in
  allocObject (newObjectCell parentHandle c None).

Definition create : M Addr :=
  let* rt := getRuntime in
  let* c := getHiddenClassForPrototypeRaw ext (objectPrototypeRawPtr rt) in
  allocObject (newObjectCell (objectPrototypeRawPtr rt) c None).

(** Modelled from the spec: [allocatePropStorage] "optionally pre-allocates
    indirect storage" for the properties beyond the inline slots. *)
Definition create_withPropertyCount (propertyCount : nat) : M Addr :=
  let* rt := getRuntime in
  let* c := getHiddenClassForPrototypeRaw ext (objectPrototypeRawPtr rt) in
  allocObject
    (newObjectCell (objectPrototypeRawPtr rt) c
       (if propertyCount <=? DIRECT_PROPERTY_SLOTS ext then None
        else Some (replicate (propertyCount - DIRECT_PROPERTY_SLOTS ext) HVEmpty))).

Definition create_withClass (clazz : Addr) : M Addr :=
  let* c := getClassCell clazz in
  let* obj := create_withPropertyCount (getNumProperties c) in
  let* o := getObject obj in
  let* _ := putObject obj (set_clazz clazz o) in
  let* o' := getObject obj in
  let* c' := getClassCell (clazz_ o') in
  let* _ :=
    if getHasIndexLikeProperties c' then
      putObject obj (set_flags (set_fastIndexProperties false (flags_ o')) o')
    else ret tt in
  ret obj.

(** ** Enumeration *)

(** The output array of the enumerations, as the list of its elements:
    [at] reads an element, [setElementAt] writes one (growing the array up
    to the index), [setLength] sets the number of elements. *)
Definition arrayAt (arr : list HermesValue) (i : nat) : HermesValue :=
  default HVEmpty (arr !! i).

Definition setElementAt (arr : list HermesValue) (i : nat) (v : HermesValue)
    : list HermesValue :=
  if i <? length arr then <[i := v]> arr
  else arr ++ replicate (i - length arr) HVEmpty ++ [v].

Definition setLength (arr : list HermesValue) (n : nat) : list HermesValue :=
  take n arr ++ replicate (n - length arr) HVEmpty.

(** The first loop of [getOwnPropertyNames]: the own indexed names in the
    range, in index order. *)
Definition getOwnPropertyNames_indexed (o : JSObject) (range : N * N)
    (onlyEnumerable : bool) : list HermesValue :=
  foldl
    (λ arr i,
       match getOwnIndexedPropertyFlags o i with
       | None => arr
       | Some res =>
           if onlyEnumerable && negb (pf_enumerable res) then arr
           else setElementAt arr (length arr) (encodeDoubleValue i)
       end)
    []
    (map (λ k, (range.1 + N.of_nat k)%N) (seq 0 (N.to_nat (range.2 - range.1)))).

(** The state the callbacks of [getOwnPropertyNames] share: the array being
    filled (its length is the output index), the stashed index-like names
    and the set that deduplicates the names of a host object. *)
Record NamesState : Type := mkNamesState {
  ns_array : list HermesValue;
  ns_indexNames : list N;
  ns_dedupSet : gset SymbolID;
}.

(** The callback given to [HiddenClass::forEachProperty]. *)
Definition getOwnPropertyNames_visit (onlyEnumerable : bool)
    (hostObjectSymbolCount : nat) (st : NamesState)
    (p : SymbolID * NamedPropertyDescriptor) : NamesState :=
  if negb (isPropertyNamePrimitive p.1) then st
  else if onlyEnumerable && negb (pf_enumerable (desc_flags p.2)) then st
  else
    let dedup :=
      if 0 <? hostObjectSymbolCount then {[ p.1 ]} ∪ ns_dedupSet st
      else ns_dedupSet st in
    match toArrayIndex (getStringView p.1) with
    | Some propNameAsIndex =>
        mkNamesState (ns_array st) (ns_indexNames st ++ [propNameAsIndex]) dedup
    | None =>
        mkNamesState
          (setElementAt (ns_array st) (length (ns_array st))
             (HVString (getStringView p.1)))
          (ns_indexNames st) dedup
    end.

(** The body of the loop over the names a host object reports. *)
Definition getOwnPropertyNames_host (st : NamesState) (id : SymbolID) : NamesState :=
  if bool_decide (id ∈ ns_dedupSet st) then st
  else
    let dedup := {[ id ]} ∪ ns_dedupSet st in
    match toArrayIndex (getStringView id) with
    | Some propNameAsIndex =>
        mkNamesState (ns_array st) (ns_indexNames st ++ [propNameAsIndex]) dedup
    | None =>
        mkNamesState
          (setElementAt (ns_array st) (length (ns_array st))
             (HVString (getStringView id)))
          (ns_indexNames st) dedup
    end.

(** The loop that moves the region [numIndexed..endNamed) to the end of the
    array, from its last element down; [n] counts the elements left. *)
Fixpoint getOwnPropertyNames_shift (n : nat) (last toLast : nat)
    (arr : list HermesValue) : list HermesValue :=
  match n with
  | 0 => arr
  | S n' =>
      let last' := last - 1 in
      let toLast' := toLast - 1 in
      getOwnPropertyNames_shift n' last' toLast'
        (setElementAt arr toLast' (arrayAt arr last'))
  end.

(** The loop that merges the sorted index-like names with the indexed names
    in [0..numIndexed), from the end, copying the larger element. *)
Fixpoint getOwnPropertyNames_merge (toLast : nat) (numIndexed indexNamesLast : nat)
    (indexNames : list N) (arr : list HermesValue) : list HermesValue :=
  match toLast with
  | 0 => arr
  | S toLast' =>
      let a := getNumberAsUInt32 (arrayAt arr (numIndexed - 1)) in
      let b := default 0%N (indexNames !! (indexNamesLast - 1)) in
      if negb (numIndexed =? 0) then
        if negb (indexNamesLast =? 0) && (a <? b)%N then
          getOwnPropertyNames_merge toLast' numIndexed (indexNamesLast - 1) indexNames
            (setElementAt arr toLast' (encodeDoubleValue b))
        else
          getOwnPropertyNames_merge toLast' (numIndexed - 1) indexNamesLast indexNames
            (setElementAt arr toLast' (encodeDoubleValue a))
      else
        getOwnPropertyNames_merge toLast' numIndexed (indexNamesLast - 1) indexNames
          (setElementAt arr toLast' (encodeDoubleValue b))
  end.

Definition getOwnPropertyNames (self : Addr) (onlyEnumerable : bool)
    : M (list HermesValue) :=
  let* o0 := getObject self in
  let* _ := if lazyObject (flags_ o0) then initializeLazyObject self else ret tt in
  let* o := getObject self in
  let range := getOwnIndexedRange o in
  let* hostObjectSymbols :=
    if hostObject (flags_ o) then HostObject_getHostPropertyNames ext self
    else ret [] in
  let hostObjectSymbolCount := length hostObjectSymbols in
  let* o1 := getObject self in
  let indexed := getOwnPropertyNames_indexed o1 range onlyEnumerable in
  let numIndexed := length indexed in
  let* c := getClassCell (clazz_ o1) in
  let st1 :=
    foldl (getOwnPropertyNames_visit onlyEnumerable hostObjectSymbolCount)
      (mkNamesState indexed [] ∅) (propertyMap c) in
  let st2 := foldl getOwnPropertyNames_host st1 hostObjectSymbols in
  let endNamed := length (ns_array st2) in
  let total := endNamed + length (ns_indexNames st2) in
  let array := setLength (ns_array st2) total in
  if bool_decide (ns_indexNames st2 = []) then ret array
  else
    let indexNames := merge_sort N.le (ns_indexNames st2) in
    let shifted :=
      getOwnPropertyNames_shift (endNamed - numIndexed) endNamed (length array) array in
    ret (getOwnPropertyNames_merge (numIndexed + length indexNames) numIndexed
           (length indexNames) indexNames shifted).

(** [val.getNumber() == prop.getNumber()] on doubles. *)
Definition doubleEq (x y : Double) : bool :=
  match x, y with
  | DNaN, _ | _, DNaN => false
  | DNegZero, DNegZero => true
  | DNegZero, DInt z | DInt z, DNegZero => bool_decide (z = 0%Z)
  | DInt z1, DInt z2 => bool_decide (z1 = z2)
  end.

(** The test of [appendAllPropertyNames] that [prop] repeats the element
    [val] already collected: numbers and strings name the same property
    when the string parses to the number. *)
Definition isDuplicateName (prop val : HermesValue) : bool :=
  match prop, val with
  | HVNumber p, HVNumber v => doubleEq v p
  | HVNumber p, HVString v =>
      match toArrayIndex v with
      | Some valNum => doubleEq (DInt (Z.of_N valNum)) p
      | None => false
      end
  | HVString p, HVNumber v =>
      match toArrayIndex p with
      | Some propNum => doubleEq (DInt (Z.of_N propNum)) v
      | None => false
      end
  | HVString p, HVString v => bool_decide (v = p)
  | _, _ => false
  end.

(** The search of [appendAllPropertyNames] among the elements
    [beginIndex .. size) of the array for one that [prop] repeats; the
    search stops at the first one, and it is nothing when it reads
    [arr->at(j)] beyond the end of the array. *)
Definition findDuplicateName (prop : HermesValue) (beginIndex size : nat)
    (arr : list HermesValue) : option bool :=
  if existsb (isDuplicateName prop) (take (size - beginIndex) (drop beginIndex arr))
  then Some true
  else if (beginIndex <? size) && (length arr <? size) then None
  else Some false.

(** The inner loop of [appendAllPropertyNames] over the names of one
    object: the array, to which [push_back] appends, and [size], which
    counts from [beginIndex]. *)
Definition appendPropertyNames (needDedup : bool) (beginIndex : nat)
    (st : list HermesValue * nat) (props : list HermesValue)
    : option (list HermesValue * nat) :=
  foldl
    (λ (st : option (list HermesValue * nat)) prop,
       match st with
       | None => None
       | Some (arr, size) =>
           if negb needDedup then Some (arr ++ [prop], S size)
           else
             match findDuplicateName prop beginIndex size arr with
             | None => None
             | Some true => Some (arr, size)
             | Some false => Some (arr ++ [prop], S size)
             end
       end)
    (Some st) props.

Fixpoint appendAllPropertyNames_loop (fuel : nat) (head : option Addr)
    (needDedup : bool) (beginIndex : nat) (arr : list HermesValue) (size : nat)
    : M (list HermesValue * nat) :=
  match head with
  | None => ret (arr, size)
  | Some h =>
      match fuel with
      | 0 => outOfFuel
      | S fuel' =>
          let* enumerableProps := getOwnPropertyNames h true in
          let* st :=
            deref (appendPropertyNames needDedup beginIndex (arr, size)
                     enumerableProps) in
          let* ho := getObject h in
          appendAllPropertyNames_loop fuel' (parent_ ho) true beginIndex st.1 st.2
      end
  end.

(** [appendAllPropertyNames]: the array and the size it returns. *)
Definition appendAllPropertyNames (fuel : nat) (obj : Addr)
    (arr : list HermesValue) (beginIndex : nat) : M (list HermesValue * nat) :=
  appendAllPropertyNames_loop fuel (Some obj) false beginIndex arr beginIndex.

(** The loop of [setProtoClasses]; nothing is the cleared array of an
    object that is unsuitable for caching. *)
Fixpoint setProtoClasses_loop (fuel : nat) (head : option Addr)
    (arr : list HermesValue) : M (list HermesValue) :=
  match head with
  | None => ret (arr ++ [HVNull])
  | Some h =>
      match fuel with
      | 0 => outOfFuel
      | S fuel' =>
          let* rt := getRuntime in
          if negb (shouldCacheForIn ext rt h) then ret []
          else
            let* ho := getObject h in
            setProtoClasses_loop fuel' (parent_ ho)
              (arr ++ [HVObject HiddenClassKind (clazz_ ho)])
      end
  end.

Definition setProtoClasses (fuel : nat) (obj : Addr) (arr : list HermesValue)
    : M (list HermesValue) :=
  let* rt := getRuntime in
  if negb (shouldCacheForIn ext rt obj) then ret []
  else
    let* o := getObject obj in
    setProtoClasses_loop fuel (parent_ o) arr.

(** The loop of [matchesProtoClasses]: [i] is the index of the next element
    of the prefix. *)
Fixpoint matchesProtoClasses_loop (fuel : nat) (head : option Addr)
    (arr : list HermesValue) (i : nat) : M nat :=
  match head with
  | None =>
      let* last := deref (arr !! i) in
      if negb (isNull last) then ret 0 else ret (S i)
  | Some h =>
      match fuel with
      | 0 => outOfFuel
      | S fuel' =>
          let* protoCls := deref (arr !! i) in
          let* ho := getObject h in
          match protoCls with
          | HVNull => ret 0
          | HVObject _ cls =>
              if negb (bool_decide (cls = clazz_ ho)) then ret 0
              else matchesProtoClasses_loop fuel' (parent_ ho) arr (S i)
          | _ => fault
          end
      end
  end.

Definition matchesProtoClasses (fuel : nat) (obj : Addr) (arr : list HermesValue)
    : M nat :=
  let* o := getObject obj in
  matchesProtoClasses_loop fuel (parent_ o) arr 0.

Definition clearForInCache (clazz : Addr) : M unit :=
  let* c := getClassCell clazz in
  putClassCell clazz
    (mkHiddenClass (propertyMap c) (hasIndexLikeProperties c) (dictionaryMode c) None).

Definition setForInCache (clazz : Addr) (arr : list HermesValue) : M unit :=
  let* c := getClassCell clazz in
  putClassCell clazz
    (mkHiddenClass (propertyMap c) (hasIndexLikeProperties c) (dictionaryMode c)
       (Some arr)).

(** [getForInPropertyNames]: the array with [beginIndex] and [endIndex]. *)
Definition getForInPropertyNames (fuel : nat) (obj : Addr)
    : M (list HermesValue * nat * nat) :=
  let* o := getObject obj in
  let clazz := clazz_ o in
  let* c := getClassCell clazz in
  let slow : M (list HermesValue * nat * nat) :=
    let* c1 := getClassCell clazz in
    let ownPropEstimate := getNumProperties c1 in
    let* arr := setProtoClasses fuel obj [] in
    let beginIndex := length arr in
    let canCache := negb (beginIndex =? 0) in
    let* appended := appendAllPropertyNames fuel obj arr beginIndex in
    let arr' := appended.1 in
    let endIndex := appended.2 in
    let tooMuchProto := ownPropEstimate <? endIndex / 4 in
    let* _ :=
      if canCache && negb tooMuchProto then setForInCache clazz arr' else ret tt in
    ret (arr', beginIndex, endIndex) in
  match getForInCache c with
  | Some arr =>
      let* beginIndex := matchesProtoClasses fuel obj arr in
      if negb (beginIndex =? 0) then ret (arr, beginIndex, length arr)
      else
        let* _ := clearForInCache clazz in
        slow
  | None => slow
  end.

(** ** Further functions of JSObject.cpp *)

(** [InternalProperty::getSymbolID]: the reserved name number [index]. *)
Definition InternalProperty_getSymbolID (index : nat) : SymbolID :=
  SymInternal (N.of_nat index).

(** [addInternalProperty]; the assertion that the class is not in
    dictionary mode is a fault when it fails, and so is an index that is
    not below [NumInternalProperties], a constant of the header. *)
Definition addInternalProperty (NumInternalProperties : nat) (self : Addr)
    (index : nat) (value : HermesValue) : M SlotIndex :=
  let* o := getObject self in
  let* c := getClassCell (clazz_ o) in
  if negb (index <? NumInternalProperties) || isDictionary c then fault
  else
    let* addResult :=
      HiddenClass_addProperty (clazz_ o) (InternalProperty_getSymbolID index)
        PropertyFlags_empty in
    let* _ := putObject self (set_clazz addResult.1 o) in
    let* _ := allocateNewSlotStorage self addResult.2 value in
    ret addResult.2.

(** The loop of [addInternalProperties], with its assertion that the slot
    of the property number [i] is [i]. *)
Fixpoint addInternalProperties_loop (NumInternalProperties : nat) (self : Addr)
    (i : nat) (remaining : nat) (value : HermesValue) : M unit :=
  match remaining with
  | 0 => ret tt
  | S remaining' =>
      let* slotIndex := addInternalProperty NumInternalProperties self i value in
      if negb (bool_decide (slotIndex = i)) then fault
      else addInternalProperties_loop NumInternalProperties self (S i) remaining' value
  end.

Definition addInternalProperties (NumInternalProperties : nat) (self : Addr)
    (count : nat) (value : HermesValue) : M unit :=
  let* o := getObject self in
  let* c := getClassCell (clazz_ o) in
  if (count =? 0) || negb (count <=? NumInternalProperties) || isDictionary c ||
     negb (getNumProperties c =? 0) || negb (count <=? DIRECT_PROPERTY_SLOTS ext)
  then fault
  else addInternalProperties_loop NumInternalProperties self 0 count value.

(** [getNamedPropertyValue]: the value of a property found on [propObj],
    read for the receiver [self]. *)
Definition getNamedPropertyValue (self propObj : Addr)
    (desc : NamedPropertyDescriptor) : M HermesValue :=
  if negb (pf_accessor (desc_flags desc)) then readNamedSlot propObj desc
  else
    let* v := readNamedSlot propObj desc in
    let* accessor := vmcast_PropertyAccessor v in
    match getter accessor.2 with
    | None => ret HVUndefined
    | Some g => Callable_executeCall0 ext g self
    end.

(** [getOwnPropertySymbols]: the callback given to
    [HiddenClass::forEachProperty] keeps the output array and the index
    of its next element. *)
Definition getOwnPropertySymbols_visit (st : list HermesValue * nat)
    (p : SymbolID * NamedPropertyDescriptor) : list HermesValue * nat :=
  if negb (isSymbolPrimitive p.1) then st
  else (setElementAt st.1 st.2 (HVSymbol p.1), S st.2).

Definition getOwnPropertySymbols (self : Addr) : M (list HermesValue) :=
  let* o0 := getObject self in
  let* _ := if lazyObject (flags_ o0) then initializeLazyObject self else ret tt in
  let* o := getObject self in
  let* c := getClassCell (clazz_ o) in
  let st := foldl getOwnPropertySymbols_visit ([], 0) (propertyMap c) in
  ret (setLength st.1 st.2).

(** [getObjectID]; the width of the bit field [objectID] is a constant of
    the header and [generateNextObjectID] belongs to the runtime.  The
    assignment to the bit field keeps its low bits, and the decrement of a
    zero field gives its largest value. *)
Definition set_objectID (id : N) (f : ObjectFlags) : ObjectFlags :=
  mkObjectFlags (noExtend f) (sealed f) (frozen f) (indexedStorage f)
    (fastIndexProperties f) (hostObject f) (lazyObject f) id.

Definition getObjectID (objectIDBits : N) (generateNextObjectID : M N)
    (self : Addr) : M N :=
  let* o := getObject self in
  if negb (objectID (flags_ o) =? 0)%N then ret (objectID (flags_ o))
  else
    let* next := generateNextObjectID in
    let* o1 := getObject self in
    let id0 := (next mod 2 ^ objectIDBits)%N in
    let id := if (id0 =? 0)%N then (2 ^ objectIDBits - 1)%N else id0 in
    let* _ := putObject self (set_flags (set_objectID id (flags_ o1)) o1) in
    ret id.

(** [PropertyAccessor::create]: a new accessor cell, at an address not in
    use. *)
Definition PropertyAccessor_create (getter setter : option Addr) : M HermesValue :=
  λ rt, let a := fresh (dom (accessors rt)) in
        Returned (HVObject PropertyAccessorKind a)
          (set_accessors (<[a := mkPropertyAccessor getter setter]> (accessors rt)) rt).

(** ** Computed keys *)

(** What the computed entry points call to turn a key into an array index
    or a name: the conversions of Operations.h and of the identifier
    table. *)
Record KeyOperations : Type := mkKeyOperations {
  toArrayIndexFastPath : HermesValue → option N;
  toString_RJS : HermesValue → M string;
  stringToSymbolID : string → M SymbolID;
  valueToSymbolID : HermesValue → M SymbolID;
  toPropertyKeyIfObject : HermesValue → M HermesValue;
}.

Context (keys : KeyOperations).

Definition isObject (v : HermesValue) : bool :=
  match v with HVObject _ _ => true | _ => false end.

Definition isSymbol (v : HermesValue) : bool :=
  match v with HVSymbol _ => true | _ => false end.

(** [ComputedPropertyDescriptor] has the layout of the named one (the
    source casts between them); for an indexed property the slot is the
    array index. *)
Definition ComputedPropertyDescriptor : Type := NamedPropertyDescriptor.

Definition indexedDescriptor (res : PropertyFlags) (arrayIndex : N)
    : ComputedPropertyDescriptor :=
  mkNamedPropertyDescriptor (N.to_nat arrayIndex) (set_indexed true res).

(** Modelled from the spec: a descriptor marked indexed names a slot of the
    indexed interface ("{indexed, slot=index}"), any other a named slot. *)
Definition getComputedSlotValue (self : JSObject) (desc : ComputedPropertyDescriptor)
    : option HermesValue :=
  if pf_indexed (desc_flags desc) then
    Some (getOwnIndexed self (N.of_nat (desc_slot desc)))
  else getNamedSlotValue self desc.

Definition readComputedSlot (self : Addr) (desc : ComputedPropertyDescriptor)
    : M HermesValue :=
  let* o := getObject self in deref (getComputedSlotValue o desc).

(** LAZY_TO_STRING: the conversion of a primitive is asserted not to
    fail. *)
Definition LAZY_TO_STRING (nameVal : HermesValue) : M string :=
  λ rt, match toString_RJS keys nameVal rt with
        | Exception _ _ => Fault
        | r => r
        end.

(** LAZY_TO_IDENTIFIER, on a key that has no identifier yet: the string,
    when the key has been converted to one, is what is interned. *)
Definition LAZY_TO_IDENTIFIER (nameVal : HermesValue) (str : option string)
    : M SymbolID :=
  match str with
  | Some s => stringToSymbolID keys s
  | None => valueToSymbolID keys nameVal
  end.

(** TO_ARRAY_INDEX, on a key that has not been converted to a string yet;
    the result is the array index with the string, when the conversion
    was needed. *)
Definition TO_ARRAY_INDEX (nameVal : HermesValue) : M (option N * option string) :=
  match toArrayIndexFastPath keys nameVal with
  | Some arrayIndex => ret (Some arrayIndex, None)
  | None =>
      if negb (isSymbol nameVal) then
        let* str := LAZY_TO_STRING nameVal in ret (toArrayIndex str, Some str)
      else ret (None, None)
  end.

(** [getOwnComputedPrimitiveDescriptor]; the result is the descriptor when
    the source returns true.  The fuel counts the call after the lazy
    object has been initialized. *)
Fixpoint getOwnComputedPrimitiveDescriptor (fuel : nat) (self : Addr)
    (nameVal : HermesValue) : M (option ComputedPropertyDescriptor) :=
  match fuel with
  | 0 => outOfFuel
  | S fuel' =>
      if isObject nameVal then fault
      else
        let* o := getObject self in
        match (if fastIndexProperties (flags_ o)
               then toArrayIndexFastPath keys nameVal else None) with
        | Some arrayIndex =>
            match getOwnIndexedPropertyFlags o arrayIndex with
            | Some res => ret (Some (indexedDescriptor res arrayIndex))
            | None => ret None
            end
        | None =>
            let* id := LAZY_TO_IDENTIFIER nameVal None in
            let* r := findProperty self id in
            match r with
            | Some (_, d) => ret (Some d)
            | None =>
                let* o1 := getObject self in
                let* found :=
                  if indexedStorage (flags_ o1) then
                    let* arrayIndex := TO_ARRAY_INDEX nameVal in
                    match arrayIndex.1 with
                    | Some i =>
                        let* o2 := getObject self in
                        ret (match getOwnIndexedPropertyFlags o2 i with
                             | Some res => Some (indexedDescriptor res i)
                             | None => None
                             end)
                    | None => ret None
                    end
                  else ret None in
                match found with
                | Some d => ret (Some d)
                | None =>
                    let* o3 := getObject self in
                    if lazyObject (flags_ o3) then
                      let* _ := initializeLazyObject self in
                      getOwnComputedPrimitiveDescriptor fuel' self nameVal
                    else ret None
                end
            end
        end
  end.

Definition getOwnComputedDescriptor (fuel : nat) (self : Addr) (nameVal : HermesValue)
    : M (option ComputedPropertyDescriptor) :=
  let* converted := toPropertyKeyIfObject keys nameVal in
  getOwnComputedPrimitiveDescriptor fuel self converted.

(** The status a function returns beside its out-parameters. *)
Inductive ExecutionStatus : Type :=
  | RETURNED
  | EXCEPTION (e : JSError).

(** A call whose status the caller receives as a value, to test it or to
    drop it. *)
Definition callStatus {A} (m : M A) : M (JSError + A) :=
  λ rt, match m rt with
        | Returned a rt' => Returned (inr a) rt'
        | Exception e rt' => Returned (inl e) rt'
        | Fault => Fault
        | OutOfFuel => OutOfFuel
        end.

(** The [do ... while] of [getComputedPrimitiveDescriptor]; the result is
    the status with the out-parameters [propObj] and [desc]. *)
Fixpoint getComputedPrimitiveDescriptor_loop (fuel ownFuel : nat) (propObj : Addr)
    (nameVal : HermesValue) (desc : ComputedPropertyDescriptor)
    : M (ExecutionStatus * option Addr * ComputedPropertyDescriptor) :=
  match fuel with
  | 0 => outOfFuel
  | S fuel' =>
      let* cr := callStatus (getOwnComputedPrimitiveDescriptor ownFuel propObj nameVal) in
      match cr with
      | inl e => ret (EXCEPTION e, Some propObj, desc)
      | inr (Some d) => ret (RETURNED, Some propObj, d)
      | inr None =>
          let* o := getObject propObj in
          if hostObject (flags_ o) then
            ret (RETURNED, Some propObj,
                 mkNamedPropertyDescriptor (desc_slot desc)
                   (set_writable true (set_hostObject true (desc_flags desc))))
          else
            match parent_ o with
            | Some p => getComputedPrimitiveDescriptor_loop fuel' ownFuel p nameVal desc
            | None => ret (RETURNED, None, desc)
            end
      end
  end.

Definition getComputedPrimitiveDescriptor (fuel : nat) (self : Addr)
    (nameVal : HermesValue) (desc : ComputedPropertyDescriptor)
    : M (ExecutionStatus * option Addr * ComputedPropertyDescriptor) :=
  if isObject nameVal then fault
  else getComputedPrimitiveDescriptor_loop fuel fuel self nameVal desc.

(** [getComputedDescriptor]: the status of the walk is dropped, the
    function returns RETURNED once the key is converted, so the result is
    the pair of the out-parameters. *)
Definition getComputedDescriptor (fuel : nat) (self : Addr) (nameVal : HermesValue)
    (desc : ComputedPropertyDescriptor)
    : M (option Addr * ComputedPropertyDescriptor) :=
  let* converted := toPropertyKeyIfObject keys nameVal in
  let* r := getComputedPrimitiveDescriptor fuel self converted desc in
  ret (r.1.2, r.2).

(** [getComputedPropertyValue]. *)
Definition getComputedPropertyValue (self propObj : Addr)
    (desc : ComputedPropertyDescriptor) : M HermesValue :=
  if negb (pf_accessor (desc_flags desc)) then readComputedSlot propObj desc
  else
    let* v := readComputedSlot propObj desc in
    let* accessor := vmcast_PropertyAccessor v in
    match getter accessor.2 with
    | None => ret HVUndefined
    | Some g => Callable_executeCall0 ext g self
    end.

(** [getComputed_RJS]; the status of the walk is dropped here too.  The
    cast of the receiver to a host object is an assertion. *)
Definition getComputed_RJS (fuel : nat) (self : Addr) (nameVal : HermesValue)
    : M HermesValue :=
  let* o := getObject self in
  let ourValue :=
    if fastIndexProperties (flags_ o) then
      match toArrayIndexFastPath keys nameVal with
      | Some arrayIndex => getOwnIndexed o arrayIndex
      | None => HVEmpty
      end
    else HVEmpty in
  if negb (isEmpty ourValue) then ret ourValue
  else
    let* nameValPrimitive := toPropertyKeyIfObject keys nameVal in
    let* r :=
      getComputedPrimitiveDescriptor fuel self nameValPrimitive
        NamedPropertyDescriptor_default in
    match r.1.2 with
    | None => ret HVUndefined
    | Some propObj =>
        let desc := r.2 in
        if negb (pf_accessor (desc_flags desc)) && negb (pf_hostObject (desc_flags desc))
        then readComputedSlot propObj desc
        else if pf_accessor (desc_flags desc) then
          let* v := readComputedSlot propObj desc in
          let* accessor := vmcast_PropertyAccessor v in
          match getter accessor.2 with
          | None => ret HVUndefined
          | Some g => Callable_executeCall0 ext g self
          end
        else
          let* id := LAZY_TO_IDENTIFIER nameValPrimitive None in
          let* so := getObject self in
          if negb (hostObject (flags_ so)) then fault
          else HostObject_get ext self id
    end.

(** [getNamedOrIndexed]. *)
Definition getNamedOrIndexed (fuel : nat) (self : Addr) (name : SymbolID)
    (opFlags : PropOpFlags) : M HermesValue :=
  let* o := getObject self in
  match (if indexedStorage (flags_ o) then toArrayIndex (getStringView name)
         else None) with
  | Some nameAsIndex => getComputed_RJS fuel self (encodeDoubleValue nameAsIndex)
  | None =>
      let* r := getNamed_RJS fuel self name opFlags false in ret r.1
  end.

(** [hasComputed]. *)
Definition hasComputed (fuel : nat) (self : Addr) (nameVal : HermesValue) : M bool :=
  let* o := getObject self in
  if (if fastIndexProperties (flags_ o) then
        match toArrayIndexFastPath keys nameVal with
        | Some arrayIndex => haveOwnIndexed o arrayIndex
        | None => false
        end
      else false)
  then ret true
  else
    let* r := getComputedDescriptor fuel self nameVal NamedPropertyDescriptor_default in
    ret (match r.1 with Some _ => true | None => false end).

(** [deleteOwnIndexed]: the entry of the vtable; [JSObject] itself deletes
    nothing, and what a subclass with indexed storage does is its own. *)
Definition _deleteOwnIndexedImpl (self : Addr) (i : N) : M bool := ret false.

Definition deleteOwnIndexed (subclass_deleteOwnIndexed : Addr → N → M bool)
    (self : Addr) (i : N) : M bool :=
  let* o := getObject self in
  match vt o with
  | JSObjectVT => _deleteOwnIndexedImpl self i
  | IndexedVT _ _ => subclass_deleteOwnIndexed self i
  end.

(** [deleteComputed]; the assertion on mustExist is a fault when it
    fails, and the fuel counts the call after the lazy object has been
    initialized. *)
Fixpoint deleteComputed (subclass_deleteOwnIndexed : Addr → N → M bool) (fuel : nat)
    (self : Addr) (nameVal : HermesValue) (opFlags : PropOpFlags) : M bool :=
  match fuel with
  | 0 => outOfFuel
  | S fuel' =>
      if getMustExist opFlags then fault
      else
        let* nameValPrimitive := toPropertyKeyIfObject keys nameVal in
        let* o := getObject self in
        let* conv :=
          if indexedStorage (flags_ o) then TO_ARRAY_INDEX nameValPrimitive
          else ret (None, None) in
        let* o1 := getObject self in
        match (if fastIndexProperties (flags_ o1) then conv.1 else None) with
        | Some arrayIndex =>
            let* deleted := deleteOwnIndexed subclass_deleteOwnIndexed self arrayIndex in
            if deleted then ret true
            else if getThrowOnError opFlags then raise TypeError
            else ret false
        | None =>
            if lazyObject (flags_ o1) then
              let* _ := initializeLazyObject self in
              deleteComputed subclass_deleteOwnIndexed fuel' self nameVal opFlags
            else
              let* id := LAZY_TO_IDENTIFIER nameValPrimitive conv.2 in
              let* pos := findProperty self id in
              if match pos with
                 | Some (_, desc) => negb (pf_configurable (desc_flags desc))
                 | None => false
                 end
              then
                if getThrowOnError opFlags then raise TypeError else ret false
              else
                let* deleted :=
                  match conv.1 with
                  | Some arrayIndex =>
                      deleteOwnIndexed subclass_deleteOwnIndexed self arrayIndex
                  | None => ret true
                  end in
                if negb deleted then
                  if getThrowOnError opFlags then raise TypeError else ret false
                else
                  match pos with
                  | Some (p, desc) =>
                      let* _ := writeNamedSlot self desc HVEmpty in
                      let* o2 := getObject self in
                      let* newClazz := HiddenClass_deleteProperty (clazz_ o2) p in
                      let* _ := putObject self (set_clazz newClazz o2) in
                      ret true
                  | None => ret true
                  end
        end
  end.

(** ** Writing and defining by a computed key *)

(** What the subclasses give the core through the vtable and the array
    subclass through its header: the writes to the indexed storage, and
    the length of an array with the function that sets it to a number. *)
Record SubclassOperations : Type := mkSubclassOperations {
  subclass_setOwnIndexedImpl : Addr → N → HermesValue → M bool;
  subclass_deleteOwnIndexedImpl : Addr → N → M bool;
  JSArray_getLength : JSObject → N;
  JSArray_setLength_uint32 : Addr → N → PropOpFlags → M bool;
}.

Context (sub : SubclassOperations).

Definition _setOwnIndexedImpl (self : Addr) (i : N) (value : HermesValue) : M bool :=
  ret false.

(** [setOwnIndexed]: the entry of the vtable. *)
Definition setOwnIndexed (self : Addr) (i : N) (value : HermesValue) : M bool :=
  let* o := getObject self in
  match vt o with
  | JSObjectVT => _setOwnIndexedImpl self i value
  | IndexedVT _ _ => subclass_setOwnIndexedImpl sub self i value
  end.

(** Modelled from the spec: the write that goes with [getComputedSlotValue];
    a descriptor marked indexed names a slot of the indexed interface, and
    of that write only the status is kept. *)
Definition setComputedSlotValue (self : Addr) (desc : ComputedPropertyDescriptor)
    (value : HermesValue) : M unit :=
  if pf_indexed (desc_flags desc) then
    let* _ := setOwnIndexed self (N.of_nat (desc_slot desc)) value in ret tt
  else writeNamedSlot self desc value.

(** [uint32_t] addition. *)
Definition uint32_succ (i : N) : N := ((i + 1) mod 4294967296)%N.

(** [putComputed_RJS]; the assertion on mustExist is a fault when it
    fails, the status of the walk of the prototype chain is dropped, and the
    cast of the receiver to a host object is an assertion. *)
Definition putComputed_RJS (fuel : nat) (self : Addr) (nameVal value : HermesValue)
    (opFlags : PropOpFlags) : M bool :=
  if getMustExist opFlags then fault
  else
    let* o := getObject self in
    match (if fastIndexProperties (flags_ o) then
             match toArrayIndexFastPath keys nameVal with
             | Some arrayIndex =>
                 if haveOwnIndexed o arrayIndex then Some arrayIndex else None
             | None => None
             end
           else None) with
    | Some arrayIndex =>
        let* result := setOwnIndexed self arrayIndex value in
        if result then ret true
        else if getThrowOnError opFlags then raise TypeError else ret false
    | None =>
        let* nameValPrimitive := toPropertyKeyIfObject keys nameVal in
        let* r :=
          getComputedPrimitiveDescriptor fuel self nameValPrimitive
            NamedPropertyDescriptor_default in
        let desc := r.2 in
        let addNew : M bool :=
          let* o1 := getObject self in
          if negb (isExtensible o1) then
            if getThrowOnError opFlags then raise TypeError else ret false
          else
            let* conv :=
              if indexedStorage (flags_ o1) then TO_ARRAY_INDEX nameValPrimitive
              else ret (None, None) in
            match conv.1 with
            | Some arrayIndex =>
                let* o2 := getObject self in
                let* cr :=
                  if vmisa_JSArray ext o2 && (JSArray_getLength sub o2 <=? arrayIndex)%N
                  then
                    putNamed_RJS fuel self Predefined_length
                      (encodeDoubleValue (uint32_succ arrayIndex)) opFlags
                  else ret true in
                if negb cr then ret false
                else
                  let* result := setOwnIndexed self arrayIndex value in
                  if result then ret true
                  else if getThrowOnError opFlags then raise TypeError else ret false
            | None =>
                let* id := LAZY_TO_IDENTIFIER nameValPrimitive conv.2 in
                addOwnProperty self id getDefaultNewPropertyFlags value opFlags
            end in
        match r.1.2 with
        | None => addNew
        | Some propObj =>
            if pf_accessor (desc_flags desc) then
              let* v := readComputedSlot propObj desc in
              let* accessor := vmcast_PropertyAccessor v in
              match setter accessor.2 with
              | None => if getThrowOnError opFlags then raise TypeError else ret false
              | Some s =>
                  let* _ := Callable_executeCall1 ext s self value in
                  ret true
              end
            else if negb (pf_writable (desc_flags desc)) then
              if pf_staticBuiltin (desc_flags desc) then
                if FreezeBuiltinsAndFatalOnOverride ext then fault
                else
                  let* id := LAZY_TO_IDENTIFIER nameValPrimitive None in
                  raiseErrorForOverridingStaticBuiltin fuel self id
              else if getThrowOnError opFlags then raise TypeError else ret false
            else if bool_decide (propObj = self) then
              if pf_hostObject (desc_flags desc) then
                let* id := LAZY_TO_IDENTIFIER nameValPrimitive None in
                let* so := getObject self in
                if negb (hostObject (flags_ so)) then fault
                else HostObject_set ext self id value
              else
                let* _ := setComputedSlotValue self desc value in
                ret true
            else addNew
        end
    end.

(** [putNamedOrIndexed]. *)
Definition putNamedOrIndexed (fuel : nat) (self : Addr) (name : SymbolID)
    (value : HermesValue) (opFlags : PropOpFlags) : M bool :=
  let* o := getObject self in
  match (if indexedStorage (flags_ o) then toArrayIndex (getStringView name)
         else None) with
  | Some nameAsIndex =>
      putComputed_RJS fuel self (encodeDoubleValue nameAsIndex) value opFlags
  | None => putNamed_RJS fuel self name value opFlags
  end.

(** [HermesValue::isPointer]: the values that refer to a cell of the
    heap. *)
Definition isPointer (v : HermesValue) : bool :=
  match v with HVObject _ _ | HVString _ => true | _ => false end.

Definition isUndefined (v : HermesValue) : bool :=
  match v with HVUndefined => true | _ => false end.

(** LAZY_TO_IDENTIFIER on a key that may have its identifier already. *)
Definition LAZY_TO_IDENTIFIER_once (nameVal : HermesValue) (str : option string)
    (id : option SymbolID) : M SymbolID :=
  match id with
  | Some i => ret i
  | None => LAZY_TO_IDENTIFIER nameVal str
  end.

(** [defineOwnComputedPrimitive]; its assertions are faults when they fail,
    and so is the assertion that setting the length of the array
    succeeded. *)
Definition defineOwnComputedPrimitive (fuel : nat) (self : Addr)
    (nameVal : HermesValue) (dpFlags : DefinePropertyFlags)
    (valueOrAccessor : HermesValue) (opFlags : PropOpFlags) : M bool :=
  if isObject nameVal || getMustExist opFlags ||
     (dpf_setValue dpFlags && dpf_isAccessor dpFlags) ||
     negb (dpf_setValue dpFlags || dpf_isAccessor dpFlags ||
           isUndefined valueOrAccessor) ||
     dpf_enableInternalSetter dpFlags ||
     (dpf_isAccessor dpFlags &&
      (negb (isPointer valueOrAccessor) || dpf_setWritable dpFlags ||
       dpf_writable dpFlags))
  then fault
  else
    let* o := getObject self in
    let* conv :=
      if indexedStorage (flags_ o) then TO_ARRAY_INDEX nameVal else ret (None, None) in
    match conv.1 with
    | None =>
        let* id := LAZY_TO_IDENTIFIER nameVal conv.2 in
        defineOwnProperty fuel self id dpFlags valueOrAccessor opFlags
    | Some arrayIndex =>
        let* o1 := getObject self in
        let* c := getClassCell (clazz_ o1) in
        let* id :=
          if getHasIndexLikeProperties c then
            let* i := LAZY_TO_IDENTIFIER nameVal conv.2 in ret (Some i)
          else ret None in
        let* pos :=
          match id with
          | Some i => findProperty self i
          | None => ret None
          end in
        match id, pos with
        | Some i, Some (p, desc) =>
            updateOwnProperty self i p desc dpFlags valueOrAccessor opFlags
        | _, _ =>
            let* o2 := getObject self in
            match getOwnIndexedPropertyFlags o2 arrayIndex with
            | Some indexedPropPresent =>
                let curValueOrAccessor := getOwnIndexed o2 arrayIndex in
                let* updateStatus :=
                  checkPropertyUpdate indexedPropPresent dpFlags curValueOrAccessor
                    valueOrAccessor opFlags in
                if bool_decide (updateStatus.1 = failed) then ret false
                else if bool_decide (updateStatus.2 = indexedPropPresent) then
                  if bool_decide (updateStatus.1 = done) then ret true
                  else
                    let* result := setOwnIndexed self arrayIndex valueOrAccessor in
                    if result then ret true
                    else if getThrowOnError opFlags then raise TypeError else ret false
                else
                  let value :=
                    if dpf_setValue dpFlags || dpf_isAccessor dpFlags
                    then valueOrAccessor else curValueOrAccessor in
                  let dpFlags' :=
                    mkDefinePropertyFlags
                      (pf_enumerable updateStatus.2) true
                      (pf_writable updateStatus.2) true
                      (pf_configurable updateStatus.2) true
                      (dpf_setGetter dpFlags) (dpf_setSetter dpFlags)
                      (dpf_setValue dpFlags) (dpf_enableInternalSetter dpFlags) in
                  let* deleted :=
                    deleteOwnIndexed (subclass_deleteOwnIndexedImpl sub) self arrayIndex in
                  if negb deleted then
                    if getThrowOnError opFlags then raise TypeError else ret false
                  else
                    let* i := LAZY_TO_IDENTIFIER_once nameVal conv.2 id in
                    addOwnProperty self i dpFlags' value opFlags
            | None =>
                let* o3 := getObject self in
                if negb (isExtensible o3) then
                  if getThrowOnError opFlags then raise TypeError else ret false
                else
                  let* updateLength :=
                    if vmisa_JSArray ext o3 && (JSArray_getLength sub o3 <=? arrayIndex)%N
                    then
                      let* lengthPos := findProperty self Predefined_length in
                      match lengthPos with
                      | None => fault
                      | Some (_, lengthDesc) =>
                          ret (if negb (pf_writable (desc_flags lengthDesc)) then None
                               else Some true)
                      end
                    else ret (Some false) in
                  match updateLength with
                  | None =>
                      if getThrowOnError opFlags then raise TypeError else ret false
                  | Some updateLength =>
                      let newIsIndexed := canNewPropertyBeIndexed dpFlags in
                      let* result :=
                        if newIsIndexed then
                          setOwnIndexed self arrayIndex
                            (if dpf_setValue dpFlags then valueOrAccessor
                             else HVUndefined)
                        else ret true in
                      if negb result then
                        if getThrowOnError opFlags then raise TypeError else ret false
                      else
                        let* _ :=
                          if updateLength then
                            let* res :=
                              callStatus
                                (JSArray_setLength_uint32 sub self
                                   (uint32_succ arrayIndex) opFlags) in
                            match res with
                            | inr true => ret tt
                            | _ => fault
                            end
                          else ret tt in
                        if newIsIndexed then ret true
                        else
                          let* i := LAZY_TO_IDENTIFIER_once nameVal conv.2 id in
                          addOwnProperty self i dpFlags valueOrAccessor opFlags
                  end
            end
        end
    end.

(** [defineOwnComputed]. *)
Definition defineOwnComputed (fuel : nat) (self : Addr) (nameVal : HermesValue)
    (dpFlags : DefinePropertyFlags) (valueOrAccessor : HermesValue)
    (opFlags : PropOpFlags) : M bool :=
  let* converted := toPropertyKeyIfObject keys nameVal in
  defineOwnComputedPrimitive fuel self converted dpFlags valueOrAccessor opFlags.

(** [createWithException]. *)
Definition createWithException (parentHandle : option Addr) : M HermesValue :=
  let* obj := create_withParent parentHandle in
  ret (HVObject ObjectKind obj).

(** [updatePropertyFlagsWithoutTransitions]; what
    [HiddenClass::updatePropertyFlagsWithoutTransitions] makes of a class is
    not in JSObject.cpp. *)
Definition updatePropertyFlagsWithoutTransitions
    (HiddenClass_updatePropertyFlagsWithoutTransitions :
       HiddenClass → PropertyFlags → PropertyFlags → option (list SymbolID) → HiddenClass)
    (self : Addr) (flagsToClear flagsToSet : PropertyFlags)
    (props : option (list SymbolID)) : M unit :=
  let* o := getObject self in
  let* c := getClassCell (clazz_ o) in
  let* newClazz :=
    allocClass
      (HiddenClass_updatePropertyFlagsWithoutTransitions c flagsToClear flagsToSet props) in
  let* o1 := getObject self in
  putObject self (set_clazz newClazz o1).
End Core.

(** ** Notions the properties are stated with *)

(** The prototype chain that starts at a pointer: the objects met by
    following [parent_] until null. *)
Inductive ProtoChain (rt : Runtime) : option Addr → list Addr → Prop :=
  | ProtoChain_null : ProtoChain rt None []
  | ProtoChain_step a o l :
      objects rt !! a = Some o →
      ProtoChain rt (parent_ o) l →
      ProtoChain rt (Some a) (a :: l).

(** The outcome of a rejected update: "TypeError when throwOnError is set,
    else false", the runtime being as before. *)
Definition rejected (opFlags : PropOpFlags) (rt : Runtime) : Result bool :=
  if getThrowOnError opFlags then Exception TypeError rt else Returned false rt.

(** The descriptor [{value: w}]: only the value is mentioned. *)
Definition valueOnly : DefinePropertyFlags :=
  mkDefinePropertyFlags false false false false false false false false true false.



(** 8.12.9 [6] for an accessor descriptor on an accessor property: every
    flag the descriptor mentions has the current value and every half it
    mentions is the half stored now. *)
Definition AccessorAlreadySatisfied (cur : PropertyFlags) (dpf : DefinePropertyFlags)
    (curA newA : PropertyAccessor) : Prop :=
  (dpf_setEnumerable dpf = true → dpf_enumerable dpf = pf_enumerable cur) ∧
  (dpf_setWritable dpf = true → dpf_writable dpf = pf_writable cur) ∧
  (dpf_setConfigurable dpf = true → dpf_configurable dpf = pf_configurable cur) ∧
  (dpf_setGetter dpf = true → getter curA = getter newA) ∧
  (dpf_setSetter dpf = true → setter curA = setter newA).

(** The accessor a property holds after an accepted update of an accessor
    by an accessor: the mentioned halves of the supplied one, the other
    halves of the current one. *)
Definition mergeAccessor (dpf : DefinePropertyFlags) (cur new : PropertyAccessor)
    : PropertyAccessor :=
  mkPropertyAccessor
    (if dpf_setGetter dpf then getter new else getter cur)
    (if dpf_setSetter dpf then setter new else setter cur).

(** The three operations that restrict an object. *)
Inductive ExtensibilityOp : Type :=
  | OpPreventExtensions
  | OpSeal
  | OpFreeze.

Definition runExtensibilityOp (op : ExtensibilityOp) (self : Addr) : M unit :=
  match op with
  | OpPreventExtensions => preventExtensions self
  | OpSeal => seal self
  | OpFreeze => freeze self
  end.

(** What preventExtensions, seal and freeze leave as it was: every other
    object, every accessor cell, every class cell that existed, and in the
    object itself the parent, the slots and the storage behind the indexed interface. *)
Definition ExtensibilityFrame (rt rt' : Runtime) (self : Addr) (o : JSObject) : Prop :=
  (∃ o', objects rt' !! self = Some o' ∧
         parent_ o' = parent_ o ∧ directProps_ o' = directProps_ o ∧
         propStorage_ o' = propStorage_ o ∧ vt o' = vt o) ∧
  (∀ a, a ≠ self → objects rt' !! a = objects rt !! a) ∧
  accessors rt' = accessors rt ∧
  (∀ a cell, classes rt !! a = Some cell → classes rt' !! a = Some cell).


(** The first step of [deleteNamed]: a lazy object in which the name is not
    found is initialized before the name is looked up again. *)
Definition initializeIfAbsent (ext : Collaborators) (self : Addr) (name : SymbolID)
    : M unit :=
  let* pos := findProperty self name in
  match pos with
  | Some _ => ret tt
  | None =>
      let* o := getObject self in
      if lazyObject (flags_ o) then initializeLazyObject ext self else ret tt
  end.

(** An object of the heap that owns a named property [name]. *)
Definition OwnsNamed (rt : Runtime) (a : Addr) (name : SymbolID) : Prop :=
  ∃ o c, objects rt !! a = Some o ∧ classes rt !! clazz_ o = Some c ∧
         is_Some (HiddenClass_findProperty c name).

(** An object of the heap that owns the indexed slot [i]. *)
Definition OwnsIndexed (rt : Runtime) (a : Addr) (i : N) : Prop :=
  ∃ o, objects rt !! a = Some o ∧ haveOwnIndexed o i = true.

(** The right-hand side of the property of section 8 on
    [hasNamedOrIndexed]: the indexed slot, or a named property with that
    spelling, exists on the object or on an object of its prototype
    chain. *)
Definition OnChainNamedOrIndexed (rt : Runtime) (self : Addr) (name : SymbolID)
    (i : N) : Prop :=
  ∃ chain a, ProtoChain rt (Some self) chain ∧ a ∈ chain ∧
             (OwnsIndexed rt a i ∨ OwnsNamed rt a name).

(** A chain of ordinary objects: each has its class, and none is lazy or a
    host object. *)
Definition OrdinaryChain (rt : Runtime) (chain : list Addr) : Prop :=
  Forall (λ a, ∃ o c, objects rt !! a = Some o ∧ classes rt !! clazz_ o = Some c ∧
                      lazyObject (flags_ o) = false ∧ hostObject (flags_ o) = false)
    chain.

(** No property of the class has an index-like name (a name that parses as
    a uint32 array index). *)
Definition indexLikeFree (c : HiddenClass) : Prop :=
  Forall (λ p, isIndexLikeName p.1 = false) (propertyMap c).

(** The contract of the hidden class on its mark: a class that carries an
    index-like name reports it. *)
Definition classSound (c : HiddenClass) : Prop :=
  hasIndexLikeProperties c = false → indexLikeFree c.

(** Invariant 5 of the data model: an object whose fastIndexProperties flag
    is set has no index-like named property. *)
Definition FastIndexInvariant (rt : Runtime) : Prop :=
  ∀ a o c, objects rt !! a = Some o → classes rt !! clazz_ o = Some c →
           fastIndexProperties (flags_ o) = true → indexLikeFree c.

(** The heap the core works on: every object points to a class cell, the
    classes keep their contract, and invariant 5 holds. *)
Definition HeapInvariant (rt : Runtime) : Prop :=
  (∀ a o, objects rt !! a = Some o → is_Some (classes rt !! clazz_ o)) ∧
  (∀ a c, classes rt !! a = Some c → classSound c) ∧
  FastIndexInvariant rt.

(** An operation keeps the heap invariant: whenever it returns or raises,
    the runtime it leaves satisfies the invariant. *)
Definition Preserves {A} (m : M A) : Prop :=
  ∀ rt, HeapInvariant rt →
        match m rt with
        | Returned _ rt' | Exception _ rt' => HeapInvariant rt'
        | Fault | OutOfFuel => True
        end.

(** What is assumed of the collaborators: they act on the heap through the
    core, so they keep its invariant, and the class registry gives a class
    cell that exists. *)
Record CollaboratorsPreserve (ext : Collaborators) : Prop := {
  registry_preserves : ∀ p (rt : Runtime),
    HeapInvariant rt →
    match getHiddenClassForPrototypeRaw ext p rt with
    | Returned c rt' => HeapInvariant rt' ∧ is_Some (classes rt' !! c)
    | Exception _ rt' => HeapInvariant rt'
    | Fault | OutOfFuel => True
    end;
  lazy_preserves : ∀ a rt,
    HeapInvariant rt → HeapInvariant (Callable_defineLazyProperties ext a rt);
  call0_preserves : ∀ f this, Preserves (Callable_executeCall0 ext f this);
  call1_preserves : ∀ f this v, Preserves (Callable_executeCall1 ext f this v);
  hostGet_preserves : ∀ a name, Preserves (HostObject_get ext a name);
  hostSet_preserves : ∀ a name v, Preserves (HostObject_set ext a name v);
  hostNames_preserves : ∀ a, Preserves (HostObject_getHostPropertyNames ext a);
  setLength_preserves : ∀ a v fl, Preserves (JSArray_setLength ext a v fl);
}.

(** What the operations take beside the collaborators: the conversions
    of keys, the indexed storage of the subclasses, the change of flags
    that the hidden class makes without a transition, and constants and
    the counter of object identities, which belong to the header and to
    the runtime. *)
Record Environment : Type := mkEnvironment {
  env_keys : KeyOperations;
  env_subclasses : SubclassOperations;
  env_updatePropertyFlagsWithoutTransitions :
    HiddenClass → PropertyFlags → PropertyFlags → option (list SymbolID) → HiddenClass;
  env_NumInternalProperties : nat;
  env_objectIDBits : N;
  env_generateNextObjectID : M N;
}.

(** What is assumed of them: the conversions (which may call into
    JavaScript), the writes of the subclasses to their indexed storage and
    the counter keep the invariant of the heap, and the change of flags
    keeps the names of the class with its mark. *)
Record EnvironmentPreserves (env : Environment) : Prop := {
  toString_preserves : ∀ v, Preserves (toString_RJS (env_keys env) v);
  stringToSymbolID_preserves : ∀ s, Preserves (stringToSymbolID (env_keys env) s);
  valueToSymbolID_preserves : ∀ v, Preserves (valueToSymbolID (env_keys env) v);
  toPropertyKeyIfObject_preserves :
    ∀ v, Preserves (toPropertyKeyIfObject (env_keys env) v);
  setOwnIndexed_preserves :
    ∀ a i v, Preserves (subclass_setOwnIndexedImpl (env_subclasses env) a i v);
  deleteOwnIndexed_preserves :
    ∀ a i, Preserves (subclass_deleteOwnIndexedImpl (env_subclasses env) a i);
  setLength_uint32_preserves :
    ∀ a n fl, Preserves (JSArray_setLength_uint32 (env_subclasses env) a n fl);
  generateNextObjectID_preserves : Preserves (env_generateNextObjectID env);
  updatePropertyFlags_names : ∀ c flagsToClear flagsToSet props,
    map fst (propertyMap
               (env_updatePropertyFlagsWithoutTransitions env c flagsToClear flagsToSet
                  props)) = map fst (propertyMap c) ∧
    hasIndexLikeProperties
      (env_updatePropertyFlagsWithoutTransitions env c flagsToClear flagsToSet props) =
    hasIndexLikeProperties c;
}.

(** The operations of the core, as calls: the functions that JSObject.cpp
    defines and that act on the heap, the entry points of the interface
    first. *)
Inductive Operation : Type :=
  | CallCreate
  | CallCreateWithParent (parent : option Addr)
  | CallCreateWithPropertyCount (propertyCount : nat)
  | CallCreateWithClass (clazz : Addr)
  | CallInitializeLazyObject (self : Addr)
  | CallSetParent (self : Addr) (parent : option Addr)
  | CallGetNamed (self : Addr) (name : SymbolID) (opFlags : PropOpFlags) (cache : bool)
  | CallHasNamed (self : Addr) (name : SymbolID)
  | CallHasNamedOrIndexed (self : Addr) (name : SymbolID)
  | CallPutNamed (self : Addr) (name : SymbolID) (value : HermesValue)
      (opFlags : PropOpFlags)
  | CallDeleteNamed (self : Addr) (name : SymbolID) (opFlags : PropOpFlags)
  | CallDefineOwnProperty (self : Addr) (name : SymbolID) (dpFlags : DefinePropertyFlags)
      (value : HermesValue) (opFlags : PropOpFlags)
  | CallDefineNewOwnProperty (self : Addr) (name : SymbolID) (flags : PropertyFlags)
      (value : HermesValue)
  | CallAddOwnProperty (self : Addr) (name : SymbolID) (dpFlags : DefinePropertyFlags)
      (value : HermesValue) (opFlags : PropOpFlags)
  | CallPreventExtensions (self : Addr)
  | CallSeal (self : Addr)
  | CallFreeze (self : Addr)
  | CallIsSealed (self : Addr)
  | CallIsFrozen (self : Addr)
  | CallGetOwnPropertyNames (self : Addr) (onlyEnumerable : bool)
  | CallGetForInPropertyNames (self : Addr)
  | CallGetNamedOrIndexed (self : Addr) (name : SymbolID) (opFlags : PropOpFlags)
  | CallGetComputed (self : Addr) (nameVal : HermesValue)
  | CallHasComputed (self : Addr) (nameVal : HermesValue)
  | CallPutNamedOrIndexed (self : Addr) (name : SymbolID) (value : HermesValue)
      (opFlags : PropOpFlags)
  | CallPutComputed (self : Addr) (nameVal value : HermesValue) (opFlags : PropOpFlags)
  | CallDeleteComputed (self : Addr) (nameVal : HermesValue) (opFlags : PropOpFlags)
  | CallDefineOwnComputed (self : Addr) (nameVal : HermesValue)
      (dpFlags : DefinePropertyFlags) (value : HermesValue) (opFlags : PropOpFlags)
  | CallDefineOwnComputedPrimitive (self : Addr) (nameVal : HermesValue)
      (dpFlags : DefinePropertyFlags) (value : HermesValue) (opFlags : PropOpFlags)
  | CallGetOwnPropertySymbols (self : Addr)
  | CallGetObjectID (self : Addr)
  | CallCreateWithException (parent : option Addr)
  | CallAllocateNewSlotStorage (self : Addr) (newSlotIndex : SlotIndex)
      (value : HermesValue)
  | CallAddInternalProperty (self : Addr) (index : nat) (value : HermesValue)
  | CallAddInternalProperties (self : Addr) (count : nat) (value : HermesValue)
  | CallGetNamedPropertyValue (self propObj : Addr) (desc : NamedPropertyDescriptor)
  | CallGetComputedPropertyValue (self propObj : Addr)
      (desc : ComputedPropertyDescriptor)
  | CallGetOwnComputedPrimitiveDescriptor (self : Addr) (nameVal : HermesValue)
  | CallGetOwnComputedDescriptor (self : Addr) (nameVal : HermesValue)
  | CallGetNamedDescriptor (self : Addr) (name : SymbolID)
  | CallGetComputedPrimitiveDescriptor (self : Addr) (nameVal : HermesValue)
      (desc : ComputedPropertyDescriptor)
  | CallGetComputedDescriptor (self : Addr) (nameVal : HermesValue)
      (desc : ComputedPropertyDescriptor)
  | CallRaiseErrorForOverridingStaticBuiltin (self : Addr) (name : SymbolID)
  | CallSetOwnIndexed (self : Addr) (i : N) (value : HermesValue)
  | CallDeleteOwnIndexed (self : Addr) (i : N)
  | CallUpdatePropertyFlagsWithoutTransitions (self : Addr)
      (flagsToClear flagsToSet : PropertyFlags) (props : option (list SymbolID))
  | CallAddOwnPropertyImpl (self : Addr) (name : SymbolID) (flags : PropertyFlags)
      (value : HermesValue)
  | CallUpdateOwnProperty (self : Addr) (name : SymbolID) (propertyPos : nat)
      (desc : NamedPropertyDescriptor) (dpFlags : DefinePropertyFlags)
      (value : HermesValue) (opFlags : PropOpFlags)
  | CallCheckPropertyUpdate (currentFlags : PropertyFlags)
      (dpFlags : DefinePropertyFlags) (curValueOrAccessor valueOrAccessor : HermesValue)
      (opFlags : PropOpFlags)
  | CallInternalSetter (self : Addr) (name : SymbolID) (desc : NamedPropertyDescriptor)
      (value : HermesValue) (opFlags : PropOpFlags)
  | CallAppendAllPropertyNames (obj : Addr) (arr : list HermesValue) (beginIndex : nat)
  | CallSetProtoClasses (obj : Addr) (arr : list HermesValue)
  | CallMatchesProtoClasses (obj : Addr) (arr : list HermesValue)
  | CallPropertyAccessorCreate (getter setter : option Addr).

Definition discard {A} (m : M A) : M unit := let* _ := m in ret tt.

Definition runOperation (ext : Collaborators) (env : Environment) (fuel : nat)
    (op : Operation) : M unit :=
  let keys := env_keys env in
  let sub := env_subclasses env in
  match op with
  | CallCreate => discard (create ext)
  | CallCreateWithParent p => discard (create_withParent ext p)
  | CallCreateWithPropertyCount n => discard (create_withPropertyCount ext n)
  | CallCreateWithClass c => discard (create_withClass ext c)
  | CallInitializeLazyObject a => initializeLazyObject ext a
  | CallSetParent a p => setParent fuel a p
  | CallGetNamed a n f c => discard (getNamed_RJS ext fuel a n f c)
  | CallHasNamed a n => discard (hasNamed ext fuel a n)
  | CallHasNamedOrIndexed a n => discard (hasNamedOrIndexed ext fuel a n)
  | CallPutNamed a n v f => discard (putNamed_RJS ext fuel a n v f)
  | CallDeleteNamed a n f => discard (deleteNamed ext a n f)
  | CallDefineOwnProperty a n d v f => discard (defineOwnProperty ext fuel a n d v f)
  | CallDefineNewOwnProperty a n p v => defineNewOwnProperty ext a n p v
  | CallAddOwnProperty a n d v f => discard (addOwnProperty ext a n d v f)
  | CallPreventExtensions a => preventExtensions a
  | CallSeal a => seal a
  | CallFreeze a => freeze a
  | CallIsSealed a => discard (isSealed a)
  | CallIsFrozen a => discard (isFrozen a)
  | CallGetOwnPropertyNames a b => discard (getOwnPropertyNames ext a b)
  | CallGetForInPropertyNames a => discard (getForInPropertyNames ext fuel a)
  | CallGetNamedOrIndexed a n f => discard (getNamedOrIndexed ext keys fuel a n f)
  | CallGetComputed a k => discard (getComputed_RJS ext keys fuel a k)
  | CallHasComputed a k => discard (hasComputed ext keys fuel a k)
  | CallPutNamedOrIndexed a n v f => discard (putNamedOrIndexed ext keys sub fuel a n v f)
  | CallPutComputed a k v f => discard (putComputed_RJS ext keys sub fuel a k v f)
  | CallDeleteComputed a k f =>
      discard (deleteComputed ext keys (subclass_deleteOwnIndexedImpl sub) fuel a k f)
  | CallDefineOwnComputed a k d v f =>
      discard (defineOwnComputed ext keys sub fuel a k d v f)
  | CallDefineOwnComputedPrimitive a k d v f =>
      discard (defineOwnComputedPrimitive ext keys sub fuel a k d v f)
  | CallGetOwnPropertySymbols a => discard (getOwnPropertySymbols ext a)
  | CallGetObjectID a =>
      discard (getObjectID (env_objectIDBits env) (env_generateNextObjectID env) a)
  | CallCreateWithException p => discard (createWithException ext p)
  | CallAllocateNewSlotStorage a i v => allocateNewSlotStorage ext a i v
  | CallAddInternalProperty a i v =>
      discard (addInternalProperty ext (env_NumInternalProperties env) a i v)
  | CallAddInternalProperties a n v =>
      addInternalProperties ext (env_NumInternalProperties env) a n v
  | CallGetNamedPropertyValue a p d => discard (getNamedPropertyValue ext a p d)
  | CallGetComputedPropertyValue a p d => discard (getComputedPropertyValue ext a p d)
  | CallGetOwnComputedPrimitiveDescriptor a k =>
      discard (getOwnComputedPrimitiveDescriptor ext keys fuel a k)
  | CallGetOwnComputedDescriptor a k =>
      discard (getOwnComputedDescriptor ext keys fuel a k)
  | CallGetNamedDescriptor a n => discard (getNamedDescriptor ext fuel a n)
  | CallGetComputedPrimitiveDescriptor a k d =>
      discard (getComputedPrimitiveDescriptor ext keys fuel a k d)
  | CallGetComputedDescriptor a k d =>
      discard (getComputedDescriptor ext keys fuel a k d)
  | CallRaiseErrorForOverridingStaticBuiltin a n =>
      raiseErrorForOverridingStaticBuiltin ext fuel a n
  | CallSetOwnIndexed a i v => discard (setOwnIndexed sub a i v)
  | CallDeleteOwnIndexed a i =>
      discard (deleteOwnIndexed (subclass_deleteOwnIndexedImpl sub) a i)
  | CallUpdatePropertyFlagsWithoutTransitions a c s props =>
      updatePropertyFlagsWithoutTransitions
        (env_updatePropertyFlagsWithoutTransitions env) a c s props
  | CallAddOwnPropertyImpl a n p v => addOwnPropertyImpl ext a n p v
  | CallUpdateOwnProperty a n pos d dpf v f =>
      discard (updateOwnProperty ext a n pos d dpf v f)
  | CallCheckPropertyUpdate cur dpf v w f => discard (checkPropertyUpdate cur dpf v w f)
  | CallInternalSetter a n d v f => discard (internalSetter ext a n d v f)
  | CallAppendAllPropertyNames a arr b => discard (appendAllPropertyNames ext fuel a arr b)
  | CallSetProtoClasses a arr => discard (setProtoClasses ext fuel a arr)
  | CallMatchesProtoClasses a arr => discard (matchesProtoClasses fuel a arr)
  | CallPropertyAccessorCreate g s => discard (PropertyAccessor_create g s)
  end.

(** A read of the runtime keeps it. *)
Definition ReadsOnly {A} (m : M A) : Prop :=
  ∀ rt, match m rt with
        | Returned _ rt' | Exception _ rt' => rt' = rt
        | Fault | OutOfFuel => True
        end.

(** *** The order of own property names, as the specification words it

    First the integer-index own names in ascending order (the indexed
    names and the names whose spelling is an integer index, merged), then
    the other named properties in the insertion order of the class, then
    the names of a host object that the class did not already give. *)








Definition emptyClass : HiddenClass := mkHiddenClass [] false false None.

(** Collaborators that do nothing, for concrete runs. *)
Definition idleCollaborators : Collaborators :=
  mkCollaborators 2
    (λ _, allocClass emptyClass)
    (λ _ rt, rt)
    (λ _ _, ret HVUndefined)
    (λ _ _ _, ret HVUndefined)
    (λ _ _, ret HVUndefined)
    (λ _ _ _, ret true)
    (λ _, ret [])
    (λ _, false)
    (λ _ _ _, ret true)
    (λ _ _, true)
    false.


Definition plainObject (parent : option Addr) (clazz : Addr) : JSObject :=
  mkJSObject JSObjectVT parent clazz None [HVEmpty; HVEmpty] ObjectFlags_empty.

(** ** Concrete heaps

    Small heaps on which the operations are run.  Objects live at the
    addresses 1 and 2, classes from 10 on, accessor cells from 20 on and
    the functions of accessors from 30 on. *)

Definition nameX : SymbolID := SymString "x"%string.

Definition dataFlags (enumerable writable configurable : bool) : PropertyFlags :=
  mkPropertyFlags enumerable writable configurable false false false false false.

Definition accessorFlags (enumerable configurable : bool) : PropertyFlags :=
  mkPropertyFlags enumerable false configurable true false false false false.

Definition classOf (props : list (SymbolID * NamedPropertyDescriptor)) : HiddenClass :=
  mkHiddenClass props (existsb (λ p, isIndexLikeName p.1) props) false None.

Definition objectWith (parent : option Addr) (clazz : Addr) (slots : list HermesValue)
    : JSObject :=
  mkJSObject JSObjectVT parent clazz None slots ObjectFlags_empty.

Definition noThrow : PropOpFlags := mkPropOpFlags false false false.

(** Two objects, the second having the first as its prototype. *)
Definition chainHeap : Runtime :=
  mkRuntime
    {[ 1 := plainObject None 10; 2 := plainObject (Some 1) 10 ]}
    {[ 10 := emptyClass ]} ∅ None.

(** [O = {}] after
    [defineOwnProperty(O, "x", {value: 1, writable: false,
    configurable: false, enumerable: true})]. *)
Definition lockedDesc : NamedPropertyDescriptor :=
  mkNamedPropertyDescriptor 0 (dataFlags true false false).

Definition lockedHeap : Runtime :=
  mkRuntime
    {[ 1 := objectWith None 10 [HVNumber (DInt 1); HVEmpty] ]}
    {[ 10 := classOf [(nameX, lockedDesc)] ]} ∅ None.





(** An object whose property [x] is an accessor stored in the cell 20, and
    a second cell, 21, which a caller supplies to redefine the getter. *)
Definition accessorDesc : NamedPropertyDescriptor :=
  mkNamedPropertyDescriptor 0 (accessorFlags true true).

Definition storedAccessor : PropertyAccessor := mkPropertyAccessor (Some 30) (Some 31).
Definition suppliedAccessor : PropertyAccessor := mkPropertyAccessor (Some 32) None.

Definition getterOnly : DefinePropertyFlags :=
  mkDefinePropertyFlags false false false false false false true false false false.

Definition accessorHeap : Runtime :=
  mkRuntime
    {[ 1 := objectWith None 10 [HVObject PropertyAccessorKind 20; HVEmpty] ]}
    {[ 10 := classOf [(nameX, accessorDesc)] ]}
    {[ 20 := storedAccessor; 21 := suppliedAccessor ]} None.

(** The heap after the supplied cell has been merged and stored. *)
Definition accessorHeap_merged : Runtime :=
  mkRuntime
    {[ 1 := objectWith None 10 [HVObject PropertyAccessorKind 21; HVEmpty] ]}
    {[ 10 := classOf [(nameX, accessorDesc)] ]}
    {[ 20 := storedAccessor; 21 := mkPropertyAccessor (Some 32) (Some 31) ]} None.

(** The reading of the specification's words on two accessors: the cell
    that was stored before the call, at [ca], is still the one the slot
    refers to, and it holds the merged accessor. *)
Definition MergedInStoredCell (ext : Collaborators) (rt' : Runtime) (self : Addr)
    (desc : NamedPropertyDescriptor) (ca : Addr) (merged : PropertyAccessor) : Prop :=
  ∃ o', objects rt' !! self = Some o' ∧
        getNamedSlotValue ext o' desc = Some (HVObject PropertyAccessorKind ca) ∧
        accessors rt' !! ca = Some merged.

(** An ordinary object whose prototype carries the indexed slot 5. *)
Definition name5 : SymbolID := SymString "5"%string.

Definition indexedObject (parent : option Addr) (clazz : Addr) (range : N * N)
    (elems : gmap N (PropertyFlags * HermesValue)) : JSObject :=
  mkJSObject (IndexedVT range elems) parent clazz None [HVEmpty; HVEmpty]
    (mkObjectFlags false false false true true false false 0).

Definition indexedProtoHeap : Runtime :=
  mkRuntime
    {[ 1 := plainObject (Some 2) 10;
       2 := indexedObject None 10 (0%N, 6%N)
              {[ 5%N := (dataFlags true true true, HVNumber (DInt 7)) ]} ]}
    {[ 10 := emptyClass ]} ∅ None.







(** An object with one configurable property [x], and the same object with
    a prototype on which [x] is an accessor with a setter. *)
Definition openDesc : NamedPropertyDescriptor :=
  mkNamedPropertyDescriptor 0 (dataFlags true true true).

Definition openHeap : Runtime :=
  mkRuntime
    {[ 1 := objectWith None 10 [HVNumber (DInt 1); HVEmpty] ]}
    {[ 10 := classOf [(nameX, openDesc)] ]} ∅ None.


(** A lazy object, not yet initialized, whose class is empty. *)
Definition lazyHeap : Runtime :=
  mkRuntime
    {[ 1 := mkJSObject JSObjectVT None 10 None [HVEmpty; HVEmpty]
              (mkObjectFlags false false false false false false true 0) ]}
    {[ 10 := emptyClass ]} ∅ None.

(** [O = {a}] whose prototype is [P = {b, c}]. *)
Definition forInHeap : Runtime :=
  mkRuntime
    {[ 1 := objectWith (Some 2) 10 [HVNumber (DInt 1); HVEmpty];
       2 := objectWith None 11 [HVNumber (DInt 2); HVNumber (DInt 3)] ]}
    {[ 10 := classOf [(SymString "a"%string, openDesc)];
       11 := classOf
               [ (SymString "b"%string, openDesc);
                 (SymString "c"%string,
                  mkNamedPropertyDescriptor 1 (dataFlags true true true)) ] ]}
    ∅ None.

(** The array of the for-in cache of [O]: the classes of the prototypes,
    null, then the names. *)
Definition forInArray : list HermesValue :=
  [ HVObject HiddenClassKind 11; HVNull;
    HVString "a"%string; HVString "b"%string; HVString "c"%string ].

(** An object that keeps its indexed names in the indexed storage only:
    fastIndexProperties is set, and its one named property is [x]. *)
Definition fastHeap : Runtime :=
  mkRuntime
    {[ 1 := mkJSObject (IndexedVT (0%N, 0%N) ∅) None 10 None
              [HVNumber (DInt 1); HVEmpty]
              (mkObjectFlags false false false true true false false 0) ]}
    {[ 10 := classOf [(nameX, openDesc)] ]} ∅ None.

Definition newDataProperty : DefinePropertyFlags :=
  mkDefinePropertyFlags true true true true true true false false true false.

(** ** Properties beyond the specification's list *)


(** The descriptor under which an object of the heap owns a name. *)
Definition ownDescriptor (rt : Runtime) (a : Addr) (name : SymbolID)
    : option NamedPropertyDescriptor :=
  match objects rt !! a with
  | Some o =>
      match classes rt !! clazz_ o with
      | Some c => snd <$> HiddenClass_findProperty c name
      | None => None
      end
  | None => None
  end.

(** The nearest object of a chain that owns a name, with its descriptor. *)
Fixpoint lookupChain (rt : Runtime) (chain : list Addr) (name : SymbolID)
    : option (Addr * NamedPropertyDescriptor) :=
  match chain with
  | [] => None
  | a :: rest =>
      match ownDescriptor rt a name with
      | Some d => Some (a, d)
      | None => lookupChain rt rest name
      end
  end.

(** The storage of an object has the shape its class expects: all the
    inline slots are there, and the indirect storage holds every slot the
    class has given out beyond them (the contiguity the assertions of
    [allocateNewSlotStorage] rely on). *)
Definition SlotsWellFormed (ext : Collaborators) (o : JSObject) (c : HiddenClass)
    : Prop :=
  length (directProps_ o) = DIRECT_PROPERTY_SLOTS ext ∧
  nextSlot (propertyMap c) ≤
    DIRECT_PROPERTY_SLOTS ext +
    match propStorage_ o with Some ps => length ps | None => 0 end.

(** The flags [addOwnProperty] gives a new property: the mentioned fields
    of the descriptor, the others clear. *)
Definition newPropertyFlags (dpf : DefinePropertyFlags) : PropertyFlags :=
  mkPropertyFlags
    (dpf_setEnumerable dpf && dpf_enumerable dpf)
    (negb (dpf_isAccessor dpf) && dpf_setWritable dpf && dpf_writable dpf)
    (dpf_setConfigurable dpf && dpf_configurable dpf)
    (dpf_isAccessor dpf)
    (dpf_enableInternalSetter dpf)
    false false false.

(** The classes of the objects of a chain, in order. *)
Definition chainClasses (rt : Runtime) (chain : list Addr) : list Addr :=
  omap (λ a, clazz_ <$> objects rt !! a) chain.

(** The prefix of a for-in array for the classes [cls]: the class pointers
    and the null that ends them. *)
Definition classPrefix (cls : list Addr) : list HermesValue :=
  map (HVObject HiddenClassKind) cls ++ [HVNull].

(** The heap in which the class cell at [a], whose content was [c], has
    the for-in cache [cache]. *)
Definition withForInCache (rt : Runtime) (a : Addr) (c : HiddenClass)
    (cache : option (list HermesValue)) : Runtime :=
  set_classes
    (<[a := mkHiddenClass (propertyMap c) (hasIndexLikeProperties c)
              (dictionaryMode c) cache]> (classes rt)) rt.

(** The entries of a class that holds the first [count] internal
    properties and nothing else: the name number [i] at the slot [i]. *)
Definition internalEntries (count : nat) : list (SymbolID * NamedPropertyDescriptor) :=
  map (λ i, (InternalProperty_getSymbolID i,
             mkNamedPropertyDescriptor i PropertyFlags_empty)) (seq 0 count).

(** The flags of a data property after it is redefined with a data
    descriptor: each mentioned field is taken from the descriptor, the
    others stay. *)
Definition mergeDataFlags (cur : PropertyFlags) (dpf : DefinePropertyFlags)
    : PropertyFlags :=
  mkPropertyFlags
    (if dpf_setEnumerable dpf then dpf_enumerable dpf else pf_enumerable cur)
    (if dpf_setWritable dpf then dpf_writable dpf else pf_writable cur)
    (if dpf_setConfigurable dpf then dpf_configurable dpf else pf_configurable cur)
    false (pf_internalSetter cur) (pf_hostObject cur) (pf_staticBuiltin cur)
    (pf_indexed cur).

(** The descriptor under which an object owns a computed key, the key
    being given by its array index on the fast path, [fp], and by its
    name, [id]: an object with fastIndexProperties answers an index from
    its indexed storage alone; any other looks the name up, and then the
    index when it has indexed storage. *)
Definition ownComputedDescriptor (o : JSObject) (c : HiddenClass) (fp : option N)
    (id : SymbolID) : option NamedPropertyDescriptor :=
  match (if fastIndexProperties (flags_ o) then fp else None) with
  | Some i => (λ res, indexedDescriptor res i) <$> getOwnIndexedPropertyFlags o i
  | None =>
      match HiddenClass_findProperty c id with
      | Some (_, d) => Some d
      | None =>
          if indexedStorage (flags_ o) then
            match fp with
            | Some i =>
                (λ res, indexedDescriptor res i) <$> getOwnIndexedPropertyFlags o i
            | None => None
            end
          else None
      end
  end.

(** The nearest object of a chain that owns a computed key. *)
Fixpoint lookupComputed (rt : Runtime) (chain : list Addr) (fp : option N)
    (id : SymbolID) : option (Addr * NamedPropertyDescriptor) :=
  match chain with
  | [] => None
  | a :: rest =>
      match
        (match objects rt !! a with
         | Some o =>
             match classes rt !! clazz_ o with
             | Some c => ownComputedDescriptor o c fp id
             | None => None
             end
         | None => None
         end)
      with
      | Some d => Some (a, d)
      | None => lookupComputed rt rest fp id
      end
  end.

(** The objects of a chain keep to the data model: one with
    fastIndexProperties has no index-like named property, and one without
    indexed storage owns no indexed slot. *)
Definition IndexedStorageSound (rt : Runtime) (chain : list Addr) : Prop :=
  Forall (λ a, ∀ o, objects rt !! a = Some o →
                    (∀ c, classes rt !! clazz_ o = Some c →
                          fastIndexProperties (flags_ o) = true → indexLikeFree c) ∧
                    (indexedStorage (flags_ o) = false →
                     ∀ i, haveOwnIndexed o i = false))
    chain.

(** The objects of a chain have named properties only: none has indexed
    storage, and no descriptor of their classes is marked indexed or as
    belonging to a host object. *)
Definition NamedOnly (rt : Runtime) (chain : list Addr) : Prop :=
  Forall (λ a, ∀ o, objects rt !! a = Some o →
                    indexedStorage (flags_ o) = false ∧
                    ∀ c, classes rt !! clazz_ o = Some c →
                         Forall (λ p, pf_indexed (desc_flags p.2) = false ∧
                                      pf_hostObject (desc_flags p.2) = false)
                           (propertyMap c))
    chain.

(** The element at an index that a chain gives: that of the nearest
    object whose indexed storage has the index. *)
Fixpoint nearestIndexed (rt : Runtime) (chain : list Addr) (i : N)
    : option HermesValue :=
  match chain with
  | [] => None
  | a :: rest =>
      match objects rt !! a with
      | Some o =>
          match getOwnIndexedPropertyFlags o i with
          | Some _ => Some (getOwnIndexed o i)
          | None => nearestIndexed rt rest i
          end
      | None => None
      end
  end.

(** Every object of a chain has fastIndexProperties, and its element at
    [i], if any, is a plain data element. *)
Definition FastIndexedChain (rt : Runtime) (chain : list Addr) (i : N) : Prop :=
  Forall (λ a, ∀ o, objects rt !! a = Some o →
                    fastIndexProperties (flags_ o) = true ∧
                    ∀ res, getOwnIndexedPropertyFlags o i = Some res →
                           pf_accessor res = false ∧ pf_hostObject res = false)
    chain.

(** The own enumerable names of an object of the heap, as
    [getOwnPropertyNames] reports them. *)
Definition ownNamesOf (ext : Collaborators) (rt : Runtime) (a : Addr)
    : list HermesValue :=
  match getOwnPropertyNames ext a true rt with
  | Returned names _ => names
  | _ => []
  end.

(** ** Further concrete heaps *)

(** An object with the symbol-keyed property 7 and the property [x]. *)
Definition symbolHeap : Runtime :=
  mkRuntime
    {[ 1 := objectWith None 10 [HVNumber (DInt 1); HVNumber (DInt 2)] ]}
    {[ 10 := classOf
               [ (SymPrimitive 7, openDesc);
                 (nameX, mkNamedPropertyDescriptor 1 (dataFlags true true true)) ] ]}
    ∅ None.

(** [O = {x: 1}] whose prototype is [P = {x: 2}]. *)
Definition shadowHeap : Runtime :=
  mkRuntime
    {[ 1 := objectWith (Some 2) 10 [HVNumber (DInt 1); HVEmpty];
       2 := objectWith None 10 [HVNumber (DInt 2); HVEmpty] ]}
    {[ 10 := classOf [(nameX, openDesc)] ]} ∅ None.

(** An array-like object without elements whose prototype is array-like
    and has the element 5. *)
Definition arrayChainHeap : Runtime :=
  mkRuntime
    {[ 1 := indexedObject (Some 2) 10 (0%N, 0%N) ∅;
       2 := indexedObject None 10 (0%N, 6%N)
              {[ 5%N := (dataFlags true true true, HVNumber (DInt 7)) ]} ]}
    {[ 10 := emptyClass ]} ∅ None.


(** The first object of the heap of two objects, with the object ID 7. *)
Definition chainHeap_withID : Runtime :=
  set_objects
    (<[1 := set_flags (set_objectID 7 (flags_ (plainObject None 10)))
              (plainObject None 10)]> (objects chainHeap)) chainHeap.

(** The descriptor [{get: g, set: s, enumerable: true, configurable: true}]. *)
Definition newAccessorProperty : DefinePropertyFlags :=
  mkDefinePropertyFlags true true false false true true true true false false.

(** Key conversions for concrete runs: a number that is an array index is
    one on the fast path, a string is interned to the name it spells and a
    number to its decimal spelling; other values are refused as keys. *)
Definition exampleKeys : KeyOperations :=
  mkKeyOperations
    (λ v, match v with
          | HVNumber (DInt z) =>
              if ((0 <=? z) && (z <? 4294967295))%Z then Some (Z.to_N z) else None
          | _ => None
          end)
    (λ v, match v with
          | HVString s => ret s
          | HVNumber (DInt z) => ret (pretty z)
          | _ => raise TypeError
          end)
    (λ s, ret (SymString s))
    (λ v, match v with
          | HVString s => ret (SymString s)
          | HVSymbol id => ret id
          | HVNumber (DInt z) => ret (SymString (pretty z))
          | _ => raise TypeError
          end)
    ret.

(** Subclasses that refuse every write to the indexed storage, and an
    environment made of them and of the key conversions above, for
    concrete runs. *)
Definition idleSubclasses : SubclassOperations :=
  mkSubclassOperations (λ _ _ _, ret false) (λ _ _, ret false) (λ _, 0%N)
    (λ _ _ _, ret true).

Definition idleEnvironment : Environment :=
  mkEnvironment exampleKeys idleSubclasses (λ c _ _ _, c) 0 24%N (ret 1%N).

(** The descriptor of a data property that is not enumerable, which the
    indexed storage cannot hold. *)
Definition hiddenData : DefinePropertyFlags :=
  mkDefinePropertyFlags false true true true true true false false true false.

(** * Properties *)

Section Properties.
Context (ext : Collaborators).

(** Unfolding of the monad of operations. *)
Ltac munfold :=
  repeat progress
    unfold getObject, getClassCell, getAccessorCell, putObject, putClassCell,
      putAccessorCell, deref, bind, ret, raise, fault, outOfFuel, getRuntime,
      modifyRuntime in *.

(** ** Prototype manipulation *)

Lemma setParent_loop_chain rt self cur chain fuel :
  ProtoChain rt cur chain →
  length chain ≤ fuel →
  setParent_loop fuel self cur rt = Returned (bool_decide (self ∈ chain)) rt.
Proof.
  intros Hc. revert fuel. induction Hc as [|a o l Ha Hc IH]; intros fuel Hf.
  - by destruct fuel.
  - simpl in Hf. destruct fuel as [|fuel]; [lia|].
    cbn [setParent_loop]. destruct (decide (a = self)) as [->|Hne].
    + rewrite !bool_decide_eq_true_2; [reflexivity|set_solver|done].
    + rewrite (bool_decide_eq_false_2 (a = self)); [|done].
      unfold bind, getObject. rewrite Ha. cbn.
      rewrite IH; [|lia]. f_equal.
      apply bool_decide_ext. set_solver.
Qed.

(** C1. setParent(O, A): succeeds without a change when A is already O's
    parent, even when O is not extensible; otherwise raises TypeError when O
    is not extensible; otherwise raises TypeError, leaving the runtime (and so
    O's parent field) as it was, when the walk of A's parent chain reaches O;
    otherwise succeeds and O's parent becomes A. *)
Theorem setParent_spec rt self o A chain fuel :
  objects rt !! self = Some o →
  ProtoChain rt A chain →
  length chain ≤ fuel →
  setParent fuel self A rt =
    if bool_decide (parent_ o = A) then Returned tt rt
    else if noExtend (flags_ o) then Exception TypeError rt
    else if bool_decide (self ∈ chain) then Exception TypeError rt
    else Returned tt (set_objects (<[self := set_parent A o]> (objects rt)) rt).
Proof.
  intros Ho Hc Hf. unfold setParent, bind, getObject. rewrite Ho. cbn.
  case_bool_decide; [done|].
  unfold isExtensible. destruct (noExtend (flags_ o)); cbn; [done|].
  rewrite (setParent_loop_chain _ _ _ _ _ Hc Hf).
  by case_bool_decide.
Qed.


(** ** DefineProperty on a non-configurable property *)





Lemma findProperty_eq rt self o c name :
  objects rt !! self = Some o →
  classes rt !! clazz_ o = Some c →
  findProperty self name rt = Returned (HiddenClass_findProperty c name) rt.
Proof.
  intros Ho Hc. unfold findProperty. munfold. rewrite Ho. cbn. by rewrite Hc.
Qed.

Lemma readNamedSlot_eq rt self o desc v :
  objects rt !! self = Some o →
  getNamedSlotValue ext o desc = Some v →
  readNamedSlot ext self desc rt = Returned v rt.
Proof.
  intros Ho Hv. unfold readNamedSlot. munfold. rewrite Ho. cbn. by rewrite Hv.
Qed.

Lemma defineOwnProperty_found rt self o c name pos desc fuel dpf w opFlags :
  objects rt !! self = Some o →
  classes rt !! clazz_ o = Some c →
  HiddenClass_findProperty c name = Some (pos, desc) →
  defineOwnProperty ext fuel self name dpf w opFlags rt =
  updateOwnProperty ext self name pos desc dpf w opFlags rt.
Proof.
  intros Ho Hc Hf.
  destruct fuel; cbn [defineOwnProperty]; unfold bind at 1;
    rewrite (findProperty_eq _ _ _ _ _ Ho Hc), Hf; reflexivity.
Qed.





(** ** Two accessors *)

Lemma setNamedSlotValue_get o desc v w :
  getNamedSlotValue ext o desc = Some v →
  ∃ o', setNamedSlotValue ext o desc w = Some o' ∧
        getNamedSlotValue ext o' desc = Some w ∧
        parent_ o' = parent_ o ∧ clazz_ o' = clazz_ o ∧ flags_ o' = flags_ o ∧
        vt o' = vt o.
Proof.
  unfold getNamedSlotValue, setNamedSlotValue. intros Hv.
  destruct (desc_slot desc <? DIRECT_PROPERTY_SLOTS ext) eqn:Hd.
  - apply lookup_lt_Some in Hv as Hlt.
    apply Nat.ltb_lt in Hlt as Hlt'. rewrite Hlt'.
    eexists. split; [reflexivity|]. cbn.
    by rewrite list_lookup_insert_eq.
  - destruct (propStorage_ o) as [ps|]; [|done].
    apply lookup_lt_Some in Hv as Hlt.
    apply Nat.ltb_lt in Hlt as Hlt'. rewrite Hlt'.
    eexists. split; [reflexivity|]. cbn.
    by rewrite list_lookup_insert_eq.
Qed.

Lemma getNamedSlotValue_set_clazz o c desc :
  getNamedSlotValue ext (set_clazz c o) desc = getNamedSlotValue ext o desc.
Proof. reflexivity. Qed.

Lemma bind_Returned {A B} (m : M A) (f : A → M B) rt a rt' :
  m rt = Returned a rt' → bind m f rt = f a rt'.
Proof. intros H. unfold bind. by rewrite H. Qed.

Lemma vmcast_PropertyAccessor_eq rt a cell :
  accessors rt !! a = Some cell →
  vmcast_PropertyAccessor (HVObject PropertyAccessorKind a) rt = Returned (a, cell) rt.
Proof. intros H. cbn. munfold. by rewrite H. Qed.

Lemma checkPropertyUpdate_same_accessors cur dpf ca na curA newA rt :
  pf_accessor cur = true →
  dpf_isAccessor dpf = true →
  accessors rt !! ca = Some curA →
  accessors rt !! na = Some newA →
  ∃ b, checkPropertyUpdate_same cur dpf (HVObject PropertyAccessorKind ca)
         (HVObject PropertyAccessorKind na) rt = Returned b rt ∧
       (b = true ↔ AccessorAlreadySatisfied cur dpf curA newA) ∧
       (b = true → mergeAccessor dpf curA newA = curA).
Proof.
  intros Hacc Hia Hca Hna. unfold checkPropertyUpdate_same, AccessorAlreadySatisfied.
  rewrite Hia, Hacc.
  match goal with |- context [if ?c then _ else _] => destruct c eqn:Hflags end.
  - rewrite (bind_Returned _ _ _ _ _ (vmcast_PropertyAccessor_eq _ _ _ Hca)).
    rewrite (bind_Returned _ _ _ _ _ (vmcast_PropertyAccessor_eq _ _ _ Hna)).
    eexists. split; [reflexivity|]. cbn [fst snd]. split.
    + destruct (dpf_setEnumerable dpf), (dpf_setWritable dpf),
        (dpf_setConfigurable dpf), (dpf_setGetter dpf), (dpf_setSetter dpf);
        cbn [negb orb andb] in *;
        repeat match goal with
               | H : context [bool_decide ?P] |- _ => destruct (bool_decide_reflect P)
               | |- context [bool_decide ?P] => destruct (bool_decide_reflect P)
               end; cbn [negb orb andb] in *; try done;
        (split; [done|]); intros (? & ? & ? & ? & ?); auto; done.
    + intros Hb. apply andb_prop in Hb as [Hg Hs]. unfold mergeAccessor.
      destruct curA as [cg cs], newA as [ng ns]. cbn in *.
      destruct (dpf_setGetter dpf), (dpf_setSetter dpf); cbn in *;
        repeat case_bool_decide; try done; by subst.
  - eexists. split; [reflexivity|]. split; [|done]. split; [done|].
    intros (He & Hw & Hc & _). exfalso.
    destruct (dpf_setEnumerable dpf), (dpf_setWritable dpf),
      (dpf_setConfigurable dpf); cbn [negb orb andb] in *;
      repeat match goal with
             | H : context [bool_decide ?P] |- _ => destruct (bool_decide_reflect P)
             end; cbn [negb orb andb] in *; try done; auto.
Qed.

Lemma insert_accessor_id rt na newA :
  accessors rt !! na = Some newA →
  set_accessors (<[na := newA]> (accessors rt)) rt = rt.
Proof. intros H. destruct rt. unfold set_accessors. cbn in *. by rewrite insert_id. Qed.

Lemma checkPropertyUpdate_validate_accessors cur dpf ca na curA newA rt :
  pf_accessor cur = true →
  dpf_isAccessor dpf = true →
  accessors rt !! ca = Some curA →
  accessors rt !! na = Some newA →
  checkPropertyUpdate_validate cur dpf (HVObject PropertyAccessorKind ca)
    (HVObject PropertyAccessorKind na) rt = Returned None rt ∨
  checkPropertyUpdate_validate cur dpf (HVObject PropertyAccessorKind ca)
    (HVObject PropertyAccessorKind na) rt =
  Returned (Some cur)
    (set_accessors (<[na := mergeAccessor dpf curA newA]> (accessors rt)) rt).
Proof.
  intros Hacc Hia Hca Hna. unfold checkPropertyUpdate_validate.
  rewrite Hia, Hacc.
  assert (dpf_setValue dpf || dpf_setWritable dpf || dpf_setGetter dpf ||
          dpf_setSetter dpf = true) as ->.
  { unfold dpf_isAccessor in Hia.
    destruct (dpf_setGetter dpf), (dpf_setSetter dpf); try done;
      by rewrite ?orb_true_r. }
  cbn [negb]. rewrite (bool_decide_eq_true_2 (true = true)) by done. cbn [negb].
  rewrite (bind_Returned _ _ _ _ _ (vmcast_PropertyAccessor_eq _ _ _ Hca)).
  rewrite (bind_Returned _ _ _ _ _ (vmcast_PropertyAccessor_eq _ _ _ Hna)).
  cbn [fst snd].
  match goal with |- context [if ?c then _ else _] => destruct c end;
    [by left|right].
  unfold dpf_isAccessor in Hia. unfold mergeAccessor.
  destruct curA as [cg cs], newA as [ng ns].
  pose proof (insert_accessor_id _ _ _ Hna) as Hid.
  destruct (dpf_setGetter dpf), (dpf_setSetter dpf); try discriminate Hia;
    cbn; munfold; cbn; rewrite ?Hca, ?Hna; cbn; rewrite ?Hid; try reflexivity.
Qed.

Lemma checkPropertyUpdate_accessors cur dpf ca na curA newA opFlags rt :
  pf_accessor cur = true →
  dpf_isAccessor dpf = true →
  dpf_setValue dpf = false →
  accessors rt !! ca = Some curA →
  accessors rt !! na = Some newA →
  (checkPropertyUpdate cur dpf (HVObject PropertyAccessorKind ca)
     (HVObject PropertyAccessorKind na) opFlags rt = Returned (done, cur) rt ∧
   AccessorAlreadySatisfied cur dpf curA newA ∧
   mergeAccessor dpf curA newA = curA) ∨
  (¬ AccessorAlreadySatisfied cur dpf curA newA ∧
   (checkPropertyUpdate cur dpf (HVObject PropertyAccessorKind ca)
      (HVObject PropertyAccessorKind na) opFlags rt = rejectUpdate opFlags rt ∨
    ∃ newFlags,
      checkPropertyUpdate cur dpf (HVObject PropertyAccessorKind ca)
        (HVObject PropertyAccessorKind na) opFlags rt =
      Returned (needSet, newFlags)
        (set_accessors (<[na := mergeAccessor dpf curA newA]> (accessors rt)) rt))).
Proof.
  intros Hacc Hia Hsv Hca Hna.
  assert (dpf_isEmpty dpf = false) as He.
  { unfold dpf_isEmpty. unfold dpf_isAccessor in Hia.
    destruct (dpf_setGetter dpf), (dpf_setSetter dpf); try done;
      by rewrite ?orb_true_r. }
  unfold checkPropertyUpdate. rewrite He.
  destruct (checkPropertyUpdate_same_accessors cur dpf ca na curA newA rt)
    as (b & Hsame & Hiff & Hb); [done..|].
  rewrite (bind_Returned _ _ _ _ _ Hsame).
  destruct b; [left; split; [reflexivity|split; [by apply Hiff|by apply Hb]]|right].
  split; [intros Hsat; by apply Hiff in Hsat|].
  match goal with |- context [if ?c then _ else _] => destruct c end; [by left|].
  match goal with |- context [if ?c then _ else _] => destruct c end; [by left|].
  destruct (checkPropertyUpdate_validate_accessors cur dpf ca na curA newA rt)
    as [Hv|Hv]; [done..| |].
  - left. by rewrite (bind_Returned _ _ _ _ _ Hv).
  - right. rewrite (bind_Returned _ _ _ _ _ Hv). rewrite Hsv, Hia.
    eexists. reflexivity.
Qed.

Lemma allocClass_eq rt c :
  allocClass c rt =
  Returned (fresh (dom (classes rt)))
    (set_classes (<[fresh (dom (classes rt)) := c]> (classes rt)) rt).
Proof. reflexivity. Qed.

Lemma writeNamedSlot_eq rt self o desc v w :
  objects rt !! self = Some o →
  getNamedSlotValue ext o desc = Some v →
  ∃ o', setNamedSlotValue ext o desc w = Some o' ∧
        writeNamedSlot ext self desc w rt =
          Returned tt (set_objects (<[self := o']> (objects rt)) rt).
Proof.
  intros Ho Hv.
  destruct (setNamedSlotValue_get o desc v w Hv) as (o' & Hs & _).
  exists o'. split; [done|]. unfold writeNamedSlot. munfold.
  rewrite Ho. cbn. by rewrite Hs.
Qed.

(** C3 (amended). On an existing own accessor property, an accepted
    defineOwnProperty whose descriptor is an accessor leaves the property
    with the mentioned halves of the supplied accessor and the other halves
    of the accessor stored before.  When every field the descriptor
    mentions already has the current value (the flags and the mentioned
    halves), nothing is changed and the stored cell stays in the slot;
    otherwise the merge is made in the supplied cell, which is then the
    cell the slot points to.  The cell stored before keeps its halves when
    it is another cell. *)
Theorem defineOwnProperty_two_accessors
    rt self o c x pos desc ca na curA newA dpf fuel opFlags rt' :
  objects rt !! self = Some o →
  classes rt !! clazz_ o = Some c →
  HiddenClass_findProperty c x = Some (pos, desc) →
  pf_accessor (desc_flags desc) = true →
  getNamedSlotValue ext o desc = Some (HVObject PropertyAccessorKind ca) →
  accessors rt !! ca = Some curA →
  accessors rt !! na = Some newA →
  dpf_isAccessor dpf = true →
  dpf_setValue dpf = false →
  defineOwnProperty ext fuel self x dpf (HVObject PropertyAccessorKind na) opFlags rt
    = Returned true rt' →
  ∃ o' a',
    objects rt' !! self = Some o' ∧
    getNamedSlotValue ext o' desc = Some (HVObject PropertyAccessorKind a') ∧
    accessors rt' !! a' = Some (mergeAccessor dpf curA newA) ∧
    (AccessorAlreadySatisfied (desc_flags desc) dpf curA newA → rt' = rt ∧ a' = ca) ∧
    (¬ AccessorAlreadySatisfied (desc_flags desc) dpf curA newA → a' = na) ∧
    (ca ≠ na → accessors rt' !! ca = Some curA).
Proof.
  intros Ho Hc Hf Hacc Hv Hca Hna Hia Hsv.
  rewrite (defineOwnProperty_found _ _ _ _ _ _ _ _ _ _ _ Ho Hc Hf).
  unfold updateOwnProperty.
  rewrite (bind_Returned _ _ _ _ _ (readNamedSlot_eq _ _ _ _ _ Ho Hv)).
  destruct (checkPropertyUpdate_accessors (desc_flags desc) dpf ca na curA newA
              opFlags rt) as [(Hd & Hsat & Hm)|[Hnsat [Hr|[newFlags Hn]]]]; [done..| | |].
  - rewrite (bind_Returned _ _ _ _ _ Hd). cbn [fst snd].
    rewrite (bool_decide_eq_false_2 (done = failed)) by discriminate.
    rewrite (bool_decide_eq_true_2 (desc_flags desc = _)) by reflexivity.
    cbn [negb]. unfold bind at 1. unfold ret at 1.
    rewrite (bool_decide_eq_true_2 (done = done)) by reflexivity.
    intros [= <-]. exists o, ca. rewrite Hm.
    split; [done|]. split; [done|]. split; [done|]. split; [done|]. split; [done|done].
  - unfold bind at 1. rewrite Hr. unfold rejectUpdate.
    destruct (getThrowOnError opFlags); [done|].
    cbn. rewrite (bool_decide_eq_true_2 (failed = failed)) by reflexivity. done.
  - rewrite (bind_Returned _ _ _ _ _ Hn). cbn [fst snd].
    rewrite (bool_decide_eq_false_2 (needSet = failed)) by discriminate.
    rewrite (bool_decide_eq_false_2 (needSet = done)) by discriminate.
    rewrite Hsv, Hia.
    set (rt1 := set_accessors _ rt) in *.
    assert (objects rt1 !! self = Some o) as Ho1 by done.
    assert (accessors rt1 !! na = Some (mergeAccessor dpf curA newA)) as Hna1
      by apply lookup_insert_eq.
    assert (ca ≠ na → accessors rt1 !! ca = Some curA) as Hca1.
    { intros Hne. unfold rt1. cbn. by rewrite lookup_insert_ne. }
    destruct (bool_decide (newFlags = desc_flags desc)); cbn [negb].
    + unfold bind at 1. unfold ret at 1.
      destruct (writeNamedSlot_eq rt1 self o desc _ (HVObject PropertyAccessorKind na)
                  Ho1 Hv) as (o' & Hs & Hw).
      rewrite (bind_Returned _ _ _ _ _ Hw). intros [= <-].
      destruct (setNamedSlotValue_get o desc _ (HVObject PropertyAccessorKind na) Hv)
        as (o'' & Hs' & Hg & _).
      rewrite Hs in Hs'. injection Hs' as <-.
      exists o', na. cbn. rewrite lookup_insert_eq.
      split; [done|]. split; [done|]. split; [done|]. split; [done|]. split; [done|done].
    + assert (classes rt1 !! clazz_ o = Some c) as Hc1 by done.
      unfold bind at 1. unfold bind at 1. unfold getObject at 1. rewrite Ho1.
      cbn [deref]. unfold ret at 1. unfold bind at 1.
      unfold HiddenClass_updateProperty. unfold bind at 1.
      unfold getClassCell at 1. rewrite Hc1. cbn [deref]. unfold ret at 1.
      rewrite allocClass_eq.
      set (nc := fresh (dom (classes rt1))).
      set (rt2 := set_classes _ rt1).
      unfold bind at 1. unfold putObject at 1, modifyRuntime at 1.
      unfold ret at 1.
      set (o2 := set_clazz nc o).
      set (rt3 := set_objects _ rt2).
      assert (objects rt3 !! self = Some o2) as Ho3 by apply lookup_insert_eq.
      set (desc' := mkNamedPropertyDescriptor (desc_slot desc) newFlags).
      assert (getNamedSlotValue ext o2 desc' =
              Some (HVObject PropertyAccessorKind ca)) as Hv3 by exact Hv.
      destruct (writeNamedSlot_eq rt3 self o2 desc' _ (HVObject PropertyAccessorKind na)
                  Ho3 Hv3) as (o' & Hs & Hw).
      rewrite (bind_Returned _ _ _ _ _ Hw). intros [= <-].
      destruct (setNamedSlotValue_get o2 desc' _ (HVObject PropertyAccessorKind na) Hv3)
        as (o'' & Hs' & Hg & _).
      rewrite Hs in Hs'. injection Hs' as <-.
      exists o', na. cbn. rewrite lookup_insert_eq.
      split; [done|]. split; [done|]. split; [done|]. split; [done|]. split; [done|done].
Qed.

(** ** preventExtensions, seal and freeze *)

Lemma HiddenClass_findProperty_mapFlags f c name :
  HiddenClass_findProperty (mapFlags f c) name =
  match HiddenClass_findProperty c name with
  | Some (pos, d) => Some (pos, mkNamedPropertyDescriptor (desc_slot d) (f (desc_flags d)))
  | None => None
  end.
Proof.
  unfold HiddenClass_findProperty, mapFlags. cbn [propertyMap].
  change (map ?g ?l) with (g <$> l).
  rewrite list_find_fmap.
  assert (∀ l : list (SymbolID * NamedPropertyDescriptor),
    list_find ((λ p : SymbolID * NamedPropertyDescriptor, p.1 = name) ∘
               (λ p, (p.1, mkNamedPropertyDescriptor (desc_slot p.2) (f (desc_flags p.2))))) l
    = list_find (λ p, p.1 = name) l) as ->.
  { intros l. apply list_find_ext. by intros []. }
  destruct (list_find _ (propertyMap c)) as [[pos [n d]]|]; reflexivity.
Qed.

Lemma getNamedDescriptor_own rt self o c name pos desc fuel :
  objects rt !! self = Some o →
  classes rt !! clazz_ o = Some c →
  HiddenClass_findProperty c name = Some (pos, desc) →
  getNamedDescriptor ext fuel self name rt = Returned (Some (self, desc)) rt.
Proof.
  intros Ho Hc Hf. unfold getNamedDescriptor.
  rewrite (bind_Returned _ _ _ _ _ (findProperty_eq _ _ _ _ name Ho Hc)).
  by rewrite Hf.
Qed.

Lemma getNamed_RJS_own_data rt self o c name pos desc v fuel opFlags cacheEntry :
  objects rt !! self = Some o →
  classes rt !! clazz_ o = Some c →
  HiddenClass_findProperty c name = Some (pos, desc) →
  pf_accessor (desc_flags desc) = false →
  pf_hostObject (desc_flags desc) = false →
  getNamedSlotValue ext o desc = Some v →
  ∃ stamped,
    getNamed_RJS ext fuel self name opFlags cacheEntry rt = Returned (v, stamped) rt.
Proof.
  intros Ho Hc Hf Ha Hh Hv. unfold getNamed_RJS.
  rewrite (bind_Returned _ _ _ _ _ (getNamedDescriptor_own _ _ _ _ _ _ _ fuel Ho Hc Hf)).
  rewrite Ha, Hh. cbn [negb andb].
  destruct cacheEntry.
  - munfold. rewrite Ho. cbn. rewrite Hc. cbn.
    unfold readNamedSlot. munfold. rewrite Ho. cbn. rewrite Hv. eauto.
  - munfold. unfold readNamedSlot. munfold. rewrite Ho. cbn. rewrite Hv. eauto.
Qed.

Lemma fresh_class_None rt : classes rt !! fresh (dom (classes rt)) = None.
Proof. apply not_elem_of_dom. apply is_fresh. Qed.

Lemma classes_alloc_preserved rt (c : HiddenClass) a cell :
  classes rt !! a = Some cell →
  <[fresh (dom (classes rt)) := c]> (classes rt) !! a = Some cell.
Proof.
  intros H. rewrite lookup_insert_ne; [done|].
  intros <-. by rewrite fresh_class_None in H.
Qed.

Lemma runExtensibilityOp_eq op rt self o c :
  objects rt !! self = Some o →
  classes rt !! clazz_ o = Some c →
  ∃ o' rt',
    runExtensibilityOp op self rt = Returned tt rt' ∧
    objects rt' = <[self := o']> (objects rt) ∧
    accessors rt' = accessors rt ∧
    (∀ a cell, classes rt !! a = Some cell → classes rt' !! a = Some cell) ∧
    parent_ o' = parent_ o ∧ directProps_ o' = directProps_ o ∧
    propStorage_ o' = propStorage_ o ∧ vt o' = vt o ∧
    ∃ f, (∀ fl, pf_accessor (f fl) = pf_accessor fl ∧
                pf_hostObject (f fl) = pf_hostObject fl) ∧
         ∃ c', classes rt' !! clazz_ o' = Some c' ∧
               ∀ name, HiddenClass_findProperty c' name =
                 match HiddenClass_findProperty c name with
                 | Some (pos, d) =>
                     Some (pos, mkNamedPropertyDescriptor (desc_slot d) (f (desc_flags d)))
                 | None => None
                 end.
Proof.
  intros Ho Hc.
  assert (∀ name, HiddenClass_findProperty c name =
     match HiddenClass_findProperty c name with
     | Some (pos, d) =>
         Some (pos, mkNamedPropertyDescriptor (desc_slot d) (id (desc_flags d)))
     | None => None
     end) as Hid.
  { intros name. destruct (HiddenClass_findProperty c name) as [[pos [s fl]]|]; done. }
  destruct op; cbn [runExtensibilityOp].
  - unfold preventExtensions. munfold. rewrite Ho. cbn.
    eexists _, _. split; [reflexivity|]. cbn. repeat split; try done.
    exists id. split; [done|]. exists c. split; [done|]. exact Hid.
  - unfold seal. munfold. rewrite Ho. cbn.
    destruct (sealed (flags_ o)).
    + exists o, rt. rewrite insert_id by done. repeat split; try done.
      exists id. split; [done|]. exists c. split; [done|]. exact Hid.
    + unfold HiddenClass_makeAllNonConfigurable, allocClass. munfold.
      rewrite Hc. cbn.
      eexists _, _. split; [reflexivity|]. cbn.
      repeat split; try done.
      { intros a cell. apply classes_alloc_preserved. }
      exists (set_configurable false). split; [by intros []|].
      eexists. split; [apply lookup_insert_eq|].
      intros name. apply HiddenClass_findProperty_mapFlags.
  - unfold freeze. munfold. rewrite Ho. cbn.
    destruct (frozen (flags_ o)).
    + exists o, rt. rewrite insert_id by done. repeat split; try done.
      exists id. split; [done|]. exists c. split; [done|]. exact Hid.
    + unfold HiddenClass_makeAllReadOnly, allocClass. munfold.
      rewrite Hc. cbn.
      eexists _, _. split; [reflexivity|]. cbn.
      repeat split; try done.
      { intros a cell. apply classes_alloc_preserved. }
      exists makeReadOnly. split; [by intros [? ? ? [] ? ? ? ?]|].
      eexists. split; [apply lookup_insert_eq|].
      intros name. apply HiddenClass_findProperty_mapFlags.
Qed.

(** C10. preventExtensions, seal and freeze change only the flags of the
    object and its hidden-class pointer: the parent pointer, the values in
    the direct and indirect slots and the indexed storage are as before, and
    so is the rest of the heap; hence getNamed of an own data property that
    existed before the call returns the same value before and after. *)
Theorem extensibility_frame op rt self o c fuel opFlags cacheEntry :
  objects rt !! self = Some o →
  classes rt !! clazz_ o = Some c →
  ∃ rt',
    runExtensibilityOp op self rt = Returned tt rt' ∧
    ExtensibilityFrame rt rt' self o ∧
    ∀ name pos desc v,
      HiddenClass_findProperty c name = Some (pos, desc) →
      pf_accessor (desc_flags desc) = false →
      pf_hostObject (desc_flags desc) = false →
      getNamedSlotValue ext o desc = Some v →
      ∃ stamped stamped',
        getNamed_RJS ext fuel self name opFlags cacheEntry rt =
          Returned (v, stamped) rt ∧
        getNamed_RJS ext fuel self name opFlags cacheEntry rt' =
          Returned (v, stamped') rt'.
Proof.
  intros Ho Hc.
  destruct (runExtensibilityOp_eq op rt self o c Ho Hc)
    as (o' & rt' & Hrun & Hobjs & Hacc & Hcls & Hp & Hd & Hs & Hvt & f & Hf & c' & Hc' & Hfind).
  assert (objects rt' !! self = Some o') as Ho'.
  { rewrite Hobjs. apply lookup_insert_eq. }
  exists rt'. split; [done|]. split.
  - split; [by exists o'|]. split; [|done].
    intros a Hne. rewrite Hobjs. by rewrite lookup_insert_ne.
  - intros name pos desc v Hfp Ha Hh Hv.
    destruct (getNamed_RJS_own_data rt self o c name pos desc v fuel opFlags cacheEntry)
      as [stamped Hbefore]; [done..|].
    pose proof (Hfind name) as Hfp'. rewrite Hfp in Hfp'.
    destruct (Hf (desc_flags desc)) as [Hfa Hfh].
    destruct (getNamed_RJS_own_data rt' self o' c' name pos
                (mkNamedPropertyDescriptor (desc_slot desc) (f (desc_flags desc)))
                v fuel opFlags cacheEntry)
      as [stamped' Hafter]; try done.
    + cbn. congruence.
    + cbn. congruence.
    + unfold getNamedSlotValue in *. cbn. by rewrite Hd, Hs.
    + eauto.
Qed.

(** ** seal *)

Lemma HiddenClass_findProperty_elem c name pos desc :
  HiddenClass_findProperty c name = Some (pos, desc) →
  propertyMap c !! pos = Some (name, desc).
Proof.
  unfold HiddenClass_findProperty.
  destruct (list_find _ _) as [[i [n d]]|] eqn:Hf; [|done].
  intros [= -> ->]. apply list_find_Some in Hf as (Hl & Hn & _).
  cbn in Hn. by subst.
Qed.


(** ** Lookup along a chain of ordinary objects *)

Lemma ownDescriptor_eq rt a o c name :
  objects rt !! a = Some o → classes rt !! clazz_ o = Some c →
  ownDescriptor rt a name = snd <$> HiddenClass_findProperty c name.
Proof. intros Ho Hc. unfold ownDescriptor. by rewrite Ho, Hc. Qed.

Lemma getNamedDescriptor_loop_lookupChain rt a chain name fuel :
  ProtoChain rt (Some a) chain →
  OrdinaryChain rt chain →
  length chain ≤ fuel →
  getNamedDescriptor_loop ext fuel a name rt = Returned (lookupChain rt chain name) rt.
Proof.
  intros Hc. remember (Some a) as start eqn:Hstart.
  revert a Hstart fuel. induction Hc as [|a' o l Ho Hc IH]; intros a Hstart fuel Hord Hf;
    [done|].
  injection Hstart as <-. cbn in Hf.
  destruct fuel as [|fuel]; [lia|].
  apply Forall_cons in Hord as [(o' & c & Ho' & Hcl & Hlz & Hho) Hord].
  rewrite Ho in Ho'. injection Ho' as <-.
  cbn [getNamedDescriptor_loop lookupChain].
  rewrite (ownDescriptor_eq _ _ _ _ _ Ho Hcl).
  unfold findProperty. munfold.
  rewrite Ho. cbv beta iota. rewrite Hlz, Hho. cbn [negb andb].
  rewrite Ho. cbv beta iota. rewrite Hcl. cbv beta iota.
  destruct (HiddenClass_findProperty c name) as [[pos d]|] eqn:Hfp; [done|].
  cbn. rewrite Ho. cbv beta iota.
  destruct (parent_ o) as [p|] eqn:Hp.
  - by apply IH; [|done|lia].
  - by inversion Hc.
Qed.

Lemma getNamedDescriptor_lookupChain rt self chain name fuel :
  ProtoChain rt (Some self) chain →
  OrdinaryChain rt chain →
  length chain ≤ S fuel →
  getNamedDescriptor ext fuel self name rt = Returned (lookupChain rt chain name) rt.
Proof.
  intros Hc Hord Hf. inversion Hc as [|a o l Ho Hc']; subst.
  apply Forall_cons in Hord as [(o' & c & Ho' & Hcl & Hlz & Hho) Hord].
  rewrite Ho in Ho'. injection Ho' as <-. cbn in Hf.
  cbn [lookupChain]. rewrite (ownDescriptor_eq _ _ _ _ _ Ho Hcl).
  unfold getNamedDescriptor, findProperty. munfold.
  rewrite Ho. cbv beta iota. rewrite Hcl. cbv beta iota.
  destruct (HiddenClass_findProperty c name) as [[pos d]|] eqn:Hfp; [done|].
  cbn. rewrite Ho. cbv beta iota. rewrite Hho, Hlz. rewrite Ho. cbv beta iota.
  destruct (parent_ o) as [p|] eqn:Hp.
  - apply getNamedDescriptor_loop_lookupChain; [done|done|lia].
  - by inversion Hc'.
Qed.



(** ** deleteNamed *)

Lemma initializeIfAbsent_not_lazy rt self o c name :
  objects rt !! self = Some o →
  classes rt !! clazz_ o = Some c →
  lazyObject (flags_ o) = false ∨ is_Some (HiddenClass_findProperty c name) →
  initializeIfAbsent ext self name rt = Returned tt rt.
Proof.
  intros Ho Hc Hor. unfold initializeIfAbsent.
  rewrite (bind_Returned _ _ _ _ _ (findProperty_eq _ _ _ _ name Ho Hc)).
  destruct (HiddenClass_findProperty c name) as [p|] eqn:Hf; [done|].
  destruct Hor as [Hl|[? ?]]; [|done].
  munfold. rewrite Ho. cbn. by rewrite Hl.
Qed.

Lemma deleteNamed_after_init rt rt1 self o1 c1 name opFlags :
  initializeIfAbsent ext self name rt = Returned tt rt1 →
  objects rt1 !! self = Some o1 →
  classes rt1 !! clazz_ o1 = Some c1 →
  deleteNamed ext self name opFlags rt =
  match HiddenClass_findProperty c1 name with
  | None => Returned true rt1
  | Some (p, desc) =>
      if negb (pf_configurable (desc_flags desc)) then rejected opFlags rt1
      else
        (let* _ := writeNamedSlot ext self desc HVEmpty in
         let* o := getObject self in
         let* newClazz := HiddenClass_deleteProperty (clazz_ o) p in
         let* _ := putObject self (set_clazz newClazz o) in
         ret true) rt1
  end.
Proof.
  intros Hinit Ho1 Hc1. unfold deleteNamed.
  unfold initializeIfAbsent in Hinit. unfold bind at 1 in Hinit.
  destruct (findProperty self name rt) as [pos0 rt0| | |] eqn:Hfp; try done.
  assert (rt0 = rt) as ->.
  { unfold findProperty in Hfp. munfold.
    destruct (objects rt !! self); [|done]. cbn in Hfp.
    destruct (classes rt !! _); [|done]. by injection Hfp. }
  rewrite (bind_Returned _ _ _ _ _ Hfp).
  assert (∀ pos, (match pos with
     | Some (p, desc) =>
        if negb (pf_configurable (desc_flags desc))
        then if getThrowOnError opFlags then raise TypeError else ret false
        else
          let* _ := writeNamedSlot ext self desc HVEmpty in
          let* o := getObject self in
          let* newClazz := HiddenClass_deleteProperty (clazz_ o) p in
          let* _ := putObject self (set_clazz newClazz o) in ret true
     | None => ret true
     end) rt1 =
     match pos with
     | None => Returned true rt1
     | Some (p, desc) =>
        if negb (pf_configurable (desc_flags desc)) then rejected opFlags rt1
        else
          (let* _ := writeNamedSlot ext self desc HVEmpty in
           let* o := getObject self in
           let* newClazz := HiddenClass_deleteProperty (clazz_ o) p in
           let* _ := putObject self (set_clazz newClazz o) in ret true) rt1
     end) as Hrest.
  { intros [[p desc]|]; [|done].
    destruct (negb _); [|done]. unfold rejected.
    by destruct (getThrowOnError opFlags). }
  destruct pos0 as [pd|].
  - injection Hinit as <-.
    rewrite (findProperty_eq _ _ _ _ name Ho1 Hc1) in Hfp. injection Hfp as Hfp.
    rewrite Hfp. unfold bind at 1. unfold ret at 1. apply (Hrest (Some pd)).
  - unfold bind at 1 in Hinit.
    destruct (getObject self rt) as [o rt0| | |] eqn:Hgo; try done.
    assert (rt0 = rt) as ->.
    { munfold. destruct (objects rt !! self); [|done]. by injection Hgo. }
    unfold bind at 1. rewrite (bind_Returned _ _ _ _ _ Hgo).
    destruct (lazyObject (flags_ o)).
    + rewrite (bind_Returned _ _ _ _ _ Hinit).
      rewrite (findProperty_eq _ _ _ _ name Ho1 Hc1). apply Hrest.
    + injection Hinit as <-. unfold ret at 1.
      rewrite (findProperty_eq _ _ _ _ name Ho1 Hc1) in Hfp. injection Hfp as Hfp.
      rewrite Hfp. done.
Qed.

Lemma deleteProperty_findProperty_None c name pos desc :
  NoDup (map fst (propertyMap c)) →
  HiddenClass_findProperty c name = Some (pos, desc) →
  HiddenClass_findProperty (deletePropertyTransition c pos) name = None.
Proof.
  intros Hnd Hf. apply HiddenClass_findProperty_elem in Hf as Hpos.
  unfold HiddenClass_findProperty, deletePropertyTransition. cbn [propertyMap].
  destruct (list_find _ _) as [[j [n d]]|] eqn:Hj; [|done]. exfalso.
  apply list_find_Some in Hj as (Hl & Hn & _). cbn in Hn. subst n.
  assert (∀ i d', propertyMap c !! i = Some (name, d') → i = pos) as Huniq.
  { intros i d' Hi.
    eapply (NoDup_lookup (map fst (propertyMap c)) i pos name); [done| |].
    - change (map fst ?l) with (fst <$> l). rewrite list_lookup_fmap. by rewrite Hi.
    - change (map fst ?l) with (fst <$> l). rewrite list_lookup_fmap. by rewrite Hpos. }
  destruct (decide (j < pos)) as [Hlt|Hge].
  - rewrite list_lookup_delete_lt in Hl by done. apply Huniq in Hl. lia.
  - rewrite list_lookup_delete_ge in Hl by lia. apply Huniq in Hl. lia.
Qed.

(** C7 (amended). deleteNamed(O, P) looks at own properties only, after the
    initialization of O when O is lazy and P is not found: if P is then
    absent it returns true and changes nothing more; if P is present and
    not configurable it fails (TypeError under throwOnError, false
    otherwise) and changes nothing more; otherwise it overwrites the slot of
    P with the empty value, gives O the class of the deletion transition and
    returns true, and P is no longer an own property of O. *)
Theorem deleteNamed_spec rt rt1 self o1 c1 name opFlags :
  initializeIfAbsent ext self name rt = Returned tt rt1 →
  objects rt1 !! self = Some o1 →
  classes rt1 !! clazz_ o1 = Some c1 →
  match HiddenClass_findProperty c1 name with
  | None => deleteNamed ext self name opFlags rt = Returned true rt1
  | Some (pos, desc) =>
      if pf_configurable (desc_flags desc) then
        ∀ v, getNamedSlotValue ext o1 desc = Some v →
        ∃ rt' o' c',
          deleteNamed ext self name opFlags rt = Returned true rt' ∧
          objects rt' !! self = Some o' ∧
          (∀ a, a ≠ self → objects rt' !! a = objects rt1 !! a) ∧
          setNamedSlotValue ext o1 desc HVEmpty = Some (set_clazz (clazz_ o1) o') ∧
          getNamedSlotValue ext o' desc = Some HVEmpty ∧
          classes rt' !! clazz_ o' = Some c' ∧
          c' = deletePropertyTransition c1 pos ∧
          (NoDup (map fst (propertyMap c1)) → HiddenClass_findProperty c' name = None)
      else deleteNamed ext self name opFlags rt = rejected opFlags rt1
  end.
Proof.
  intros Hinit Ho1 Hc1.
  rewrite (deleteNamed_after_init _ _ _ _ _ name opFlags Hinit Ho1 Hc1).
  destruct (HiddenClass_findProperty c1 name) as [[pos desc]|] eqn:Hf; [|done].
  destruct (pf_configurable (desc_flags desc)) eqn:Hcf; cbn [negb]; [|done].
  intros v Hv.
  destruct (writeNamedSlot_eq rt1 self o1 desc v HVEmpty Ho1 Hv) as (o2 & Hs & Hw).
  destruct (setNamedSlotValue_get o1 desc v HVEmpty Hv)
    as (o2' & Hs' & Hg & Hp & Hcl & Hfl & Hvt).
  rewrite Hs in Hs'. injection Hs' as <-.
  rewrite (bind_Returned _ _ _ _ _ Hw).
  set (rt2 := set_objects _ rt1).
  assert (objects rt2 !! self = Some o2) as Ho2 by apply lookup_insert_eq.
  assert (classes rt2 !! clazz_ o2 = Some c1) as Hc2 by (by rewrite Hcl).
  set (nc := fresh (dom (classes rt2))).
  set (c' := deletePropertyTransition c1 pos).
  set (o' := set_clazz nc o2).
  set (rt' := set_objects (<[self := o']> (objects rt2))
                (set_classes (<[nc := c']> (classes rt2)) rt2)).
  assert ((let* o := getObject self in
           let* newClazz := HiddenClass_deleteProperty (clazz_ o) pos in
           let* _ := putObject self (set_clazz newClazz o) in ret true) rt2
          = Returned true rt') as Hrun.
  { munfold. rewrite Ho2.
    unfold HiddenClass_deleteProperty, allocClass. munfold. by rewrite Hc2. }
  exists rt', o', c'. split; [exact Hrun|].
  split; [apply lookup_insert_eq|]. split.
  { intros a Hne. unfold rt', rt2. cbn [objects set_objects set_classes].
    by rewrite !lookup_insert_ne. }
  split.
  { rewrite Hs. f_equal. destruct o2. unfold o', set_clazz. cbn in *. by rewrite Hcl. }
  split; [exact Hg|]. split; [apply lookup_insert_eq|]. split; [reflexivity|].
  intros Hnd. by eapply deleteProperty_findProperty_None.
Qed.

(** ** hasNamed and hasNamedOrIndexed *)

Lemma getObject_eq rt a o :
  objects rt !! a = Some o → getObject a rt = Returned o rt.
Proof. intros H. munfold. by rewrite H. Qed.

Lemma getClassCell_eq rt a c :
  classes rt !! a = Some c → getClassCell a rt = Returned c rt.
Proof. intros H. munfold. by rewrite H. Qed.

Lemma getNamedDescriptor_loop_ordinary rt a chain name fuel :
  ProtoChain rt (Some a) chain →
  OrdinaryChain rt chain →
  length chain ≤ fuel →
  ∃ r, getNamedDescriptor_loop ext fuel a name rt = Returned r rt ∧
       (is_Some r ↔ ∃ b, b ∈ chain ∧ OwnsNamed rt b name).
Proof.
  intros Hc. remember (Some a) as start eqn:Hstart.
  revert a Hstart fuel. induction Hc as [|a' o l Ho Hc IH]; intros a Hstart fuel Hord Hf;
    [done|].
  injection Hstart as <-. cbn in Hf.
  destruct fuel as [|fuel]; [lia|].
  apply Forall_cons in Hord as [(o' & c & Ho' & Hcl & Hlz & Hho) Hord].
  rewrite Ho in Ho'. injection Ho' as <-.
  cbn [getNamedDescriptor_loop]. unfold findProperty. munfold.
  rewrite Ho. cbv beta iota. rewrite Hlz, Hho. cbn [negb andb].
  rewrite Ho. cbv beta iota. rewrite Hcl. cbv beta iota.
  destruct (HiddenClass_findProperty c name) as [[pos d]|] eqn:Hfp.
  - eexists. split; [reflexivity|]. split; [|done].
    intros _. exists a'. split; [set_solver|].
    exists o, c. by rewrite Hfp.
  - rewrite Ho. cbv beta iota.
    destruct (parent_ o) as [p|] eqn:Hp.
    + destruct (IH p eq_refl fuel Hord ltac:(lia)) as (r & Hr & Hiff).
      exists r. split; [exact Hr|]. rewrite Hiff. split.
      * intros (b & Hb & Hown). exists b. split; [set_solver|done].
      * intros (b & Hb & Hown). apply elem_of_cons in Hb as [->|Hb].
        -- destruct Hown as (o2 & c2 & Ho2 & Hc2 & Hs).
           rewrite Ho in Ho2. injection Ho2 as <-.
           rewrite Hcl in Hc2. injection Hc2 as <-.
           rewrite Hfp in Hs. by destruct Hs.
        -- by exists b.
    + inversion Hc; subst. eexists. split; [reflexivity|]. split.
      * by intros [? ?].
      * intros (b & Hb & Hown). apply elem_of_cons in Hb as [->|Hb]; [|set_solver].
        destruct Hown as (o2 & c2 & Ho2 & Hc2 & Hs).
        rewrite Ho in Ho2. injection Ho2 as <-.
        rewrite Hcl in Hc2. injection Hc2 as <-.
        rewrite Hfp in Hs. by destruct Hs.
Qed.

Lemma hasNamed_ordinary rt self chain name fuel :
  ProtoChain rt (Some self) chain →
  OrdinaryChain rt chain →
  length chain ≤ S fuel →
  ∃ b, hasNamed ext fuel self name rt = Returned b rt ∧
       (b = true ↔ ∃ a, a ∈ chain ∧ OwnsNamed rt a name).
Proof.
  intros Hc Hord Hf. inversion Hc as [|a o l Ho Hc']; subst.
  apply Forall_cons in Hord as [(o' & c & Ho' & Hcl & Hlz & Hho) Hord].
  rewrite Ho in Ho'. injection Ho' as <-. cbn in Hf.
  unfold hasNamed, getNamedDescriptor, findProperty. munfold.
  rewrite Ho. cbv beta iota. rewrite Hcl. cbv beta iota.
  destruct (HiddenClass_findProperty c name) as [[pos d]|] eqn:Hfp.
  - eexists. split; [reflexivity|]. split; [|done].
    intros _. exists self. split; [set_solver|]. exists o, c. by rewrite Hfp.
  - assert (∀ b, b ∈ self :: l → OwnsNamed rt b name → b ∈ l) as Hnot.
    { intros b Hb Hown. apply elem_of_cons in Hb as [->|Hb]; [|done].
      destruct Hown as (o2 & c2 & Ho2 & Hc2 & Hs).
      rewrite Ho in Ho2. injection Ho2 as <-.
      rewrite Hcl in Hc2. injection Hc2 as <-.
      rewrite Hfp in Hs. by destruct Hs. }
    rewrite Ho. cbv beta iota. rewrite Hho, Hlz. rewrite Ho. cbv beta iota.
    destruct (parent_ o) as [p|] eqn:Hp.
    + destruct (getNamedDescriptor_loop_ordinary rt p l name fuel Hc' Hord ltac:(lia))
        as (r & Hr & Hiff).
      rewrite Hr.
      eexists. split; [reflexivity|].
      transitivity (is_Some r).
      { destruct r; split; try done; by intros [? ?]. }
      rewrite Hiff. split.
      * intros (b & Hb & Hown). exists b. split; [set_solver|done].
      * intros (b & Hb & Hown). exists b. split; [by apply Hnot|done].
    + inversion Hc'; subst. eexists. split; [reflexivity|]. split; [done|].
      intros (b & Hb & Hown). apply Hnot in Hb; [|done]. set_solver.
Qed.

(** C4 (amended). For an object O and a name whose spelling parses to the
    index i: when O has indexed storage and owns the indexed slot i,
    hasNamedOrIndexed is true; when O has no indexed storage, or does not own
    the indexed slot i and its fastIndexProperties flag is clear,
    hasNamedOrIndexed is hasNamed, which on a chain of ordinary objects is
    true exactly when O or an object of its prototype chain owns a named
    property with that name.  The indexed slots of the prototypes are not
    looked at. *)
Theorem hasNamedOrIndexed_spec rt self o name i fuel :
  objects rt !! self = Some o →
  toArrayIndex (getStringView name) = Some i →
  (indexedStorage (flags_ o) = true → haveOwnIndexed o i = true →
   hasNamedOrIndexed ext fuel self name rt = Returned true rt) ∧
  (indexedStorage (flags_ o) = false ∨
   (haveOwnIndexed o i = false ∧ fastIndexProperties (flags_ o) = false) →
   hasNamedOrIndexed ext fuel self name rt = hasNamed ext fuel self name rt) ∧
  (∀ chain,
     ProtoChain rt (Some self) chain →
     OrdinaryChain rt chain →
     length chain ≤ S fuel →
     ∃ b, hasNamed ext fuel self name rt = Returned b rt ∧
          (b = true ↔ ∃ a, a ∈ chain ∧ OwnsNamed rt a name)).
Proof.
  intros Ho Hi. split; [|split].
  - intros His Hh. unfold hasNamedOrIndexed.
    rewrite (bind_Returned _ _ _ _ _ (getObject_eq _ _ _ Ho)).
    by rewrite His, Hi, Hh.
  - intros Hor. unfold hasNamedOrIndexed.
    rewrite (bind_Returned _ _ _ _ _ (getObject_eq _ _ _ Ho)).
    destruct (indexedStorage (flags_ o)); [|done].
    destruct Hor as [?|[Hh Hfast]]; [done|].
    by rewrite Hi, Hh, Hfast.
  - intros chain. apply hasNamed_ordinary.
Qed.

(** ** The invariant of fastIndexProperties *)

Lemma preserves_ret {A} (a : A) : Preserves (ret a).
Proof. by intros rt H. Qed.

Lemma preserves_raise {A} e : Preserves (@raise A e).
Proof. by intros rt H. Qed.

Lemma preserves_fault {A} : Preserves (@fault A).
Proof. by intros rt H. Qed.

Lemma preserves_outOfFuel {A} : Preserves (@outOfFuel A).
Proof. by intros rt H. Qed.

Lemma preserves_bind {A B} (m : M A) (f : A → M B) :
  Preserves m → (∀ a, Preserves (f a)) → Preserves (bind m f).
Proof.
  intros Hm Hf rt Hinv. unfold bind. specialize (Hm rt Hinv).
  destruct (m rt) as [a rt'| | |]; try done. by apply Hf.
Qed.

Lemma preserves_deref {A} (x : option A) : Preserves (deref x).
Proof. destruct x; [apply preserves_ret|apply preserves_fault]. Qed.

Lemma preserves_getObject a : Preserves (getObject a).
Proof. intros rt H. unfold getObject. by destruct (objects rt !! a). Qed.

Lemma preserves_getClassCell a : Preserves (getClassCell a).
Proof. intros rt H. unfold getClassCell. by destruct (classes rt !! a). Qed.

Lemma preserves_getAccessorCell a : Preserves (getAccessorCell a).
Proof. intros rt H. unfold getAccessorCell. by destruct (accessors rt !! a). Qed.

Lemma preserves_getRuntime : Preserves getRuntime.
Proof. by intros rt H. Qed.

Lemma preserves_putAccessorCell a c : Preserves (putAccessorCell a c).
Proof. by intros rt H. Qed.

Lemma preserves_discard {A} (m : M A) : Preserves m → Preserves (discard m).
Proof. intros H. apply preserves_bind; [done|]. intros. apply preserves_ret. Qed.

Lemma readOnly_preserves {A} (m : M A) : ReadsOnly m → Preserves m.
Proof.
  intros Hr rt Hinv. specialize (Hr rt).
  destruct (m rt); try done; by subst.
Qed.

Lemma readOnly_findProperty self name : ReadsOnly (findProperty self name).
Proof.
  intros rt. unfold findProperty. munfold.
  destruct (objects rt !! self); [|done]. cbv beta iota.
  by destruct (classes rt !! _).
Qed.

Lemma readOnly_readNamedSlot self desc : ReadsOnly (readNamedSlot ext self desc).
Proof.
  intros rt. unfold readNamedSlot. munfold.
  destruct (objects rt !! self); [|done]. cbv beta iota.
  by destruct (getNamedSlotValue _ _ _).
Qed.

Lemma readOnly_vmcast v : ReadsOnly (vmcast_PropertyAccessor v).
Proof.
  intros rt. destruct v as [| | | | | | |[] a]; try done.
  cbn. munfold. by destruct (accessors rt !! a).
Qed.

Lemma HeapInvariant_putObject rt self o o' :
  HeapInvariant rt →
  objects rt !! self = Some o →
  clazz_ o' = clazz_ o →
  (fastIndexProperties (flags_ o') = true → fastIndexProperties (flags_ o) = true) →
  HeapInvariant (set_objects (<[self := o']> (objects rt)) rt).
Proof.
  intros (Hv & Hs & Hf) Ho Hcl Hfast. split; [|split]; cbn [objects classes set_objects].
  - intros a o2. destruct (decide (a = self)) as [->|Hne].
    + rewrite lookup_insert_eq. intros [= <-]. rewrite Hcl. by eapply Hv.
    + rewrite lookup_insert_ne by done. apply Hv.
  - exact Hs.
  - intros a o2 c. cbn [objects classes set_objects].
    destruct (decide (a = self)) as [->|Hne].
    + rewrite lookup_insert_eq. intros [= <-]. rewrite Hcl. intros Hc Hfo.
      eapply (Hf self o c); auto.
    + rewrite lookup_insert_ne by done. apply Hf.
Qed.

Lemma HeapInvariant_transition rt self o o' c' :
  HeapInvariant rt →
  objects rt !! self = Some o →
  classSound c' →
  clazz_ o' = fresh (dom (classes rt)) →
  (fastIndexProperties (flags_ o') = true → indexLikeFree c') →
  HeapInvariant
    (set_objects (<[self := o']> (objects rt))
       (set_classes (<[fresh (dom (classes rt)) := c']> (classes rt)) rt)).
Proof.
  intros (Hv & Hs & Hf) Ho Hsound Hcl Hfast.
  pose proof (fresh_class_None rt) as Hfresh.
  split; [|split]; cbn [objects classes set_objects set_classes].
  - intros a o2. destruct (decide (a = self)) as [->|Hne].
    + rewrite lookup_insert_eq. intros [= <-]. rewrite Hcl.
      rewrite lookup_insert_eq. by eexists.
    + rewrite lookup_insert_ne by done. intros Ho2.
      destruct (Hv a o2 Ho2) as [c2 Hc2].
      exists c2. by apply classes_alloc_preserved.
  - intros a c. destruct (decide (a = fresh (dom (classes rt)))) as [->|Hne].
    + rewrite lookup_insert_eq. by intros [= <-].
    + rewrite lookup_insert_ne by done. apply Hs.
  - intros a o2 c. cbn [objects classes set_objects set_classes].
    destruct (decide (a = self)) as [->|Hne].
    + rewrite lookup_insert_eq. intros [= <-]. rewrite Hcl.
      rewrite lookup_insert_eq. intros [= <-]. done.
    + rewrite lookup_insert_ne by done. intros Ho2.
      destruct (Hv a o2 Ho2) as [c2 Hc2].
      rewrite (classes_alloc_preserved _ _ _ _ Hc2). intros [= <-].
      by eapply Hf.
Qed.

Lemma HeapInvariant_putClass rt a c c' :
  HeapInvariant rt →
  classes rt !! a = Some c →
  propertyMap c' = propertyMap c →
  hasIndexLikeProperties c' = hasIndexLikeProperties c →
  HeapInvariant (set_classes (<[a := c']> (classes rt)) rt).
Proof.
  intros (Hv & Hs & Hf) Hc Hpm Hil.
  split; [|split]; cbn [objects classes set_objects set_classes].
  - intros b o Ho. destruct (decide (clazz_ o = a)) as [->|Hne].
    + rewrite lookup_insert_eq. by eexists.
    + rewrite lookup_insert_ne by done. by eapply Hv.
  - intros b c2. destruct (decide (b = a)) as [->|Hne].
    + rewrite lookup_insert_eq. intros [= <-].
      unfold classSound, indexLikeFree. rewrite Hpm, Hil. by eapply Hs.
    + rewrite lookup_insert_ne by done. apply Hs.
  - intros b o c2 Ho. cbn [objects classes set_objects set_classes].
    destruct (decide (clazz_ o = a)) as [Heq|Hne].
    + rewrite Heq, lookup_insert_eq. intros [= <-] Hfo.
      unfold indexLikeFree. rewrite Hpm. eapply Hf; [done| |done]. by rewrite Heq.
    + rewrite lookup_insert_ne by done. by eapply Hf.
Qed.

Lemma HeapInvariant_allocObject rt o :
  HeapInvariant rt →
  is_Some (classes rt !! clazz_ o) →
  fastIndexProperties (flags_ o) = false →
  HeapInvariant (set_objects (<[fresh (dom (objects rt)) := o]> (objects rt)) rt).
Proof.
  intros (Hv & Hs & Hf) Hc Hfast.
  split; [|split]; cbn [objects classes set_objects set_classes].
  - intros a o2. destruct (decide (a = fresh (dom (objects rt)))) as [->|Hne].
    + rewrite lookup_insert_eq. by intros [= <-].
    + rewrite lookup_insert_ne by done. apply Hv.
  - exact Hs.
  - intros a o2 c. cbn [objects classes set_objects set_classes].
    destruct (decide (a = fresh (dom (objects rt)))) as [->|Hne].
    + rewrite lookup_insert_eq. intros [= <-]. congruence.
    + rewrite lookup_insert_ne by done. apply Hf.
Qed.

Lemma classSound_addProperty c name flags :
  classSound c → classSound (addPropertyTransition c name flags).1.
Proof.
  unfold classSound, indexLikeFree. cbn. intros Hs Hil.
  apply orb_false_elim in Hil as [Hc Hn].
  apply Forall_app. split; [by apply Hs|]. by apply Forall_singleton.
Qed.

Lemma indexLikeFree_addProperty c name flags :
  classSound (addPropertyTransition c name flags).1 →
  hasIndexLikeProperties (addPropertyTransition c name flags).1 = false →
  indexLikeFree (addPropertyTransition c name flags).1.
Proof. intros Hs Hil. by apply Hs. Qed.

Lemma indexLikeFree_updateProperty c pos flags :
  indexLikeFree c → indexLikeFree (updatePropertyTransition c pos flags).
Proof.
  unfold indexLikeFree. cbn. intros H.
  apply Forall_alter; [done|]. intros [n d] _ Hn. exact Hn.
Qed.

Lemma classSound_updateProperty c pos flags :
  classSound c → classSound (updatePropertyTransition c pos flags).
Proof.
  unfold classSound. cbn [hasIndexLikeProperties updatePropertyTransition].
  intros Hs Hil. by apply indexLikeFree_updateProperty, Hs.
Qed.

Lemma indexLikeFree_deleteProperty c pos :
  indexLikeFree c → indexLikeFree (deletePropertyTransition c pos).
Proof. unfold indexLikeFree. cbn. apply Forall_delete. Qed.

Lemma classSound_deleteProperty c pos :
  classSound c → classSound (deletePropertyTransition c pos).
Proof.
  unfold classSound. cbn [hasIndexLikeProperties deletePropertyTransition].
  intros Hs Hil. by apply indexLikeFree_deleteProperty, Hs.
Qed.

Lemma indexLikeFree_mapFlags f c :
  indexLikeFree c → indexLikeFree (mapFlags f c).
Proof.
  unfold indexLikeFree. cbn. intros H.
  change (map ?g ?l) with (g <$> l). apply Forall_fmap.
  eapply Forall_impl; [exact H|]. by intros [n d].
Qed.

Lemma classSound_mapFlags f c : classSound c → classSound (mapFlags f c).
Proof.
  unfold classSound. cbn [hasIndexLikeProperties mapFlags].
  intros Hs Hil. by apply indexLikeFree_mapFlags, Hs.
Qed.

Section Invariant.
Hypothesis Hext : CollaboratorsPreserve ext.

Lemma preserves_initializeLazyObject a : Preserves (initializeLazyObject ext a).
Proof.
  intros rt Hinv. unfold initializeLazyObject. munfold.
  destruct (objects rt !! a) as [o|] eqn:Ho; [|done]. cbv beta iota.
  apply (lazy_preserves ext Hext).
  by apply (HeapInvariant_putObject rt a o).
Qed.

Lemma readsOnly_setParent_loop fuel self cur : ReadsOnly (setParent_loop fuel self cur).
Proof.
  revert cur. induction fuel as [|fuel IH]; intros [c|] rt; cbn; try done.
  - by case_bool_decide.
  - case_bool_decide; [done|]. munfold.
    destruct (objects rt !! c) as [co|]; [|done]. cbv beta iota. apply IH.
Qed.

Lemma preserves_setParent fuel self parent : Preserves (setParent fuel self parent).
Proof.
  intros rt Hinv. unfold setParent. unfold bind at 1. unfold getObject, deref.
  destruct (objects rt !! self) as [o|] eqn:Ho; [|done]. unfold ret at 1.
  case_bool_decide; [done|].
  destruct (negb (isExtensible o)); [done|].
  unfold bind. pose proof (readsOnly_setParent_loop fuel self parent rt) as Hr.
  destruct (setParent_loop fuel self parent rt) as [b rt'| | |]; try done; subst;
    [|done].
  destruct b; [done|].
  unfold putObject, modifyRuntime. by apply (HeapInvariant_putObject rt self o).
Qed.

Lemma setNamedSlotValue_fields o desc v o' :
  setNamedSlotValue ext o desc v = Some o' →
  clazz_ o' = clazz_ o ∧ flags_ o' = flags_ o.
Proof.
  unfold setNamedSlotValue. repeat case_match; try done; by intros [= <-].
Qed.

Lemma preserves_writeNamedSlot self desc v : Preserves (writeNamedSlot ext self desc v).
Proof.
  intros rt Hinv. unfold writeNamedSlot. munfold.
  destruct (objects rt !! self) as [o|] eqn:Ho; [|done]. cbv beta iota.
  destruct (setNamedSlotValue ext o desc v) as [o'|] eqn:Hs; [|done].
  apply setNamedSlotValue_fields in Hs as [Hc Hf].
  apply (HeapInvariant_putObject rt self o); [done..|]. by rewrite Hf.
Qed.

Lemma preserves_allocateNewSlotStorage self slot v :
  Preserves (allocateNewSlotStorage ext self slot v).
Proof.
  intros rt Hinv. unfold allocateNewSlotStorage. munfold.
  destruct (objects rt !! self) as [o|] eqn:Ho; [|done]. cbv beta iota.
  repeat (match goal with
          | |- context [if ?b then _ else _] => destruct b
          | |- context [match propStorage_ o with _ => _ end] =>
              destruct (propStorage_ o)
          end); try done; by apply (HeapInvariant_putObject rt self o).
Qed.

(** What [addOwnPropertyImpl] leaves: the object has the class of the
    transition, and its fastIndexProperties flag is clear when that class
    carries index-like properties. *)
Lemma addOwnPropertyImpl_result rt rt' self name flags v :
  HeapInvariant rt →
  addOwnPropertyImpl ext self name flags v rt = Returned tt rt' →
  HeapInvariant rt' ∧
  ∃ o c o' c',
    objects rt !! self = Some o ∧ classes rt !! clazz_ o = Some c ∧
    objects rt' !! self = Some o' ∧ classes rt' !! clazz_ o' = Some c' ∧
    c' = (addPropertyTransition c name flags).1 ∧
    (hasIndexLikeProperties c' = true → fastIndexProperties (flags_ o') = false).
Proof.
  intros Hinv. unfold addOwnPropertyImpl.
  unfold bind at 1. unfold getObject, deref.
  destruct (objects rt !! self) as [o|] eqn:Ho; [|done]. unfold ret at 1.
  unfold bind at 1. unfold HiddenClass_addProperty. unfold bind at 1.
  unfold getClassCell, deref.
  destruct (classes rt !! clazz_ o) as [c|] eqn:Hc; [|done]. unfold ret at 1.
  unfold bind at 1. rewrite allocClass_eq. unfold ret at 1. cbn [fst snd].
  set (nc := fresh (dom (classes rt))).
  set (c' := (addPropertyTransition c name flags).1).
  set (slot := (addPropertyTransition c name flags).2).
  unfold bind at 1. unfold putObject at 1, modifyRuntime.
  cbn [objects classes set_objects set_classes].
  set (rt1 := set_objects (<[self := set_clazz nc o]> (objects rt))
                (set_classes (<[nc := c']> (classes rt)) rt)).
  assert (objects rt1 !! self = Some (set_clazz nc o)) as Ho1 by apply lookup_insert_eq.
  assert (classes rt1 !! nc = Some c') as Hc1 by apply lookup_insert_eq.
  unfold bind at 1.
  destruct (allocateNewSlotStorage ext self slot v rt1) as [[] rt2| | |] eqn:Halloc;
    try done.
  assert (∃ o2, rt2 = set_objects (<[self := o2]> (objects rt1)) rt1 ∧
                clazz_ o2 = nc ∧ flags_ o2 = flags_ o) as (o2 & Hrt2' & Hcl2 & Hfl2).
  { unfold allocateNewSlotStorage in Halloc. munfold. rewrite Ho1 in Halloc.
    cbv beta iota in Halloc.
    repeat (match type of Halloc with
            | context [if ?b then _ else _] => destruct b
            | context [match propStorage_ ?x with _ => _ end] =>
                destruct (propStorage_ x)
            end); try done; injection Halloc as <-;
      eexists; (split; [reflexivity|]); done. }
  assert (rt2 = set_objects (<[self := o2]> (objects rt))
                  (set_classes (<[nc := c']> (classes rt)) rt)) as Hrt2.
  { rewrite Hrt2'. unfold rt1, set_objects, set_classes.
    cbn [objects classes accessors objectPrototypeRawPtr].
    by rewrite insert_insert_eq. }
  assert (objects rt2 !! self = Some o2) as Ho2.
  { rewrite Hrt2. apply lookup_insert_eq. }
  assert (classes rt2 !! nc = Some c') as Hc2.
  { rewrite Hrt2. apply lookup_insert_eq. }
  unfold getHasIndexLikeProperties. munfold. rewrite Ho2. cbv beta iota.
  rewrite Hcl2, Hc2. cbv beta iota.
  assert (classSound c') as Hsound.
  { apply classSound_addProperty. destruct Hinv as (_ & Hs & _). by eapply Hs. }
  destruct (hasIndexLikeProperties c') eqn:Hil.
  - intros [= <-].
    set (o3 := set_flags (set_fastIndexProperties false (flags_ o2)) o2).
    assert (set_objects (<[self := o3]> (objects rt2)) rt2 =
            set_objects (<[self := o3]> (objects rt))
              (set_classes (<[nc := c']> (classes rt)) rt)) as ->.
    { rewrite Hrt2. unfold set_objects, set_classes. cbn.
      by rewrite insert_insert_eq. }
    split.
    + by apply (HeapInvariant_transition rt self o o3 c').
    + exists o, c, o3, c'. cbn [objects classes set_objects set_classes].
      rewrite lookup_insert_eq. cbn [clazz_ o3 set_flags]. rewrite Hcl2.
      rewrite lookup_insert_eq. done.
  - intros [= <-]. split.
    + rewrite Hrt2. apply (HeapInvariant_transition rt self o o2 c'); try done.
      intros _. by apply Hsound.
    + exists o, c, o2, c'. rewrite Ho2, Hcl2, Hc2.
      repeat split; try done. congruence.
Qed.

Lemma preserves_addOwnPropertyImpl self name flags v :
  Preserves (addOwnPropertyImpl ext self name flags v).
Proof.
  intros rt Hinv.
  destruct (addOwnPropertyImpl ext self name flags v rt) as [[] rt'|e rt'| |] eqn:Hr;
    try done.
  - by eapply addOwnPropertyImpl_result.
  - exfalso. revert Hr. unfold addOwnPropertyImpl, HiddenClass_addProperty,
      allocateNewSlotStorage, allocClass. munfold.
    repeat (case_match; try done).
Qed.

Lemma HeapInvariant_classTransition rt self o c c' o' :
  HeapInvariant rt →
  objects rt !! self = Some o →
  classes rt !! clazz_ o = Some c →
  (classSound c → classSound c') →
  (indexLikeFree c → indexLikeFree c') →
  clazz_ o' = fresh (dom (classes rt)) →
  (fastIndexProperties (flags_ o') = true → fastIndexProperties (flags_ o) = true) →
  HeapInvariant
    (set_objects (<[self := o']> (objects rt))
       (set_classes (<[fresh (dom (classes rt)) := c']> (classes rt)) rt)).
Proof.
  intros Hinv Ho Hc Hs Hi Hcl Hfast.
  apply (HeapInvariant_transition rt self o o' c'); try done.
  - apply Hs. destruct Hinv as (_ & Hsound & _). by eapply Hsound.
  - intros Hf. apply Hi. destruct Hinv as (_ & _ & Hfi).
    eapply (Hfi self o c); auto.
Qed.

Lemma preserves_updateBlock {A} self pos flags (x : A) :
  Preserves (let* o := getObject self in
             let* newClazz := HiddenClass_updateProperty (clazz_ o) pos flags in
             let* _ := putObject self (set_clazz newClazz o) in
             ret x).
Proof.
  intros rt Hinv. unfold HiddenClass_updateProperty, allocClass. munfold.
  destruct (objects rt !! self) as [o|] eqn:Ho; [|done]. cbv beta iota.
  destruct (classes rt !! clazz_ o) as [c|] eqn:Hc; [|done]. cbv beta iota.
  cbn [objects classes set_objects set_classes].
  apply (HeapInvariant_classTransition rt self o c); try done.
  - apply classSound_updateProperty.
  - apply indexLikeFree_updateProperty.
Qed.

Lemma preserves_deleteBlock {A} self pos (x : A) :
  Preserves (let* o := getObject self in
             let* newClazz := HiddenClass_deleteProperty (clazz_ o) pos in
             let* _ := putObject self (set_clazz newClazz o) in
             ret x).
Proof.
  intros rt Hinv. unfold HiddenClass_deleteProperty, allocClass. munfold.
  destruct (objects rt !! self) as [o|] eqn:Ho; [|done]. cbv beta iota.
  destruct (classes rt !! clazz_ o) as [c|] eqn:Hc; [|done]. cbv beta iota.
  cbn [objects classes set_objects set_classes].
  apply (HeapInvariant_classTransition rt self o c); try done.
  - apply classSound_deleteProperty.
  - apply indexLikeFree_deleteProperty.
Qed.

Lemma preserves_preventExtensions self : Preserves (preventExtensions self).
Proof.
  intros rt Hinv. unfold preventExtensions. munfold.
  destruct (objects rt !! self) as [o|] eqn:Ho; [|done]. cbv beta iota.
  by apply (HeapInvariant_putObject rt self o).
Qed.

Lemma preserves_seal self : Preserves (seal self).
Proof.
  intros rt Hinv. unfold seal, HiddenClass_makeAllNonConfigurable, allocClass. munfold.
  destruct (objects rt !! self) as [o|] eqn:Ho; [|done]. cbv beta iota.
  destruct (sealed (flags_ o)); [done|].
  destruct (classes rt !! clazz_ o) as [c|] eqn:Hc; [|done]. cbv beta iota.
  cbn [objects classes set_objects set_classes].
  apply (HeapInvariant_classTransition rt self o c); try done.
  - apply classSound_mapFlags.
  - apply indexLikeFree_mapFlags.
Qed.

Lemma preserves_freeze self : Preserves (freeze self).
Proof.
  intros rt Hinv. unfold freeze, HiddenClass_makeAllReadOnly, allocClass. munfold.
  destruct (objects rt !! self) as [o|] eqn:Ho; [|done]. cbv beta iota.
  destruct (frozen (flags_ o)); [done|].
  destruct (classes rt !! clazz_ o) as [c|] eqn:Hc; [|done]. cbv beta iota.
  cbn [objects classes set_objects set_classes].
  apply (HeapInvariant_classTransition rt self o c); try done.
  - apply classSound_mapFlags.
  - apply indexLikeFree_mapFlags.
Qed.

Lemma preserves_isSealed self : Preserves (isSealed self).
Proof.
  intros rt Hinv. unfold isSealed. munfold.
  destruct (objects rt !! self) as [o|] eqn:Ho; [|done]. cbv beta iota.
  destruct (sealed (flags_ o)); [done|].
  destruct (negb (noExtend (flags_ o))); [done|].
  destruct (classes rt !! clazz_ o) as [c|] eqn:Hc; [|done]. cbv beta iota.
  destruct (negb (areAllNonConfigurable c)); [done|].
  destruct (negb (checkAllOwnIndexed o NonConfigurable)); [done|].
  by apply (HeapInvariant_putObject rt self o).
Qed.

Lemma preserves_isFrozen self : Preserves (isFrozen self).
Proof.
  intros rt Hinv. unfold isFrozen. munfold.
  destruct (objects rt !! self) as [o|] eqn:Ho; [|done]. cbv beta iota.
  destruct (frozen (flags_ o)); [done|].
  destruct (negb (noExtend (flags_ o))); [done|].
  destruct (classes rt !! clazz_ o) as [c|] eqn:Hc; [|done]. cbv beta iota.
  destruct (negb (areAllReadOnly c)); [done|].
  destruct (negb (checkAllOwnIndexed o ReadOnly)); [done|].
  by apply (HeapInvariant_putObject rt self o).
Qed.

Lemma preserves_clearForInCache clazz : Preserves (clearForInCache clazz).
Proof.
  intros rt Hinv. unfold clearForInCache. munfold.
  destruct (classes rt !! clazz) as [c|] eqn:Hc; [|done]. cbv beta iota.
  by apply (HeapInvariant_putClass rt clazz c).
Qed.

Lemma preserves_setForInCache clazz arr : Preserves (setForInCache clazz arr).
Proof.
  intros rt Hinv. unfold setForInCache. munfold.
  destruct (classes rt !! clazz) as [c|] eqn:Hc; [|done]. cbv beta iota.
  by apply (HeapInvariant_putClass rt clazz c).
Qed.

Lemma preserves_allocNewObject p propStorage :
  Preserves (let* c := getHiddenClassForPrototypeRaw ext p in
             allocObject (newObjectCell ext p c propStorage)).
Proof.
  intros rt Hinv. unfold bind.
  pose proof (registry_preserves ext Hext p rt Hinv) as Hreg.
  destruct (getHiddenClassForPrototypeRaw ext p rt) as [c rt'| | |]; try done.
  destruct Hreg as [Hinv' Hc]. unfold allocObject.
  by apply HeapInvariant_allocObject.
Qed.

Lemma preserves_create_withParent p : Preserves (create_withParent ext p).
Proof. apply preserves_allocNewObject. Qed.

Lemma preserves_create : Preserves (create ext).
Proof.
  intros rt Hinv. unfold create. unfold bind at 1. unfold getRuntime.
  by apply preserves_allocNewObject.
Qed.

Lemma preserves_create_withPropertyCount n : Preserves (create_withPropertyCount ext n).
Proof.
  intros rt Hinv. unfold create_withPropertyCount. unfold bind at 1. unfold getRuntime.
  by apply preserves_allocNewObject.
Qed.

Lemma HeapInvariant_putNewObject rt a o :
  HeapInvariant rt →
  is_Some (classes rt !! clazz_ o) →
  fastIndexProperties (flags_ o) = false →
  HeapInvariant (set_objects (<[a := o]> (objects rt)) rt).
Proof.
  intros (Hv & Hs & Hf) Hc Hfast.
  split; [|split]; cbn [objects classes set_objects set_classes].
  - intros b o2. destruct (decide (b = a)) as [->|Hne].
    + rewrite lookup_insert_eq. by intros [= <-].
    + rewrite lookup_insert_ne by done. apply Hv.
  - exact Hs.
  - intros b o2 c. cbn [objects classes set_objects set_classes].
    destruct (decide (b = a)) as [->|Hne].
    + rewrite lookup_insert_eq. intros [= <-]. congruence.
    + rewrite lookup_insert_ne by done. apply Hf.
Qed.

(** What [create] from a hidden class leaves: the new object has that
    class, and its fastIndexProperties flag is clear when the class carries
    index-like properties. *)
Lemma create_withClass_result rt rt' clazz obj :
  HeapInvariant rt →
  create_withClass ext clazz rt = Returned obj rt' →
  HeapInvariant rt' ∧
  ∃ o' c', objects rt' !! obj = Some o' ∧ clazz_ o' = clazz ∧
           classes rt' !! clazz = Some c' ∧
           (hasIndexLikeProperties c' = true → fastIndexProperties (flags_ o') = false).
Proof.
  intros Hinv. unfold create_withClass.
  unfold bind at 1. unfold getClassCell at 1, deref.
  destruct (classes rt !! clazz) as [c|] eqn:Hc; [|done]. unfold ret at 1.
  unfold bind at 1.
  pose proof (preserves_create_withPropertyCount (getNumProperties c) rt Hinv) as Hpres.
  destruct (create_withPropertyCount ext (getNumProperties c) rt) as [obj' rt1| | |] eqn:Hcr;
    try done.
  assert (∃ o1, objects rt1 !! obj' = Some o1 ∧ flags_ o1 = ObjectFlags_empty)
    as (o1 & Ho1 & Hfl1).
  { revert Hcr. unfold create_withPropertyCount. unfold bind at 1. unfold getRuntime.
    unfold bind.
    destruct (getHiddenClassForPrototypeRaw ext _ rt) as [c0 rt0| | |]; try done.
    unfold allocObject. intros [= <- <-]. eexists. split; [apply lookup_insert_eq|done]. }
  munfold. rewrite Ho1. cbv beta iota.
  cbn [objects classes set_objects]. rewrite lookup_insert_eq. cbv beta iota.
  cbn [clazz_ set_clazz objects classes set_objects].
  destruct (classes rt1 !! clazz) as [c'|] eqn:Hc'; [|done]. cbv beta iota.
  unfold getHasIndexLikeProperties.
  destruct (hasIndexLikeProperties c') eqn:Hil; intros [= <- <-].
  - cbn [objects classes set_objects]. rewrite insert_insert_eq. split.
    + apply (HeapInvariant_putNewObject rt1 obj'); [done| |done].
      cbn. by eexists.
    + eexists _, c'. rewrite lookup_insert_eq. done.
  - split.
    + apply (HeapInvariant_putNewObject rt1 obj'); [done| |].
      * cbn. by eexists.
      * cbn. by rewrite Hfl1.
    + exists (set_clazz clazz o1), c'.
      cbn [objects classes set_objects]. rewrite lookup_insert_eq.
      repeat split; try done. congruence.
Qed.

Lemma preserves_create_withClass clazz : Preserves (create_withClass ext clazz).
Proof.
  intros rt Hinv.
  destruct (create_withClass ext clazz rt) as [obj rt'|e rt'| |] eqn:Hr; try done.
  - by eapply create_withClass_result.
  - revert Hr. unfold create_withClass.
    unfold bind at 1. unfold getClassCell at 1, deref.
    destruct (classes rt !! clazz) as [c|] eqn:Hc; [|done]. unfold ret at 1.
    unfold bind at 1.
    pose proof (preserves_create_withPropertyCount (getNumProperties c) rt Hinv) as Hpres.
    destruct (create_withPropertyCount ext (getNumProperties c) rt)
      as [obj' rt1|e' rt1| |]; try done.
    + munfold. unfold getHasIndexLikeProperties. repeat (case_match; try done).
    + by intros [= <- <-].
Qed.

(** The composition of operations that keep the invariant. *)
Ltac pres_step :=
  lazymatch goal with
  | |- Preserves (bind _ _) => apply preserves_bind; [|intros ?]
  | |- Preserves (ret _) => apply preserves_ret
  | |- Preserves (raise _) => apply preserves_raise
  | |- Preserves fault => apply preserves_fault
  | |- Preserves outOfFuel => apply preserves_outOfFuel
  | |- Preserves (getObject _) => apply preserves_getObject
  | |- Preserves (getClassCell _) => apply preserves_getClassCell
  | |- Preserves (getAccessorCell _) => apply preserves_getAccessorCell
  | |- Preserves getRuntime => apply preserves_getRuntime
  | |- Preserves (putAccessorCell _ _) => apply preserves_putAccessorCell
  | |- Preserves (deref _) => apply preserves_deref
  | |- Preserves (discard _) => apply preserves_discard
  | |- Preserves (findProperty _ _) => apply readOnly_preserves, readOnly_findProperty
  | |- Preserves (readNamedSlot _ _ _) =>
      apply readOnly_preserves, readOnly_readNamedSlot
  | |- Preserves (vmcast_PropertyAccessor _) =>
      apply readOnly_preserves, readOnly_vmcast
  | |- Preserves (writeNamedSlot _ _ _ _) => apply preserves_writeNamedSlot
  | |- Preserves (initializeLazyObject _ _) => apply preserves_initializeLazyObject
  | |- Preserves (addOwnPropertyImpl _ _ _ _ _) => apply preserves_addOwnPropertyImpl
  | |- Preserves (Callable_executeCall0 _ _ _) => apply (call0_preserves ext Hext)
  | |- Preserves (Callable_executeCall1 _ _ _ _) => apply (call1_preserves ext Hext)
  | |- Preserves (HostObject_get _ _ _) => apply (hostGet_preserves ext Hext)
  | |- Preserves (HostObject_set _ _ _ _) => apply (hostSet_preserves ext Hext)
  | |- Preserves (HostObject_getHostPropertyNames _ _) =>
      apply (hostNames_preserves ext Hext)
  | |- Preserves (JSArray_setLength _ _ _ _) => apply (setLength_preserves ext Hext)
  | |- Preserves (if ?b then _ else _) => destruct b
  | |- Preserves (match ?x with _ => _ end) => destruct x
  end.

Ltac pres_block :=
  lazymatch goal with
  | |- Preserves (bind (getObject _) _) =>
      first [ simple apply preserves_deleteBlock | simple apply preserves_updateBlock ]
  end.

Ltac pres := repeat first [ pres_block | pres_step ].

Lemma preserves_getNamedDescriptor_loop fuel cur name :
  Preserves (getNamedDescriptor_loop ext fuel cur name).
Proof.
  revert cur. induction fuel as [|fuel IH]; intros cur; cbn [getNamedDescriptor_loop];
    pres; apply IH.
Qed.

Lemma preserves_getNamedDescriptor fuel self name :
  Preserves (getNamedDescriptor ext fuel self name).
Proof. unfold getNamedDescriptor. pres. apply preserves_getNamedDescriptor_loop. Qed.

Lemma preserves_hasNamed fuel self name : Preserves (hasNamed ext fuel self name).
Proof. unfold hasNamed. pres. apply preserves_getNamedDescriptor. Qed.

Lemma preserves_hasNamedOrIndexed fuel self name :
  Preserves (hasNamedOrIndexed ext fuel self name).
Proof. unfold hasNamedOrIndexed. pres; apply preserves_hasNamed. Qed.

Lemma preserves_getNamed_RJS fuel self name opFlags cache :
  Preserves (getNamed_RJS ext fuel self name opFlags cache).
Proof. unfold getNamed_RJS. pres; apply preserves_getNamedDescriptor. Qed.

Lemma preserves_internalSetter self name desc value opFlags :
  Preserves (internalSetter ext self name desc value opFlags).
Proof. unfold internalSetter. pres. Qed.

Lemma preserves_addOwnProperty self name dpFlags value opFlags :
  Preserves (addOwnProperty ext self name dpFlags value opFlags).
Proof. unfold addOwnProperty. pres. Qed.

Lemma preserves_raiseErrorForOverridingStaticBuiltin {A} fuel self name :
  Preserves (@raiseErrorForOverridingStaticBuiltin ext A fuel self name).
Proof.
  unfold raiseErrorForOverridingStaticBuiltin. pres; apply preserves_getNamedDescriptor.
Qed.

Lemma preserves_putNamed_RJS fuel self name value opFlags :
  Preserves (putNamed_RJS ext fuel self name value opFlags).
Proof.
  unfold putNamed_RJS. pres;
    first [ apply preserves_getNamedDescriptor
          | apply preserves_addOwnProperty
          | apply preserves_internalSetter
          | apply preserves_raiseErrorForOverridingStaticBuiltin ].
Qed.

Lemma preserves_deleteNamed self name opFlags :
  Preserves (deleteNamed ext self name opFlags).
Proof.
  unfold deleteNamed. pres.
Qed.

Lemma preserves_checkPropertyUpdate cur dpf v w opFlags :
  Preserves (checkPropertyUpdate cur dpf v w opFlags).
Proof.
  unfold checkPropertyUpdate, checkPropertyUpdate_same, checkPropertyUpdate_validate,
    rejectUpdate. pres.
Qed.

Lemma preserves_updateOwnProperty self name pos desc dpf w opFlags :
  Preserves (updateOwnProperty ext self name pos desc dpf w opFlags).
Proof.
  unfold updateOwnProperty. pres;
    first [ apply preserves_checkPropertyUpdate
          | apply preserves_internalSetter ].
Qed.

Lemma preserves_defineOwnProperty fuel self name dpf w opFlags :
  Preserves (defineOwnProperty ext fuel self name dpf w opFlags).
Proof.
  induction fuel as [|fuel IH]; cbn [defineOwnProperty]; pres;
    first [ apply preserves_updateOwnProperty
          | apply preserves_addOwnProperty
          | apply IH ].
Qed.

Lemma preserves_getOwnPropertyNames self onlyEnumerable :
  Preserves (getOwnPropertyNames ext self onlyEnumerable).
Proof. unfold getOwnPropertyNames. pres. Qed.

Lemma preserves_appendAllPropertyNames_loop fuel head needDedup beginIndex arr size :
  Preserves (appendAllPropertyNames_loop ext fuel head needDedup beginIndex arr size).
Proof.
  revert head needDedup arr size.
  induction fuel as [|fuel IH]; intros [h|] needDedup arr size;
    cbn [appendAllPropertyNames_loop]; pres;
    first [ apply preserves_getOwnPropertyNames | apply IH ].
Qed.

Lemma preserves_setProtoClasses_loop fuel head arr :
  Preserves (setProtoClasses_loop ext fuel head arr).
Proof.
  revert head arr.
  induction fuel as [|fuel IH]; intros [h|] arr; cbn [setProtoClasses_loop]; pres;
    apply IH.
Qed.

Lemma preserves_matchesProtoClasses_loop fuel head arr i :
  Preserves (matchesProtoClasses_loop fuel head arr i).
Proof.
  revert head i.
  induction fuel as [|fuel IH]; intros [h|] i; cbn [matchesProtoClasses_loop]; pres;
    apply IH.
Qed.

Lemma preserves_getForInPropertyNames fuel obj :
  Preserves (getForInPropertyNames ext fuel obj).
Proof.
  unfold getForInPropertyNames, setProtoClasses, matchesProtoClasses,
    appendAllPropertyNames. pres;
    first [ apply preserves_setProtoClasses_loop
          | apply preserves_appendAllPropertyNames_loop
          | apply preserves_matchesProtoClasses_loop
          | apply preserves_setForInCache
          | apply preserves_clearForInCache ].
Qed.

(** *** The computed entry points and the rest of the file *)

Context (env : Environment).
Hypothesis Henv : EnvironmentPreserves env.

Lemma preserves_callStatus {A} (m : M A) : Preserves m → Preserves (callStatus m).
Proof.
  intros Hm rt Hinv. unfold callStatus. specialize (Hm rt Hinv).
  by destruct (m rt).
Qed.

Lemma preserves_LAZY_TO_STRING v : Preserves (LAZY_TO_STRING (env_keys env) v).
Proof.
  intros rt Hinv. unfold LAZY_TO_STRING.
  pose proof (toString_preserves env Henv v rt Hinv) as H.
  by destruct (toString_RJS (env_keys env) v rt).
Qed.

Lemma readOnly_readComputedSlot self desc : ReadsOnly (readComputedSlot ext self desc).
Proof.
  intros rt. unfold readComputedSlot. munfold.
  destruct (objects rt !! self); [|done]. cbv beta iota.
  by destruct (getComputedSlotValue _ _ _).
Qed.

Ltac pres_env_step :=
  lazymatch goal with
  | |- Preserves (toString_RJS _ _) => apply (toString_preserves env Henv)
  | |- Preserves (stringToSymbolID _ _) => apply (stringToSymbolID_preserves env Henv)
  | |- Preserves (valueToSymbolID _ _) => apply (valueToSymbolID_preserves env Henv)
  | |- Preserves (toPropertyKeyIfObject _ _) =>
      apply (toPropertyKeyIfObject_preserves env Henv)
  | |- Preserves (subclass_setOwnIndexedImpl _ _ _ _) =>
      apply (setOwnIndexed_preserves env Henv)
  | |- Preserves (subclass_deleteOwnIndexedImpl _ _ _) =>
      apply (deleteOwnIndexed_preserves env Henv)
  | |- Preserves (JSArray_setLength_uint32 _ _ _ _) =>
      apply (setLength_uint32_preserves env Henv)
  | |- Preserves (env_generateNextObjectID _) =>
      apply (generateNextObjectID_preserves env Henv)
  | |- Preserves (callStatus _) => apply preserves_callStatus
  | |- Preserves (LAZY_TO_STRING _ _) => apply preserves_LAZY_TO_STRING
  | |- Preserves (LAZY_TO_IDENTIFIER _ _ _) => unfold LAZY_TO_IDENTIFIER
  | |- Preserves (LAZY_TO_IDENTIFIER_once _ _ _ _) => unfold LAZY_TO_IDENTIFIER_once
  | |- Preserves (TO_ARRAY_INDEX _ _) => unfold TO_ARRAY_INDEX
  | |- Preserves (readComputedSlot _ _ _) =>
      apply readOnly_preserves, readOnly_readComputedSlot
  | |- Preserves (getNamedDescriptor _ _ _ _) => apply preserves_getNamedDescriptor
  | |- Preserves (getNamed_RJS _ _ _ _ _ _) => apply preserves_getNamed_RJS
  | |- Preserves (putNamed_RJS _ _ _ _ _ _) => apply preserves_putNamed_RJS
  | |- Preserves (addOwnProperty _ _ _ _ _ _) => apply preserves_addOwnProperty
  | |- Preserves (updateOwnProperty _ _ _ _ _ _ _ _) => apply preserves_updateOwnProperty
  | |- Preserves (defineOwnProperty _ _ _ _ _ _ _) => apply preserves_defineOwnProperty
  | |- Preserves (checkPropertyUpdate _ _ _ _ _) => apply preserves_checkPropertyUpdate
  | |- Preserves (raiseErrorForOverridingStaticBuiltin _ _ _ _) =>
      apply preserves_raiseErrorForOverridingStaticBuiltin
  | |- Preserves (allocateNewSlotStorage _ _ _ _) => apply preserves_allocateNewSlotStorage
  | |- Preserves (create_withParent _ _) => apply preserves_create_withParent
  | |- Preserves (let _ := _ in _) => cbv zeta
  end.

Ltac pres_env := repeat first [ pres_block | pres_step | pres_env_step ].

Lemma preserves_getOwnComputedPrimitiveDescriptor fuel self nameVal :
  Preserves (getOwnComputedPrimitiveDescriptor ext (env_keys env) fuel self nameVal).
Proof.
  induction fuel as [|fuel IH]; cbn [getOwnComputedPrimitiveDescriptor]; pres_env;
    apply IH.
Qed.

Lemma preserves_getOwnComputedDescriptor fuel self nameVal :
  Preserves (getOwnComputedDescriptor ext (env_keys env) fuel self nameVal).
Proof.
  unfold getOwnComputedDescriptor. pres_env.
  apply preserves_getOwnComputedPrimitiveDescriptor.
Qed.

Lemma preserves_getComputedPrimitiveDescriptor_loop fuel ownFuel propObj nameVal desc :
  Preserves (getComputedPrimitiveDescriptor_loop ext (env_keys env) fuel ownFuel propObj
               nameVal desc).
Proof.
  revert propObj. induction fuel as [|fuel IH]; intros propObj;
    cbn [getComputedPrimitiveDescriptor_loop]; pres_env;
    first [ apply preserves_getOwnComputedPrimitiveDescriptor | apply IH ].
Qed.

Lemma preserves_getComputedPrimitiveDescriptor fuel self nameVal desc :
  Preserves (getComputedPrimitiveDescriptor ext (env_keys env) fuel self nameVal desc).
Proof.
  unfold getComputedPrimitiveDescriptor. pres_env.
  apply preserves_getComputedPrimitiveDescriptor_loop.
Qed.

Lemma preserves_getComputedDescriptor fuel self nameVal desc :
  Preserves (getComputedDescriptor ext (env_keys env) fuel self nameVal desc).
Proof.
  unfold getComputedDescriptor. pres_env.
  apply preserves_getComputedPrimitiveDescriptor.
Qed.

Lemma preserves_getNamedPropertyValue self propObj desc :
  Preserves (getNamedPropertyValue ext self propObj desc).
Proof. unfold getNamedPropertyValue. pres_env. Qed.

Lemma preserves_getComputedPropertyValue self propObj desc :
  Preserves (getComputedPropertyValue ext self propObj desc).
Proof. unfold getComputedPropertyValue. pres_env. Qed.

Lemma preserves_getComputed_RJS fuel self nameVal :
  Preserves (getComputed_RJS ext (env_keys env) fuel self nameVal).
Proof.
  unfold getComputed_RJS. pres_env; apply preserves_getComputedPrimitiveDescriptor.
Qed.

Lemma preserves_getNamedOrIndexed fuel self name opFlags :
  Preserves (getNamedOrIndexed ext (env_keys env) fuel self name opFlags).
Proof. unfold getNamedOrIndexed. pres_env. apply preserves_getComputed_RJS. Qed.

Lemma preserves_hasComputed fuel self nameVal :
  Preserves (hasComputed ext (env_keys env) fuel self nameVal).
Proof. unfold hasComputed. pres_env; apply preserves_getComputedDescriptor. Qed.

Lemma preserves_deleteOwnIndexed self i :
  Preserves (deleteOwnIndexed (subclass_deleteOwnIndexedImpl (env_subclasses env)) self i).
Proof. unfold deleteOwnIndexed, _deleteOwnIndexedImpl. pres_env. Qed.

Lemma preserves_deleteComputed fuel self nameVal opFlags :
  Preserves (deleteComputed ext (env_keys env)
               (subclass_deleteOwnIndexedImpl (env_subclasses env)) fuel self nameVal
               opFlags).
Proof.
  induction fuel as [|fuel IH]; cbn [deleteComputed]; pres_env;
    first [ apply preserves_deleteOwnIndexed | apply IH ].
Qed.

Lemma preserves_setOwnIndexed self i v :
  Preserves (setOwnIndexed (env_subclasses env) self i v).
Proof. unfold setOwnIndexed, _setOwnIndexedImpl. pres_env. Qed.

Lemma preserves_setComputedSlotValue self desc v :
  Preserves (setComputedSlotValue ext (env_subclasses env) self desc v).
Proof. unfold setComputedSlotValue. pres_env. apply preserves_setOwnIndexed. Qed.

Lemma preserves_putComputed_RJS fuel self nameVal value opFlags :
  Preserves (putComputed_RJS ext (env_keys env) (env_subclasses env) fuel self nameVal
               value opFlags).
Proof.
  unfold putComputed_RJS. pres_env;
    first [ apply preserves_setOwnIndexed
          | apply preserves_getComputedPrimitiveDescriptor
          | apply preserves_setComputedSlotValue ].
Qed.

Lemma preserves_putNamedOrIndexed fuel self name value opFlags :
  Preserves (putNamedOrIndexed ext (env_keys env) (env_subclasses env) fuel self name
               value opFlags).
Proof. unfold putNamedOrIndexed. pres_env. apply preserves_putComputed_RJS. Qed.

Lemma preserves_defineOwnComputedPrimitive fuel self nameVal dpFlags value opFlags :
  Preserves (defineOwnComputedPrimitive ext (env_keys env) (env_subclasses env) fuel self
               nameVal dpFlags value opFlags).
Proof.
  unfold defineOwnComputedPrimitive. pres_env;
    first [ apply preserves_setOwnIndexed | apply preserves_deleteOwnIndexed ].
Qed.

Lemma preserves_defineOwnComputed fuel self nameVal dpFlags value opFlags :
  Preserves (defineOwnComputed ext (env_keys env) (env_subclasses env) fuel self nameVal
               dpFlags value opFlags).
Proof.
  unfold defineOwnComputed. pres_env. apply preserves_defineOwnComputedPrimitive.
Qed.

Lemma preserves_createWithException p : Preserves (createWithException ext p).
Proof. unfold createWithException. pres_env. Qed.

Lemma preserves_getOwnPropertySymbols self : Preserves (getOwnPropertySymbols ext self).
Proof. unfold getOwnPropertySymbols. pres_env. Qed.

Lemma preserves_PropertyAccessor_create g s : Preserves (PropertyAccessor_create g s).
Proof. by intros rt Hinv. Qed.

Lemma preserves_getObjectID self :
  Preserves (getObjectID (env_objectIDBits env) (env_generateNextObjectID env) self).
Proof.
  unfold getObjectID. apply preserves_bind; [pres|intros o].
  destruct (negb _); [pres|].
  apply preserves_bind; [apply (generateNextObjectID_preserves env Henv)|intros next].
  intros rt Hinv. unfold putObject, modifyRuntime. munfold.
  destruct (objects rt !! self) as [o1|] eqn:Ho; [|done]. cbv beta iota.
  by apply (HeapInvariant_putObject rt self o1).
Qed.

Lemma classSound_names c c' :
  map fst (propertyMap c') = map fst (propertyMap c) →
  hasIndexLikeProperties c' = hasIndexLikeProperties c →
  (classSound c → classSound c') ∧ (indexLikeFree c → indexLikeFree c').
Proof.
  intros Hnames Hmark.
  assert (indexLikeFree c → indexLikeFree c') as Hfree.
  { unfold indexLikeFree. rewrite !Forall_forall. intros H p Hp.
    assert (p.1 ∈ map fst (propertyMap c)) as Hin.
    { rewrite <- Hnames. apply list_elem_of_In, in_map, list_elem_of_In, Hp. }
    apply list_elem_of_In, in_map_iff in Hin as (q & Hq & Hin).
    rewrite <- Hq. apply H. by apply list_elem_of_In. }
  split; [|done]. unfold classSound. rewrite Hmark. auto.
Qed.

Lemma preserves_updatePropertyFlagsWithoutTransitions self flagsToClear flagsToSet props :
  Preserves (updatePropertyFlagsWithoutTransitions
               (env_updatePropertyFlagsWithoutTransitions env) self flagsToClear
               flagsToSet props).
Proof.
  intros rt Hinv. unfold updatePropertyFlagsWithoutTransitions, allocClass. munfold.
  destruct (objects rt !! self) as [o|] eqn:Ho; [|done]. cbv beta iota.
  destruct (classes rt !! clazz_ o) as [c|] eqn:Hc; [|done]. cbv beta iota.
  cbn [objects classes set_objects set_classes]. rewrite Ho. cbv beta iota.
  destruct (updatePropertyFlags_names env Henv c flagsToClear flagsToSet props)
    as [Hnames Hmark].
  destruct (classSound_names c _ Hnames Hmark) as [Hsound Hfree].
  by apply (HeapInvariant_classTransition rt self o c).
Qed.

Lemma isIndexLikeName_internal index :
  isIndexLikeName (InternalProperty_getSymbolID index) = false.
Proof. reflexivity. Qed.

Lemma preserves_addInternalProperty self index value :
  Preserves (addInternalProperty ext (env_NumInternalProperties env) self index value).
Proof.
  intros rt Hinv. unfold addInternalProperty.
  unfold bind at 1. unfold getObject, deref.
  destruct (objects rt !! self) as [o|] eqn:Ho; [|done]. unfold ret at 1.
  unfold bind at 1. unfold getClassCell at 1, deref.
  destruct (classes rt !! clazz_ o) as [c|] eqn:Hc; [|done]. unfold ret at 1.
  destruct (negb _ || _); [done|].
  unfold bind at 1. unfold HiddenClass_addProperty. unfold bind at 1.
  unfold getClassCell, deref. rewrite Hc. unfold ret at 1.
  unfold bind at 1. rewrite allocClass_eq. unfold ret at 1. cbn [fst snd].
  unfold bind at 1. unfold putObject at 1, modifyRuntime.
  cbn [objects classes set_objects set_classes].
  set (c' := (addPropertyTransition c (InternalProperty_getSymbolID index)
                PropertyFlags_empty).1).
  set (rt1 := set_objects _ _).
  assert (HeapInvariant rt1) as Hinv1.
  { apply (HeapInvariant_classTransition rt self o c c'); try done.
    - apply classSound_addProperty.
    - unfold indexLikeFree, c'. cbn. intros H.
      apply Forall_app. split; [done|]. apply Forall_singleton.
      apply isIndexLikeName_internal. }
  pose proof (preserves_allocateNewSlotStorage self
                (addPropertyTransition c (InternalProperty_getSymbolID index)
                   PropertyFlags_empty).2 value rt1 Hinv1) as Halloc.
  unfold bind.
  by destruct (allocateNewSlotStorage ext self _ value rt1).
Qed.

Lemma preserves_addInternalProperties_loop self i remaining value :
  Preserves (addInternalProperties_loop ext (env_NumInternalProperties env) self i
               remaining value).
Proof.
  revert i. induction remaining as [|remaining IH]; intros i;
    cbn [addInternalProperties_loop]; pres_env;
    first [ apply preserves_addInternalProperty | apply IH ].
Qed.

Lemma preserves_addInternalProperties self count value :
  Preserves (addInternalProperties ext (env_NumInternalProperties env) self count value).
Proof.
  unfold addInternalProperties. pres_env. apply preserves_addInternalProperties_loop.
Qed.

Lemma preserves_appendAllPropertyNames fuel obj arr beginIndex :
  Preserves (appendAllPropertyNames ext fuel obj arr beginIndex).
Proof. apply preserves_appendAllPropertyNames_loop. Qed.

Lemma preserves_setProtoClasses fuel obj arr :
  Preserves (setProtoClasses ext fuel obj arr).
Proof. unfold setProtoClasses. pres_env; apply preserves_setProtoClasses_loop. Qed.

Lemma preserves_matchesProtoClasses fuel obj arr :
  Preserves (matchesProtoClasses fuel obj arr).
Proof. unfold matchesProtoClasses. pres_env; apply preserves_matchesProtoClasses_loop. Qed.


Lemma preserves_runOperation fuel op : Preserves (runOperation ext env fuel op).
Proof.
  destruct op; cbn [runOperation]; cbv zeta; try apply preserves_discard.
  - apply preserves_create.
  - apply preserves_create_withParent.
  - apply preserves_create_withPropertyCount.
  - apply preserves_create_withClass.
  - apply preserves_initializeLazyObject.
  - apply preserves_setParent.
  - apply preserves_getNamed_RJS.
  - apply preserves_hasNamed.
  - apply preserves_hasNamedOrIndexed.
  - apply preserves_putNamed_RJS.
  - apply preserves_deleteNamed.
  - apply preserves_defineOwnProperty.
  - apply preserves_addOwnPropertyImpl.
  - apply preserves_addOwnProperty.
  - apply preserves_preventExtensions.
  - apply preserves_seal.
  - apply preserves_freeze.
  - apply preserves_isSealed.
  - apply preserves_isFrozen.
  - apply preserves_getOwnPropertyNames.
  - apply preserves_getForInPropertyNames.
  - apply preserves_getNamedOrIndexed.
  - apply preserves_getComputed_RJS.
  - apply preserves_hasComputed.
  - apply preserves_putNamedOrIndexed.
  - apply preserves_putComputed_RJS.
  - apply preserves_deleteComputed.
  - apply preserves_defineOwnComputed.
  - apply preserves_defineOwnComputedPrimitive.
  - apply preserves_getOwnPropertySymbols.
  - apply preserves_getObjectID.
  - apply preserves_createWithException.
  - apply preserves_allocateNewSlotStorage.
  - apply preserves_addInternalProperty.
  - apply preserves_addInternalProperties.
  - apply preserves_getNamedPropertyValue.
  - apply preserves_getComputedPropertyValue.
  - apply preserves_getOwnComputedPrimitiveDescriptor.
  - apply preserves_getOwnComputedDescriptor.
  - apply preserves_getNamedDescriptor.
  - apply preserves_getComputedPrimitiveDescriptor.
  - apply preserves_getComputedDescriptor.
  - apply preserves_raiseErrorForOverridingStaticBuiltin.
  - apply preserves_setOwnIndexed.
  - apply preserves_deleteOwnIndexed.
  - apply preserves_updatePropertyFlagsWithoutTransitions.
  - apply preserves_addOwnPropertyImpl.
  - apply preserves_updateOwnProperty.
  - apply preserves_checkPropertyUpdate.
  - apply preserves_internalSetter.
  - apply preserves_appendAllPropertyNames.
  - apply preserves_setProtoClasses.
  - apply preserves_matchesProtoClasses.
  - apply preserves_PropertyAccessor_create.
Qed.

(** C9. Every operation of the core (every function that JSObject.cpp
    defines and that acts on the heap, with every entry point of the
    interface among them) keeps the invariant that an object whose
    fastIndexProperties flag is set has no named own property with an
    index-like name: from a heap that satisfies the invariant, whatever an
    operation returns or raises, the heap it leaves satisfies it.  In
    particular, after addOwnPropertyImpl, after an addOwnProperty that
    adds the property, and after the creation of an object from a hidden
    class, the flag of the object is clear when its class carries
    index-like properties; the object created has the class given. *)
Theorem fastIndexProperties_invariant :
  (∀ fuel op rt,
     HeapInvariant rt →
     match runOperation ext env fuel op rt with
     | Returned _ rt' | Exception _ rt' => HeapInvariant rt' ∧ FastIndexInvariant rt'
     | Fault | OutOfFuel => True
     end) ∧
  (∀ rt rt' self name flags v,
     HeapInvariant rt →
     addOwnPropertyImpl ext self name flags v rt = Returned tt rt' →
     ∃ o' c', objects rt' !! self = Some o' ∧ classes rt' !! clazz_ o' = Some c' ∧
              (hasIndexLikeProperties c' = true →
               fastIndexProperties (flags_ o') = false)) ∧
  (∀ rt rt' self name dpFlags v opFlags,
     HeapInvariant rt →
     addOwnProperty ext self name dpFlags v opFlags rt = Returned true rt' →
     ∃ o' c', objects rt' !! self = Some o' ∧ classes rt' !! clazz_ o' = Some c' ∧
              (hasIndexLikeProperties c' = true →
               fastIndexProperties (flags_ o') = false)) ∧
  (∀ rt rt' clazz obj,
     HeapInvariant rt →
     create_withClass ext clazz rt = Returned obj rt' →
     ∃ o' c', objects rt' !! obj = Some o' ∧ clazz_ o' = clazz ∧
              classes rt' !! clazz = Some c' ∧
              (hasIndexLikeProperties c' = true →
               fastIndexProperties (flags_ o') = false)).
Proof.
  split; [|split; [|split]].
  - intros fuel op rt Hinv. pose proof (preserves_runOperation fuel op rt Hinv) as H.
    destruct (runOperation ext env fuel op rt); try done; split; try done; apply H.
  - intros rt rt' self name flags v Hinv Hr.
    destruct (addOwnPropertyImpl_result rt rt' self name flags v Hinv Hr)
      as (_ & o & c & o' & c' & _ & _ & Ho' & Hc' & _ & Hclear).
    by exists o', c'.
  - intros rt rt' self name dpFlags v opFlags Hinv. unfold addOwnProperty.
    unfold bind at 1. unfold getObject, deref.
    destruct (objects rt !! self) as [o|] eqn:Ho; [|done]. unfold ret at 1.
    destruct (negb (isExtensible o) && negb (getInternalForce opFlags)).
    { by destruct (getThrowOnError opFlags). }
    cbv zeta. unfold bind at 1.
    destruct (addOwnPropertyImpl ext self name _ v rt) as [[] rt1| | |] eqn:Hr; try done.
    unfold ret. intros [= <-].
    destruct (addOwnPropertyImpl_result rt rt1 self name _ v Hinv Hr)
      as (_ & o0 & c & o' & c' & _ & _ & Ho' & Hc' & _ & Hclear).
    by exists o', c'.
  - intros rt rt' clazz obj Hinv Hr.
    destruct (create_withClass_result rt rt' clazz obj Hinv Hr)
      as (_ & o' & c' & Ho' & Hcl & Hc' & Hclear).
    by exists o', c'.
Qed.

End Invariant.

(** ** getOwnPropertyNames *)

Lemma setElementAt_end arr v : setElementAt arr (length arr) v = arr ++ [v].
Proof.
  unfold setElementAt. rewrite Nat.ltb_irrefl. by rewrite Nat.sub_diag.
Qed.





Section MergeLoop.
Variables (A B : list N) (T : list HermesValue).
Hypothesis HA : StronglySorted N.le A.
Hypothesis HB : StronglySorted N.le B.
Hypothesis HA32 : Forall (λ i, (i < 4294967296)%N) A.


End MergeLoop.



























(** * Further properties of the code *)

Lemma ProtoChain_functional rt cur l1 l2 :
  ProtoChain rt cur l1 → ProtoChain rt cur l2 → l1 = l2.
Proof.
  intros H1. revert l2. induction H1 as [|a o l Ho _ IH]; intros l2 H2.
  - by inversion H2.
  - inversion H2 as [|a' o' l' Ho' Hl']; subst. f_equal. apply IH.
    rewrite Ho in Ho'. by injection Ho' as <-.
Qed.

Lemma ProtoChain_suffix rt cur l a :
  ProtoChain rt cur l → a ∈ l →
  ∃ l1 l2, l = l1 ++ a :: l2 ∧ ProtoChain rt (Some a) (a :: l2).
Proof.
  induction 1 as [|b o l Ho Hl IH]; intros Ha.
  - by apply elem_of_nil in Ha.
  - apply elem_of_cons in Ha as [->|Ha].
    + exists [], l. split; [done|]. by eapply ProtoChain_step.
    + destruct (IH Ha) as (l1 & l2 & -> & Hc).
      exists (b :: l1), l2. by split.
Qed.

(** A step along the chain does not come back: an object is not on the
    chain of its own parent. *)
Lemma ProtoChain_not_in_tail rt a l : ProtoChain rt (Some a) (a :: l) → a ∉ l.
Proof.
  intros Hc Ha. inversion Hc as [|a' o l' Ho Hl]; subst.
  destruct (ProtoChain_suffix _ _ _ _ Hl Ha) as (l1 & l2 & -> & Hc').
  pose proof (ProtoChain_functional _ _ _ _ Hc Hc') as Heq.
  apply (f_equal length) in Heq. cbn in Heq. rewrite length_app in Heq.
  cbn in Heq. lia.
Qed.




(** ** Lookup along a chain of ordinary objects, continued *)

Lemma lookupChain_elem rt chain name p d :
  lookupChain rt chain name = Some (p, d) →
  p ∈ chain ∧ ownDescriptor rt p name = Some d.
Proof.
  induction chain as [|a l IH]; cbn [lookupChain]; [done|].
  destruct (ownDescriptor rt a name) as [d'|] eqn:Hd.
  - intros [= <- <-]. split; [set_solver|done].
  - intros H. destruct (IH H). split; [set_solver|done].
Qed.

(** X2. On a chain of ordinary objects [getNamed_RJS] reads the nearest
    object of the chain that owns the name and leaves the heap as it is:
    without an owner it returns undefined, or raises ReferenceError under
    mustExist; for a data property it returns the value in the owner's slot;
    for an accessor it returns undefined when there is no getter and
    otherwise calls the getter on the receiver, not on the owner. *)
Theorem getNamed_RJS_nearest_owner rt self chain name fuel opFlags cacheEntry :
  ProtoChain rt (Some self) chain →
  OrdinaryChain rt chain →
  length chain ≤ S fuel →
  match lookupChain rt chain name with
  | None =>
      getNamed_RJS ext fuel self name opFlags cacheEntry rt =
      if getMustExist opFlags then Exception ReferenceError rt
      else Returned (HVUndefined, None) rt
  | Some (owner, desc) =>
      ∀ po v,
        objects rt !! owner = Some po →
        getNamedSlotValue ext po desc = Some v →
        pf_hostObject (desc_flags desc) = false →
        if pf_accessor (desc_flags desc) then
          ∀ a cell,
            v = HVObject PropertyAccessorKind a →
            accessors rt !! a = Some cell →
            getNamed_RJS ext fuel self name opFlags cacheEntry rt =
            match getter cell with
            | None => Returned (HVUndefined, None) rt
            | Some g =>
                (let* r := Callable_executeCall0 ext g self in ret (r, None)) rt
            end
        else
          ∃ stamped,
            getNamed_RJS ext fuel self name opFlags cacheEntry rt =
            Returned (v, stamped) rt
  end.
Proof.
  intros Hc Hord Hf. unfold getNamed_RJS.
  rewrite (bind_Returned _ _ _ _ _ (getNamedDescriptor_lookupChain _ _ _ _ _ Hc Hord Hf)).
  destruct (lookupChain rt chain name) as [[owner desc]|] eqn:Hl.
  - intros po v Hpo Hv Hhost. rewrite Hhost.
    destruct (pf_accessor (desc_flags desc)) eqn:Hacc; cbn [negb andb].
    + intros a cell -> Hcell.
      rewrite (bind_Returned _ _ _ _ _ (readNamedSlot_eq _ _ _ _ _ Hpo Hv)).
      rewrite (bind_Returned _ _ _ _ _ (vmcast_PropertyAccessor_eq _ _ _ Hcell)).
      cbn [snd]. by destruct (getter cell).
    + destruct (lookupChain_elem _ _ _ _ _ Hl) as [_ Hown].
      unfold ownDescriptor in Hown. rewrite Hpo in Hown.
      destruct (classes rt !! clazz_ po) as [pc|] eqn:Hpc; [|done].
      destruct cacheEntry.
      * munfold. rewrite Hpo. cbv beta iota. rewrite Hpc. cbv beta iota.
        rewrite (readNamedSlot_eq _ _ _ _ _ Hpo Hv). by eexists.
      * munfold. rewrite (readNamedSlot_eq _ _ _ _ _ Hpo Hv). by eexists.
  - by destruct (getMustExist opFlags).
Qed.

(** ** Adding a property: the slot storage *)

Lemma nextSlot_app pm p :
  nextSlot (pm ++ [p]) = max (nextSlot pm) (S (desc_slot p.2)).
Proof.
  unfold nextSlot. induction pm as [|q pm IH]; cbn [foldr app]; [lia|].
  rewrite IH. lia.
Qed.

Lemma nextSlot_lt pm i p : pm !! i = Some p → desc_slot p.2 < nextSlot pm.
Proof.
  revert i. unfold nextSlot. induction pm as [|q pm IH]; intros i; [done|].
  destruct i as [|i]; cbn [foldr lookup].
  - intros [= ->]. lia.
  - intros H. specialize (IH i H). cbn in *. lia.
Qed.

Lemma findProperty_slot_lt c name pos desc :
  HiddenClass_findProperty c name = Some (pos, desc) →
  desc_slot desc < nextSlot (propertyMap c).
Proof.
  intros H. apply HiddenClass_findProperty_elem in H.
  by apply (nextSlot_lt _ _ _ H).
Qed.

Lemma HiddenClass_findProperty_None c name :
  HiddenClass_findProperty c name = None ↔ name ∉ map fst (propertyMap c).
Proof.
  unfold HiddenClass_findProperty.
  destruct (list_find _ _) as [[pos [n d]]|] eqn:Hf.
  - split; [done|]. intros Hn. exfalso. apply Hn.
    apply list_find_Some in Hf as (Hl & Heq & _). cbn in Heq. subst n.
    apply list_elem_of_fmap. exists (name, d). split; [done|].
    by eapply list_elem_of_lookup_2.
  - split; [|done]. intros _ Hin.
    apply list_elem_of_fmap in Hin as ([n d] & -> & Hin).
    apply list_find_None in Hf. rewrite Forall_forall in Hf.
    by apply (Hf _ Hin).
Qed.

(** The class after [addProperty]: the new name is found at the end, at the
    next slot, and every other name is found as before. *)
Lemma findProperty_addProperty_new c name flags :
  HiddenClass_findProperty c name = None →
  HiddenClass_findProperty (addPropertyTransition c name flags).1 name =
  Some (length (propertyMap c),
        mkNamedPropertyDescriptor (nextSlot (propertyMap c)) flags).
Proof.
  intros Hnone. unfold HiddenClass_findProperty in *. cbn [addPropertyTransition fst propertyMap].
  destruct (list_find (λ p, p.1 = name) (propertyMap c)) as [[? [? ?]]|] eqn:Hf; [done|].
  rewrite list_find_app_r by done. cbn. rewrite decide_True by done. cbn.
  try rewrite Nat.add_0_r. done.
Qed.

Lemma findProperty_addProperty_other c name flags y :
  y ≠ name →
  HiddenClass_findProperty (addPropertyTransition c name flags).1 y =
  HiddenClass_findProperty c y.
Proof.
  intros Hne. unfold HiddenClass_findProperty. cbn [addPropertyTransition fst propertyMap].
  destruct (list_find (λ p, p.1 = y) (propertyMap c)) as [[pos [n d]]|] eqn:Hf.
  - by rewrite (list_find_app_l _ _ _ _ _ Hf).
  - rewrite list_find_app_r by done. cbn. by rewrite decide_False by (intros ?; by subst).
Qed.

(** [allocateNewSlotStorage] at the next slot of the class stores the value
    there, keeps the slots given out before, and keeps the shape. *)
Lemma allocateNewSlotStorage_next rt self o n v :
  objects rt !! self = Some o →
  length (directProps_ o) = DIRECT_PROPERTY_SLOTS ext →
  n ≤ DIRECT_PROPERTY_SLOTS ext +
      match propStorage_ o with Some ps => length ps | None => 0 end →
  ∃ o',
    allocateNewSlotStorage ext self n v rt =
      Returned tt (set_objects (<[self := o']> (objects rt)) rt) ∧
    (∀ fl, getNamedSlotValue ext o' (mkNamedPropertyDescriptor n fl) = Some v) ∧
    (∀ d, desc_slot d < n → getNamedSlotValue ext o' d = getNamedSlotValue ext o d) ∧
    parent_ o' = parent_ o ∧ clazz_ o' = clazz_ o ∧ flags_ o' = flags_ o ∧
    vt o' = vt o ∧
    length (directProps_ o') = DIRECT_PROPERTY_SLOTS ext ∧
    S n ≤ DIRECT_PROPERTY_SLOTS ext +
          match propStorage_ o' with Some ps => length ps | None => 0 end.
Proof.
  intros Ho Hlen Hn. unfold allocateNewSlotStorage.
  rewrite (bind_Returned _ _ _ _ _ (getObject_eq _ _ _ Ho)).
  unfold getNamedSlotValue.
  destruct (n <? DIRECT_PROPERTY_SLOTS ext) eqn:Hdir.
  - apply Nat.ltb_lt in Hdir.
    rewrite (proj2 (Nat.ltb_lt n (length (directProps_ o)))) by lia.
    eexists. split; [reflexivity|]. cbn [desc_slot directProps_ propStorage_ set_directProps
      parent_ clazz_ flags_ vt].
    repeat split; try done.
    + intros _. rewrite (proj2 (Nat.ltb_lt _ _) Hdir).
      apply list_lookup_insert_eq. lia.
    + intros d Hd. rewrite (proj2 (Nat.ltb_lt (desc_slot d) _)) by lia.
      apply list_lookup_insert_ne. lia.
    + by rewrite length_insert.
    + destruct (propStorage_ o); lia.
  - apply Nat.ltb_ge in Hdir.
    destruct (propStorage_ o) as [ps|] eqn:Hps.
    + destruct (n - DIRECT_PROPERTY_SLOTS ext <? length ps) eqn:Hk.
      * apply Nat.ltb_lt in Hk.
        eexists. split; [reflexivity|].
        cbn [desc_slot directProps_ propStorage_ set_propStorage parent_ clazz_ flags_ vt].
        repeat split; try done.
        -- intros _. rewrite (proj2 (Nat.ltb_ge _ _) Hdir).
           apply list_lookup_insert_eq. lia.
        -- intros d Hd. destruct (desc_slot d <? DIRECT_PROPERTY_SLOTS ext) eqn:Hdd; [done|].
           apply Nat.ltb_ge in Hdd. apply list_lookup_insert_ne. lia.
        -- rewrite length_insert. lia.
      * apply Nat.ltb_ge in Hk.
        rewrite bool_decide_eq_true_2 by lia.
        eexists. split; [reflexivity|].
        cbn [desc_slot directProps_ propStorage_ set_propStorage parent_ clazz_ flags_ vt].
        repeat split; try done.
        -- intros _. rewrite (proj2 (Nat.ltb_ge _ _) Hdir).
           rewrite lookup_app_r by lia.
           replace (n - DIRECT_PROPERTY_SLOTS ext - length ps) with 0 by lia. done.
        -- intros d Hd. destruct (desc_slot d <? DIRECT_PROPERTY_SLOTS ext) eqn:Hdd; [done|].
           apply Nat.ltb_ge in Hdd. apply lookup_app_l. lia.
        -- rewrite length_app. cbn. lia.
    + rewrite bool_decide_eq_true_2 by lia.
      eexists. split; [reflexivity|].
      cbn [desc_slot directProps_ propStorage_ set_propStorage parent_ clazz_ flags_ vt].
      repeat split; try done.
      * intros _. rewrite (proj2 (Nat.ltb_ge _ _) Hdir).
        replace (n - DIRECT_PROPERTY_SLOTS ext) with 0 by lia. done.
      * intros d Hd. rewrite (proj2 (Nat.ltb_lt (desc_slot d) _)) by lia. done.
      * cbn. lia.
Qed.

Lemma HiddenClass_addProperty_eq rt clazz c name flags :
  classes rt !! clazz = Some c →
  HiddenClass_addProperty clazz name flags rt =
  Returned (fresh (dom (classes rt)), nextSlot (propertyMap c))
    (set_classes
       (<[fresh (dom (classes rt)) := (addPropertyTransition c name flags).1]>
          (classes rt)) rt).
Proof.
  intros Hc. unfold HiddenClass_addProperty.
  rewrite (bind_Returned _ _ _ _ _ (getClassCell_eq _ _ _ Hc)).
  by rewrite (bind_Returned _ _ _ _ _ (allocClass_eq _ _)).
Qed.

Lemma addOwnPropertyImpl_effect rt self o c name flags v :
  objects rt !! self = Some o →
  classes rt !! clazz_ o = Some c →
  SlotsWellFormed ext o c →
  ∃ o',
    addOwnPropertyImpl ext self name flags v rt =
      Returned tt
        (set_objects (<[self := o']> (objects rt))
           (set_classes
              (<[fresh (dom (classes rt)) := (addPropertyTransition c name flags).1]>
                 (classes rt)) rt)) ∧
    clazz_ o' = fresh (dom (classes rt)) ∧
    (∀ fl, getNamedSlotValue ext o'
             (mkNamedPropertyDescriptor (nextSlot (propertyMap c)) fl) = Some v) ∧
    (∀ d, desc_slot d < nextSlot (propertyMap c) →
          getNamedSlotValue ext o' d = getNamedSlotValue ext o d) ∧
    parent_ o' = parent_ o ∧ vt o' = vt o ∧
    (flags_ o' = flags_ o ∨
     flags_ o' = set_fastIndexProperties false (flags_ o)) ∧
    SlotsWellFormed ext o' (addPropertyTransition c name flags).1.
Proof.
  intros Ho Hc [Hlen Hnext]. unfold addOwnPropertyImpl.
  rewrite (bind_Returned _ _ _ _ _ (getObject_eq _ _ _ Ho)).
  rewrite (bind_Returned _ _ _ _ _ (HiddenClass_addProperty_eq _ _ _ _ _ Hc)).
  cbn [fst snd].
  set (nc := fresh (dom (classes rt))).
  set (c' := (addPropertyTransition c name flags).1).
  set (n := nextSlot (propertyMap c)) in *.
  unfold bind at 1. unfold putObject at 1, modifyRuntime.
  cbn [objects classes set_objects set_classes].
  set (rt1 := set_objects (<[self := set_clazz nc o]> (objects rt))
                (set_classes (<[nc := c']> (classes rt)) rt)).
  assert (objects rt1 !! self = Some (set_clazz nc o)) as Ho1 by apply lookup_insert_eq.
  destruct (allocateNewSlotStorage_next rt1 self (set_clazz nc o) n v Ho1 Hlen Hnext)
    as (o2 & Halloc & Hnew & Hold & Hpar & Hcl & Hfl & Hvt & Hlen2 & Hnext2).
  rewrite (bind_Returned _ _ _ _ _ Halloc).
  assert (set_objects (<[self := o2]> (objects rt1)) rt1 =
          set_objects (<[self := o2]> (objects rt))
            (set_classes (<[nc := c']> (classes rt)) rt)) as Hrt2.
  { unfold rt1, set_objects, set_classes.
    cbn [objects classes accessors objectPrototypeRawPtr].
    by rewrite insert_insert_eq. }
  rewrite Hrt2.
  set (rt2 := set_objects (<[self := o2]> (objects rt))
                (set_classes (<[nc := c']> (classes rt)) rt)).
  assert (objects rt2 !! self = Some o2) as Ho2 by apply lookup_insert_eq.
  assert (classes rt2 !! clazz_ o2 = Some c') as Hc2.
  { rewrite Hcl. apply lookup_insert_eq. }
  rewrite (bind_Returned _ _ _ _ _ (getObject_eq _ _ _ Ho2)).
  rewrite (bind_Returned _ _ _ _ _ (getClassCell_eq _ _ _ Hc2)).
  assert (nextSlot (propertyMap c') = S n) as Hn'.
  { unfold c'. cbn [addPropertyTransition fst propertyMap].
    rewrite nextSlot_app. cbn. fold n. lia. }
  unfold getHasIndexLikeProperties.
  destruct (hasIndexLikeProperties c').
  - exists (set_flags (set_fastIndexProperties false (flags_ o2)) o2).
    split.
    { munfold. unfold rt2, set_objects, set_classes.
      cbn [objects classes accessors objectPrototypeRawPtr].
      by rewrite insert_insert_eq. }
    cbn [clazz_ set_flags parent_ vt flags_].
    split; [done|]. split; [exact Hnew|]. split.
    { intros d Hd. rewrite <- (getNamedSlotValue_set_clazz o nc). by apply Hold. }
    split; [done|]. split; [done|]. split.
    { right. rewrite Hfl. done. }
    split; [done|]. rewrite Hn'. exact Hnext2.
  - exists o2. split; [done|].
    split; [done|]. split; [exact Hnew|]. split.
    { intros d Hd. rewrite <- (getNamedSlotValue_set_clazz o nc). by apply Hold. }
    split; [done|]. split; [done|]. split; [by left|].
    split; [done|]. rewrite Hn'. exact Hnext2.
Qed.

Lemma addOwnProperty_flags dpf :
  (let setWritable := if dpf_isAccessor dpf then false else dpf_setWritable dpf in
   let flags0 := PropertyFlags_empty in
   let flags1 := if dpf_isAccessor dpf then set_accessor true flags0 else flags0 in
   let flags2 :=
     if dpf_setEnumerable dpf then set_enumerable (dpf_enumerable dpf) flags1
     else flags1 in
   let flags3 :=
     if setWritable then set_writable (dpf_writable dpf) flags2 else flags2 in
   let flags4 :=
     if dpf_setConfigurable dpf
     then set_configurable (dpf_configurable dpf) flags3 else flags3 in
   set_internalSetter (dpf_enableInternalSetter dpf) flags4) = newPropertyFlags dpf.
Proof.
  unfold newPropertyFlags, dpf_isAccessor. destruct dpf as [e se w sw cf scf sg ss sv eis].
  cbn. by destruct e, se, w, sw, cf, scf, sg, ss.
Qed.

Lemma addOwnProperty_eq rt self o name dpf v opFlags :
  objects rt !! self = Some o →
  addOwnProperty ext self name dpf v opFlags rt =
  if noExtend (flags_ o) && negb (getInternalForce opFlags) then rejected opFlags rt
  else (let* _ := addOwnPropertyImpl ext self name (newPropertyFlags dpf) v in ret true) rt.
Proof.
  intros Ho. unfold addOwnProperty.
  rewrite (bind_Returned _ _ _ _ _ (getObject_eq _ _ _ Ho)).
  unfold isExtensible. rewrite negb_involutive.
  destruct (noExtend (flags_ o) && negb (getInternalForce opFlags)).
  - unfold rejected. by destruct (getThrowOnError opFlags).
  - cbv zeta. by rewrite <- addOwnProperty_flags.
Qed.

Lemma defineOwnProperty_absent rt self o c name fuel dpf v opFlags :
  objects rt !! self = Some o →
  classes rt !! clazz_ o = Some c →
  HiddenClass_findProperty c name = None →
  lazyObject (flags_ o) = false →
  defineOwnProperty ext fuel self name dpf v opFlags rt =
  addOwnProperty ext self name dpf v opFlags rt.
Proof.
  intros Ho Hc Hf Hlz.
  destruct fuel; cbn [defineOwnProperty];
    rewrite (bind_Returned _ _ _ _ _ (findProperty_eq _ _ _ _ _ Ho Hc)), Hf;
    rewrite (bind_Returned _ _ _ _ _ (getObject_eq _ _ _ Ho)); by rewrite Hlz.
Qed.

(** What adding the property [name] with the flags [flags] and the value
    [v] does to the heap. *)
Lemma addOwnPropertyImpl_adds rt self o c name flags v :
  objects rt !! self = Some o →
  classes rt !! clazz_ o = Some c →
  SlotsWellFormed ext o c →
  HiddenClass_findProperty c name = None →
  ∃ rt' o' c' pos,
    addOwnPropertyImpl ext self name flags v rt = Returned tt rt' ∧
    objects rt' !! self = Some o' ∧
    classes rt' !! clazz_ o' = Some c' ∧
    SlotsWellFormed ext o' c' ∧
    HiddenClass_findProperty c' name =
      Some (pos, mkNamedPropertyDescriptor (nextSlot (propertyMap c)) flags) ∧
    getNamedSlotValue ext o'
      (mkNamedPropertyDescriptor (nextSlot (propertyMap c)) flags) = Some v ∧
    (∀ y p d, y ≠ name → HiddenClass_findProperty c y = Some (p, d) →
              HiddenClass_findProperty c' y = Some (p, d) ∧
              getNamedSlotValue ext o' d = getNamedSlotValue ext o d) ∧
    parent_ o' = parent_ o ∧ vt o' = vt o ∧
    (flags_ o' = flags_ o ∨ flags_ o' = set_fastIndexProperties false (flags_ o)) ∧
    (∀ a, a ≠ self → objects rt' !! a = objects rt !! a) ∧
    (∀ a cell, classes rt !! a = Some cell → classes rt' !! a = Some cell) ∧
    accessors rt' = accessors rt ∧
    propertyMap c' =
      propertyMap c ++
      [(name, mkNamedPropertyDescriptor (nextSlot (propertyMap c)) flags)].
Proof.
  intros Ho Hc Hwf Hnone.
  destruct (addOwnPropertyImpl_effect rt self o c name flags v Ho Hc Hwf)
    as (o' & Hrun & Hcl & Hnew & Hold & Hpar & Hvt & Hfl & Hwf').
  eexists _, o', (addPropertyTransition c name flags).1, (length (propertyMap c)).
  split; [exact Hrun|]. cbn [objects classes accessors set_objects set_classes].
  split; [apply lookup_insert_eq|].
  split; [rewrite Hcl; apply lookup_insert_eq|].
  split; [done|].
  split; [by apply findProperty_addProperty_new|].
  split; [apply Hnew|].
  split.
  { intros y p d Hy Hfy. split.
    - by rewrite findProperty_addProperty_other.
    - apply Hold. by eapply findProperty_slot_lt. }
  split; [done|]. split; [done|]. split; [done|].
  split; [intros a Ha; by rewrite lookup_insert_ne|].
  split; [|done].
  intros a cell Hcell. by apply classes_alloc_preserved.
Qed.

(** X3. Defining a property that the object does not own yet, on an object
    whose storage has the shape its class expects: a non-extensible object
    refuses it (unless internalForce is given) and the heap stays as it is;
    otherwise the call returns true, the object owns the name with exactly
    the mentioned fields of the descriptor as flags, at the next slot of
    the class, where the value is stored (so a data property is read back
    by [getNamed_RJS]); the properties the object had keep their
    descriptors and values, its parent and every other object are
    untouched, and the storage keeps its shape. *)
Theorem defineOwnProperty_new rt self o c name dpf v opFlags fuel :
  objects rt !! self = Some o →
  classes rt !! clazz_ o = Some c →
  SlotsWellFormed ext o c →
  HiddenClass_findProperty c name = None →
  lazyObject (flags_ o) = false →
  if noExtend (flags_ o) && negb (getInternalForce opFlags) then
    defineOwnProperty ext fuel self name dpf v opFlags rt = rejected opFlags rt
  else
    ∃ rt' o' c' pos,
      defineOwnProperty ext fuel self name dpf v opFlags rt = Returned true rt' ∧
      objects rt' !! self = Some o' ∧
      classes rt' !! clazz_ o' = Some c' ∧
      SlotsWellFormed ext o' c' ∧
      HiddenClass_findProperty c' name =
        Some (pos, mkNamedPropertyDescriptor (nextSlot (propertyMap c))
                     (newPropertyFlags dpf)) ∧
      getNamedSlotValue ext o'
        (mkNamedPropertyDescriptor (nextSlot (propertyMap c)) (newPropertyFlags dpf))
        = Some v ∧
      (dpf_isAccessor dpf = false →
       ∀ fuel' opFlags' cacheEntry, ∃ stamped,
         getNamed_RJS ext fuel' self name opFlags' cacheEntry rt' =
         Returned (v, stamped) rt') ∧
      (∀ y p d, y ≠ name → HiddenClass_findProperty c y = Some (p, d) →
                HiddenClass_findProperty c' y = Some (p, d) ∧
                getNamedSlotValue ext o' d = getNamedSlotValue ext o d) ∧
      parent_ o' = parent_ o ∧
      (∀ a, a ≠ self → objects rt' !! a = objects rt !! a) ∧
      (∀ a cell, classes rt !! a = Some cell → classes rt' !! a = Some cell) ∧
      accessors rt' = accessors rt ∧
      propertyMap c' =
        propertyMap c ++
        [(name, mkNamedPropertyDescriptor (nextSlot (propertyMap c))
                  (newPropertyFlags dpf))].
Proof.
  intros Ho Hc Hwf Hnone Hlz.
  rewrite (defineOwnProperty_absent _ _ _ _ _ _ _ _ _ Ho Hc Hnone Hlz).
  rewrite (addOwnProperty_eq _ _ _ _ _ _ _ Ho).
  destruct (noExtend (flags_ o) && negb (getInternalForce opFlags)); [done|].
  destruct (addOwnPropertyImpl_adds rt self o c name (newPropertyFlags dpf) v
              Ho Hc Hwf Hnone)
    as (rt' & o' & c' & pos & Hrun & Ho' & Hc' & Hwf' & Hfind & Hval & Hframe &
        Hpar & _ & _ & Hobjs & Hcls & Haccs & Hpm).
  exists rt', o', c', pos.
  split; [by rewrite (bind_Returned _ _ _ _ _ Hrun)|].
  repeat (split; [done|]).
  split; [|done].
  intros Hdata fuel' opFlags' cacheEntry.
  by apply (getNamed_RJS_own_data rt' self o' c' name pos
              (mkNamedPropertyDescriptor (nextSlot (propertyMap c))
                 (newPropertyFlags dpf)) v).
Qed.

(** ** Put *)

Lemma setNamedSlotValue_other o desc v o' d :
  setNamedSlotValue ext o desc v = Some o' →
  desc_slot d ≠ desc_slot desc →
  getNamedSlotValue ext o' d = getNamedSlotValue ext o d.
Proof.
  unfold setNamedSlotValue, getNamedSlotValue. intros Hset Hne.
  destruct (desc_slot desc <? DIRECT_PROPERTY_SLOTS ext) eqn:Hdir.
  - destruct (desc_slot desc <? length (directProps_ o)); [|done].
    injection Hset as <-. cbn [directProps_ propStorage_ set_directProps].
    destruct (desc_slot d <? DIRECT_PROPERTY_SLOTS ext); [|done].
    by apply list_lookup_insert_ne.
  - destruct (propStorage_ o) as [ps|] eqn:Hps; [|done].
    destruct (desc_slot desc - DIRECT_PROPERTY_SLOTS ext <? length ps); [|done].
    injection Hset as <-. cbn [directProps_ propStorage_ set_propStorage].
    destruct (desc_slot d <? DIRECT_PROPERTY_SLOTS ext) eqn:Hdd; [done|].
    apply list_lookup_insert_ne.
    apply Nat.ltb_ge in Hdir, Hdd. lia.
Qed.

(** X4. [putNamed_RJS] on a writable data property that the receiver owns
    (with neither an internal setter nor a host object behind it) returns
    true and stores the value in the property's slot, where [getNamed_RJS]
    reads it back; the class of the object, its parent, its flags, the
    values of its other slots and every other cell of the heap are as
    before. *)
Theorem putNamed_RJS_own_writable rt self o c name pos desc old value opFlags fuel :
  objects rt !! self = Some o →
  classes rt !! clazz_ o = Some c →
  HiddenClass_findProperty c name = Some (pos, desc) →
  getNamedSlotValue ext o desc = Some old →
  pf_accessor (desc_flags desc) = false →
  pf_writable (desc_flags desc) = true →
  pf_internalSetter (desc_flags desc) = false →
  pf_hostObject (desc_flags desc) = false →
  ∃ o',
    putNamed_RJS ext fuel self name value opFlags rt =
      Returned true (set_objects (<[self := o']> (objects rt)) rt) ∧
    getNamedSlotValue ext o' desc = Some value ∧
    (∀ d, desc_slot d ≠ desc_slot desc →
          getNamedSlotValue ext o' d = getNamedSlotValue ext o d) ∧
    clazz_ o' = clazz_ o ∧ parent_ o' = parent_ o ∧ flags_ o' = flags_ o ∧
    vt o' = vt o ∧
    ∀ fuel' opFlags' cacheEntry, ∃ stamped,
      getNamed_RJS ext fuel' self name opFlags' cacheEntry
        (set_objects (<[self := o']> (objects rt)) rt) =
      Returned (value, stamped) (set_objects (<[self := o']> (objects rt)) rt).
Proof.
  intros Ho Hc Hfind Hold Hacc Hwr His Hhost.
  destruct (setNamedSlotValue_get o desc old value Hold)
    as (o' & Hset & Hget & Hpar & Hcl & Hfl & Hvt).
  exists o'. split.
  - unfold putNamed_RJS.
    rewrite (bind_Returned _ _ _ _ _
               (getNamedDescriptor_own _ _ _ _ _ _ _ fuel Ho Hc Hfind)).
    rewrite Hacc, Hwr, His, Hhost. cbn [negb andb].
    rewrite bool_decide_eq_true_2 by done.
    destruct (writeNamedSlot_eq rt self o desc old value Ho Hold) as (o2 & Hset2 & Hw).
    rewrite Hset in Hset2. injection Hset2 as <-.
    by rewrite (bind_Returned _ _ _ _ _ Hw).
  - split; [done|]. split.
    { intros d Hd. by apply (setNamedSlotValue_other o desc value). }
    repeat (split; [done|]).
    intros fuel' opFlags' cacheEntry.
    apply (getNamed_RJS_own_data _ self o' c name pos desc value); try done.
    + cbn [objects set_objects]. apply lookup_insert_eq.
    + cbn [classes set_objects]. by rewrite Hcl.
Qed.

(** X5. [putNamed_RJS] never writes through a property that is not
    writable: when the nearest owner of the name on a chain of ordinary
    objects, the receiver or a prototype, holds it as a read-only data
    property (not a static builtin), the put is refused (TypeError under
    throwOnError, false otherwise) and the heap is as before; when it
    holds an accessor, the put is refused in the same way if there is no
    setter, and otherwise it is the call of the setter on the receiver
    with the value, followed by true. *)
Theorem putNamed_RJS_not_writable rt self chain name owner desc value opFlags fuel :
  ProtoChain rt (Some self) chain →
  OrdinaryChain rt chain →
  length chain ≤ S fuel →
  lookupChain rt chain name = Some (owner, desc) →
  (pf_accessor (desc_flags desc) = false →
   pf_writable (desc_flags desc) = false →
   pf_staticBuiltin (desc_flags desc) = false →
   putNamed_RJS ext fuel self name value opFlags rt = rejected opFlags rt) ∧
  (pf_accessor (desc_flags desc) = true →
   ∀ po a cell,
     objects rt !! owner = Some po →
     getNamedSlotValue ext po desc = Some (HVObject PropertyAccessorKind a) →
     accessors rt !! a = Some cell →
     putNamed_RJS ext fuel self name value opFlags rt =
     match setter cell with
     | None => rejected opFlags rt
     | Some s => (let* _ := Callable_executeCall1 ext s self value in ret true) rt
     end).
Proof.
  intros Hc Hord Hf Hl. unfold putNamed_RJS.
  rewrite (bind_Returned _ _ _ _ _ (getNamedDescriptor_lookupChain _ _ _ _ _ Hc Hord Hf)).
  rewrite Hl. split.
  - intros -> Hw Hsb. rewrite Hw, Hsb. cbn [negb]. unfold rejected.
    by destruct (getThrowOnError opFlags).
  - intros -> po a cell Hpo Hv Hcell.
    rewrite (bind_Returned _ _ _ _ _ (readNamedSlot_eq _ _ _ _ _ Hpo Hv)).
    rewrite (bind_Returned _ _ _ _ _ (vmcast_PropertyAccessor_eq _ _ _ Hcell)).
    cbn [snd]. destruct (setter cell); [done|].
    unfold rejected. by destruct (getThrowOnError opFlags).
Qed.

Lemma lookupChain_head_absent rt self l name :
  lookupChain rt (self :: l) name = None ∨
  (∃ owner desc, lookupChain rt (self :: l) name = Some (owner, desc) ∧ owner ≠ self) →
  ownDescriptor rt self name = None.
Proof.
  cbn [lookupChain]. destruct (ownDescriptor rt self name) as [d|]; [|done].
  intros [?|(owner & desc & [= <- <-] & Hne)]; done.
Qed.

(** X6. [putNamed_RJS] of a name the receiver does not own, when no object
    of its chain of ordinary objects owns it or the nearest owner is a
    prototype holding it as a writable data property: under mustExist it
    raises ReferenceError; on a non-extensible receiver it is refused
    unless the flags carry internalForce; otherwise (an extensible
    receiver, or internalForce) it returns true and the receiver gets its
    own property,
    enumerable, writable and configurable, holding the value, which
    [getNamed_RJS] then reads from the receiver, and which is the last
    entry of its class in insertion order.  The prototypes and the
    receiver's other properties are untouched, so the property of a
    prototype is shadowed, not overwritten. *)
Theorem putNamed_RJS_shadows rt self o c chain name value opFlags fuel :
  ProtoChain rt (Some self) chain →
  OrdinaryChain rt chain →
  length chain ≤ S fuel →
  objects rt !! self = Some o →
  classes rt !! clazz_ o = Some c →
  SlotsWellFormed ext o c →
  (lookupChain rt chain name = None ∨
   ∃ owner desc, lookupChain rt chain name = Some (owner, desc) ∧ owner ≠ self ∧
                 pf_accessor (desc_flags desc) = false ∧
                 pf_writable (desc_flags desc) = true) →
  if getMustExist opFlags then
    putNamed_RJS ext fuel self name value opFlags rt = Exception ReferenceError rt
  else if noExtend (flags_ o) && negb (getInternalForce opFlags) then
    putNamed_RJS ext fuel self name value opFlags rt = rejected opFlags rt
  else
    ∃ rt' o' c' pos desc',
      putNamed_RJS ext fuel self name value opFlags rt = Returned true rt' ∧
      objects rt' !! self = Some o' ∧
      classes rt' !! clazz_ o' = Some c' ∧
      SlotsWellFormed ext o' c' ∧
      HiddenClass_findProperty c' name = Some (pos, desc') ∧
      desc_flags desc' = defaultNewNamedPropertyFlags ∧
      getNamedSlotValue ext o' desc' = Some value ∧
      (∀ fuel' opFlags' cacheEntry, ∃ stamped,
         getNamed_RJS ext fuel' self name opFlags' cacheEntry rt' =
         Returned (value, stamped) rt') ∧
      (∀ y p d, y ≠ name → HiddenClass_findProperty c y = Some (p, d) →
                HiddenClass_findProperty c' y = Some (p, d) ∧
                getNamedSlotValue ext o' d = getNamedSlotValue ext o d) ∧
      parent_ o' = parent_ o ∧
      (∀ a, a ≠ self → objects rt' !! a = objects rt !! a) ∧
      (∀ a cell, classes rt !! a = Some cell → classes rt' !! a = Some cell) ∧
      accessors rt' = accessors rt ∧
      propertyMap c' = propertyMap c ++ [(name, desc')].
Proof.
  intros Hc Hord Hf Ho Hcl Hwf Hlook.
  assert (HiddenClass_findProperty c name = None) as Hnone.
  { inversion Hc as [|a o0 l Ho0 Hc']; subst.
    assert (ownDescriptor rt self name = None) as Hown.
    { apply (lookupChain_head_absent rt self l).
      destruct Hlook as [?|(owner & desc & ? & ? & _)]; [by left|right; eauto]. }
    rewrite (ownDescriptor_eq _ _ _ _ _ Ho Hcl) in Hown.
    by destruct (HiddenClass_findProperty c name). }
  assert (putNamed_RJS ext fuel self name value opFlags rt =
          if getMustExist opFlags then Exception ReferenceError rt
          else addOwnProperty ext self name getDefaultNewPropertyFlags value opFlags rt)
    as ->.
  { unfold putNamed_RJS.
    rewrite (bind_Returned _ _ _ _ _ (getNamedDescriptor_lookupChain _ _ _ _ _ Hc Hord Hf)).
    destruct Hlook as [->|(owner & desc & -> & Hne & Hacc & Hwr)].
    - by destruct (getMustExist opFlags).
    - rewrite Hacc, Hwr. cbn [negb]. rewrite bool_decide_eq_false_2 by done.
      by destruct (getMustExist opFlags). }
  destruct (getMustExist opFlags); [done|].
  rewrite (addOwnProperty_eq _ _ _ _ _ _ _ Ho).
  destruct (noExtend (flags_ o) && negb (getInternalForce opFlags)); [done|].
  destruct (addOwnPropertyImpl_adds rt self o c name
              (newPropertyFlags getDefaultNewPropertyFlags) value Ho Hcl Hwf Hnone)
    as (rt' & o' & c' & pos & Hrun & Ho' & Hc' & Hwf' & Hfind & Hval & Hframe &
        Hpar & _ & _ & Hobjs & Hcls & Haccs & Hpm).
  exists rt', o', c', pos, (mkNamedPropertyDescriptor (nextSlot (propertyMap c))
                              (newPropertyFlags getDefaultNewPropertyFlags)).
  split; [by rewrite (bind_Returned _ _ _ _ _ Hrun)|].
  repeat (split; [done|]).
  split; [|done].
  intros fuel' opFlags' cacheEntry.
  by apply (getNamed_RJS_own_data rt' self o' c' name pos
              (mkNamedPropertyDescriptor (nextSlot (propertyMap c))
                 (newPropertyFlags getDefaultNewPropertyFlags)) value).
Qed.

(** ** Freezing *)

Lemma makeReadOnly_flags f :
  pf_configurable (makeReadOnly f) = false ∧
  (pf_accessor f = false → pf_writable (makeReadOnly f) = false) ∧
  pf_accessor (makeReadOnly f) = pf_accessor f ∧
  pf_staticBuiltin (makeReadOnly f) = pf_staticBuiltin f ∧
  pf_enumerable (makeReadOnly f) = pf_enumerable f.
Proof. unfold makeReadOnly. destruct f as [? ? ? [] ? ? ? ?]; cbn; done. Qed.

(** X7. [freeze] on an object not yet frozen returns, gives the object a
    class with the same names and slots in which every property is
    non-configurable and every data property is also non-writable, and
    sets the frozen, sealed and noExtend flags; a second [freeze] changes
    nothing, [isFrozen] and [isSealed] then answer true without a change,
    a put to an own data property that is not a static builtin is
    refused, and, when the object is not lazy and the flags do not carry
    internalForce, so is the definition of a property the object does not
    own. *)
Theorem freeze_spec rt self o c :
  objects rt !! self = Some o →
  classes rt !! clazz_ o = Some c →
  frozen (flags_ o) = false →
  ∃ rt1 o1 c1,
    freeze self rt = Returned tt rt1 ∧
    freeze self rt1 = Returned tt rt1 ∧
    objects rt1 !! self = Some o1 ∧
    classes rt1 !! clazz_ o1 = Some c1 ∧
    frozen (flags_ o1) = true ∧ sealed (flags_ o1) = true ∧
    noExtend (flags_ o1) = true ∧
    (∀ name,
       HiddenClass_findProperty c1 name =
       match HiddenClass_findProperty c name with
       | Some (pos, d) =>
           Some (pos, mkNamedPropertyDescriptor (desc_slot d) (makeReadOnly (desc_flags d)))
       | None => None
       end) ∧
    (∀ name pos desc,
       HiddenClass_findProperty c1 name = Some (pos, desc) →
       pf_configurable (desc_flags desc) = false ∧
       (pf_accessor (desc_flags desc) = false → pf_writable (desc_flags desc) = false)) ∧
    isFrozen self rt1 = Returned true rt1 ∧
    isSealed self rt1 = Returned true rt1 ∧
    (∀ name pos desc value opFlags fuel,
       HiddenClass_findProperty c1 name = Some (pos, desc) →
       pf_accessor (desc_flags desc) = false →
       pf_staticBuiltin (desc_flags desc) = false →
       putNamed_RJS ext fuel self name value opFlags rt1 = rejected opFlags rt1) ∧
    (∀ name dpf v opFlags fuel,
       HiddenClass_findProperty c1 name = None →
       lazyObject (flags_ o) = false →
       getInternalForce opFlags = false →
       defineOwnProperty ext fuel self name dpf v opFlags rt1 = rejected opFlags rt1).
Proof.
  intros Ho Hc Hfr.
  set (nc := fresh (dom (classes rt))).
  set (c1 := makeAllReadOnlyTransition c).
  set (o1 := set_flags
               (set_noExtend true (set_sealed true (set_frozen true (flags_ o))))
               (set_clazz nc o)).
  set (rt1 := set_objects (<[self := o1]> (objects rt))
                (set_classes (<[nc := c1]> (classes rt)) rt)).
  assert (objects rt1 !! self = Some o1) as Ho1 by apply lookup_insert_eq.
  assert (classes rt1 !! clazz_ o1 = Some c1) as Hc1 by apply lookup_insert_eq.
  assert (∀ name pos desc,
            HiddenClass_findProperty c1 name = Some (pos, desc) →
            pf_configurable (desc_flags desc) = false ∧
            (pf_accessor (desc_flags desc) = false →
             pf_writable (desc_flags desc) = false)) as Hall.
  { intros name pos desc. unfold c1, makeAllReadOnlyTransition.
    rewrite HiddenClass_findProperty_mapFlags.
    destruct (HiddenClass_findProperty c name) as [[p d]|]; [|done].
    intros [= <- <-]. cbn [desc_flags].
    destruct (makeReadOnly_flags (desc_flags d)) as (H1 & H2 & H3 & _).
    split; [done|]. rewrite H3. exact H2. }
  exists rt1, o1, c1.
  split.
  { unfold freeze. munfold. rewrite Ho. cbv beta iota. rewrite Hfr.
    unfold HiddenClass_makeAllReadOnly, allocClass. munfold.
    rewrite Hc. reflexivity. }
  split.
  { unfold freeze. munfold. rewrite Ho1. reflexivity. }
  do 5 (split; [done|]).
  split.
  { intros name. unfold c1, makeAllReadOnlyTransition.
    apply HiddenClass_findProperty_mapFlags. }
  split; [exact Hall|].
  split.
  { unfold isFrozen. munfold. rewrite Ho1. reflexivity. }
  split.
  { unfold isSealed. munfold. rewrite Ho1. reflexivity. }
  split.
  - intros name pos desc value opFlags fuel Hfind Hacc Hsb.
    destruct (Hall name pos desc Hfind) as [_ Hw].
    unfold putNamed_RJS.
    rewrite (bind_Returned _ _ _ _ _
               (getNamedDescriptor_own _ _ _ _ _ _ _ fuel Ho1 Hc1 Hfind)).
    rewrite Hacc, (Hw Hacc), Hsb. cbn [negb]. unfold rejected.
    by destruct (getThrowOnError opFlags).
  - intros name dpf v opFlags fuel Hfind Hlz Hforce.
    rewrite (defineOwnProperty_absent _ _ _ _ _ _ _ _ _ Ho1 Hc1 Hfind Hlz).
    rewrite (addOwnProperty_eq _ _ _ _ _ _ _ Ho1).
    cbn [flags_ o1 set_flags noExtend set_noExtend]. by rewrite Hforce.
Qed.




(** ** The prefix of the for-in cache *)

Lemma chainClasses_cons rt a o l :
  objects rt !! a = Some o → chainClasses rt (a :: l) = clazz_ o :: chainClasses rt l.
Proof. intros Ho. unfold chainClasses. cbn. by rewrite Ho. Qed.

Lemma chainClasses_length rt cur chain :
  ProtoChain rt cur chain → length (chainClasses rt chain) = length chain.
Proof.
  induction 1 as [|a o l Ho _ IH]; [done|].
  rewrite (chainClasses_cons _ _ _ _ Ho). cbn. by rewrite IH.
Qed.

Lemma matchesProtoClasses_loop_spec rt head chain fuel pre cls names :
  ProtoChain rt head chain →
  length chain ≤ fuel →
  matchesProtoClasses_loop fuel head (pre ++ classPrefix cls ++ names) (length pre) rt =
  Returned
    (if bool_decide (cls = chainClasses rt chain)
     then S (length pre + length chain) else 0) rt.
Proof.
  intros Hc. revert fuel pre cls.
  induction Hc as [|a o l Ho Hc IH]; intros fuel pre cls Hf.
  - assert (matchesProtoClasses_loop fuel None (pre ++ classPrefix cls ++ names)
              (length pre) rt =
            (let* last := deref ((pre ++ classPrefix cls ++ names) !! length pre) in
             if negb (isNull last) then ret 0 else ret (S (length pre))) rt) as ->
      by (by destruct fuel).
    rewrite lookup_app_r by lia. rewrite Nat.sub_diag.
    destruct cls as [|k cls]; cbn.
    + by rewrite Nat.add_0_r.
    + by rewrite bool_decide_eq_false_2.
  - cbn in Hf. destruct fuel as [|fuel]; [lia|].
    cbn [matchesProtoClasses_loop].
    rewrite lookup_app_r by lia. rewrite Nat.sub_diag.
    rewrite (chainClasses_cons _ _ _ _ Ho).
    destruct cls as [|k cls].
    + cbn. munfold. rewrite Ho. cbv beta iota.
      by rewrite bool_decide_eq_false_2.
    + change ((classPrefix (k :: cls) ++ names) !! 0)
        with (Some (HVObject HiddenClassKind k)).
      munfold. rewrite Ho. cbv beta iota.
      destruct (decide (k = clazz_ o)) as [->|Hne].
      * rewrite bool_decide_eq_true_2 by done. cbn [negb].
        replace (pre ++ classPrefix (clazz_ o :: cls) ++ names)
          with ((pre ++ [HVObject HiddenClassKind (clazz_ o)]) ++ classPrefix cls ++ names)
          by (by rewrite <- app_assoc).
        replace (S (length pre)) with (length (pre ++ [HVObject HiddenClassKind (clazz_ o)]))
          by (rewrite length_app; cbn; lia).
        rewrite IH by lia. rewrite length_app. cbn [length].
        f_equal. 
        destruct (decide (cls = chainClasses rt l)) as [->|Hn].
        -- rewrite !bool_decide_eq_true_2 by done. lia.
        -- rewrite !bool_decide_eq_false_2; [done| |done]. by intros [= ?].
      * rewrite (bool_decide_eq_false_2 (k = clazz_ o)) by done. cbn [negb].
        rewrite bool_decide_eq_false_2; [done|]. by intros [= ? ?].
Qed.

(** X9. [matchesProtoClasses] on a for-in array that starts with class
    pointers ended by null: it returns the index after the null exactly
    when the pointers are the current classes of the prototypes of the
    object, one for one and in order; when a prototype has another class,
    or the chain is longer or shorter than the recorded prefix, it returns
    0.  The heap is not changed. *)
Theorem matchesProtoClasses_spec rt obj o chain fuel cls names :
  objects rt !! obj = Some o →
  ProtoChain rt (parent_ o) chain →
  length chain ≤ fuel →
  matchesProtoClasses fuel obj (classPrefix cls ++ names) rt =
  Returned (if bool_decide (cls = chainClasses rt chain) then S (length chain) else 0) rt.
Proof.
  intros Ho Hc Hf. unfold matchesProtoClasses.
  rewrite (bind_Returned _ _ _ _ _ (getObject_eq _ _ _ Ho)).
  apply (matchesProtoClasses_loop_spec rt (parent_ o) chain fuel [] cls names Hc Hf).
Qed.

Lemma setProtoClasses_loop_spec rt head chain fuel arr :
  ProtoChain rt head chain →
  length chain ≤ fuel →
  setProtoClasses_loop ext fuel head arr rt =
  Returned
    (if forallb (shouldCacheForIn ext rt) chain
     then arr ++ classPrefix (chainClasses rt chain) else []) rt.
Proof.
  intros Hc. revert fuel arr. induction Hc as [|a o l Ho Hc IH]; intros fuel arr Hf.
  - by destruct fuel.
  - cbn in Hf. destruct fuel as [|fuel]; [lia|].
    cbn [setProtoClasses_loop forallb]. munfold.
    destruct (shouldCacheForIn ext rt a); cbn [negb andb]; [|done].
    rewrite Ho. cbv beta iota. rewrite IH by lia.
    rewrite (chainClasses_cons _ _ _ _ Ho).
    destruct (forallb (shouldCacheForIn ext rt) l); [|done].
    unfold classPrefix. cbn. by rewrite <- !app_assoc.
Qed.

(** X10. [setProtoClasses] and [matchesProtoClasses] agree: when the object
    and all its prototypes are marked cacheable, [setProtoClasses] fills
    the empty array with the class pointers of the prototypes ended by
    null, and [matchesProtoClasses] accepts any array that starts with it,
    returning the length of that prefix; when one of them is not
    cacheable, the array is left empty.  Neither changes the heap. *)
Theorem setProtoClasses_matches rt obj o chain fuel :
  objects rt !! obj = Some o →
  ProtoChain rt (parent_ o) chain →
  length chain ≤ fuel →
  if shouldCacheForIn ext rt obj && forallb (shouldCacheForIn ext rt) chain then
    ∃ arr,
      setProtoClasses ext fuel obj [] rt = Returned arr rt ∧
      arr = classPrefix (chainClasses rt chain) ∧
      length arr = S (length chain) ∧
      ∀ names,
        matchesProtoClasses fuel obj (arr ++ names) rt = Returned (length arr) rt
  else setProtoClasses ext fuel obj [] rt = Returned [] rt.
Proof.
  intros Ho Hc Hf. unfold setProtoClasses. munfold.
  destruct (shouldCacheForIn ext rt obj); cbn [negb andb]; [|done].
  rewrite Ho. cbv beta iota.
  rewrite (setProtoClasses_loop_spec rt (parent_ o) chain fuel [] Hc Hf).
  destruct (forallb (shouldCacheForIn ext rt) chain); [|done].
  eexists. split; [reflexivity|]. cbn [app].
  assert (length (classPrefix (chainClasses rt chain)) = S (length chain)) as Hlen.
  { unfold classPrefix. rewrite length_app, length_map.
    rewrite (chainClasses_length _ _ _ Hc). cbn. lia. }
  split; [done|]. split; [done|].
  intros names. rewrite (matchesProtoClasses_spec rt obj o chain fuel _ names Ho Hc Hf).
  rewrite bool_decide_eq_true_2 by done. by rewrite Hlen.
Qed.

(** ** The for-in cache *)

Lemma getOwnPropertyNames_ordinary rt a o c onlyEnumerable :
  objects rt !! a = Some o →
  classes rt !! clazz_ o = Some c →
  lazyObject (flags_ o) = false →
  hostObject (flags_ o) = false →
  ∃ names, getOwnPropertyNames ext a onlyEnumerable rt = Returned names rt.
Proof.
  intros Ho Hc Hlz Hho. unfold getOwnPropertyNames.
  rewrite (bind_Returned _ _ _ _ _ (getObject_eq _ _ _ Ho)). rewrite Hlz.
  rewrite (bind_Returned _ _ _ tt rt eq_refl).
  rewrite (bind_Returned _ _ _ _ _ (getObject_eq _ _ _ Ho)). rewrite Hho.
  rewrite (bind_Returned _ _ _ [] rt eq_refl).
  rewrite (bind_Returned _ _ _ _ _ (getObject_eq _ _ _ Ho)).
  rewrite (bind_Returned _ _ _ _ _ (getClassCell_eq _ _ _ Hc)).
  cbv zeta. destruct (bool_decide _); by eexists.
Qed.

Lemma findDuplicateName_full prop beginIndex arr :
  findDuplicateName prop beginIndex (length arr) arr =
  Some (existsb (isDuplicateName prop) (drop beginIndex arr)).
Proof.
  unfold findDuplicateName.
  rewrite take_ge by (rewrite length_drop; lia).
  rewrite Nat.ltb_irrefl, andb_false_r.
  by destruct (existsb _ _).
Qed.

Lemma appendPropertyNames_prefix needDedup beginIndex arr props :
  ∃ added,
    appendPropertyNames needDedup beginIndex (arr, length arr) props =
    Some (arr ++ added, length (arr ++ added)).
Proof.
  unfold appendPropertyNames.
  set (f := λ (st : option (list HermesValue * nat)) (prop : HermesValue), _).
  revert arr. induction props as [|p props IH]; intros arr; cbn [foldl].
  - exists []. by rewrite app_nil_r.
  - assert (f (Some (arr, length arr)) p = Some (arr, length arr) ∨
            f (Some (arr, length arr)) p = Some (arr ++ [p], length (arr ++ [p])))
      as [->| ->].
    { unfold f. rewrite length_app, Nat.add_1_r.
      destruct (negb needDedup); [by right|].
      rewrite findDuplicateName_full.
      destruct (existsb _ _); [by left|by right]. }
    + apply IH.
    + destruct (IH (arr ++ [p])) as [added ->]. exists (p :: added).
      by rewrite <- app_assoc.
Qed.

Lemma appendAllPropertyNames_loop_ordinary rt head chain fuel needDedup beginIndex arr :
  ProtoChain rt head chain →
  OrdinaryChain rt chain →
  length chain ≤ fuel →
  ∃ added,
    appendAllPropertyNames_loop ext fuel head needDedup beginIndex arr (length arr) rt =
    Returned (arr ++ added, length (arr ++ added)) rt.
Proof.
  intros Hc. revert fuel needDedup arr.
  induction Hc as [|a o l Ho Hc IH]; intros fuel needDedup arr Hord Hf.
  - exists []. rewrite app_nil_r. by destruct fuel.
  - cbn in Hf. destruct fuel as [|fuel]; [lia|].
    apply Forall_cons in Hord as [(o' & c & Ho' & Hcl & Hlz & Hho) Hord].
    rewrite Ho in Ho'. injection Ho' as <-.
    cbn [appendAllPropertyNames_loop].
    destruct (getOwnPropertyNames_ordinary rt a o c true Ho Hcl Hlz Hho) as [names Hn].
    rewrite (bind_Returned _ _ _ _ _ Hn).
    destruct (appendPropertyNames_prefix needDedup beginIndex arr names) as [add1 ->].
    rewrite (bind_Returned _ _ _ (arr ++ add1, length (arr ++ add1)) rt eq_refl).
    rewrite (bind_Returned _ _ _ _ _ (getObject_eq _ _ _ Ho)). cbn [fst snd].
    destruct (IH fuel true (arr ++ add1) Hord ltac:(lia)) as [add2 ->].
    exists (add1 ++ add2). by rewrite <- app_assoc.
Qed.

Lemma ProtoChain_objects_eq rt rt' cur l :
  objects rt' = objects rt → ProtoChain rt cur l → ProtoChain rt' cur l.
Proof.
  intros Heq. induction 1 as [|a o l Ho _ IH]; [constructor|].
  apply (ProtoChain_step _ a o); [by rewrite Heq|done].
Qed.

Lemma chainClasses_objects_eq rt rt' chain :
  objects rt' = objects rt → chainClasses rt' chain = chainClasses rt chain.
Proof. intros Heq. unfold chainClasses. by rewrite Heq. Qed.

(** Changing the for-in cache of a class cell keeps a chain ordinary. *)
Lemma OrdinaryChain_set_cache rt a c cache chain :
  classes rt !! a = Some c →
  OrdinaryChain rt chain →
  OrdinaryChain
    (set_classes
       (<[a := mkHiddenClass (propertyMap c) (hasIndexLikeProperties c)
                 (dictionaryMode c) cache]> (classes rt)) rt) chain.
Proof.
  intros Hc Hord. unfold OrdinaryChain in *. eapply Forall_impl; [exact Hord|].
  intros b (o & cb & Ho & Hcb & Hlz & Hho). cbn [objects classes set_classes].
  destruct (decide (clazz_ o = a)) as [<-|Hne].
  - eexists o, _. rewrite lookup_insert_eq. done.
  - exists o, cb. by rewrite lookup_insert_ne.
Qed.

Lemma setForInCache_eq rt a c arr :
  classes rt !! a = Some c →
  setForInCache a arr rt = Returned tt (withForInCache rt a c (Some arr)).
Proof.
  intros Hc. unfold setForInCache.
  by rewrite (bind_Returned _ _ _ _ _ (getClassCell_eq _ _ _ Hc)).
Qed.

Lemma clearForInCache_eq rt a c :
  classes rt !! a = Some c →
  clearForInCache a rt = Returned tt (withForInCache rt a c None).
Proof.
  intros Hc. unfold clearForInCache.
  by rewrite (bind_Returned _ _ _ _ _ (getClassCell_eq _ _ _ Hc)).
Qed.

Lemma getForInPropertyNames_nocache rt obj o c chain fuel :
  objects rt !! obj = Some o →
  classes rt !! clazz_ o = Some c →
  getForInCache c = None →
  ProtoChain rt (Some obj) (obj :: chain) →
  OrdinaryChain rt (obj :: chain) →
  S (length chain) ≤ fuel →
  ∃ arr b rt',
    getForInPropertyNames ext fuel obj rt = Returned (arr, b, length arr) rt' ∧
    (rt' = rt ∨
     (rt' = withForInCache rt (clazz_ o) c (Some arr) ∧ b = S (length chain) ∧
      ∃ names, arr = classPrefix (chainClasses rt chain) ++ names)).
Proof.
  intros Ho Hc Hnone Hchain Hord Hf.
  assert (ProtoChain rt (parent_ o) chain) as Hpc.
  { inversion Hchain as [|a o0 l Ho0 Hl]; subst.
    rewrite Ho in Ho0. by injection Ho0 as <-. }
  unfold getForInPropertyNames.
  rewrite (bind_Returned _ _ _ _ _ (getObject_eq _ _ _ Ho)).
  rewrite (bind_Returned _ _ _ _ _ (getClassCell_eq _ _ _ Hc)).
  cbv zeta. rewrite Hnone.
  rewrite (bind_Returned _ _ _ _ _ (getClassCell_eq _ _ _ Hc)).
  assert (∃ P, setProtoClasses ext fuel obj [] rt = Returned P rt ∧
               (P = [] ∨ P = classPrefix (chainClasses rt chain) ∧
                         length P = S (length chain))) as (P & HP & HPform).
  { pose proof (setProtoClasses_matches rt obj o chain fuel Ho Hpc ltac:(lia)) as H.
    destruct (shouldCacheForIn ext rt obj && forallb (shouldCacheForIn ext rt) chain).
    - destruct H as (arr & H1 & H2 & H3 & _). exists arr. split; [done|]. right. done.
    - exists []. split; [done|by left]. }
  rewrite (bind_Returned _ _ _ _ _ HP).
  destruct (appendAllPropertyNames_loop_ordinary rt (Some obj) (obj :: chain) fuel
              false (length P) P Hchain Hord ltac:(cbn; lia)) as [added Happ].
  unfold appendAllPropertyNames. rewrite (bind_Returned _ _ _ _ _ Happ).
  cbn [fst snd].
  destruct (negb (length P =? 0) &&
            negb (getNumProperties c <? length (P ++ added) / 4)) eqn:Hinst.
  - rewrite (bind_Returned _ _ _ _ _ (setForInCache_eq _ _ _ _ Hc)).
    eexists _, _, _. split; [reflexivity|]. right.
    split; [done|].
    destruct HPform as [->|[-> Hlen]]; [done|].
    split; [done|]. by exists added.
  - rewrite (bind_Returned _ _ _ tt rt eq_refl).
    eexists _, _, _. split; [reflexivity|]. by left.
Qed.

(** X11. The for-in cache is sound on a chain of ordinary objects.  With a
    cache whose recorded prefix is the current classes of the prototypes,
    [getForInPropertyNames] returns the cached array, with the index after
    the prefix and the length, and changes nothing.  With a cache whose
    prefix differs, the call is the call on the heap in which the cache of
    the class has been cleared.  Without a cache it builds the array, and
    when it installs it as the cache, the next call returns the same
    array and indices from the cache and leaves the heap as it is. *)
Theorem getForInPropertyNames_cache_sound rt obj o c chain fuel :
  objects rt !! obj = Some o →
  classes rt !! clazz_ o = Some c →
  ProtoChain rt (Some obj) (obj :: chain) →
  OrdinaryChain rt (obj :: chain) →
  S (length chain) ≤ fuel →
  match getForInCache c with
  | Some cached =>
      ∀ cls names, cached = classPrefix cls ++ names →
        if bool_decide (cls = chainClasses rt chain) then
          getForInPropertyNames ext fuel obj rt =
          Returned (cached, S (length chain), length cached) rt
        else
          getForInPropertyNames ext fuel obj rt =
          getForInPropertyNames ext fuel obj (withForInCache rt (clazz_ o) c None)
  | None =>
      ∃ arr b rt',
        getForInPropertyNames ext fuel obj rt = Returned (arr, b, length arr) rt' ∧
        (rt' = rt ∨
         (rt' = withForInCache rt (clazz_ o) c (Some arr) ∧
          getForInPropertyNames ext fuel obj rt' = Returned (arr, b, length arr) rt'))
  end.
Proof.
  intros Ho Hc Hchain Hord Hf.
  assert (ProtoChain rt (parent_ o) chain) as Hpc.
  { inversion Hchain as [|a o0 l Ho0 Hl]; subst.
    rewrite Ho in Ho0. by injection Ho0 as <-. }
  assert (∀ cache cls names,
            cache = classPrefix cls ++ names →
            cls = chainClasses rt chain →
            getForInPropertyNames ext fuel obj
              (withForInCache rt (clazz_ o) c (Some cache)) =
            Returned (cache, S (length chain), length cache)
              (withForInCache rt (clazz_ o) c (Some cache))) as Hhit.
  { intros cache cls names -> Hcls. unfold getForInPropertyNames.
    set (rt1 := withForInCache rt (clazz_ o) c (Some (classPrefix cls ++ names))).
    assert (objects rt1 !! obj = Some o) as Ho1 by done.
    rewrite (bind_Returned _ _ _ _ _ (getObject_eq _ _ _ Ho1)).
    assert (classes rt1 !! clazz_ o = Some _) as Hc1 by apply lookup_insert_eq.
    rewrite (bind_Returned _ _ _ _ _ (getClassCell_eq _ _ _ Hc1)).
    cbv zeta. cbn [getForInCache forInCache].
    rewrite (bind_Returned _ _ _ _ _
               (matchesProtoClasses_spec rt1 obj o chain fuel cls names Ho1
                  (ProtoChain_objects_eq rt rt1 _ _ eq_refl Hpc) ltac:(lia))).
    rewrite (chainClasses_objects_eq rt rt1 chain eq_refl).
    by rewrite bool_decide_eq_true_2. }
  destruct (getForInCache c) as [cached|] eqn:Hcache.
  - intros cls names ->.
    assert (∀ k : nat → M (list HermesValue * nat * nat),
              (let* beginIndex := matchesProtoClasses fuel obj (classPrefix cls ++ names) in
               k beginIndex) rt =
              k (if bool_decide (cls = chainClasses rt chain)
                 then S (length chain) else 0) rt) as Hm.
    { intros k.
      by rewrite (bind_Returned _ _ _ _ _
                    (matchesProtoClasses_spec rt obj o chain fuel cls names Ho Hpc
                       ltac:(lia))). }
    case_bool_decide as Hcls.
    + unfold getForInPropertyNames.
      rewrite (bind_Returned _ _ _ _ _ (getObject_eq _ _ _ Ho)).
      rewrite (bind_Returned _ _ _ _ _ (getClassCell_eq _ _ _ Hc)).
      cbv zeta. rewrite Hcache. rewrite Hm. done.
    + unfold getForInPropertyNames at 1.
      rewrite (bind_Returned _ _ _ _ _ (getObject_eq _ _ _ Ho)).
      rewrite (bind_Returned _ _ _ _ _ (getClassCell_eq _ _ _ Hc)).
      cbv zeta. rewrite Hcache. rewrite Hm. cbn [Nat.eqb negb].
      rewrite (bind_Returned _ _ _ _ _ (clearForInCache_eq _ _ _ Hc)).
      set (rt1 := withForInCache rt (clazz_ o) c None).
      unfold getForInPropertyNames.
      assert (objects rt1 !! obj = Some o) as Ho1 by done.
      rewrite (bind_Returned _ _ _ _ _ (getObject_eq _ _ _ Ho1)).
      assert (classes rt1 !! clazz_ o = Some _) as Hc1 by apply lookup_insert_eq.
      rewrite !(bind_Returned _ _ _ _ _ (getClassCell_eq _ _ _ Hc1)).
      cbv zeta. cbn [getForInCache forInCache].
      rewrite !(bind_Returned _ _ _ _ _ (getClassCell_eq _ _ _ Hc1)).
      reflexivity.
  - destruct (getForInPropertyNames_nocache rt obj o c chain fuel Ho Hc Hcache
                Hchain Hord Hf) as (arr & b & rt' & Hrun & Hcases).
    exists arr, b, rt'. split; [done|].
    destruct Hcases as [->|(-> & -> & names & Harr)]; [by left|].
    right. split; [done|].
    by apply (Hhit arr (chainClasses rt chain) names).
Qed.

(** ** Symbols *)

Lemma foldl_getOwnPropertySymbols_visit pm arr :
  foldl getOwnPropertySymbols_visit (arr, length arr) pm =
  (arr ++ map HVSymbol (filter (λ id, isSymbolPrimitive id = true) (map fst pm)),
   length arr + length (filter (λ id, isSymbolPrimitive id = true) (map fst pm))).
Proof.
  revert arr. induction pm as [|p pm IH]; intros arr; cbn [foldl map].
  - rewrite filter_nil. cbn. by rewrite app_nil_r, Nat.add_0_r.
  - rewrite filter_cons. unfold getOwnPropertySymbols_visit at 2. cbn [fst snd].
    destruct (isSymbolPrimitive p.1) eqn:Hs; cbn [negb].
    + rewrite decide_True by done. rewrite setElementAt_end.
      replace (S (length arr)) with (length (arr ++ [HVSymbol p.1]))
        by (rewrite length_app; cbn; lia).
      rewrite IH. rewrite length_app. cbn [map length]. rewrite <- app_assoc.
      f_equal. lia.
    + rewrite decide_False by discriminate. apply IH.
Qed.

(** X12. [getOwnPropertySymbols] on an object that is not lazy returns the
    names of its class that are JS Symbol primitives, each once, in the
    insertion order of the class, whatever their flags (a property that
    is not enumerable is reported too), and does not change the heap.
    Neither a string name nor an internal name is among them. *)
Theorem getOwnPropertySymbols_spec rt self o c :
  objects rt !! self = Some o →
  classes rt !! clazz_ o = Some c →
  lazyObject (flags_ o) = false →
  getOwnPropertySymbols ext self rt =
    Returned
      (map HVSymbol (filter (λ id, isSymbolPrimitive id = true) (map fst (propertyMap c))))
      rt ∧
  ∀ id, HVSymbol id ∈
          map HVSymbol (filter (λ id, isSymbolPrimitive id = true)
                          (map fst (propertyMap c))) ↔
        (∃ n, id = SymPrimitive n) ∧ is_Some (HiddenClass_findProperty c id).
Proof.
  intros Ho Hc Hlz. split.
  - unfold getOwnPropertySymbols.
    rewrite (bind_Returned _ _ _ _ _ (getObject_eq _ _ _ Ho)). rewrite Hlz.
    rewrite (bind_Returned _ _ _ tt rt eq_refl).
    rewrite (bind_Returned _ _ _ _ _ (getObject_eq _ _ _ Ho)).
    rewrite (bind_Returned _ _ _ _ _ (getClassCell_eq _ _ _ Hc)).
    cbv zeta. change ([], 0) with (@nil HermesValue, length (@nil HermesValue)).
    rewrite (foldl_getOwnPropertySymbols_visit (propertyMap c) []).
    cbn [fst snd app length]. unfold ret. f_equal.
    unfold setLength. rewrite take_ge by (rewrite length_map; lia).
    rewrite length_map.
    replace (_ - _) with 0 by lia. cbn. by rewrite app_nil_r.
  - intros id. rewrite list_elem_of_fmap. split.
    + intros (id' & [= <-] & Hin). apply list_elem_of_filter in Hin as [Hs Hin].
      split; [destruct id; try done; by eexists|].
      destruct (HiddenClass_findProperty c id) eqn:Hf; [done|].
      by apply HiddenClass_findProperty_None in Hf.
    + intros [[n ->] Hsome]. exists (SymPrimitive n). split; [done|].
      apply list_elem_of_filter. split; [done|].
      destruct (decide (SymPrimitive n ∈ map fst (propertyMap c))) as [|Hn]; [done|].
      apply HiddenClass_findProperty_None in Hn. rewrite Hn in Hsome. by destruct Hsome.
Qed.

(** ** Object identity *)

(** X13. [getObjectID] returns an identifier that is not zero and records
    it in the object; once an object has its
    identifier, [getObjectID] returns it again without asking the runtime
    for another one and without a change, so the identifier is stable. *)
Theorem getObjectID_stable (objectIDBits : N) (generateNextObjectID : M N)
    rt rt' self id :
  (0 < objectIDBits)%N →
  (∀ rt0 o next rt1,
     objects rt0 !! self = Some o →
     generateNextObjectID rt0 = Returned next rt1 →
     is_Some (objects rt1 !! self)) →
  is_Some (objects rt !! self) →
  getObjectID objectIDBits generateNextObjectID self rt = Returned id rt' →
  id ≠ 0%N ∧
  (∃ o', objects rt' !! self = Some o' ∧ objectID (flags_ o') = id) ∧
  ∀ otherGenerator,
    getObjectID objectIDBits otherGenerator self rt' = Returned id rt'.
Proof.
  intros Hbits Hgen [o Ho] Hrun.
  assert (∀ o' rt0 gen,
            objects rt0 !! self = Some o' → objectID (flags_ o') ≠ 0%N →
            getObjectID objectIDBits gen self rt0 =
            Returned (objectID (flags_ o')) rt0) as Hhit.
  { intros o' rt0 gen Ho' Hid. unfold getObjectID.
    rewrite (bind_Returned _ _ _ _ _ (getObject_eq _ _ _ Ho')).
    by rewrite (proj2 (N.eqb_neq _ _) Hid). }
  unfold getObjectID in Hrun.
  rewrite (bind_Returned _ _ _ _ _ (getObject_eq _ _ _ Ho)) in Hrun.
  destruct (objectID (flags_ o) =? 0)%N eqn:Hz; cbn [negb] in Hrun.
  - unfold bind at 1 in Hrun.
    destruct (generateNextObjectID rt) as [next rt1| | |] eqn:Hg; try done.
    destruct (Hgen rt o next rt1 Ho Hg) as [o1 Ho1].
    rewrite (bind_Returned _ _ _ _ _ (getObject_eq _ _ _ Ho1)) in Hrun.
    cbv zeta in Hrun. munfold. injection Hrun as <- <-.
    set (id := if (next mod 2 ^ objectIDBits =? 0)%N
               then (2 ^ objectIDBits - 1)%N else (next mod 2 ^ objectIDBits)%N).
    assert (id ≠ 0%N) as Hid.
    { unfold id. destruct (next mod 2 ^ objectIDBits =? 0)%N eqn:Hm.
      - assert (2 ≤ 2 ^ objectIDBits)%N; [|lia].
        change 2%N with (2 ^ 1)%N at 1. apply N.pow_le_mono_r; lia.
      - by apply N.eqb_neq in Hm. }
    split; [done|]. split.
    + eexists. cbn [objects set_objects]. rewrite lookup_insert_eq. done.
    + intros gen.
      apply (Hhit (set_flags (set_objectID id (flags_ o1)) o1)); [|done].
      cbn [objects set_objects]. apply lookup_insert_eq.
  - injection Hrun as <- <-. apply N.eqb_neq in Hz.
    split; [done|]. split; [by exists o|].
    intros gen. by apply Hhit.
Qed.

(** ** Internal properties *)

Lemma nextSlot_internalEntries n : nextSlot (internalEntries n) = n.
Proof.
  induction n as [|n IH]; [done|].
  unfold internalEntries in *. rewrite seq_S, map_app. cbn [map].
  rewrite nextSlot_app, IH. cbn. lia.
Qed.

Lemma addInternalProperty_step NumInternalProperties rt self o c i v :
  objects rt !! self = Some o →
  classes rt !! clazz_ o = Some c →
  propertyMap c = internalEntries i →
  dictionaryMode c = false →
  i < NumInternalProperties →
  i < DIRECT_PROPERTY_SLOTS ext →
  length (directProps_ o) = DIRECT_PROPERTY_SLOTS ext →
  addInternalProperty ext NumInternalProperties self i v rt =
  Returned i
    (set_objects
       (<[self := set_directProps (<[i := v]> (directProps_ o))
                    (set_clazz (fresh (dom (classes rt))) o)]> (objects rt))
       (set_classes
          (<[fresh (dom (classes rt)) :=
               (addPropertyTransition c (InternalProperty_getSymbolID i)
                  PropertyFlags_empty).1]> (classes rt)) rt)).
Proof.
  intros Ho Hc Hpm Hdict Hnum Hdir Hlen. unfold addInternalProperty.
  rewrite (bind_Returned _ _ _ _ _ (getObject_eq _ _ _ Ho)).
  rewrite (bind_Returned _ _ _ _ _ (getClassCell_eq _ _ _ Hc)).
  rewrite (proj2 (Nat.ltb_lt i NumInternalProperties)) by lia.
  unfold isDictionary. rewrite Hdict. cbn [negb orb].
  rewrite (bind_Returned _ _ _ _ _ (HiddenClass_addProperty_eq _ _ _ _ _ Hc)).
  cbn [fst snd]. rewrite Hpm, nextSlot_internalEntries.
  set (nc := fresh (dom (classes rt))).
  set (c1 := (addPropertyTransition c (InternalProperty_getSymbolID i)
                PropertyFlags_empty).1).
  unfold bind at 1. unfold putObject at 1, modifyRuntime.
  cbn [objects classes set_objects set_classes].
  set (rt1 := set_objects (<[self := set_clazz nc o]> (objects rt))
                (set_classes (<[nc := c1]> (classes rt)) rt)).
  assert (objects rt1 !! self = Some (set_clazz nc o)) as Ho1 by apply lookup_insert_eq.
  assert (allocateNewSlotStorage ext self i v rt1 =
          Returned tt
            (set_objects
               (<[self := set_directProps (<[i := v]> (directProps_ o)) (set_clazz nc o)]>
                  (objects rt))
               (set_classes (<[nc := c1]> (classes rt)) rt))) as Halloc.
  { unfold allocateNewSlotStorage.
    rewrite (bind_Returned _ _ _ _ _ (getObject_eq _ _ _ Ho1)).
    rewrite (proj2 (Nat.ltb_lt i (DIRECT_PROPERTY_SLOTS ext))) by lia.
    cbn [directProps_ set_clazz].
    rewrite (proj2 (Nat.ltb_lt i (length (directProps_ o)))) by lia.
    munfold. unfold rt1, set_objects, set_classes.
    cbn [objects classes accessors objectPrototypeRawPtr].
    by rewrite insert_insert_eq. }
  by rewrite (bind_Returned _ _ _ _ _ Halloc).
Qed.

Lemma addInternalProperties_loop_spec NumInternalProperties rt self o c i n v :
  objects rt !! self = Some o →
  classes rt !! clazz_ o = Some c →
  propertyMap c = internalEntries i →
  dictionaryMode c = false →
  i + n ≤ NumInternalProperties →
  i + n ≤ DIRECT_PROPERTY_SLOTS ext →
  length (directProps_ o) = DIRECT_PROPERTY_SLOTS ext →
  ∃ rt' o' c',
    addInternalProperties_loop ext NumInternalProperties self i n v rt = Returned tt rt' ∧
    objects rt' !! self = Some o' ∧
    classes rt' !! clazz_ o' = Some c' ∧
    propertyMap c' = internalEntries (i + n) ∧
    dictionaryMode c' = false ∧
    length (directProps_ o') = DIRECT_PROPERTY_SLOTS ext ∧
    (∀ k, i ≤ k < i + n → directProps_ o' !! k = Some v) ∧
    (∀ k, ¬ (i ≤ k < i + n) → directProps_ o' !! k = directProps_ o !! k) ∧
    propStorage_ o' = propStorage_ o ∧ parent_ o' = parent_ o ∧
    flags_ o' = flags_ o ∧ vt o' = vt o ∧
    (∀ a, a ≠ self → objects rt' !! a = objects rt !! a) ∧
    (∀ a cell, classes rt !! a = Some cell → classes rt' !! a = Some cell) ∧
    accessors rt' = accessors rt.
Proof.
  revert rt o c i. induction n as [|n IH]; intros rt o c i Ho Hc Hpm Hdict Hnum Hdir Hlen.
  - exists rt, o, c. cbn [addInternalProperties_loop]. rewrite Nat.add_0_r.
    repeat split; try done. intros k Hk. lia.
  - cbn [addInternalProperties_loop].
    rewrite (bind_Returned _ _ _ _ _
               (addInternalProperty_step NumInternalProperties rt self o c i v
                  Ho Hc Hpm Hdict ltac:(lia) ltac:(lia) Hlen)).
    rewrite bool_decide_eq_true_2 by done. cbn [negb].
    set (nc := fresh (dom (classes rt))).
    set (c1 := (addPropertyTransition c (InternalProperty_getSymbolID i)
                  PropertyFlags_empty).1).
    set (o2 := set_directProps (<[i := v]> (directProps_ o)) (set_clazz nc o)).
    set (rt2 := set_objects (<[self := o2]> (objects rt))
                  (set_classes (<[nc := c1]> (classes rt)) rt)).
    assert (propertyMap c1 = internalEntries (S i)) as Hpm1.
    { unfold c1. cbn [addPropertyTransition fst propertyMap].
      rewrite Hpm, nextSlot_internalEntries. unfold internalEntries.
      by rewrite seq_S, map_app. }
    destruct (IH rt2 o2 c1 (S i)) as (rt' & o' & c' & Hrun & Ho' & Hc' & Hpm' & Hd' &
      Hlen' & Hnew & Hold & Hps & Hpar & Hfl & Hvt & Hobjs & Hcls & Haccs).
    { apply lookup_insert_eq. }
    { apply lookup_insert_eq. }
    { done. }
    { done. }
    { lia. }
    { lia. }
    { cbn. by rewrite length_insert. }
    exists rt', o', c'. split; [exact Hrun|].
    split; [done|]. split; [done|].
    split; [by rewrite Hpm'; f_equal; lia|]. split; [done|]. split; [done|].
    split.
    { intros k Hk. destruct (decide (k = i)) as [->|Hne].
      - rewrite Hold by lia. cbn. apply list_lookup_insert_eq. lia.
      - apply Hnew. lia. }
    split.
    { intros k Hk. rewrite Hold by lia. cbn. apply list_lookup_insert_ne. lia. }
    repeat (split; [done|]).
    split.
    { intros a Ha. rewrite (Hobjs a Ha). cbn. by rewrite lookup_insert_ne. }
    split; [|done].
    intros a cell Hcell. apply Hcls. cbn. by apply classes_alloc_preserved.
Qed.

(** X14. [addInternalProperties] on an object whose class is empty and not
    in dictionary mode, for a count that is neither zero nor more than the
    number of internal properties or of inline slots, returns: no
    assertion fails, the internal property number [i] is at the slot [i],
    the inline slots below the count hold the value and the others are as
    before; the indirect storage, the parent, the flags and the rest of
    the heap are untouched. *)
Theorem addInternalProperties_spec NumInternalProperties rt self o c count v :
  objects rt !! self = Some o →
  classes rt !! clazz_ o = Some c →
  propertyMap c = [] →
  dictionaryMode c = false →
  0 < count →
  count ≤ NumInternalProperties →
  count ≤ DIRECT_PROPERTY_SLOTS ext →
  length (directProps_ o) = DIRECT_PROPERTY_SLOTS ext →
  ∃ rt' o' c',
    addInternalProperties ext NumInternalProperties self count v rt = Returned tt rt' ∧
    objects rt' !! self = Some o' ∧
    classes rt' !! clazz_ o' = Some c' ∧
    propertyMap c' = internalEntries count ∧
    (∀ k, k < count →
       HiddenClass_findProperty c' (InternalProperty_getSymbolID k) =
         Some (k, mkNamedPropertyDescriptor k PropertyFlags_empty) ∧
       directProps_ o' !! k = Some v) ∧
    (∀ k, count ≤ k → directProps_ o' !! k = directProps_ o !! k) ∧
    propStorage_ o' = propStorage_ o ∧ parent_ o' = parent_ o ∧
    flags_ o' = flags_ o ∧
    (∀ a, a ≠ self → objects rt' !! a = objects rt !! a) ∧
    (∀ a cell, classes rt !! a = Some cell → classes rt' !! a = Some cell) ∧
    accessors rt' = accessors rt.
Proof.
  intros Ho Hc Hpm Hdict Hpos Hnum Hdir Hlen.
  destruct (addInternalProperties_loop_spec NumInternalProperties rt self o c 0 count v
              Ho Hc Hpm Hdict ltac:(lia) ltac:(lia) Hlen)
    as (rt' & o' & c' & Hrun & Ho' & Hc' & Hpm' & Hd' & Hlen' & Hnew & Hold & Hps &
        Hpar & Hfl & Hvt & Hobjs & Hcls & Haccs).
  exists rt', o', c'. split.
  { unfold addInternalProperties.
    rewrite (bind_Returned _ _ _ _ _ (getObject_eq _ _ _ Ho)).
    rewrite (bind_Returned _ _ _ _ _ (getClassCell_eq _ _ _ Hc)).
    unfold isDictionary, getNumProperties. rewrite Hdict, Hpm.
    rewrite (proj2 (Nat.eqb_neq count 0)) by lia.
    rewrite (proj2 (Nat.leb_le count NumInternalProperties)) by lia.
    rewrite (proj2 (Nat.leb_le count (DIRECT_PROPERTY_SLOTS ext))) by lia.
    cbn. exact Hrun. }
  split; [done|]. split; [done|]. split; [done|]. split.
  { intros k Hk. split; [|apply Hnew; lia].
    unfold HiddenClass_findProperty. rewrite Hpm'. cbn [Nat.add].
    assert (list_find (λ p, p.1 = InternalProperty_getSymbolID k) (internalEntries count)
            = Some (k, (InternalProperty_getSymbolID k,
                        mkNamedPropertyDescriptor k PropertyFlags_empty))) as ->; [|done].
    apply list_find_Some. unfold internalEntries. split; [|split; [done|]].
    - rewrite list_lookup_fmap, lookup_seq_lt by lia. done.
    - intros j [n d] Hj Hlt. rewrite list_lookup_fmap in Hj.
      rewrite lookup_seq_lt in Hj by lia. cbn in Hj. injection Hj as <- <-.
      cbn. unfold InternalProperty_getSymbolID. intros [= H]. lia. }
  split; [intros k Hk; apply Hold; lia|].
  done.
Qed.

(** ** Accessor properties *)

(** X15. An accessor property round trip: a cell made by
    [PropertyAccessor::create] is new, and once [defineOwnProperty] has
    added it to an extensible object under a name the object did not own,
    [getNamed_RJS] of the name is the call of the getter on the object
    (undefined when there is none) and [putNamed_RJS] is the call of the
    setter on the object with the value (refused when there is none). *)
Theorem accessor_property_roundtrip rt self o c name g s dpf opFlags fuel :
  objects rt !! self = Some o →
  classes rt !! clazz_ o = Some c →
  SlotsWellFormed ext o c →
  HiddenClass_findProperty c name = None →
  lazyObject (flags_ o) = false →
  noExtend (flags_ o) = false →
  dpf_isAccessor dpf = true →
  ∃ acc rt1 rt2,
    PropertyAccessor_create g s rt = Returned (HVObject PropertyAccessorKind acc) rt1 ∧
    accessors rt !! acc = None ∧
    defineOwnProperty ext fuel self name dpf (HVObject PropertyAccessorKind acc)
      opFlags rt1 = Returned true rt2 ∧
    (∀ fuel' opFlags' cacheEntry,
       getNamed_RJS ext fuel' self name opFlags' cacheEntry rt2 =
       match g with
       | None => Returned (HVUndefined, None) rt2
       | Some gf => (let* r := Callable_executeCall0 ext gf self in ret (r, None)) rt2
       end) ∧
    (∀ fuel' value opFlags',
       putNamed_RJS ext fuel' self name value opFlags' rt2 =
       match s with
       | None => rejected opFlags' rt2
       | Some sf =>
           (let* _ := Callable_executeCall1 ext sf self value in ret true) rt2
       end).
Proof.
  intros Ho Hc Hwf Hnone Hlz Hext Hacc.
  set (acc := fresh (dom (accessors rt))).
  set (rt1 := set_accessors (<[acc := mkPropertyAccessor g s]> (accessors rt)) rt).
  assert (objects rt1 !! self = Some o) as Ho1 by done.
  assert (classes rt1 !! clazz_ o = Some c) as Hc1 by done.
  destruct (addOwnPropertyImpl_adds rt1 self o c name (newPropertyFlags dpf)
              (HVObject PropertyAccessorKind acc) Ho1 Hc1 Hwf Hnone)
    as (rt2 & o2 & c2 & pos & Hrun & Ho2 & Hc2 & _ & Hfind & Hval & _ & _ & _ & _ &
        _ & _ & Haccs & _).
  assert (accessors rt2 !! acc = Some (mkPropertyAccessor g s)) as Hcell.
  { rewrite Haccs. apply lookup_insert_eq. }
  exists acc, rt1, rt2. split; [done|].
  split; [apply not_elem_of_dom, is_fresh|].
  split.
  { rewrite (defineOwnProperty_absent _ _ _ _ _ _ _ _ _ Ho1 Hc1 Hnone Hlz).
    rewrite (addOwnProperty_eq _ _ _ _ _ _ _ Ho1). rewrite Hext. cbn [andb].
    by rewrite (bind_Returned _ _ _ _ _ Hrun). }
  set (desc := mkNamedPropertyDescriptor (nextSlot (propertyMap c)) (newPropertyFlags dpf))
    in *.
  assert (pf_accessor (desc_flags desc) = true) as Hda by exact Hacc.
  split.
  - intros fuel' opFlags' cacheEntry. unfold getNamed_RJS.
    rewrite (bind_Returned _ _ _ _ _
               (getNamedDescriptor_own _ _ _ _ _ _ _ fuel' Ho2 Hc2 Hfind)).
    rewrite Hda. cbn [negb andb].
    rewrite (bind_Returned _ _ _ _ _ (readNamedSlot_eq _ _ _ _ _ Ho2 Hval)).
    rewrite (bind_Returned _ _ _ _ _ (vmcast_PropertyAccessor_eq _ _ _ Hcell)).
    cbn [snd getter]. by destruct g.
  - intros fuel' value opFlags'. unfold putNamed_RJS.
    rewrite (bind_Returned _ _ _ _ _
               (getNamedDescriptor_own _ _ _ _ _ _ _ fuel' Ho2 Hc2 Hfind)).
    rewrite Hda.
    rewrite (bind_Returned _ _ _ _ _ (readNamedSlot_eq _ _ _ _ _ Ho2 Hval)).
    rewrite (bind_Returned _ _ _ _ _ (vmcast_PropertyAccessor_eq _ _ _ Hcell)).
    cbn [snd setter]. destruct s; [done|].
    unfold rejected. by destruct (getThrowOnError opFlags').
Qed.

(** ** Redefining a configurable property *)

Lemma list_find_alter_name (pm : list (SymbolID * NamedPropertyDescriptor))
    pos (g : NamedPropertyDescriptor → NamedPropertyDescriptor) y :
  list_find (λ p, p.1 = y) (alter (λ p, (p.1, g p.2)) pos pm) =
  match list_find (λ p, p.1 = y) pm with
  | Some (i, (n, d)) => Some (i, (n, if bool_decide (i = pos) then g d else d))
  | None => None
  end.
Proof.
  revert pos. induction pm as [|[n d] pm IH]; intros pos; [done|].
  destruct pos as [|pos]; cbn [alter list_alter list_find fst snd].
  - destruct (decide (n = y)) as [->|Hne]; cbn.
    + done.
    + destruct (list_find (λ p, p.1 = y) pm) as [[i [n' d']]|]; cbn; [|done].
      by rewrite bool_decide_eq_false_2 by lia.
  - destruct (decide (n = y)) as [->|Hne]; cbn.
    + done.
    + change (list_alter ?f pos pm) with (alter f pos pm). rewrite IH.
      destruct (list_find (λ p, p.1 = y) pm) as [[i [n' d']]|]; cbn; [|done].
      do 3 f_equal. destruct (decide (i = pos)) as [->|Hn].
      * by rewrite !bool_decide_eq_true_2.
      * rewrite (bool_decide_eq_false_2 (i = pos)) by done.
        by rewrite (bool_decide_eq_false_2 (S i = S pos)) by lia.
Qed.

Lemma findProperty_updateProperty c pos flags x desc y :
  HiddenClass_findProperty c x = Some (pos, desc) →
  HiddenClass_findProperty (updatePropertyTransition c pos flags) y =
  if bool_decide (y = x) then Some (pos, mkNamedPropertyDescriptor (desc_slot desc) flags)
  else HiddenClass_findProperty c y.
Proof.
  intros Hx. unfold HiddenClass_findProperty in *.
  cbn [updatePropertyTransition propertyMap].
  rewrite (list_find_alter_name (propertyMap c) pos
             (λ d, mkNamedPropertyDescriptor (desc_slot d) flags) y).
  destruct (list_find (λ p, p.1 = x) (propertyMap c)) as [[i [n d]]|] eqn:Hfx; [|done].
  injection Hx as -> ->.
  apply list_find_Some in Hfx as (Hl & Hn & Hbefore). cbn in Hn. subst n.
  case_bool_decide as Hy.
  - subst y.
    assert (list_find (λ p, p.1 = x) (propertyMap c) = Some (pos, (x, desc))) as ->.
    { apply list_find_Some. done. }
    by rewrite bool_decide_eq_true_2.
  - destruct (list_find (λ p, p.1 = y) (propertyMap c)) as [[i [n d]]|] eqn:Hfy; [|done].
    apply list_find_Some in Hfy as (Hl' & Hn' & _). cbn in Hn'. subst n.
    rewrite bool_decide_eq_false_2; [done|].
    intros ->. rewrite Hl in Hl'. by injection Hl' as [= ->].
Qed.

Lemma checkPropertyUpdate_configurable_data cur dpf v w opFlags rt :
  pf_configurable cur = true →
  pf_accessor cur = false →
  dpf_setValue dpf = true →
  dpf_isAccessor dpf = false →
  (checkPropertyUpdate cur dpf v w opFlags rt = Returned (done, cur) rt ∧
   v = w ∧ mergeDataFlags cur dpf = cur) ∨
  checkPropertyUpdate cur dpf v w opFlags rt =
    Returned (needSet, mergeDataFlags cur dpf) rt.
Proof.
  intros Hc Ha Hsv Hia.
  unfold checkPropertyUpdate, checkPropertyUpdate_same, checkPropertyUpdate_validate.
  assert (dpf_isEmpty dpf = false) as ->.
  { unfold dpf_isEmpty. rewrite Hsv. by rewrite !orb_true_r. }
  rewrite Hia, Hsv, Hc, Ha. cbn [negb andb orb].
  rewrite (bool_decide_eq_true_2 (false = false)) by done. cbn [negb].
  assert (set_accessor false
            ((if dpf_setConfigurable dpf then set_configurable (dpf_configurable dpf)
              else id)
               ((if dpf_setWritable dpf then set_writable (dpf_writable dpf) else id)
                  ((if dpf_setEnumerable dpf then set_enumerable (dpf_enumerable dpf)
                    else id) cur))) = mergeDataFlags cur dpf) as Hmerge.
  { unfold mergeDataFlags. destruct cur, dpf; cbn in *.
    by destruct dpf_setConfigurable0, dpf_setWritable0, dpf_setEnumerable0. }
  destruct ((negb (dpf_setEnumerable dpf) ||
             bool_decide (dpf_enumerable dpf = pf_enumerable cur)) &&
            (negb (dpf_setWritable dpf) ||
             bool_decide (dpf_writable dpf = pf_writable cur)) &&
            (negb (dpf_setConfigurable dpf) ||
             bool_decide (dpf_configurable dpf = true))) eqn:Hsame.
  - unfold isSameValue. unfold bind at 1. unfold ret at 1.
    destruct (decide (v = w)) as [Hvw|Hvw];
      [rewrite (bool_decide_eq_true_2 _ Hvw)|rewrite (bool_decide_eq_false_2 _ Hvw)].
    + left. split; [done|]. split; [done|].
      apply andb_true_iff in Hsame as [Hsame H3].
      apply andb_true_iff in Hsame as [H1 H2].
      unfold mergeDataFlags. destruct cur, dpf; cbn in *. subst.
      destruct dpf_setEnumerable0, dpf_setWritable0, dpf_setConfigurable0;
        cbn in *; repeat case_bool_decide; subst; try done.
    + right. munfold. rewrite <- Hmerge.
      by destruct (dpf_setConfigurable dpf), (dpf_setWritable dpf),
        (dpf_setEnumerable dpf).
  - right. munfold. rewrite <- Hmerge.
    by destruct (dpf_setConfigurable dpf), (dpf_setWritable dpf),
      (dpf_setEnumerable dpf).
Qed.

(** X16. Redefining a configurable data property with a data descriptor
    that carries a value always succeeds: [defineOwnProperty] returns true
    and afterwards the object owns the name at the same slot, holding the
    new value, with every mentioned field of the descriptor as its flag
    and the others as they were; the other properties keep their
    descriptors and values. *)
Theorem defineOwnProperty_redefine_data rt self o c x pos desc v dpf w opFlags fuel :
  objects rt !! self = Some o →
  classes rt !! clazz_ o = Some c →
  HiddenClass_findProperty c x = Some (pos, desc) →
  getNamedSlotValue ext o desc = Some v →
  pf_configurable (desc_flags desc) = true →
  pf_accessor (desc_flags desc) = false →
  pf_internalSetter (desc_flags desc) = false →
  dpf_setValue dpf = true →
  dpf_isAccessor dpf = false →
  ∃ rt' o' c',
    defineOwnProperty ext fuel self x dpf w opFlags rt = Returned true rt' ∧
    objects rt' !! self = Some o' ∧
    classes rt' !! clazz_ o' = Some c' ∧
    HiddenClass_findProperty c' x =
      Some (pos, mkNamedPropertyDescriptor (desc_slot desc)
                   (mergeDataFlags (desc_flags desc) dpf)) ∧
    getNamedSlotValue ext o' desc = Some w ∧
    (∀ y, y ≠ x → HiddenClass_findProperty c' y = HiddenClass_findProperty c y) ∧
    (∀ d, desc_slot d ≠ desc_slot desc →
          getNamedSlotValue ext o' d = getNamedSlotValue ext o d) ∧
    parent_ o' = parent_ o ∧ flags_ o' = flags_ o ∧
    (∀ a, a ≠ self → objects rt' !! a = objects rt !! a).
Proof.
  intros Ho Hc Hfind Hv Hcf Hacc His Hsv Hia.
  rewrite (defineOwnProperty_found _ _ _ _ _ _ _ fuel dpf w opFlags Ho Hc Hfind).
  unfold updateOwnProperty.
  rewrite (bind_Returned _ _ _ _ _ (readNamedSlot_eq _ _ _ _ _ Ho Hv)).
  destruct (checkPropertyUpdate_configurable_data (desc_flags desc) dpf v w opFlags rt
              Hcf Hacc Hsv Hia) as [(Hchk & <- & Hm)|Hchk];
    rewrite (bind_Returned _ _ _ _ _ Hchk); cbn [fst snd].
  - rewrite (bool_decide_eq_false_2 (done = failed)) by discriminate.
    rewrite (bool_decide_eq_true_2 (desc_flags desc = desc_flags desc)) by done.
    cbn [negb]. rewrite (bind_Returned _ _ _ desc rt eq_refl).
    rewrite (bool_decide_eq_true_2 (done = done)) by done.
    exists rt, o, c. rewrite Hm. destruct desc as [sl fl]. repeat split; try done.
  - rewrite (bool_decide_eq_false_2 (needSet = failed)) by discriminate.
    set (F := mergeDataFlags (desc_flags desc) dpf) in *.
    assert (pf_internalSetter F = false) as HisF by exact His.
    destruct (decide (F = desc_flags desc)) as [HF|HF].
    + rewrite (bool_decide_eq_true_2 _ HF). cbn [negb].
      rewrite (bind_Returned _ _ _ desc rt eq_refl).
      rewrite (bool_decide_eq_false_2 (needSet = done)) by discriminate.
      rewrite Hsv, His. cbn [negb].
      destruct (writeNamedSlot_eq rt self o desc v w Ho Hv) as (o' & Hset & Hw).
      rewrite (bind_Returned _ _ _ _ _ Hw).
      destruct (setNamedSlotValue_get o desc v w Hv)
        as (o2 & Hset2 & Hget & Hpar & Hcl & Hfl & Hvt).
      rewrite Hset in Hset2. injection Hset2 as <-.
      exists (set_objects (<[self := o']> (objects rt)) rt), o', c.
      split; [done|]. cbn [objects classes set_objects].
      split; [apply lookup_insert_eq|]. split; [by rewrite Hcl|].
      split; [rewrite HF; by destruct desc|]. split; [done|]. split; [done|].
      split; [intros d Hd; by apply (setNamedSlotValue_other o desc w)|].
      split; [done|]. split; [done|].
      intros a Ha. by rewrite lookup_insert_ne.
    + rewrite (bool_decide_eq_false_2 _ HF). cbn [negb].
      set (nc := fresh (dom (classes rt))).
      set (c' := updatePropertyTransition c pos F).
      set (rt1 := set_objects (<[self := set_clazz nc o]> (objects rt))
                    (set_classes (<[nc := c']> (classes rt)) rt)).
      set (desc' := mkNamedPropertyDescriptor (desc_slot desc) F).
      assert ((let* o0 := getObject self in
               let* newClazz := HiddenClass_updateProperty (clazz_ o0) pos F in
               let* _ := putObject self (set_clazz newClazz o0) in
               ret desc') rt = Returned desc' rt1) as Hblock.
      { rewrite (bind_Returned _ _ _ _ _ (getObject_eq _ _ _ Ho)).
        assert (HiddenClass_updateProperty (clazz_ o) pos F rt =
                Returned nc (set_classes (<[nc := c']> (classes rt)) rt)) as Hup.
        { unfold HiddenClass_updateProperty.
          by rewrite (bind_Returned _ _ _ _ _ (getClassCell_eq _ _ _ Hc)). }
        rewrite (bind_Returned _ _ _ _ _ Hup). by munfold. }
      rewrite (bind_Returned _ _ _ _ _ Hblock).
      rewrite (bool_decide_eq_false_2 (needSet = done)) by discriminate.
      rewrite Hsv. cbn [desc_flags desc']. rewrite HisF. cbn [negb].
      assert (objects rt1 !! self = Some (set_clazz nc o)) as Ho1
        by apply lookup_insert_eq.
      assert (getNamedSlotValue ext (set_clazz nc o) desc' = Some v) as Hv1.
      { rewrite getNamedSlotValue_set_clazz. exact Hv. }
      destruct (writeNamedSlot_eq rt1 self (set_clazz nc o) desc' v w Ho1 Hv1)
        as (o' & Hset & Hw).
      rewrite (bind_Returned _ _ _ _ _ Hw).
      destruct (setNamedSlotValue_get (set_clazz nc o) desc' v w Hv1)
        as (o2 & Hset2 & Hget & Hpar & Hcl & Hfl & Hvt).
      rewrite Hset in Hset2. injection Hset2 as <-.
      eexists _, o', c'. split; [reflexivity|].
      cbn [objects classes set_objects set_classes].
      split; [apply lookup_insert_eq|].
      split; [rewrite Hcl; apply lookup_insert_eq|].
      split.
      { unfold c'. rewrite (findProperty_updateProperty c pos F x desc x Hfind).
        by rewrite bool_decide_eq_true_2. }
      split; [exact Hget|].
      split.
      { intros y Hy. unfold c'.
        rewrite (findProperty_updateProperty c pos F x desc y Hfind).
        by rewrite bool_decide_eq_false_2. }
      split.
      { intros d Hd. rewrite (setNamedSlotValue_other _ desc' w o' d Hset Hd).
        apply getNamedSlotValue_set_clazz. }
      split; [done|]. split; [done|].
      intros a Ha. rewrite lookup_insert_ne by done. unfold rt1.
      cbn [objects set_objects]. by rewrite lookup_insert_ne.
Qed.

(** ** Delete *)

Lemma deleteNamed_effect rt self o c name pos desc v opFlags :
  objects rt !! self = Some o →
  classes rt !! clazz_ o = Some c →
  HiddenClass_findProperty c name = Some (pos, desc) →
  pf_configurable (desc_flags desc) = true →
  getNamedSlotValue ext o desc = Some v →
  ∃ o',
    deleteNamed ext self name opFlags rt =
      Returned true
        (set_objects (<[self := o']> (objects rt))
           (set_classes
              (<[fresh (dom (classes rt)) := deletePropertyTransition c pos]>
                 (classes rt)) rt)) ∧
    clazz_ o' = fresh (dom (classes rt)) ∧
    parent_ o' = parent_ o ∧ flags_ o' = flags_ o ∧ vt o' = vt o ∧
    getNamedSlotValue ext o' desc = Some HVEmpty ∧
    (∀ d, desc_slot d ≠ desc_slot desc →
          getNamedSlotValue ext o' d = getNamedSlotValue ext o d).
Proof.
  intros Ho Hc Hf Hcf Hv.
  assert (initializeIfAbsent ext self name rt = Returned tt rt) as Hinit.
  { apply (initializeIfAbsent_not_lazy rt self o c); [done|done|]. right. by rewrite Hf. }
  rewrite (deleteNamed_after_init _ _ _ _ _ name opFlags Hinit Ho Hc).
  rewrite Hf, Hcf. cbn [negb].
  destruct (writeNamedSlot_eq rt self o desc v HVEmpty Ho Hv) as (o2 & Hs & Hw).
  destruct (setNamedSlotValue_get o desc v HVEmpty Hv)
    as (o2' & Hs' & Hg & Hp & Hcl & Hfl & Hvt).
  rewrite Hs in Hs'. injection Hs' as <-.
  rewrite (bind_Returned _ _ _ _ _ Hw).
  set (rt2 := set_objects (<[self := o2]> (objects rt)) rt).
  assert (objects rt2 !! self = Some o2) as Ho2 by apply lookup_insert_eq.
  assert (classes rt2 !! clazz_ o2 = Some c) as Hc2 by (by rewrite Hcl).
  exists (set_clazz (fresh (dom (classes rt))) o2). split.
  { rewrite (bind_Returned _ _ _ _ _ (getObject_eq _ _ _ Ho2)).
    assert (HiddenClass_deleteProperty (clazz_ o2) pos rt2 =
            Returned (fresh (dom (classes rt)))
              (set_classes
                 (<[fresh (dom (classes rt)) := deletePropertyTransition c pos]>
                    (classes rt)) rt2)) as Hdel.
    { unfold HiddenClass_deleteProperty.
      by rewrite (bind_Returned _ _ _ _ _ (getClassCell_eq _ _ _ Hc2)). }
    rewrite (bind_Returned _ _ _ _ _ Hdel). munfold.
    unfold rt2, set_objects, set_classes.
    cbn [objects classes accessors objectPrototypeRawPtr].
    by rewrite insert_insert_eq. }
  cbn [clazz_ parent_ flags_ vt set_clazz].
  split; [done|]. split; [done|]. split; [done|]. split; [done|]. split.
  - by rewrite getNamedSlotValue_set_clazz.
  - intros d Hd. rewrite getNamedSlotValue_set_clazz.
    by apply (setNamedSlotValue_other o desc HVEmpty).
Qed.

Lemma list_find_delete_other (pm : list (SymbolID * NamedPropertyDescriptor)) pos y i n d :
  list_find (λ p, p.1 = y) pm = Some (i, (n, d)) →
  i ≠ pos →
  ∃ j, list_find (λ p, p.1 = y) (delete pos pm) = Some (j, (n, d)).
Proof.
  revert pos i. induction pm as [|[n0 d0] pm IH]; intros pos i; [done|].
  cbn [list_find fst]. destruct (decide (n0 = y)) as [->|Hne]; cbn.
  - intros [= <- <- <-] Hpos. destruct pos as [|pos]; [done|].
    cbn [delete list_delete list_find fst]. rewrite decide_True by done. by eexists.
  - destruct (list_find (λ p, p.1 = y) pm) as [[i' [n' d']]|] eqn:Hf; cbn; [|done].
    intros [= <- <- <-] Hpos. destruct pos as [|pos].
    + cbn [delete list_delete]. rewrite Hf. by eexists.
    + cbn [delete list_delete list_find fst]. rewrite decide_False by done.
      change (list_delete pos pm) with (delete pos pm).
      destruct (IH pos i' eq_refl ltac:(lia)) as [j Hj]. exists (S j).
      exact (f_equal (λ r : option (nat * (SymbolID * NamedPropertyDescriptor)),
                        prod_map S id <$> r) Hj).
Qed.

Lemma ownDescriptor_frame rt rt' a :
  objects rt' !! a = objects rt !! a →
  (∀ k cell, classes rt !! k = Some cell → classes rt' !! k = Some cell) →
  (∀ o, objects rt !! a = Some o → is_Some (classes rt !! clazz_ o)) →
  ∀ name, ownDescriptor rt' a name = ownDescriptor rt a name.
Proof.
  intros Ho Hcls Hex name. unfold ownDescriptor. rewrite Ho.
  destruct (objects rt !! a) as [o|] eqn:Hoa; [|done].
  destruct (Hex o eq_refl) as [c Hc]. by rewrite Hc, (Hcls _ _ Hc).
Qed.

Lemma lookupChain_frame rt rt' chain name :
  Forall (λ a, objects rt' !! a = objects rt !! a) chain →
  (∀ k cell, classes rt !! k = Some cell → classes rt' !! k = Some cell) →
  OrdinaryChain rt chain →
  lookupChain rt' chain name = lookupChain rt chain name.
Proof.
  intros Hobjs Hcls Hord. induction chain as [|a l IH]; [done|].
  apply Forall_cons in Hobjs as [Ha Hobjs].
  apply Forall_cons in Hord as [(o & c & Ho & Hc & _) Hord].
  cbn [lookupChain]. rewrite (ownDescriptor_frame rt rt' a Ha Hcls).
  - by rewrite IH.
  - intros o' Ho'. rewrite Ho in Ho'. injection Ho' as <-. by eexists.
Qed.

Lemma ProtoChain_frame rt rt' cur l :
  Forall (λ a, ∀ o, objects rt !! a = Some o →
                    ∃ o', objects rt' !! a = Some o' ∧ parent_ o' = parent_ o) l →
  ProtoChain rt cur l → ProtoChain rt' cur l.
Proof.
  intros Hall Hc. induction Hc as [|a o l Ho Hc IH]; [constructor|].
  apply Forall_cons in Hall as [Ha Hall].
  destruct (Ha o Ho) as (o' & Ho' & Hp).
  apply (ProtoChain_step _ a o'); [done|]. rewrite Hp. by apply IH.
Qed.

(** X17. Deleting an own configurable property uncovers what it shadowed:
    on a chain of ordinary objects, after [deleteNamed] has returned
    true, the lookup of the name from the object finds the nearest of its
    prototypes that owns the name, or nothing, and [hasNamed] answers
    accordingly; the other data properties of the object are read back by
    [getNamed_RJS] with the values they had, when no two properties of the
    class share a name or a slot. *)
Theorem deleteNamed_uncovers rt self o c chain name pos desc v opFlags fuel :
  ProtoChain rt (Some self) (self :: chain) →
  OrdinaryChain rt (self :: chain) →
  length chain ≤ fuel →
  objects rt !! self = Some o →
  classes rt !! clazz_ o = Some c →
  HiddenClass_findProperty c name = Some (pos, desc) →
  pf_configurable (desc_flags desc) = true →
  getNamedSlotValue ext o desc = Some v →
  NoDup (map fst (propertyMap c)) →
  NoDup (map (λ p, desc_slot p.2) (propertyMap c)) →
  ∃ rt',
    deleteNamed ext self name opFlags rt = Returned true rt' ∧
    getNamedDescriptor ext fuel self name rt' =
      Returned (lookupChain rt chain name) rt' ∧
    hasNamed ext fuel self name rt' =
      Returned (match lookupChain rt chain name with Some _ => true | None => false end)
        rt' ∧
    ∀ y p d w opFlags' cacheEntry,
      y ≠ name →
      HiddenClass_findProperty c y = Some (p, d) →
      getNamedSlotValue ext o d = Some w →
      pf_accessor (desc_flags d) = false →
      pf_hostObject (desc_flags d) = false →
      ∃ stamped,
        getNamed_RJS ext fuel self y opFlags' cacheEntry rt' = Returned (w, stamped) rt'.
Proof.
  intros Hchain Hord Hf Ho Hc Hfind Hcf Hv Hnd Hslots.
  destruct (deleteNamed_effect rt self o c name pos desc v opFlags Ho Hc Hfind Hcf Hv)
    as (o' & Hrun & Hcl & Hpar & Hfl & Hvt & Hempty & Hother).
  set (nc := fresh (dom (classes rt))) in *.
  set (c' := deletePropertyTransition c pos) in *.
  set (rt' := set_objects (<[self := o']> (objects rt))
                (set_classes (<[nc := c']> (classes rt)) rt)) in *.
  assert (objects rt' !! self = Some o') as Ho' by apply lookup_insert_eq.
  assert (classes rt' !! clazz_ o' = Some c') as Hc'.
  { rewrite Hcl. apply lookup_insert_eq. }
  assert (self ∉ chain) as Hnotin by (by apply (ProtoChain_not_in_tail rt)).
  assert (∀ k cell, classes rt !! k = Some cell → classes rt' !! k = Some cell) as Hcls.
  { intros k cell Hk. by apply classes_alloc_preserved. }
  assert (ProtoChain rt' (Some self) (self :: chain)) as Hchain'.
  { apply (ProtoChain_frame rt rt'); [|done].
    apply Forall_forall. intros a _ oa Hoa.
    destruct (decide (a = self)) as [->|Hne].
    - rewrite Ho in Hoa. injection Hoa as <-. by exists o'.
    - exists oa. split; [|done]. cbn. by rewrite lookup_insert_ne. }
  assert (OrdinaryChain rt' (self :: chain)) as Hord'.
  { apply Forall_forall. intros a Ha.
    destruct (decide (a = self)) as [->|Hne].
    - exists o', c'. rewrite Hfl.
      apply Forall_cons in Hord as [(o0 & c0 & Ho0 & _ & Hlz & Hho) _].
      rewrite Ho in Ho0. by injection Ho0 as <-.
    - unfold OrdinaryChain in Hord. rewrite Forall_forall in Hord.
      destruct (Hord a Ha) as (oa & ca & Hoa & Hca & Hlz & Hho).
      exists oa, ca. split; [cbn; by rewrite lookup_insert_ne|].
      split; [by apply Hcls|done]. }
  assert (HiddenClass_findProperty c' name = None) as Hgone
    by (by apply (deleteProperty_findProperty_None c name pos desc)).
  assert (lookupChain rt' (self :: chain) name = lookupChain rt chain name) as Hlook.
  { cbn [lookupChain]. rewrite (ownDescriptor_eq _ _ _ _ _ Ho' Hc'), Hgone. cbn.
    apply lookupChain_frame; [|done|].
    - apply Forall_forall. intros a Ha. cbn. rewrite lookup_insert_ne; [done|].
      intros <-. done.
    - by apply Forall_cons in Hord as [_ ?]. }
  exists rt'. split; [exact Hrun|].
  assert (getNamedDescriptor ext fuel self name rt' =
          Returned (lookupChain rt chain name) rt') as Hdesc.
  { rewrite <- Hlook.
    apply getNamedDescriptor_lookupChain; [done|done|cbn; lia]. }
  split; [exact Hdesc|]. split.
  { unfold hasNamed. by rewrite (bind_Returned _ _ _ _ _ Hdesc). }
  intros y p d w opFlags' cacheEntry Hy Hfy Hw Hacc Hhost.
  assert (∃ j, HiddenClass_findProperty c' y = Some (j, d)) as [j Hj].
  { unfold HiddenClass_findProperty in *. cbn [c' deletePropertyTransition propertyMap].
    destruct (list_find (λ q, q.1 = y) (propertyMap c)) as [[i [n dd]]|] eqn:Hly; [|done].
    injection Hfy as -> ->.
    destruct (list_find (λ q, q.1 = name) (propertyMap c)) as [[i2 [n2 d2]]|] eqn:Hln;
      [|done].
    injection Hfind as -> ->.
    destruct (list_find_delete_other (propertyMap c) pos y p n d Hly) as [j ->].
    - intros ->. apply list_find_Some in Hly as (Hl1 & Hn1 & _).
      apply list_find_Some in Hln as (Hl2 & Hn2 & _).
      rewrite Hl1 in Hl2. injection Hl2 as -> ->. cbn in Hn1, Hn2. congruence.
    - by exists j. }
  apply (getNamed_RJS_own_data rt' self o' c' y j d w); try done.
  rewrite Hother; [done|].
  pose proof (HiddenClass_findProperty_elem _ _ _ _ Hfy) as Hey.
  pose proof (HiddenClass_findProperty_elem _ _ _ _ Hfind) as Hen.
  intros Heq.
  assert (p = pos) as ->.
  { eapply (NoDup_lookup _ p pos (desc_slot d) Hslots).
    - rewrite list_lookup_fmap, Hey. done.
    - rewrite list_lookup_fmap, Hen. cbn. by rewrite Heq. }
  rewrite Hey in Hen. injection Hen as -> _. done.
Qed.

(** ** Computed keys *)

Context (keys : KeyOperations).

Lemma callStatus_Returned {A} (m : M A) rt a rt' :
  m rt = Returned a rt' → callStatus m rt = Returned (inr a) rt'.
Proof. intros H. unfold callStatus. by rewrite H. Qed.

Lemma callStatus_Exception {A} (m : M A) rt e rt' :
  m rt = Exception e rt' → callStatus m rt = Returned (inl e) rt'.
Proof. intros H. unfold callStatus. by rewrite H. Qed.

Lemma getOwnComputedPrimitiveDescriptor_ordinary rt a o c key id n :
  isObject key = false →
  valueToSymbolID keys key rt = Returned id rt →
  objects rt !! a = Some o →
  classes rt !! clazz_ o = Some c →
  lazyObject (flags_ o) = false →
  (toArrayIndexFastPath keys key = None → indexedStorage (flags_ o) = false) →
  getOwnComputedPrimitiveDescriptor ext keys (S n) a key rt =
  Returned (ownComputedDescriptor o c (toArrayIndexFastPath keys key) id) rt.
Proof.
  intros Hkey Hid Ho Hc Hlz Hst.
  cbn [getOwnComputedPrimitiveDescriptor]. rewrite Hkey.
  rewrite (bind_Returned _ _ _ _ _ (getObject_eq _ _ _ Ho)).
  unfold ownComputedDescriptor.
  destruct (if fastIndexProperties (flags_ o) then toArrayIndexFastPath keys key
            else None) as [i|] eqn:Hfast.
  { by destruct (getOwnIndexedPropertyFlags o i). }
  unfold LAZY_TO_IDENTIFIER. rewrite (bind_Returned _ _ _ _ _ Hid).
  assert (findProperty a id rt = Returned (HiddenClass_findProperty c id) rt) as Hfind.
  { unfold findProperty. munfold. rewrite Ho. cbv beta iota. by rewrite Hc. }
  rewrite (bind_Returned _ _ _ _ _ Hfind).
  destruct (HiddenClass_findProperty c id) as [[pos d]|]; [done|].
  rewrite (bind_Returned _ _ _ _ _ (getObject_eq _ _ _ Ho)).
  destruct (indexedStorage (flags_ o)) eqn:His.
  - destruct (toArrayIndexFastPath keys key) as [i|] eqn:Hfp;
      [|by specialize (Hst eq_refl)].
    assert (TO_ARRAY_INDEX keys key rt = Returned (Some i, None) rt) as Hto.
    { unfold TO_ARRAY_INDEX. by rewrite Hfp. }
    assert ((let* arrayIndex := TO_ARRAY_INDEX keys key in
             match arrayIndex.1 with
             | Some i0 =>
                 let* o2 := getObject a in
                 ret match getOwnIndexedPropertyFlags o2 i0 with
                     | Some res => Some (indexedDescriptor res i0)
                     | None => None
                     end
             | None => ret None
             end) rt =
            Returned ((λ res, indexedDescriptor res i) <$>
                      getOwnIndexedPropertyFlags o i) rt) as Hblock.
    { rewrite (bind_Returned _ _ _ _ _ Hto). cbn [fst].
      rewrite (bind_Returned _ _ _ _ _ (getObject_eq _ _ _ Ho)).
      by destruct (getOwnIndexedPropertyFlags o i). }
    rewrite (bind_Returned _ _ _ _ _ Hblock).
    destruct (getOwnIndexedPropertyFlags o i); cbn [fmap option_fmap option_map]; [done|].
    rewrite (bind_Returned _ _ _ _ _ (getObject_eq _ _ _ Ho)). by rewrite Hlz.
  - munfold. by rewrite Ho, Hlz.
Qed.

Lemma getComputedPrimitiveDescriptor_loop_lookupComputed rt a chain key id fuel n desc0 :
  isObject key = false →
  valueToSymbolID keys key rt = Returned id rt →
  ProtoChain rt (Some a) chain →
  OrdinaryChain rt chain →
  (toArrayIndexFastPath keys key = None →
   Forall (λ a, ∀ o, objects rt !! a = Some o → indexedStorage (flags_ o) = false)
     chain) →
  length chain ≤ fuel →
  getComputedPrimitiveDescriptor_loop ext keys fuel (S n) a key desc0 rt =
  Returned
    (match lookupComputed rt chain (toArrayIndexFastPath keys key) id with
     | Some (p, d) => (RETURNED, Some p, d)
     | None => (RETURNED, None, desc0)
     end) rt.
Proof.
  intros Hkey Hid Hc. remember (Some a) as start eqn:Hstart.
  revert a Hstart fuel. induction Hc as [|a' o l Ho Hc IH];
    intros a Hstart fuel Hord Hst Hf; [done|].
  injection Hstart as <-. cbn in Hf. destruct fuel as [|fuel]; [lia|].
  apply Forall_cons in Hord as [(o' & c & Ho' & Hcl & Hlz & Hho) Hord].
  rewrite Ho in Ho'. injection Ho' as <-.
  cbn [getComputedPrimitiveDescriptor_loop lookupComputed].
  rewrite Ho, Hcl.
  assert (toArrayIndexFastPath keys key = None → indexedStorage (flags_ o) = false)
    as Hsta.
  { intros Hn. specialize (Hst Hn). apply Forall_cons in Hst as [Hst _]. by apply Hst. }
  rewrite (bind_Returned _ _ _ _ _
             (callStatus_Returned _ _ _ _
                (getOwnComputedPrimitiveDescriptor_ordinary rt a' o c key id n
                   Hkey Hid Ho Hcl Hlz Hsta))).
  destruct (ownComputedDescriptor o c (toArrayIndexFastPath keys key) id) as [d|];
    [done|].
  rewrite (bind_Returned _ _ _ _ _ (getObject_eq _ _ _ Ho)). rewrite Hho.
  destruct (parent_ o) as [p|] eqn:Hp.
  - apply IH; [done|done| |lia].
    intros Hn. specialize (Hst Hn). by apply Forall_cons in Hst as [_ ?].
  - by inversion Hc.
Qed.

Lemma haveOwnIndexed_flags o i :
  haveOwnIndexed o i = true ↔ is_Some (getOwnIndexedPropertyFlags o i).
Proof.
  unfold haveOwnIndexed, getOwnIndexedPropertyFlags.
  destruct (vt o) as [|range elems].
  - cbn. split; [done|]. by intros [? ?].
  - rewrite bool_decide_eq_true, fmap_is_Some. done.
Qed.

Lemma ownComputedDescriptor_index_is_Some rt a o c i id :
  objects rt !! a = Some o →
  classes rt !! clazz_ o = Some c →
  toArrayIndex (getStringView id) = Some i →
  (fastIndexProperties (flags_ o) = true → indexLikeFree c) →
  (indexedStorage (flags_ o) = false → ∀ i, haveOwnIndexed o i = false) →
  is_Some (ownComputedDescriptor o c (Some i) id) ↔
  OwnsIndexed rt a i ∨ OwnsNamed rt a id.
Proof.
  intros Ho Hc Hidx Hfree Hnone.
  assert (OwnsIndexed rt a i ↔ is_Some (getOwnIndexedPropertyFlags o i)) as Hoi.
  { rewrite <- haveOwnIndexed_flags. unfold OwnsIndexed. split.
    - intros (o' & Ho' & Hh). rewrite Ho in Ho'. by injection Ho' as <-.
    - intros Hh. by exists o. }
  assert (OwnsNamed rt a id ↔ is_Some (HiddenClass_findProperty c id)) as Hon.
  { unfold OwnsNamed. split.
    - intros (o' & c' & Ho' & Hc' & Hs). rewrite Ho in Ho'. injection Ho' as <-.
      rewrite Hc in Hc'. by injection Hc' as <-.
    - intros Hs. by exists o, c. }
  rewrite Hoi, Hon. unfold ownComputedDescriptor.
  destruct (fastIndexProperties (flags_ o)) eqn:Hfast.
  - rewrite fmap_is_Some. split; [by left|]. intros [?|[[pos d] Hfd]]; [done|].
    exfalso. specialize (Hfree eq_refl).
    apply HiddenClass_findProperty_elem in Hfd as Hel.
    unfold indexLikeFree in Hfree. rewrite Forall_forall in Hfree.
    specialize (Hfree (id, d) (list_elem_of_lookup_2 _ _ _ Hel)).
    cbn in Hfree. unfold isIndexLikeName in Hfree. by rewrite Hidx in Hfree.
  - destruct (HiddenClass_findProperty c id) as [[pos d]|] eqn:Hfd.
    + split; [by right|done].
    + destruct (indexedStorage (flags_ o)) eqn:His.
      * rewrite fmap_is_Some. split; [by left|]. intros [?|[? ?]]; done.
      * split; [by intros [? ?]|]. intros [Hs|[? ?]]; [|done].
        apply haveOwnIndexed_flags in Hs. by rewrite (Hnone eq_refl) in Hs.
Qed.

Lemma lookupComputed_index_is_Some rt chain i id :
  OrdinaryChain rt chain →
  IndexedStorageSound rt chain →
  toArrayIndex (getStringView id) = Some i →
  is_Some (lookupComputed rt chain (Some i) id) ↔
  ∃ a, a ∈ chain ∧ (OwnsIndexed rt a i ∨ OwnsNamed rt a id).
Proof.
  intros Hord Hsound Hidx. induction chain as [|a l IH].
  - cbn. split; [by intros [? ?]|]. intros (a & Ha & _). by apply elem_of_nil in Ha.
  - apply Forall_cons in Hord as [(o & c & Ho & Hc & _) Hord].
    apply Forall_cons in Hsound as [Ha Hsound].
    destruct (Ha o Ho) as [Hfree Hnone].
    pose proof (ownComputedDescriptor_index_is_Some rt a o c i id Ho Hc Hidx
                  (Hfree c Hc) Hnone) as Hown.
    cbn [lookupComputed]. rewrite Ho, Hc.
    destruct (ownComputedDescriptor o c (Some i) id) as [d|].
    + split; [|by eexists]. intros _. exists a. split; [set_solver|].
      apply Hown. by eexists.
    + rewrite (IH Hord Hsound). split.
      * intros (b & Hb & H). exists b. split; [set_solver|done].
      * intros (b & Hb & H). apply elem_of_cons in Hb as [->|Hb].
        -- apply Hown in H. by destruct H.
        -- by exists b.
Qed.

(** X18. [hasComputed] with a key that is an array index looks at the
    whole prototype chain, indexed slots included: on a chain of ordinary
    objects that keep to the data model it leaves the heap as it is and
    answers true exactly when the object or one of its prototypes owns the
    indexed slot or a named property with that spelling. *)
Theorem hasComputed_index_on_chain rt self chain key i id fuel :
  isObject key = false →
  toPropertyKeyIfObject keys key rt = Returned key rt →
  toArrayIndexFastPath keys key = Some i →
  valueToSymbolID keys key rt = Returned id rt →
  toArrayIndex (getStringView id) = Some i →
  ProtoChain rt (Some self) chain →
  OrdinaryChain rt chain →
  IndexedStorageSound rt chain →
  length chain ≤ fuel →
  ∃ b, hasComputed ext keys fuel self key rt = Returned b rt ∧
       (b = true ↔ ∃ a, a ∈ chain ∧ (OwnsIndexed rt a i ∨ OwnsNamed rt a id)).
Proof.
  intros Hkey Hconv Hfp Hid Hidx Hchain Hord Hsound Hf.
  pose proof (lookupComputed_index_is_Some rt chain i id Hord Hsound Hidx) as Hiff.
  inversion Hchain as [|a o l Ho Hc']; subst.
  destruct fuel as [|fuel]; [cbn in Hf; lia|].
  unfold hasComputed.
  rewrite (bind_Returned _ _ _ _ _ (getObject_eq _ _ _ Ho)). rewrite Hfp.
  destruct (if fastIndexProperties (flags_ o) then haveOwnIndexed o i else false)
    eqn:Hfastown.
  { exists true. split; [done|]. split; [|done]. intros _. exists self.
    split; [set_solver|]. left. exists o. split; [done|].
    by destruct (fastIndexProperties (flags_ o)). }
  assert (getComputedDescriptor ext keys (S fuel) self key
            NamedPropertyDescriptor_default rt =
          Returned
            (match lookupComputed rt (self :: l) (Some i) id with
             | Some (p, d) => (Some p, d)
             | None => (None, NamedPropertyDescriptor_default)
             end) rt) as Hdesc.
  { unfold getComputedDescriptor.
    rewrite (bind_Returned _ _ _ _ _ Hconv).
    unfold getComputedPrimitiveDescriptor. rewrite Hkey.
    rewrite (bind_Returned _ _ _ _ _
               (getComputedPrimitiveDescriptor_loop_lookupComputed rt self (self :: l)
                  key id (S fuel) fuel NamedPropertyDescriptor_default Hkey Hid
                  Hchain Hord ltac:(rewrite Hfp; discriminate) Hf)).
    rewrite Hfp. by destruct (lookupComputed rt (self :: l) (Some i) id) as [[p d]|]. }
  rewrite (bind_Returned _ _ _ _ _ Hdesc).
  destruct (lookupComputed rt (self :: l) (Some i) id) as [[p d]|].
  - exists true. split; [done|]. split; [|done]. intros _. apply Hiff. by eexists.
  - exists false. split; [done|]. split; [done|]. intros H. apply Hiff in H.
    by destruct H.
Qed.

Lemma lookupComputed_named rt chain id :
  OrdinaryChain rt chain →
  NamedOnly rt chain →
  lookupComputed rt chain None id = lookupChain rt chain id.
Proof.
  intros Hord Hnamed. induction chain as [|a l IH]; [done|].
  apply Forall_cons in Hord as [(o & c & Ho & Hc & _) Hord].
  apply Forall_cons in Hnamed as [Ha Hnamed].
  destruct (Ha o Ho) as [His _].
  cbn [lookupComputed lookupChain].
  rewrite (ownDescriptor_eq _ _ _ _ _ Ho Hc), Ho, Hc.
  unfold ownComputedDescriptor. rewrite His.
  replace (if fastIndexProperties (flags_ o) then None else None)
    with (@None N) by (by destruct (fastIndexProperties (flags_ o))).
  destruct (HiddenClass_findProperty c id) as [[pos d]|]; cbn; [done|].
  by apply IH.
Qed.

Lemma lookupChain_named_flags rt chain id owner d :
  OrdinaryChain rt chain →
  NamedOnly rt chain →
  lookupChain rt chain id = Some (owner, d) →
  pf_indexed (desc_flags d) = false ∧ pf_hostObject (desc_flags d) = false.
Proof.
  intros Hord Hnamed Hl.
  destruct (lookupChain_elem _ _ _ _ _ Hl) as [Hin Hown].
  unfold OrdinaryChain in Hord. rewrite Forall_forall in Hord.
  destruct (Hord owner Hin) as (o & c & Ho & Hc & _).
  unfold NamedOnly in Hnamed. rewrite Forall_forall in Hnamed.
  destruct (Hnamed owner Hin o Ho) as [_ Hall].
  specialize (Hall c Hc). rewrite Forall_forall in Hall.
  rewrite (ownDescriptor_eq _ _ _ _ _ Ho Hc) in Hown.
  destruct (HiddenClass_findProperty c id) as [[pos d']|] eqn:Hfd; [|done].
  injection Hown as ->.
  apply HiddenClass_findProperty_elem in Hfd.
  exact (Hall (id, d) (list_elem_of_lookup_2 _ _ _ Hfd)).
Qed.

Lemma readComputedSlot_named self desc :
  pf_indexed (desc_flags desc) = false →
  readComputedSlot ext self desc = readNamedSlot ext self desc.
Proof.
  intros Hi. unfold readComputedSlot, readNamedSlot, getComputedSlotValue.
  by rewrite Hi.
Qed.

Lemma bind_eq {A B} (m m' : M A) (f : A → M B) rt :
  m rt = m' rt → bind m f rt = bind m' f rt.
Proof. intros H. unfold bind. by rewrite H. Qed.

Lemma bind_ret_fst {A B} (m : M A) (b : B) rt :
  (let* r := (let* v := m in ret (v, b)) in ret r.1) rt = m rt.
Proof. munfold. by destruct (m rt). Qed.

(** X19. On a chain of ordinary objects that have named properties only,
    reading with a computed key that is not an array index is reading the
    name the key is interned to: [getComputed_RJS] gives the outcome of
    [getNamed_RJS] for that name without mustExist, whatever it is (the
    value of the nearest owner, the result of its getter called on the
    receiver, or undefined). *)
Theorem getComputed_RJS_agrees_getNamed rt self chain key id fuel opFlags :
  isObject key = false →
  toPropertyKeyIfObject keys key rt = Returned key rt →
  toArrayIndexFastPath keys key = None →
  valueToSymbolID keys key rt = Returned id rt →
  getMustExist opFlags = false →
  ProtoChain rt (Some self) chain →
  OrdinaryChain rt chain →
  NamedOnly rt chain →
  length chain ≤ fuel →
  getComputed_RJS ext keys fuel self key rt =
  (let* r := getNamed_RJS ext fuel self id opFlags false in ret r.1) rt.
Proof.
  intros Hkey Hconv Hfp Hid Hmust Hchain Hord Hnamed Hf.
  inversion Hchain as [|a o l Ho Hc']; subst.
  destruct fuel as [|fuel]; [cbn in Hf; lia|].
  assert (getNamedDescriptor ext (S fuel) self id rt =
          Returned (lookupChain rt (self :: l) id) rt) as Hnd.
  { apply getNamedDescriptor_lookupChain; [done|done|lia]. }
  assert (getComputedPrimitiveDescriptor ext keys (S fuel) self key
            NamedPropertyDescriptor_default rt =
          Returned
            (match lookupChain rt (self :: l) id with
             | Some (p, d) => (RETURNED, Some p, d)
             | None => (RETURNED, None, NamedPropertyDescriptor_default)
             end) rt) as Hcd.
  { unfold getComputedPrimitiveDescriptor. rewrite Hkey.
    rewrite (getComputedPrimitiveDescriptor_loop_lookupComputed rt self (self :: l)
               key id (S fuel) fuel NamedPropertyDescriptor_default Hkey Hid
               Hchain Hord); [| |done].
    - by rewrite Hfp, (lookupComputed_named rt (self :: l) id Hord Hnamed).
    - intros _. unfold NamedOnly in Hnamed. eapply Forall_impl; [exact Hnamed|].
      intros b Hb ob Hob. by destruct (Hb ob Hob). }
  unfold getComputed_RJS, getNamed_RJS.
  rewrite (bind_Returned _ _ _ _ _ (getObject_eq _ _ _ Ho)). rewrite Hfp.
  replace (if fastIndexProperties (flags_ o) then HVEmpty else HVEmpty)
    with HVEmpty by (by destruct (fastIndexProperties (flags_ o))).
  cbn [isEmpty negb].
  rewrite (bind_Returned _ _ _ _ _ Hconv).
  rewrite (bind_Returned _ _ _ _ _ Hcd).
  pose proof (lookupChain_named_flags rt (self :: l) id) as Hflags.
  destruct (lookupChain rt (self :: l) id) as [[p d]|] eqn:Hl.
  - destruct (Hflags p d Hord Hnamed eq_refl) as [Hidx Hhost].
    cbn [fst snd]. rewrite Hhost, (readComputedSlot_named _ _ Hidx).
    set (inner := (let* found := getNamedDescriptor ext (S fuel) self id in _)).
    assert (inner rt =
            (if negb (pf_accessor (desc_flags d)) && negb false
             then let* v := readNamedSlot ext p d in ret (v, None)
             else
               let* v := readNamedSlot ext p d in
               let* acc := vmcast_PropertyAccessor v in
               match getter acc.2 with
               | None => ret (HVUndefined, None)
               | Some g =>
                   let* r := Callable_executeCall0 ext g self in ret (r, None)
               end) rt) as Hinner.
    { unfold inner. rewrite (bind_Returned _ _ _ _ _ Hnd). rewrite Hhost.
      destruct (pf_accessor (desc_flags d)); cbn [negb andb]; [done|].
      munfold. by destruct (readNamedSlot ext p d rt). }
    rewrite (bind_eq _ _ _ _ Hinner). clear Hinner inner.
    destruct (pf_accessor (desc_flags d)); cbn [negb andb].
    + munfold. destruct (readNamedSlot ext p d rt) as [v rt1| | |]; try done.
      destruct (vmcast_PropertyAccessor v rt1) as [acc rt2| | |]; try done.
      destruct (getter acc.2) as [g|]; [|done].
      by destruct (Callable_executeCall0 ext g self rt2).
    + munfold. by destruct (readNamedSlot ext p d rt).
  - cbn [fst snd].
    unfold bind at 1. unfold bind at 1. by rewrite Hnd, Hmust.
Qed.

(** X20. An exception raised while the key is interned for the lookup on
    the receiver is not reported by [hasComputed]: the walk stops at the
    receiver, its status is dropped, and the answer is true, on the heap
    the conversion left. *)
Theorem hasComputed_drops_exception rt rt' self o key e fuel :
  isObject key = false →
  toPropertyKeyIfObject keys key rt = Returned key rt →
  objects rt !! self = Some o →
  fastIndexProperties (flags_ o) = false ∨ toArrayIndexFastPath keys key = None →
  valueToSymbolID keys key rt = Exception e rt' →
  hasComputed ext keys (S fuel) self key rt = Returned true rt'.
Proof.
  intros Hkey Hconv Ho Hslow Hid.
  assert ((if fastIndexProperties (flags_ o) then toArrayIndexFastPath keys key
           else None) = None) as Hnone.
  { destruct Hslow as [->| ->]; [done|]. by destruct (fastIndexProperties (flags_ o)). }
  assert (getOwnComputedPrimitiveDescriptor ext keys (S fuel) self key rt =
          Exception e rt') as Hown.
  { cbn [getOwnComputedPrimitiveDescriptor]. rewrite Hkey.
    rewrite (bind_Returned _ _ _ _ _ (getObject_eq _ _ _ Ho)). rewrite Hnone.
    unfold LAZY_TO_IDENTIFIER, bind. by rewrite Hid. }
  unfold hasComputed.
  rewrite (bind_Returned _ _ _ _ _ (getObject_eq _ _ _ Ho)).
  assert ((if fastIndexProperties (flags_ o)
           then match toArrayIndexFastPath keys key with
                | Some arrayIndex => haveOwnIndexed o arrayIndex
                | None => false
                end
           else false) = false) as ->.
  { destruct Hslow as [->| ->]; [done|]. by destruct (fastIndexProperties (flags_ o)). }
  unfold getComputedDescriptor.
  assert (getComputedPrimitiveDescriptor ext keys (S fuel) self key
            NamedPropertyDescriptor_default rt =
          Returned (EXCEPTION e, Some self, NamedPropertyDescriptor_default) rt') as Hcd.
  { unfold getComputedPrimitiveDescriptor. rewrite Hkey.
    cbn [getComputedPrimitiveDescriptor_loop].
    by rewrite (bind_Returned _ _ _ _ _ (callStatus_Exception _ _ _ _ Hown)). }
  assert ((let* converted := toPropertyKeyIfObject keys key in
           let* r := getComputedPrimitiveDescriptor ext keys (S fuel) self converted
                       NamedPropertyDescriptor_default in
           ret (r.1.2, r.2)) rt =
          Returned (Some self, NamedPropertyDescriptor_default) rt') as Hblock.
  { rewrite (bind_Returned _ _ _ _ _ Hconv). by rewrite (bind_Returned _ _ _ _ _ Hcd). }
  by rewrite (bind_Returned _ _ _ _ _ Hblock).
Qed.

Lemma ret_eq {A} (a : A) rt : ret a rt = Returned a rt.
Proof. done. Qed.

(** X21. On an object without indexed storage that is not lazy, deleting
    with a computed key is deleting the name the key is interned to:
    [deleteComputed], called without mustExist, has the outcome of
    [deleteNamed] for that name. *)
Theorem deleteComputed_agrees_deleteNamed
    (subclass_deleteOwnIndexed : Addr → N → M bool) rt self o c key id opFlags fuel :
  getMustExist opFlags = false →
  toPropertyKeyIfObject keys key rt = Returned key rt →
  valueToSymbolID keys key rt = Returned id rt →
  objects rt !! self = Some o →
  classes rt !! clazz_ o = Some c →
  indexedStorage (flags_ o) = false →
  lazyObject (flags_ o) = false →
  deleteComputed ext keys subclass_deleteOwnIndexed (S fuel) self key opFlags rt =
  deleteNamed ext self id opFlags rt.
Proof.
  intros Hmust Hconv Hid Ho Hc His Hlz.
  assert (findProperty self id rt = Returned (HiddenClass_findProperty c id) rt) as Hfind.
  { unfold findProperty. munfold. rewrite Ho. cbv beta iota. by rewrite Hc. }
  cbn [deleteComputed]. rewrite Hmust.
  rewrite (bind_Returned _ _ _ _ _ Hconv).
  rewrite (bind_Returned _ _ _ _ _ (getObject_eq _ _ _ Ho)). rewrite His.
  rewrite (bind_Returned _ _ _ _ _ (ret_eq (@None N, @None string) rt)).
  rewrite (bind_Returned _ _ _ _ _ (getObject_eq _ _ _ Ho)). cbn [fst snd].
  replace (if fastIndexProperties (flags_ o) then None else None)
    with (@None N) by (by destruct (fastIndexProperties (flags_ o))).
  rewrite Hlz. unfold LAZY_TO_IDENTIFIER.
  rewrite (bind_Returned _ _ _ _ _ Hid).
  rewrite (bind_Returned _ _ _ _ _ Hfind).
  unfold deleteNamed.
  rewrite (bind_Returned _ _ _ _ _ Hfind).
  destruct (HiddenClass_findProperty c id) as [[pos d]|].
  - rewrite (bind_Returned _ _ _ _ _ (ret_eq (Some (pos, d)) rt)).
    destruct (pf_configurable (desc_flags d)); cbn [negb]; [|done].
    by rewrite (bind_Returned _ _ _ _ _ (ret_eq true rt)).
  - assert ((let* o0 := getObject self in
             if lazyObject (flags_ o0)
             then let* _ := initializeLazyObject ext self in findProperty self id
             else ret None) rt = Returned None rt) as Hblock.
    { rewrite (bind_Returned _ _ _ _ _ (getObject_eq _ _ _ Ho)). by rewrite Hlz. }
    rewrite (bind_Returned _ _ _ _ _ Hblock). done.
Qed.

Lemma getOwnIndexed_flags o i :
  getOwnIndexed o i ≠ HVEmpty → is_Some (getOwnIndexedPropertyFlags o i).
Proof.
  unfold getOwnIndexed, getOwnIndexedPropertyFlags.
  destruct (vt o) as [|range elems]; [done|].
  destruct (elems !! i); [by eexists|done].
Qed.

Lemma getOwnComputedPrimitiveDescriptor_fast rt a o key i n :
  isObject key = false →
  toArrayIndexFastPath keys key = Some i →
  objects rt !! a = Some o →
  fastIndexProperties (flags_ o) = true →
  getOwnComputedPrimitiveDescriptor ext keys (S n) a key rt =
  Returned ((λ res, indexedDescriptor res i) <$> getOwnIndexedPropertyFlags o i) rt.
Proof.
  intros Hkey Hfp Ho Hfast.
  cbn [getOwnComputedPrimitiveDescriptor]. rewrite Hkey.
  rewrite (bind_Returned _ _ _ _ _ (getObject_eq _ _ _ Ho)). rewrite Hfast, Hfp.
  by destruct (getOwnIndexedPropertyFlags o i).
Qed.

Lemma getComputedPrimitiveDescriptor_loop_fast rt a chain key i fuel n desc0 :
  isObject key = false →
  toArrayIndexFastPath keys key = Some i →
  ProtoChain rt (Some a) chain →
  OrdinaryChain rt chain →
  FastIndexedChain rt chain i →
  length chain ≤ fuel →
  ∃ r, getComputedPrimitiveDescriptor_loop ext keys fuel (S n) a key desc0 rt =
       Returned r rt ∧
       match nearestIndexed rt chain i with
       | None => r.1.2 = None
       | Some v =>
           ∃ p po res, r = (RETURNED, Some p, indexedDescriptor res i) ∧
                       objects rt !! p = Some po ∧ getOwnIndexed po i = v ∧
                       pf_accessor res = false ∧ pf_hostObject res = false
       end.
Proof.
  intros Hkey Hfp Hc. remember (Some a) as start eqn:Hstart.
  revert a Hstart fuel. induction Hc as [|a' o l Ho Hc IH];
    intros a Hstart fuel Hord Hfastc Hf; [done|].
  injection Hstart as <-. cbn in Hf. destruct fuel as [|fuel]; [lia|].
  apply Forall_cons in Hord as [(o' & c & Ho' & Hcl & Hlz & Hho) Hord].
  rewrite Ho in Ho'. injection Ho' as <-.
  apply Forall_cons in Hfastc as [Ha Hfastc].
  destruct (Ha o Ho) as [Hfast Hdata].
  cbn [getComputedPrimitiveDescriptor_loop nearestIndexed]. rewrite Ho.
  rewrite (bind_Returned _ _ _ _ _
             (callStatus_Returned _ _ _ _
                (getOwnComputedPrimitiveDescriptor_fast rt a' o key i n
                   Hkey Hfp Ho Hfast))).
  destruct (getOwnIndexedPropertyFlags o i) as [res|] eqn:Hres;
    cbn [fmap option_fmap option_map].
  - eexists. split; [done|]. destruct (Hdata res eq_refl) as [? ?].
    by exists a', o, res.
  - rewrite (bind_Returned _ _ _ _ _ (getObject_eq _ _ _ Ho)). rewrite Hho.
    destruct (parent_ o) as [p|] eqn:Hp.
    + apply IH; [done|done|done|lia].
    + inversion Hc; subst. eexists. by split.
Qed.

(** X22. An element is read through the prototype chain: on a chain of
    ordinary objects with fastIndexProperties whose elements are data
    elements, [getComputed_RJS] with a key that is an array index returns
    the element of the nearest object of the chain whose indexed storage
    has the index, or undefined when none has it; the heap is as before,
    and the result does not depend on how keys are interned.  On an object
    with indexed storage [getNamedOrIndexed] with the name that spells the
    index gives the same. *)
Theorem getComputed_RJS_index_on_chain rt self o chain key i fuel :
  isObject key = false →
  toPropertyKeyIfObject keys key rt = Returned key rt →
  toArrayIndexFastPath keys key = Some i →
  objects rt !! self = Some o →
  ProtoChain rt (Some self) chain →
  OrdinaryChain rt chain →
  FastIndexedChain rt chain i →
  length chain ≤ fuel →
  getComputed_RJS ext keys fuel self key rt =
    Returned (default HVUndefined (nearestIndexed rt chain i)) rt ∧
  ∀ name opFlags,
    key = encodeDoubleValue i →
    indexedStorage (flags_ o) = true →
    toArrayIndex (getStringView name) = Some i →
    getNamedOrIndexed ext keys fuel self name opFlags rt =
      Returned (default HVUndefined (nearestIndexed rt chain i)) rt.
Proof.
  intros Hkey Hconv Hfp Ho Hchain Hord Hfastc Hf.
  assert (getComputed_RJS ext keys fuel self key rt =
          Returned (default HVUndefined (nearestIndexed rt chain i)) rt) as Hget.
  { inversion Hchain as [|a o' l Ho' Hc']; subst.
    rewrite Ho in Ho'. injection Ho' as <-.
    destruct fuel as [|fuel]; [cbn in Hf; lia|].
    pose proof Hfastc as Hfc. apply Forall_cons in Hfc as [Hself _].
    destruct (Hself o Ho) as [Hfast _].
    unfold getComputed_RJS.
    rewrite (bind_Returned _ _ _ _ _ (getObject_eq _ _ _ Ho)). rewrite Hfast, Hfp.
    destruct (isEmpty (getOwnIndexed o i)) eqn:Hempty; cbn [negb].
    - rewrite (bind_Returned _ _ _ _ _ Hconv).
      unfold getComputedPrimitiveDescriptor. rewrite Hkey.
      destruct (getComputedPrimitiveDescriptor_loop_fast rt self (self :: l) key i
                  (S fuel) fuel NamedPropertyDescriptor_default Hkey Hfp Hchain Hord
                  Hfastc Hf) as (r & Hr & Hnear).
      rewrite (bind_Returned _ _ _ _ _ Hr).
      destruct (nearestIndexed rt (self :: l) i) as [v|].
      + destruct Hnear as (p & po & res & -> & Hpo & Hv & Hacc & Hhost).
        cbn [fst snd default desc_flags indexedDescriptor].
        replace (pf_accessor (set_indexed true res)) with false
          by (by destruct res; cbn in *; subst).
        replace (pf_hostObject (set_indexed true res)) with false
          by (by destruct res; cbn in *; subst).
        cbn [negb andb]. unfold readComputedSlot.
        rewrite (bind_Returned _ _ _ _ _ (getObject_eq _ _ _ Hpo)).
        unfold getComputedSlotValue, indexedDescriptor. cbn [desc_flags desc_slot].
        replace (pf_indexed (set_indexed true res)) with true by (by destruct res).
        rewrite N2Nat.id, Hv. done.
      + rewrite Hnear. done.
    - cbn [nearestIndexed]. rewrite Ho.
      destruct (getOwnIndexed_flags o i) as [res ->]; [|done].
      intros Heq. by rewrite Heq in Hempty. }
  split; [exact Hget|].
  intros name opFlags -> His Hidx. unfold getNamedOrIndexed.
  rewrite (bind_Returned _ _ _ _ _ (getObject_eq _ _ _ Ho)).
  by rewrite His, Hidx.
Qed.

(** ** Creation *)

(** X23. [create] from a hidden class gives a new object whose storage
    fits the class: when the registry leaves the objects and the class
    alone, the object is allocated at an address that was not in use, it
    has the class and the object prototype as parent, it is extensible,
    its inline slots are all there and the indirect storage holds every
    slot of the class beyond them; the other objects are as before. *)
Theorem create_withClass_fits rt rt1 k clazz c :
  getHiddenClassForPrototypeRaw ext (objectPrototypeRawPtr rt) rt = Returned k rt1 →
  objects rt1 = objects rt →
  classes rt !! clazz = Some c →
  classes rt1 !! clazz = Some c →
  nextSlot (propertyMap c) ≤ getNumProperties c →
  ∃ rt' o,
    create_withClass ext clazz rt = Returned (fresh (dom (objects rt))) rt' ∧
    objects rt !! fresh (dom (objects rt)) = None ∧
    objects rt' = <[fresh (dom (objects rt)) := o]> (objects rt) ∧
    classes rt' = classes rt1 ∧
    clazz_ o = clazz ∧
    parent_ o = objectPrototypeRawPtr rt ∧
    isExtensible o = true ∧
    SlotsWellFormed ext o c ∧
    Forall (λ v, v = HVEmpty) (directProps_ o).
Proof.
  intros Hreg Hobjs Hc Hc1 Hslots.
  set (a := fresh (dom (objects rt))).
  set (storage := if getNumProperties c <=? DIRECT_PROPERTY_SLOTS ext then None
                  else Some (replicate (getNumProperties c - DIRECT_PROPERTY_SLOTS ext)
                               HVEmpty)).
  set (o0 := newObjectCell ext (objectPrototypeRawPtr rt) k storage).
  set (rt2 := set_objects (<[a := o0]> (objects rt1)) rt1).
  assert (create_withPropertyCount ext (getNumProperties c) rt = Returned a rt2) as Hcreate.
  { unfold create_withPropertyCount. munfold. rewrite Hreg.
    unfold allocObject, rt2, a. by rewrite Hobjs. }
  set (o := set_clazz clazz o0).
  assert (fastIndexProperties (flags_ o) = false) as Hnofast by done.
  set (o' := if getHasIndexLikeProperties c
             then set_flags (set_fastIndexProperties false (flags_ o)) o else o).
  exists (set_objects (<[a := o']> (objects rt)) rt1), o'.
  assert (objects rt !! a = None) as Hfresh.
  { apply not_elem_of_dom. apply is_fresh. }
  split; [|split; [done|split; [done|split; [done|]]]].
  - unfold create_withClass.
    rewrite (bind_Returned _ _ _ _ _ (getClassCell_eq _ _ _ Hc)).
    rewrite (bind_Returned _ _ _ _ _ Hcreate).
    assert (objects rt2 !! a = Some o0) as Ho0 by apply lookup_insert_eq.
    rewrite (bind_Returned _ _ _ _ _ (getObject_eq _ _ _ Ho0)).
    munfold. cbn [objects set_objects classes].
    rewrite !lookup_insert_eq. cbv beta iota.
    change (clazz_ (set_clazz clazz o0)) with clazz.
    change (classes (set_objects (<[a:=set_clazz clazz o0]> (objects rt2)) rt2))
      with (classes rt1).
    rewrite Hc1. cbv beta iota.
    fold o. unfold o'.
    destruct (getHasIndexLikeProperties c).
    + unfold rt2, set_objects. cbn [objects classes accessors objectPrototypeRawPtr].
      by rewrite !insert_insert_eq, Hobjs.
    + unfold rt2, set_objects. cbn [objects classes accessors objectPrototypeRawPtr].
      by rewrite !insert_insert_eq, Hobjs.
  - assert (clazz_ o' = clazz ∧ parent_ o' = objectPrototypeRawPtr rt ∧
            noExtend (flags_ o') = false ∧ directProps_ o' = directProps_ o0 ∧
            propStorage_ o' = storage) as (H1 & H2 & H3 & H4 & H5).
    { unfold o'. by destruct (getHasIndexLikeProperties c). }
    split; [done|]. split; [done|]. split; [by unfold isExtensible; rewrite H3|].
    split.
    + unfold SlotsWellFormed. rewrite H4, H5. cbn [o0 newObjectCell directProps_].
      rewrite length_replicate. split; [done|].
      unfold storage. destruct (getNumProperties c <=? DIRECT_PROPERTY_SLOTS ext) eqn:Hle.
      * apply Nat.leb_le in Hle. lia.
      * apply Nat.leb_gt in Hle. rewrite length_replicate. lia.
    + rewrite H4. cbn [o0 newObjectCell directProps_].
      apply Forall_forall. intros v Hv. by apply elem_of_replicate in Hv as [? _].
Qed.

(** ** The names collected for for-in *)

Lemma appendPropertyNames_nodedup beginIndex arr props :
  appendPropertyNames false beginIndex (arr, length arr) props =
  Some (arr ++ props, length (arr ++ props)).
Proof.
  unfold appendPropertyNames. revert arr.
  induction props as [|q props IH]; intros arr; cbn [foldl negb].
  - by rewrite app_nil_r.
  - replace (S (length arr)) with (length (arr ++ [q]))
      by (rewrite length_app; cbn; lia).
    rewrite IH. by rewrite <- app_assoc.
Qed.

Lemma appendPropertyNames_dedup pre names props :
  ∃ added,
    appendPropertyNames true (length pre) (pre ++ names, length (pre ++ names)) props =
      Some (pre ++ names ++ added, length (pre ++ names ++ added)) ∧
    (∀ p, p ∈ added → p ∈ props) ∧
    (∀ p, p ∈ props →
          p ∈ added ∨ ∃ v, v ∈ names ++ added ∧ isDuplicateName p v = true) ∧
    (∀ j p v, added !! j = Some p → v ∈ names ++ take j added →
              isDuplicateName p v = false).
Proof.
  unfold appendPropertyNames.
  set (f := λ (st : option (list HermesValue * nat)) (prop : HermesValue), _).
  revert names.
  induction props as [|q props IH]; intros names; cbn [foldl].
  - exists []. rewrite app_nil_r. split; [done|]. split; [set_solver|].
    split; [set_solver|]. intros j p v Hj. by rewrite lookup_nil in Hj.
  - assert (f (Some (pre ++ names, length (pre ++ names))) q =
            if existsb (isDuplicateName q) names
            then Some (pre ++ names, length (pre ++ names))
            else Some (pre ++ names ++ [q], length (pre ++ names ++ [q]))) as ->.
    { unfold f. cbn [negb]. rewrite findDuplicateName_full, drop_app_length.
      destruct (existsb _ names); [done|].
      rewrite <- app_assoc. f_equal. f_equal. rewrite !length_app. cbn. lia. }
    destruct (existsb (isDuplicateName q) names) eqn:Hdup.
    + destruct (IH names) as (added & Hrun & Hsound & Hcomplete & Hnew).
      exists added. split; [exact Hrun|]. split; [set_solver|]. split; [|exact Hnew].
      intros p Hp. apply elem_of_cons in Hp as [->|Hp]; [|by apply Hcomplete].
      right. apply existsb_exists in Hdup as (v & Hv & Hd).
      exists v. split; [|done]. apply elem_of_app. left. by apply list_elem_of_In.
    + destruct (IH (names ++ [q])) as (added & Hrun & Hsound & Hcomplete & Hnew).
      exists (q :: added). split; [|split; [|split]].
      * rewrite Hrun. by rewrite <- !app_assoc.
      * intros p Hp. apply elem_of_cons in Hp as [->|Hp]; set_solver.
      * intros p Hp. apply elem_of_cons in Hp as [->|Hp]; [left; set_solver|].
        destruct (Hcomplete p Hp) as [?|(v & Hv & Hd)]; [left; set_solver|].
        right. exists v. split; [|done]. set_solver.
      * intros j p v Hj Hv. destruct j as [|j].
        -- cbn in Hj. injection Hj as <-. cbn [take] in Hv. rewrite app_nil_r in Hv.
           destruct (isDuplicateName q v) eqn:Hd; [|done].
           assert (existsb (isDuplicateName q) names = true) as Hex.
           { apply existsb_exists. exists v. split; [by apply list_elem_of_In|done]. }
           by rewrite Hex in Hdup.
        -- cbn in Hj. apply (Hnew j p v Hj). cbn [take] in Hv. set_solver.
Qed.

Lemma appendAllPropertyNames_loop_dedup rt head chain fuel pre names
    (ownNames : Addr → list HermesValue) :
  ProtoChain rt head chain →
  (∀ a, a ∈ chain → getOwnPropertyNames ext a true rt = Returned (ownNames a) rt) →
  length chain ≤ fuel →
  ∃ added,
    appendAllPropertyNames_loop ext fuel head true (length pre) (pre ++ names)
      (length (pre ++ names)) rt =
      Returned (pre ++ names ++ added, length (pre ++ names ++ added)) rt ∧
    (∀ p, p ∈ added → ∃ a, a ∈ chain ∧ p ∈ ownNames a) ∧
    (∀ a p, a ∈ chain → p ∈ ownNames a →
            p ∈ added ∨ ∃ v, v ∈ names ++ added ∧ isDuplicateName p v = true) ∧
    (∀ j p v, added !! j = Some p → v ∈ names ++ take j added →
              isDuplicateName p v = false).
Proof.
  intros Hc. revert fuel names. induction Hc as [|a o l Ho Hc IH]; intros fuel names Hown Hf.
  - exists []. destruct fuel; cbn [appendAllPropertyNames_loop]; rewrite app_nil_r;
      (split; [done|]); (split; [set_solver|]); (split; [set_solver|]);
      intros j p v Hj; by rewrite lookup_nil in Hj.
  - cbn in Hf. destruct fuel as [|fuel]; [lia|].
    cbn [appendAllPropertyNames_loop].
    rewrite (bind_Returned _ _ _ _ _ (Hown a ltac:(set_solver))).
    destruct (appendPropertyNames_dedup pre names (ownNames a))
      as (added1 & Hrun1 & Hsound1 & Hcomplete1 & Hnew1).
    rewrite Hrun1.
    rewrite (bind_Returned _ _ _ (pre ++ names ++ added1,
                                  length (pre ++ names ++ added1)) rt eq_refl).
    rewrite (bind_Returned _ _ _ _ _ (getObject_eq _ _ _ Ho)). cbn [fst snd].
    destruct (IH fuel (names ++ added1) ltac:(set_solver) ltac:(lia))
      as (added2 & Hrun2 & Hsound2 & Hcomplete2 & Hnew2).
    exists (added1 ++ added2). split; [|split; [|split]].
    + rewrite (app_assoc names added1 added2). by rewrite <- Hrun2.
    + intros p Hp. apply elem_of_app in Hp as [Hp|Hp].
      * exists a. split; [set_solver|by apply Hsound1].
      * destruct (Hsound2 p Hp) as (b & Hb & Hpb). exists b. split; [set_solver|done].
    + intros b p Hb Hp. apply elem_of_cons in Hb as [->|Hb].
      * destruct (Hcomplete1 p Hp) as [?|(v & Hv & Hd)]; [left; set_solver|].
        right. exists v. split; [set_solver|done].
      * destruct (Hcomplete2 b p Hb Hp) as [?|(v & Hv & Hd)]; [left; set_solver|].
        right. exists v. split; [|done]. by rewrite app_assoc.
    + intros j p v Hj Hv.
      destruct (decide (j < length added1)) as [Hlt|Hge].
      * rewrite lookup_app_l in Hj by done.
        rewrite take_app_le in Hv by lia. by apply (Hnew1 j p v).
      * rewrite lookup_app_r in Hj by lia.
        rewrite take_app_ge in Hv by lia.
        apply (Hnew2 (j - length added1) p v Hj). by rewrite <- app_assoc.
Qed.

Lemma getOwnPropertyNames_ownNamesOf rt chain a :
  OrdinaryChain rt chain → a ∈ chain →
  getOwnPropertyNames ext a true rt = Returned (ownNamesOf ext rt a) rt.
Proof.
  intros Hord Ha. unfold OrdinaryChain in Hord. rewrite Forall_forall in Hord.
  destruct (Hord a Ha) as (o & c & Ho & Hc & Hlz & Hho).
  destruct (getOwnPropertyNames_ordinary rt a o c true Ho Hc Hlz Hho) as [names Hn].
  unfold ownNamesOf. by rewrite Hn.
Qed.

(** X24. What for-in collects on a chain of ordinary objects (none lazy,
    none a host object): [appendAllPropertyNames], appending at the end of
    the array, adds all the own enumerable names of the object, as
    [getOwnPropertyNames] reports them and in that order, and then names
    of its prototypes; the size it returns is the length of the array.
    Each inherited name is a name of a prototype; every name of a
    prototype is in the array or repeats a name that is (the same string,
    or a number and the string that spells it); and no inherited name
    repeats a name collected before it, so a shadowed property is
    enumerated once.  On such a chain the heap is not changed. *)
Theorem appendAllPropertyNames_spec rt obj chain fuel arr :
  ProtoChain rt (Some obj) (obj :: chain) →
  OrdinaryChain rt (obj :: chain) →
  S (length chain) ≤ fuel →
  ∃ inherited,
    appendAllPropertyNames ext fuel obj arr (length arr) rt =
      Returned (arr ++ ownNamesOf ext rt obj ++ inherited,
                length (arr ++ ownNamesOf ext rt obj ++ inherited)) rt ∧
    (∀ a, a ∈ obj :: chain →
          getOwnPropertyNames ext a true rt = Returned (ownNamesOf ext rt a) rt) ∧
    (∀ p, p ∈ inherited → ∃ a, a ∈ chain ∧ p ∈ ownNamesOf ext rt a) ∧
    (∀ a p, a ∈ chain → p ∈ ownNamesOf ext rt a →
            p ∈ inherited ∨
            ∃ v, v ∈ ownNamesOf ext rt obj ++ inherited ∧ isDuplicateName p v = true) ∧
    (∀ j p v, inherited !! j = Some p →
              v ∈ ownNamesOf ext rt obj ++ take j inherited →
              isDuplicateName p v = false).
Proof.
  intros Hchain Hord Hf. inversion Hchain as [|a o l Ho Hc]; subst.
  destruct fuel as [|fuel]; [lia|].
  pose proof (getOwnPropertyNames_ownNamesOf rt (obj :: chain)) as Hown.
  destruct (appendAllPropertyNames_loop_dedup rt (parent_ o) chain fuel arr
              (ownNamesOf ext rt obj) (ownNamesOf ext rt) Hc
              ltac:(intros b Hb; apply Hown; [done|set_solver]) ltac:(lia))
    as (inherited & Hrun & Hsound & Hcomplete & Hnew).
  exists inherited. split; [|split; [by intros b Hb; apply Hown|done]].
  unfold appendAllPropertyNames. cbn [appendAllPropertyNames_loop].
  rewrite (bind_Returned _ _ _ _ _ (Hown obj Hord ltac:(set_solver))).
  rewrite appendPropertyNames_nodedup.
  rewrite (bind_Returned _ _ _ (arr ++ ownNamesOf ext rt obj,
                                length (arr ++ ownNamesOf ext rt obj)) rt eq_refl).
  rewrite (bind_Returned _ _ _ _ _ (getObject_eq _ _ _ Ho)). cbn [fst snd].
  exact Hrun.
Qed.

End Properties.

(** * Concrete runs *)

(** On the heap of two objects, giving the first object the second as
    prototype would close a cycle. *)
Lemma setParent_spec_witness :
  setParent 2 1 (Some 2) chainHeap = Exception TypeError chainHeap.
Proof.
  apply (setParent_spec chainHeap 1 (plainObject None 10) (Some 2) [2; 1] 2).
  - reflexivity.
  - apply (ProtoChain_step chainHeap 2 (plainObject (Some 1) 10) [1]); [reflexivity|].
    apply (ProtoChain_step chainHeap 1 (plainObject None 10) []); [reflexivity|].
    apply ProtoChain_null.
  - simpl. lia.
Defined.



(** On the heap with the accessor property [x], the supplied cell is the
    one that is merged and stored. *)
Lemma defineOwnProperty_two_accessors_witness :
  ∃ o',
    objects accessorHeap_merged !! 1 = Some o' ∧
    getNamedSlotValue idleCollaborators o' accessorDesc
      = Some (HVObject PropertyAccessorKind 21) ∧
    accessors accessorHeap_merged !! 21
      = Some (mergeAccessor getterOnly storedAccessor suppliedAccessor) ∧
    accessors accessorHeap_merged !! 20 = Some storedAccessor.
Proof.
  destruct (defineOwnProperty_two_accessors idleCollaborators accessorHeap 1
              (objectWith None 10 [HVObject PropertyAccessorKind 20; HVEmpty])
              (classOf [(nameX, accessorDesc)]) nameX 0 accessorDesc 20 21
              storedAccessor suppliedAccessor getterOnly 1 noThrow accessorHeap_merged
              eq_refl eq_refl eq_refl eq_refl eq_refl eq_refl eq_refl eq_refl eq_refl
              eq_refl)
    as (o' & a' & Ho' & Hslot & Hcell & _ & Hsupplied & Hstored).
  assert (a' = 21) as Ha'.
  { apply Hsupplied. intros (_ & _ & _ & Hg & _). discriminate (Hg eq_refl). }
  rewrite Ha' in Hslot, Hcell.
  exists o'. split; [exact Ho'|]. split; [exact Hslot|]. split; [exact Hcell|].
  apply Hstored. discriminate.
Defined.

(** There, after the accepted call, the cell that was stored, 20, does not
    hold the merged accessor: it is as before, and the slot refers to the
    supplied cell. *)
Lemma defineOwnProperty_two_accessors_counterexample :
  defineOwnProperty idleCollaborators 1 1 nameX getterOnly
    (HVObject PropertyAccessorKind 21) noThrow accessorHeap
    = Returned true accessorHeap_merged ∧
  ¬ MergedInStoredCell idleCollaborators accessorHeap_merged 1 accessorDesc 20
      (mergeAccessor getterOnly storedAccessor suppliedAccessor).
Proof.
  split; [vm_compute; reflexivity|].
  intros (o' & Ho' & Hslot & Hcell).
  vm_compute in Hcell. discriminate Hcell.
Qed.


(** The object that owns the indexed slot 5 answers true. *)
Lemma hasNamedOrIndexed_spec_witness :
  hasNamedOrIndexed idleCollaborators 5 2 name5 indexedProtoHeap
    = Returned true indexedProtoHeap.
Proof.
  apply (proj1 (hasNamedOrIndexed_spec idleCollaborators indexedProtoHeap 2
                  (indexedObject None 10 (0%N, 6%N)
                     {[ 5%N := (dataFlags true true true, HVNumber (DInt 7)) ]})
                  name5 5%N 5 eq_refl eq_refl));
    reflexivity.
Defined.

(** The object whose prototype owns the slot answers false, although the
    slot is on its prototype chain. *)
Lemma hasNamedOrIndexed_counterexample :
  OnChainNamedOrIndexed indexedProtoHeap 1 name5 5%N ∧
  hasNamedOrIndexed idleCollaborators 5 1 name5 indexedProtoHeap
    = Returned false indexedProtoHeap.
Proof.
  split; [|vm_compute; reflexivity].
  exists [1; 2], 2. split; [|split].
  - apply (ProtoChain_step indexedProtoHeap 1 (plainObject (Some 2) 10) [2]);
      [reflexivity|].
    eapply (ProtoChain_step indexedProtoHeap 2 _ []); [reflexivity|].
    apply ProtoChain_null.
  - set_solver.
  - left. eexists. split; [reflexivity|]. vm_compute. reflexivity.
Qed.








(** Deleting the configurable property [x] returns true. *)
Lemma deleteNamed_spec_witness :
  ∃ rt', deleteNamed idleCollaborators 1 nameX noThrow openHeap = Returned true rt'.
Proof.
  pose proof (deleteNamed_spec idleCollaborators openHeap openHeap 1
                (objectWith None 10 [HVNumber (DInt 1); HVEmpty])
                (classOf [(nameX, openDesc)]) nameX noThrow
                eq_refl eq_refl eq_refl (HVNumber (DInt 1)) eq_refl) as H.
  destruct H as (rt' & o' & c' & H & _).
  exists rt'. exact H.
Defined.

(** On the lazy object [x] is absent and the call returns true, but the
    object is not as before: the lazy flag is cleared. *)
Lemma deleteNamed_counterexample :
  ¬ OwnsNamed lazyHeap 1 nameX ∧
  ∃ rt', deleteNamed idleCollaborators 1 nameX noThrow lazyHeap = Returned true rt' ∧
         objects rt' !! 1 ≠ objects lazyHeap !! 1.
Proof.
  split.
  - intros (o & c & Ho & Hc & Hf).
    vm_compute in Ho. injection Ho as <-.
    vm_compute in Hc. injection Hc as <-.
    destruct Hf as [d Hd]. vm_compute in Hd. discriminate Hd.
  - eexists. split; [vm_compute; reflexivity|].
    vm_compute. discriminate.
Qed.

(** C8. On [O = {a}] whose prototype is [P = {b, c}], every object being
    marked cacheable, [getForInPropertyNames] builds the array of the class
    of [P], null and the three names, and installs it as the cache of the
    class of [O], although its five elements are more than four times the
    one property [O] owns: the quotient 5 / 4 is 1, which is not more than
    1.  The next call returns the cached array. *)
Theorem getForInPropertyNames_caches_beyond_bound :
  ∃ rt' c,
    getForInPropertyNames idleCollaborators 3 1 forInHeap
      = Returned (forInArray, 2, 5) rt' ∧
    classes rt' !! 10 = Some c ∧
    getForInCache c = Some forInArray ∧
    getNumProperties c = 1 ∧
    4 * getNumProperties c < length forInArray ∧
    getForInPropertyNames idleCollaborators 3 1 rt' = Returned (forInArray, 2, 5) rt'.
Proof.
  eexists. eexists. split; [vm_compute; reflexivity|].
  split; [vm_compute; reflexivity|].
  split; [reflexivity|]. split; [reflexivity|]. split; [simpl; lia|].
  vm_compute. reflexivity.
Qed.

(** [freeze] on the object with the property [x]. *)
Lemma extensibility_frame_witness :
  ∃ rt', runExtensibilityOp OpFreeze 1 openHeap = Returned tt rt' ∧
         ExtensibilityFrame openHeap rt' 1
           (objectWith None 10 [HVNumber (DInt 1); HVEmpty]).
Proof.
  destruct (extensibility_frame idleCollaborators OpFreeze openHeap 1
              (objectWith None 10 [HVNumber (DInt 1); HVEmpty])
              (classOf [(nameX, openDesc)]) 1 noThrow false eq_refl eq_refl)
    as (rt' & H1 & H2 & _).
  exists rt'. split; assumption.
Defined.

(** The collaborators that do nothing keep the heap invariant. *)
Lemma idleCollaborators_preserve : CollaboratorsPreserve idleCollaborators.
Proof.
  split; try (intros; intros rt H; exact H).
  - intros p rt (Hv & Hs & Hf). cbn [getHiddenClassForPrototypeRaw idleCollaborators].
    rewrite allocClass_eq. split; [split; [|split]|];
      cbn [objects classes set_objects set_classes].
    + intros a o Ho. destruct (Hv a o Ho) as [c Hc]. exists c.
      by apply classes_alloc_preserved.
    + intros a c Hc. destruct (decide (a = fresh (dom (classes rt)))) as [->|Hne].
      * rewrite lookup_insert_eq in Hc. injection Hc as <-. intros _. constructor.
      * rewrite lookup_insert_ne in Hc by done. by apply (Hs a).
    + intros a o c Ho Hc Hfast. cbn [objects classes set_objects set_classes] in Ho, Hc.
      destruct (Hv a o Ho) as [c' Hc'].
      rewrite (classes_alloc_preserved _ _ _ _ Hc') in Hc. injection Hc as <-.
      by apply (Hf a o).
    + rewrite lookup_insert_eq. by eexists.
  - intros a rt H. exact H.
Qed.

Lemma idleEnvironment_preserve : EnvironmentPreserves idleEnvironment.
Proof.
  split; try (intros; by intros rt H).
  - intros v rt H. by destruct v as [| | | |[]| | |].
  - intros v rt H. by destruct v as [| | | |[]| | |].
  - by intros c flagsToClear flagsToSet props.
Qed.

Lemma HeapInvariant_fastHeap : HeapInvariant fastHeap.
Proof.
  assert (classSound (classOf [(nameX, openDesc)])) as Hsound.
  { intros _. repeat constructor. }
  unfold fastHeap. split; [|split]; [| |intros a o c]; cbn [objects classes].
  - intros a o Ho. apply lookup_singleton_Some in Ho as [<- <-]. by eexists.
  - intros a c Hc. apply lookup_singleton_Some in Hc as [<- <-]. exact Hsound.
  - intros Ho Hc _. apply lookup_singleton_Some in Ho as [<- <-].
    apply lookup_singleton_Some in Hc as [_ <-]. repeat constructor.
Qed.

(** Adding the named property [5] to the object that has
    fastIndexProperties set, by [addOwnProperty] and, as a property that
    is not enumerable, by [defineOwnComputed] with the key ["5"]. *)
Lemma fastIndexProperties_invariant_witness :
  match
    runOperation idleCollaborators idleEnvironment 3
      (CallAddOwnProperty 1 name5 newDataProperty (HVNumber (DInt 9)) noThrow) fastHeap
  with
  | Returned _ rt' | Exception _ rt' => HeapInvariant rt' ∧ FastIndexInvariant rt'
  | Fault | OutOfFuel => True
  end ∧
  match
    runOperation idleCollaborators idleEnvironment 3
      (CallDefineOwnComputed 1 (HVString "5"%string) hiddenData (HVNumber (DInt 9))
         noThrow) fastHeap
  with
  | Returned _ rt' | Exception _ rt' => HeapInvariant rt' ∧ FastIndexInvariant rt'
  | Fault | OutOfFuel => True
  end.
Proof.
  split;
    apply (proj1 (fastIndexProperties_invariant idleCollaborators
                    idleCollaborators_preserve idleEnvironment idleEnvironment_preserve)
             3 _ fastHeap HeapInvariant_fastHeap).
Defined.

(** * Concrete runs of the further properties *)

Ltac ordinary_chain :=
  unfold OrdinaryChain;
  repeat (apply List.Forall_cons;
          [eexists _, _;
           (split; [reflexivity|split; [reflexivity|split; reflexivity]])|]);
  apply List.Forall_nil.


Lemma ProtoChain_forInHeap : ProtoChain forInHeap (Some 1) [1; 2].
Proof.
  eapply ProtoChain_step; [reflexivity|].
  eapply ProtoChain_step; [reflexivity|]. apply ProtoChain_null.
Qed.

Lemma OrdinaryChain_forInHeap : OrdinaryChain forInHeap [1; 2].
Proof.
  ordinary_chain.
Qed.

Lemma ProtoChain_shadowHeap : ProtoChain shadowHeap (Some 1) [1; 2].
Proof.
  eapply ProtoChain_step; [reflexivity|].
  eapply ProtoChain_step; [reflexivity|]. apply ProtoChain_null.
Qed.

Lemma OrdinaryChain_shadowHeap : OrdinaryChain shadowHeap [1; 2].
Proof.
  ordinary_chain.
Qed.


(** On [O = {a}] with the prototype [P = {b, c}], reading [c] from [O]
    gives the value in the slot of [P]. *)
Lemma getNamed_RJS_nearest_owner_witness :
  ∃ stamped,
    getNamed_RJS idleCollaborators 1 1 (SymString "c"%string) noThrow false forInHeap =
    Returned (HVNumber (DInt 3), stamped) forInHeap.
Proof.
  apply (getNamed_RJS_nearest_owner idleCollaborators forInHeap 1 [1; 2]
           (SymString "c"%string) 1 noThrow false
           ProtoChain_forInHeap OrdinaryChain_forInHeap ltac:(simpl; lia)
           (objectWith None 11 [HVNumber (DInt 2); HVNumber (DInt 3)])
           (HVNumber (DInt 3)) eq_refl eq_refl eq_refl).
Defined.

(** Defining the new property [5] on the object that has [x]: it is read
    back. *)
Lemma defineOwnProperty_new_witness :
  ∃ rt' stamped,
    defineOwnProperty idleCollaborators 1 1 name5 newDataProperty (HVNumber (DInt 9))
      noThrow openHeap = Returned true rt' ∧
    getNamed_RJS idleCollaborators 1 1 name5 noThrow false rt' =
      Returned (HVNumber (DInt 9), stamped) rt'.
Proof.
  destruct (defineOwnProperty_new idleCollaborators openHeap 1
              (objectWith None 10 [HVNumber (DInt 1); HVEmpty])
              (classOf [(nameX, openDesc)]) name5 newDataProperty (HVNumber (DInt 9))
              noThrow 1 eq_refl eq_refl
              ltac:(split; [reflexivity|simpl; lia]) eq_refl eq_refl)
    as (rt' & o' & c' & pos & Hrun & _ & _ & _ & _ & _ & Hget & _).
  destruct (Hget eq_refl 1 noThrow false) as [stamped Hread].
  exists rt', stamped. split; assumption.
Defined.

(** Writing 5 to the writable property [x] of the object that owns it. *)
Lemma putNamed_RJS_own_writable_witness :
  ∃ o',
    putNamed_RJS idleCollaborators 1 1 nameX (HVNumber (DInt 5)) noThrow openHeap =
      Returned true (set_objects (<[1 := o']> (objects openHeap)) openHeap) ∧
    getNamedSlotValue idleCollaborators o' openDesc = Some (HVNumber (DInt 5)).
Proof.
  destruct (putNamed_RJS_own_writable idleCollaborators openHeap 1
              (objectWith None 10 [HVNumber (DInt 1); HVEmpty])
              (classOf [(nameX, openDesc)]) nameX 0 openDesc (HVNumber (DInt 1))
              (HVNumber (DInt 5)) noThrow 1
              eq_refl eq_refl eq_refl eq_refl eq_refl eq_refl eq_refl eq_refl)
    as (o' & Hrun & Hslot & _).
  exists o'. split; assumption.
Defined.

(** Writing to the property [x] that is not writable is rejected. *)
Lemma putNamed_RJS_not_writable_witness :
  putNamed_RJS idleCollaborators 1 1 nameX (HVNumber (DInt 5)) noThrow lockedHeap =
  rejected noThrow lockedHeap.
Proof.
  apply (proj1 (putNamed_RJS_not_writable idleCollaborators lockedHeap 1 [1] nameX 1
                  lockedDesc (HVNumber (DInt 5)) noThrow 1
                  ltac:(eapply ProtoChain_step; [reflexivity|apply ProtoChain_null])
                  ltac:(ordinary_chain)
                  ltac:(simpl; lia) eq_refl));
    reflexivity.
Defined.

(** On [O = {a}] with the prototype [P = {b, c}], writing [b] through [O]
    adds [b] to [O]. *)
Lemma putNamed_RJS_shadows_witness :
  ∃ rt' o' c',
    putNamed_RJS idleCollaborators 1 1 (SymString "b"%string) (HVNumber (DInt 8))
      noThrow forInHeap = Returned true rt' ∧
    objects rt' !! 1 = Some o' ∧
    classes rt' !! clazz_ o' = Some c' ∧
    objects rt' !! 2 = objects forInHeap !! 2.
Proof.
  destruct (putNamed_RJS_shadows idleCollaborators forInHeap 1
              (objectWith (Some 2) 10 [HVNumber (DInt 1); HVEmpty])
              (classOf [(SymString "a"%string, openDesc)]) [1; 2]
              (SymString "b"%string) (HVNumber (DInt 8)) noThrow 1
              ProtoChain_forInHeap OrdinaryChain_forInHeap ltac:(simpl; lia)
              eq_refl eq_refl ltac:(split; [reflexivity|simpl; lia])
              ltac:(right; exists 2, openDesc;
                    split; [reflexivity|split; [lia|split; reflexivity]]))
    as (rt' & o' & c' & pos & desc' & Hrun & Ho' & Hc' & _ & _ & _ & _ & _ & _ & _ &
        Hothers & _).
  exists rt', o', c'. repeat split; try assumption. apply Hothers. lia.
Defined.

(** Freezing the object with the property [x]: afterwards it is frozen
    and sealed. *)
Lemma freeze_spec_witness :
  ∃ rt1,
    freeze 1 openHeap = Returned tt rt1 ∧
    isFrozen 1 rt1 = Returned true rt1 ∧ isSealed 1 rt1 = Returned true rt1.
Proof.
  destruct (freeze_spec idleCollaborators openHeap 1
              (objectWith None 10 [HVNumber (DInt 1); HVEmpty])
              (classOf [(nameX, openDesc)]) eq_refl eq_refl eq_refl)
    as (rt1 & o1 & c1 & Hrun & _ & _ & _ & _ & _ & _ & _ & _ & Hfrozen & Hsealed & _).
  exists rt1. repeat split; assumption.
Defined.


(** The array cached for [O = {a}] matches the classes of its chain: the
    names start at the index 2. *)
Lemma matchesProtoClasses_spec_witness :
  matchesProtoClasses 1 1 forInArray forInHeap = Returned 2 forInHeap.
Proof.
  exact (matchesProtoClasses_spec forInHeap 1
           (objectWith (Some 2) 10 [HVNumber (DInt 1); HVEmpty]) [2] 1 [11]
           [HVString "a"%string; HVString "b"%string; HVString "c"%string]
           eq_refl
           ltac:(eapply ProtoChain_step; [reflexivity|apply ProtoChain_null])
           ltac:(simpl; lia)).
Defined.

(** The classes recorded for [O = {a}]: that of its prototype, and null. *)
Lemma setProtoClasses_matches_witness :
  ∃ arr,
    setProtoClasses idleCollaborators 1 1 [] forInHeap = Returned arr forInHeap ∧
    length arr = 2.
Proof.
  destruct (setProtoClasses_matches idleCollaborators forInHeap 1
              (objectWith (Some 2) 10 [HVNumber (DInt 1); HVEmpty]) [2] 1
              eq_refl
              ltac:(eapply ProtoChain_step; [reflexivity|apply ProtoChain_null])
              ltac:(simpl; lia))
    as (arr & Hrun & _ & Hlen & _).
  exists arr. split; assumption.
Defined.

(** The first enumeration of [O = {a}], whose class has no cache yet. *)
Lemma getForInPropertyNames_cache_sound_witness :
  ∃ arr b rt',
    getForInPropertyNames idleCollaborators 2 1 forInHeap =
      Returned (arr, b, length arr) rt' ∧
    (rt' = forInHeap ∨
     (rt' = withForInCache forInHeap 10 (classOf [(SymString "a"%string, openDesc)])
              (Some arr) ∧
      getForInPropertyNames idleCollaborators 2 1 rt' = Returned (arr, b, length arr) rt')).
Proof.
  exact (getForInPropertyNames_cache_sound idleCollaborators forInHeap 1
           (objectWith (Some 2) 10 [HVNumber (DInt 1); HVEmpty])
           (classOf [(SymString "a"%string, openDesc)]) [2] 2
           eq_refl eq_refl ProtoChain_forInHeap OrdinaryChain_forInHeap
           ltac:(simpl; lia)).
Defined.

(** The symbols of the object with the symbol-keyed property 7 and the
    property [x]. *)
Lemma getOwnPropertySymbols_spec_witness :
  getOwnPropertySymbols idleCollaborators 1 symbolHeap =
  Returned [HVSymbol (SymPrimitive 7)] symbolHeap.
Proof.
  exact (proj1 (getOwnPropertySymbols_spec idleCollaborators symbolHeap 1
                  (objectWith None 10 [HVNumber (DInt 1); HVNumber (DInt 2)])
                  (classOf
                     [ (SymPrimitive 7, openDesc);
                       (nameX, mkNamedPropertyDescriptor 1 (dataFlags true true true)) ])
                  eq_refl eq_refl eq_refl)).
Defined.

(** The object that was given the ID 7 keeps it, whatever the generator
    would give next. *)
Lemma getObjectID_stable_witness :
  getObjectID 8 (ret 9%N) 1 chainHeap_withID = Returned 7%N chainHeap_withID.
Proof.
  destruct (getObjectID_stable 8 (ret 7%N) chainHeap chainHeap_withID 1 7%N) as (_ & _ & H).
  - reflexivity.
  - intros rt0 o next rt1 Ho Hgen. injection Hgen as _ <-. eexists. exact Ho.
  - eexists. reflexivity.
  - reflexivity.
  - exact (H (ret 9%N)).
Defined.

(** Two internal properties on an object without properties. *)
Lemma addInternalProperties_spec_witness :
  ∃ rt' o',
    addInternalProperties idleCollaborators 2 1 2 HVNull chainHeap = Returned tt rt' ∧
    objects rt' !! 1 = Some o' ∧
    directProps_ o' !! 1 = Some HVNull.
Proof.
  destruct (addInternalProperties_spec idleCollaborators 2 chainHeap 1
              (plainObject None 10) emptyClass 2 HVNull
              eq_refl eq_refl eq_refl eq_refl
              ltac:(lia) ltac:(lia) ltac:(simpl; lia) eq_refl)
    as (rt' & o' & c' & Hrun & Ho' & _ & _ & Hslots & _).
  exists rt', o'. split; [assumption|]. split; [assumption|].
  apply (Hslots 1). lia.
Defined.

(** An accessor with a getter and no setter, defined as [x] on an object
    without properties: a put to [x] is rejected. *)
Lemma accessor_property_roundtrip_witness :
  ∃ acc rt1 rt2,
    PropertyAccessor_create (Some 30) None chainHeap =
      Returned (HVObject PropertyAccessorKind acc) rt1 ∧
    defineOwnProperty idleCollaborators 1 1 nameX newAccessorProperty
      (HVObject PropertyAccessorKind acc) noThrow rt1 = Returned true rt2 ∧
    putNamed_RJS idleCollaborators 1 1 nameX (HVNumber (DInt 5)) noThrow rt2 =
      rejected noThrow rt2.
Proof.
  destruct (accessor_property_roundtrip idleCollaborators chainHeap 1
              (plainObject None 10) emptyClass nameX (Some 30) None
              newAccessorProperty noThrow 1
              eq_refl eq_refl ltac:(split; [reflexivity|simpl; lia])
              eq_refl eq_refl eq_refl eq_refl)
    as (acc & rt1 & rt2 & Hcreate & _ & Hdefine & _ & Hput).
  exists acc, rt1, rt2. split; [assumption|]. split; [assumption|].
  exact (Hput 1 (HVNumber (DInt 5)) noThrow).
Defined.

(** Redefining the configurable property [x] with [{value: 2}]. *)
Lemma defineOwnProperty_redefine_data_witness :
  ∃ rt' o',
    defineOwnProperty idleCollaborators 1 1 nameX valueOnly (HVNumber (DInt 2)) noThrow
      openHeap = Returned true rt' ∧
    objects rt' !! 1 = Some o' ∧
    getNamedSlotValue idleCollaborators o' openDesc = Some (HVNumber (DInt 2)).
Proof.
  destruct (defineOwnProperty_redefine_data idleCollaborators openHeap 1
              (objectWith None 10 [HVNumber (DInt 1); HVEmpty])
              (classOf [(nameX, openDesc)]) nameX 0 openDesc (HVNumber (DInt 1))
              valueOnly (HVNumber (DInt 2)) noThrow 1
              eq_refl eq_refl eq_refl eq_refl eq_refl eq_refl eq_refl eq_refl eq_refl)
    as (rt' & o' & c' & Hrun & Ho' & _ & _ & Hslot & _).
  exists rt', o'. split; [assumption|]. split; assumption.
Defined.

(** On [O = {x: 1}] with the prototype [P = {x: 2}], after [x] is deleted
    from [O] the name is still found, on [P]. *)
Lemma deleteNamed_uncovers_witness :
  ∃ rt',
    deleteNamed idleCollaborators 1 nameX noThrow shadowHeap = Returned true rt' ∧
    hasNamed idleCollaborators 1 1 nameX rt' = Returned true rt'.
Proof.
  destruct (deleteNamed_uncovers idleCollaborators shadowHeap 1
              (objectWith (Some 2) 10 [HVNumber (DInt 1); HVEmpty])
              (classOf [(nameX, openDesc)]) [2] nameX 0 openDesc (HVNumber (DInt 1))
              noThrow 1
              ProtoChain_shadowHeap OrdinaryChain_shadowHeap ltac:(simpl; lia)
              eq_refl eq_refl eq_refl eq_refl eq_refl
              ltac:(apply NoDup_singleton) ltac:(apply NoDup_singleton))
    as (rt' & Hrun & _ & Hhas & _).
  exists rt'. split; assumption.
Defined.

Lemma ProtoChain_indexedProtoHeap : ProtoChain indexedProtoHeap (Some 1) [1; 2].
Proof.
  eapply ProtoChain_step; [reflexivity|].
  eapply ProtoChain_step; [reflexivity|]. apply ProtoChain_null.
Qed.

Lemma IndexedStorageSound_indexedProtoHeap : IndexedStorageSound indexedProtoHeap [1; 2].
Proof.
  apply List.Forall_cons; [|apply List.Forall_cons; [|apply List.Forall_nil]].
  - intros o Ho. injection Ho as <-. split; [intros c _ Hfast; discriminate Hfast|].
    intros _ i. reflexivity.
  - intros o Ho. injection Ho as <-. split; [|intros His; discriminate His].
    intros c Hc _. injection Hc as <-. apply List.Forall_nil.
Qed.

(** The object whose prototype owns the indexed slot 5 answers true for
    the key 5. *)
Lemma hasComputed_index_on_chain_witness :
  hasComputed idleCollaborators exampleKeys 2 1 (HVNumber (DInt 5)) indexedProtoHeap =
  Returned true indexedProtoHeap.
Proof.
  destruct (hasComputed_index_on_chain idleCollaborators exampleKeys indexedProtoHeap 1
              [1; 2] (HVNumber (DInt 5)) 5%N name5 2
              eq_refl eq_refl eq_refl eq_refl eq_refl
              ProtoChain_indexedProtoHeap ltac:(ordinary_chain)
              IndexedStorageSound_indexedProtoHeap ltac:(simpl; lia))
    as (b & Hrun & Hiff).
  assert (b = true) as Hb.
  { apply Hiff. exists 2. split; [set_solver|]. left. eexists. split; reflexivity. }
  rewrite Hb in Hrun. exact Hrun.
Defined.

Lemma NamedOnly_forInHeap : NamedOnly forInHeap [1; 2].
Proof.
  apply List.Forall_cons; [|apply List.Forall_cons; [|apply List.Forall_nil]];
    intros o Ho; injection Ho as <-; (split; [reflexivity|]);
    intros c Hc; injection Hc as <-; repeat constructor.
Qed.

(** On [O = {a}] with the prototype [P = {b, c}], reading the key "b" is
    reading the name [b]. *)
Lemma getComputed_RJS_agrees_getNamed_witness :
  getComputed_RJS idleCollaborators exampleKeys 2 1 (HVString "b"%string) forInHeap =
  (let* r := getNamed_RJS idleCollaborators 2 1 (SymString "b"%string) noThrow false in
   ret r.1) forInHeap.
Proof.
  exact (getComputed_RJS_agrees_getNamed idleCollaborators exampleKeys forInHeap 1 [1; 2]
           (HVString "b"%string) (SymString "b"%string) 2 noThrow
           eq_refl eq_refl eq_refl eq_refl eq_refl
           ProtoChain_forInHeap OrdinaryChain_forInHeap NamedOnly_forInHeap
           ltac:(simpl; lia)).
Defined.

(** A key that is refused when it is interned: the answer is true. *)
Lemma hasComputed_drops_exception_witness :
  hasComputed idleCollaborators exampleKeys 1 1 (HVBool true) chainHeap =
  Returned true chainHeap.
Proof.
  exact (hasComputed_drops_exception idleCollaborators exampleKeys chainHeap chainHeap 1
           (plainObject None 10) (HVBool true) TypeError 0
           eq_refl eq_refl eq_refl (or_introl eq_refl) eq_refl).
Defined.

(** Deleting the key "x" from the object with the property [x]. *)
Lemma deleteComputed_agrees_deleteNamed_witness :
  deleteComputed idleCollaborators exampleKeys (λ _ _, ret false) 1 1
    (HVString "x"%string) noThrow openHeap =
  deleteNamed idleCollaborators 1 nameX noThrow openHeap.
Proof.
  exact (deleteComputed_agrees_deleteNamed idleCollaborators exampleKeys
           (λ _ _, ret false) openHeap 1
           (objectWith None 10 [HVNumber (DInt 1); HVEmpty])
           (classOf [(nameX, openDesc)]) (HVString "x"%string) nameX noThrow 0
           eq_refl eq_refl eq_refl eq_refl eq_refl eq_refl eq_refl).
Defined.

Lemma FastIndexedChain_arrayChainHeap : FastIndexedChain arrayChainHeap [1; 2] 5%N.
Proof.
  apply List.Forall_cons; [|apply List.Forall_cons; [|apply List.Forall_nil]];
    intros o Ho; injection Ho as <-; (split; [reflexivity|]); intros res Hres.
  - discriminate Hres.
  - injection Hres as <-. split; reflexivity.
Qed.

(** The array-like object without elements reads the element 5 of its
    prototype. *)
Lemma getComputed_RJS_index_on_chain_witness :
  getComputed_RJS idleCollaborators exampleKeys 2 1 (HVNumber (DInt 5)) arrayChainHeap =
  Returned (HVNumber (DInt 7)) arrayChainHeap.
Proof.
  exact (proj1 (getComputed_RJS_index_on_chain idleCollaborators exampleKeys
                  arrayChainHeap 1 (indexedObject (Some 2) 10 (0%N, 0%N) ∅) [1; 2]
                  (HVNumber (DInt 5)) 5%N 2
                  eq_refl eq_refl eq_refl eq_refl
                  ltac:(eapply ProtoChain_step; [reflexivity|];
                        eapply ProtoChain_step; [reflexivity|]; apply ProtoChain_null)
                  ltac:(ordinary_chain) FastIndexedChain_arrayChainHeap
                  ltac:(simpl; lia))).
Defined.

(** A new object from the class of the object with the property [x]. *)
Lemma create_withClass_fits_witness :
  ∃ rt' o,
    create_withClass idleCollaborators 10 openHeap =
      Returned (fresh (dom (objects openHeap))) rt' ∧
    clazz_ o = 10 ∧
    SlotsWellFormed idleCollaborators o (classOf [(nameX, openDesc)]).
Proof.
  destruct (create_withClass_fits idleCollaborators openHeap
              (set_classes (<[fresh (dom (classes openHeap)) := emptyClass]>
                              (classes openHeap)) openHeap)
              (fresh (dom (classes openHeap))) 10 (classOf [(nameX, openDesc)])
              eq_refl eq_refl eq_refl ltac:(vm_compute; reflexivity)
              ltac:(vm_compute; lia))
    as (rt' & o & Hrun & _ & _ & _ & Hclazz & _ & _ & Hfit & _).
  exists rt', o. split; [assumption|]. split; assumption.
Defined.

(** On [O = {x: 1}] with the prototype [P = {x: 2}], the names collected
    for [O] start with its own [x], and no inherited name repeats a name
    collected before it. *)
Lemma appendAllPropertyNames_spec_witness :
  ∃ inherited,
    appendAllPropertyNames idleCollaborators 2 1 [] 0 shadowHeap =
      Returned ([] ++ ownNamesOf idleCollaborators shadowHeap 1 ++ inherited,
                length ([] ++ ownNamesOf idleCollaborators shadowHeap 1 ++ inherited))
               shadowHeap ∧
    ownNamesOf idleCollaborators shadowHeap 1 = [HVString "x"%string] ∧
    ∀ j p v, inherited !! j = Some p →
             v ∈ ownNamesOf idleCollaborators shadowHeap 1 ++ take j inherited →
             isDuplicateName p v = false.
Proof.
  destruct (appendAllPropertyNames_spec idleCollaborators shadowHeap 1 [2] 2 []
              ProtoChain_shadowHeap OrdinaryChain_shadowHeap ltac:(simpl; lia))
    as (inherited & Hrun & _ & _ & _ & Hnew).
  exists inherited. split; [exact Hrun|]. split; [vm_compute; reflexivity|exact Hnew].
Defined.
